(** * umesh: unstructured-mesh container, codec, merge and object-space partitioner

    A shallow embedding of the C++ sources
      - umesh/UMesh.h, umesh/UMesh.cpp      (container, finalize, codec, merge, append)
      - umesh/io/ugrid32.cpp                (ugrid32 importer, degenerate filter)
      - apps/partitionObjectSpace.cpp       (brick partitioner)
      - apps/importUGrid32.cpp              (ugrid32 file to umesh file)
      - umesh/apps/replaceScalarField.cpp   (new scalars for a umesh file)
      - umesh/apps/exportBBs.cpp            (one box per element)
      - umesh/converters/rawToGrids.cpp     (raw volume to grids)
      - umesh/converters/fun3DExtractVariable.cpp (scalars by vertex tag)
    followed by the properties proved about them.

    Conventions.
      - C++ exceptions and undefined behaviour are explicit results ([outcome]).
      - [int] is a 32-bit two's-complement integer, [size_t] a 64-bit unsigned
        one; both are carried as [Z].  Conversions wrap; signed arithmetic that
        leaves the [int] range is undefined behaviour, as in C++.
      - [float] is IEEE-754 binary32, computed with the Standard Library's
        [SpecFloat] at precision 24 and maximal exponent 128.
      - [std::vector<T>] is [list T]; [v[i]] outside the vector is undefined
        behaviour. *)

From Stdlib Require Import ZArith List String Ascii Lia Bool Permutation DecimalString.
From Stdlib Require Import Floats.SpecFloat Sorted.
From stdpp Require Import base list gmap.
From coqutil Require Import Word.LittleEndianList.

Import ListNotations.
Local Open Scope string_scope.
Local Open Scope list_scope.
Local Open Scope Z_scope.

(* ===================================================================== *)
(** ** Results of running C++ code *)
(* ===================================================================== *)

(** The behaviours the C++ standard leaves undefined that the modelled code
    can run into. *)
Inductive undefined_behaviour : Type :=
| OutOfRange        (* operator[] past the end of a vector or of a vec3f *)
| NullDereference   (* -> through an empty shared_ptr *)
| SignedOverflow.   (* int arithmetic leaving [INT_MIN, INT_MAX] *)

Inductive outcome (A : Type) : Type :=
| Ok (a : A)                               (* normal return *)
| Throw (what : string)                    (* throw std::runtime_error(what) *)
| Undefined (ub : undefined_behaviour).

Arguments Ok {A} a.
Arguments Throw {A} what.
Arguments Undefined {A} ub.

Definition bind {A B} (c : outcome A) (k : A -> outcome B) : outcome B :=
  match c with
  | Ok a => k a
  | Throw w => Throw w
  | Undefined u => Undefined u
  end.

Declare Scope outcome_scope.
Delimit Scope outcome_scope with outcome.
Notation "x <- c ;; k" := (bind c (fun x => k))
  (at level 100, c at next level, right associativity) : outcome_scope.
Local Open Scope outcome_scope.

(** Left-to-right loop over a vector with an accumulator. *)
Fixpoint foldM {A S} (body : S -> A -> outcome S) (l : list A) (s : S) : outcome S :=
  match l with
  | [] => Ok s
  | a :: l' => s' <- body s a ;; foldM body l' s'
  end.

Fixpoint mapM {A B} (f : A -> outcome B) (l : list A) : outcome (list B) :=
  match l with
  | [] => Ok []
  | a :: l' => b <- f a ;; bs <- mapM f l' ;; Ok (b :: bs)
  end.

(* ===================================================================== *)
(** ** Machine integers *)
(* ===================================================================== *)

Definition INT_MAX : Z := 2147483647.
Definition INT_MIN : Z := -2147483648.

(** [(int)z]: conversion to a 32-bit signed integer (modular). *)
Definition to_int (z : Z) : Z := (z + 2 ^ 31) mod 2 ^ 32 - 2 ^ 31.
(** [(uint32_t)z]. *)
Definition to_uint32 (z : Z) : Z := z mod 2 ^ 32.
(** [(size_t)z]: conversion to a 64-bit unsigned integer (modular). *)
Definition to_size_t (z : Z) : Z := z mod 2 ^ 64.

Definition in_int (z : Z) : bool := (INT_MIN <=? z) && (z <=? INT_MAX).

(** [a + b] on [int]. *)
Definition int_add (a b : Z) : outcome Z :=
  if in_int (a + b) then Ok (a + b) else Undefined SignedOverflow.

(** [size()] of a vector, as a [size_t]. *)
Definition size {A} (v : list A) : Z := Z.of_nat (length v).

(** [v[i]] for a [size_t] index. *)
Definition at_ {A} (v : list A) (i : Z) : outcome A :=
  if i <? 0 then Undefined OutOfRange
  else match v !! Z.to_nat i with
       | Some a => Ok a
       | None => Undefined OutOfRange
       end.

(** [v[i] = a] for a [size_t] index. *)
Definition set_at {A} (v : list A) (i : Z) (a : A) : outcome (list A) :=
  if (0 <=? i) && (i <? size v) then Ok (<[Z.to_nat i := a]> v)
  else Undefined OutOfRange.

(** [v.resize(n)] of a vector that is empty, with value-initialised entries. *)
Definition resize {A} (n : Z) (dflt : A) : list A := replicate (Z.to_nat n) dflt.

(** The guard of [for (int i = 0; i < v.size(); i++)]: the counter is
    compared as a [size_t]; when the vector holds more than [INT_MAX]
    entries the increment overflows. *)
Definition int_counter_reaches (n : Z) : outcome unit :=
  if n <=? INT_MAX then Ok tt else Undefined SignedOverflow.

(** The indices [0, 1, ..., n-1]. *)
Definition indices (n : nat) : list Z := map Z.of_nat (seq 0 n).

(* ===================================================================== *)
(** ** binary32 arithmetic *)
(* ===================================================================== *)

Definition float : Type := spec_float.

Module F32.
Definition prec : Z := 24.
Definition emax : Z := 128.

Definition add : float -> float -> float := SFadd prec emax.
Definition sub : float -> float -> float := SFsub prec emax.
Definition mul : float -> float -> float := SFmul prec emax.
Definition div : float -> float -> float := SFdiv prec emax.
Definition abs : float -> float := SFabs.            (* fabsf *)
Definition ltb : float -> float -> bool := SFltb.    (* a < b *)
Definition eqb : float -> float -> bool := SFeqb.    (* a == b *)

(** Conversion of an integer to [float], round to nearest even. *)
Definition of_Z (z : Z) : float := binary_normalize prec emax z 0 false.

Definition zero : float := S754_zero false.
Definition infinity : float := S754_infinity false.
Definition neg_infinity : float := S754_infinity true.

(** Literals of the sources, as the nearest binary32 value. *)
Definition lit_0_1 : float := S754_finite false 13421773 (-27).     (* .1f    *)
Definition lit_0_5 : float := S754_finite false 8388608 (-24).      (* 0.5f   *)
Definition lit_1 : float := S754_finite false 8388608 (-23).        (* 1.f    *)
Definition lit_1em10 : float := S754_finite false 14411519 (-57).   (* 1e-10f *)
Definition lit_1e30 : float := S754_finite false 13234890 76.       (* 1e30f  *)

(** [std::min] and [std::max]: the first argument unless the comparison
    selects the second. *)
Definition min (a b : float) : float := if ltb b a then b else a.
Definition max (a b : float) : float := if ltb a b then b else a.

Definition is_nan (a : float) : bool :=
  match a with S754_nan => true | _ => false end.
End F32.

(* ===================================================================== *)
(** ** umesh/math.h: vectors, boxes and ranges *)
(* ===================================================================== *)

(** Modelled from the spec: umesh/math.h (vec3f, vec3i, vec4i, vec4f, box3f,
    box4f, range1f) is not among the sources.  The spec lists them as the
    given utility library: 3-vectors, integer 4-vectors, axis-aligned boxes
    and scalar ranges, with an empty-box sentinel.  The operations below are
    the componentwise ones, with [std::min]/[std::max] on each component and
    an empty box that has lower = +infinity and upper = -infinity. *)
Module V3.
Record t (A : Type) : Type := mk { x : A; y : A; z : A }.
Arguments mk {A} x y z.
Arguments x {A} _.
Arguments y {A} _.
Arguments z {A} _.
Definition map2 {A} (f : A -> A -> A) (a b : t A) : t A :=
  mk (f (x a) (x b)) (f (y a) (y b)) (f (z a) (z b)).
(** [v[dim]]: the coordinates are consecutive in memory. *)
Definition get {A} (v : t A) (dim : Z) : outcome A :=
  if dim =? 0 then Ok (x v)
  else if dim =? 1 then Ok (y v)
  else if dim =? 2 then Ok (z v)
  else Undefined OutOfRange.
End V3.

Module V4.
Record t (A : Type) : Type := mk { x : A; y : A; z : A; w : A }.
Arguments mk {A} x y z w.
Arguments x {A} _.
Arguments y {A} _.
Arguments z {A} _.
Arguments w {A} _.
Definition map {A} (f : A -> A) (a : t A) : t A :=
  mk (f (x a)) (f (y a)) (f (z a)) (f (w a)).
End V4.

Definition vec3f : Type := V3.t float.
Definition vec3i : Type := V3.t Z.
Definition vec4i : Type := V4.t Z.
Definition vec4f : Type := V4.t float.

(** [a == b] on vec3f. *)
Definition vec3f_eqb (a b : vec3f) : bool :=
  F32.eqb (V3.x a) (V3.x b) && F32.eqb (V3.y a) (V3.y b) && F32.eqb (V3.z a) (V3.z b).

Definition vec3f_min : vec3f -> vec3f -> vec3f := V3.map2 F32.min.
Definition vec3f_max : vec3f -> vec3f -> vec3f := V3.map2 F32.max.
Definition vec3f_add : vec3f -> vec3f -> vec3f := V3.map2 F32.add.
Definition vec3f_sub : vec3f -> vec3f -> vec3f := V3.map2 F32.sub.
Definition vec3f_scale (a : vec3f) (s : float) : vec3f :=
  V3.mk (F32.mul (V3.x a) s) (F32.mul (V3.y a) s) (F32.mul (V3.z a) s).

Module Box.
Record t (V : Type) : Type := mk { lower : V; upper : V }.
Arguments mk {V} lower upper.
Arguments lower {V} _.
Arguments upper {V} _.
End Box.

Definition box3f : Type := Box.t vec3f.
Definition box4f : Type := Box.t vec4f.
Definition range1f : Type := Box.t float.

(** [box3f()]: the empty box. *)
Definition box3f_empty : box3f :=
  Box.mk (V3.mk F32.infinity F32.infinity F32.infinity)
         (V3.mk F32.neg_infinity F32.neg_infinity F32.neg_infinity).

(** [b.extend(v)] and [b.including(v)]. *)
Definition box3f_extend (b : box3f) (v : vec3f) : box3f :=
  Box.mk (vec3f_min (Box.lower b) v) (vec3f_max (Box.upper b) v).

(** [b.extend(other)]. *)
Definition box3f_extend_box (b o : box3f) : box3f :=
  Box.mk (vec3f_min (Box.lower b) (Box.lower o)) (vec3f_max (Box.upper b) (Box.upper o)).

(** [b.center()]. *)
Definition box3f_center (b : box3f) : vec3f :=
  vec3f_scale (vec3f_add (Box.lower b) (Box.upper b)) F32.lit_0_5.

(** [b.size()]. *)
Definition box3f_size (b : box3f) : vec3f := vec3f_sub (Box.upper b) (Box.lower b).

(** [b.empty()]: some upper bound lies below the lower one. *)
Definition box3f_is_empty (b : box3f) : bool :=
  F32.ltb (V3.x (Box.upper b)) (V3.x (Box.lower b))
  || F32.ltb (V3.y (Box.upper b)) (V3.y (Box.lower b))
  || F32.ltb (V3.z (Box.upper b)) (V3.z (Box.lower b)).

(** [range1f()]: the empty range. *)
Definition range1f_empty : range1f := Box.mk F32.infinity F32.neg_infinity.

Definition range1f_extend (r : range1f) (v : float) : range1f :=
  Box.mk (F32.min (Box.lower r) v) (F32.max (Box.upper r) v).

Definition range1f_extend_range (r o : range1f) : range1f :=
  Box.mk (F32.min (Box.lower r) (Box.lower o)) (F32.max (Box.upper r) (Box.upper o)).

(* ===================================================================== *)
(** ** umesh/parallel_for.h *)
(* ===================================================================== *)

(** Modelled from the spec: umesh/parallel_for.h is not among the sources.
    The spec describes fork-join loops over contiguous index ranges of a
    block size, joined before the caller continues.  The blocks
    [begin, end) of [0, n) are run here one after the other in index
    order, which is one of the schedules of [parallel_for_blocked] and the
    only one of [serial_for_blocked]. *)
Definition blocks (n blockSize : nat) : list (nat * nat) :=
  map (fun k => ((k * blockSize)%nat, Nat.min n ((k + 1) * blockSize)))
      (seq 0 ((n + (blockSize - 1)) / blockSize)).

Definition for_blocked {S} (n blockSize : nat)
    (body : nat -> nat -> S -> outcome S) (s : S) : outcome S :=
  foldM (fun s '(b, e) => body b e s) (blocks n blockSize) s.

(** The same loop for a body that can neither throw nor go wrong. *)
Definition for_blocked_pure {S} (n blockSize : nat)
    (body : nat -> nat -> S -> S) (s : S) : S :=
  fold_left (fun s '(b, e) => body b e s) (blocks n blockSize) s.

(** The entries [begin, end) of a vector. *)
Definition slice {A} (b e : nat) (v : list A) : list A := take (e - b) (drop b v).

(* ===================================================================== *)
(** ** umesh/UMesh.h: elements, attributes and the mesh container *)
(* ===================================================================== *)

Module Attribute.
(** [struct Attribute]. *)
Record t : Type := mk {
  name : string;
  values : list float;
  valueRange : range1f
}.

(** [Attribute(int num = 0)]: [num] zero-initialised values. *)
Definition make (num : Z) : t :=
  mk "" (resize num F32.zero) range1f_empty.

(** [Attribute::finalize] (UMesh.cpp): extends [valueRange] by the range of
    each block of 16*1024 values. *)
Definition finalize (a : t) : t :=
  let body (b e : nat) (r : range1f) : range1f :=
    let rangeValueRange := fold_left range1f_extend (slice b e (values a)) range1f_empty in
    range1f_extend (range1f_extend r (Box.lower rangeValueRange))
                   (Box.upper rangeValueRange) in
  mk (name a) (values a)
     (for_blocked_pure (length (values a)) (16 * 1024) body (valueRange a)).
End Attribute.

(** [struct Triangle { int x,y,z; }], [struct Quad { int x,y,z,w; }],
    [struct Tet { int x,y,z,w; }]. *)
Definition Triangle : Type := vec3i.
Definition Quad : Type := vec4i.
Definition Tet : Type := vec4i.

Module Pyr.
Record t : Type := mk { base : vec4i; top : Z }.
End Pyr.

Module Wedge.
Record t : Type := mk { front : vec3i; back : vec3i }.
End Wedge.

Module Hex.
Record t : Type := mk { base : vec4i; top : vec4i }.
End Hex.

Module Grid.
Record t : Type := mk { domain : box4f; numCells : vec3i; scalarsOffset : Z }.
End Grid.

(** [prim[j] += offset] for every [j < numVertices], on each element kind. *)
Definition vec3i_shift (off : Z) (v : vec3i) : outcome vec3i :=
  a <- int_add (V3.x v) off ;; b <- int_add (V3.y v) off ;; c <- int_add (V3.z v) off ;;
  Ok (V3.mk a b c).

Definition vec4i_shift (off : Z) (v : vec4i) : outcome vec4i :=
  a <- int_add (V4.x v) off ;; b <- int_add (V4.y v) off ;;
  c <- int_add (V4.z v) off ;; d <- int_add (V4.w v) off ;;
  Ok (V4.mk a b c d).

Definition Triangle_shift : Z -> Triangle -> outcome Triangle := vec3i_shift.
Definition Quad_shift : Z -> Quad -> outcome Quad := vec4i_shift.
Definition Tet_shift : Z -> Tet -> outcome Tet := vec4i_shift.

Definition Pyr_shift (off : Z) (p : Pyr.t) : outcome Pyr.t :=
  b <- vec4i_shift off (Pyr.base p) ;; t <- int_add (Pyr.top p) off ;; Ok (Pyr.mk b t).

Definition Wedge_shift (off : Z) (p : Wedge.t) : outcome Wedge.t :=
  f <- vec3i_shift off (Wedge.front p) ;; b <- vec3i_shift off (Wedge.back p) ;;
  Ok (Wedge.mk f b).

Definition Hex_shift (off : Z) (p : Hex.t) : outcome Hex.t :=
  b <- vec4i_shift off (Hex.base p) ;; t <- vec4i_shift off (Hex.top p) ;; Ok (Hex.mk b t).

(** [prim.scalarsOffset += offset]. *)
Definition Grid_shift (off : Z) (g : Grid.t) : outcome Grid.t :=
  o <- int_add (Grid.scalarsOffset g) off ;;
  Ok (Grid.mk (Grid.domain g) (Grid.numCells g) o).

(** [enum PrimType]. *)
Inductive PrimType : Type := TRI | QUAD | TET | PYR | WEDGE | HEX | GRID | INVALID.

Definition PrimType_value (t : PrimType) : Z :=
  match t with
  | TRI => 0 | QUAD => 1 | TET => 2 | PYR => 3
  | WEDGE => 4 | HEX => 5 | GRID => 6 | INVALID => 7
  end.

Module PrimRef.
(** [struct PrimRef { size_t type:4; size_t ID:60; }]. *)
Record t : Type := mk { type : PrimType; ID : Z }.
(** [PrimRef(type, ID)]: the ID is stored in a 60-bit field. *)
Definition make (ty : PrimType) (id : Z) : t := mk ty (id mod 2 ^ 60).
End PrimRef.

Module UMesh.
(** [struct UMesh]: the data members.  A [shared_ptr<Attribute>] is held by
    value; [perVertex] is [None] for the empty pointer.

    The record has no object identity.  It is the mesh whose primary
    attribute is an object apart from the listed ones, as [mergeMeshes],
    the ugrid32 loader, [replaceScalarField] and [fun3DExtractVariable]
    make it.  In a mesh that [readFrom] has read, [perVertex] is the object
    [attributes[0]]: what [finalize], [append] and [setScalar] write through
    [perVertex] is then written to [attributes[0]] too, which the record
    does not show.  For such a mesh the field [attributes] of a result
    gives the number, the order and the names of the listed attributes; it
    gives their values as long as nothing but [finalize] has written, and
    the value range of the first one only as [readFrom] computed it.  No
    property below relies on more than that. *)
Record t : Type := mk {
  vertices : list vec3f;
  perVertex : option Attribute.t;
  attributes : list Attribute.t;
  triangles : list Triangle;
  quads : list Quad;
  tets : list Tet;
  pyrs : list Pyr.t;
  wedges : list Wedge.t;
  hexes : list Hex.t;
  grids : list Grid.t;
  gridScalars : list float;
  vertexTags : list Z;
  bounds : box3f;
  gridsScalarRange : range1f
}.

(** [std::make_shared<UMesh>()]. *)
Definition empty : t :=
  mk [] None [] [] [] [] [] [] [] [] [] [] box3f_empty range1f_empty.

Definition set_vertices (v : list vec3f) (m : t) : t :=
  mk v (perVertex m) (attributes m) (triangles m) (quads m) (tets m) (pyrs m)
     (wedges m) (hexes m) (grids m) (gridScalars m) (vertexTags m) (bounds m)
     (gridsScalarRange m).
Definition set_perVertex (p : option Attribute.t) (m : t) : t :=
  mk (vertices m) p (attributes m) (triangles m) (quads m) (tets m) (pyrs m)
     (wedges m) (hexes m) (grids m) (gridScalars m) (vertexTags m) (bounds m)
     (gridsScalarRange m).
Definition set_attributes (a : list Attribute.t) (m : t) : t :=
  mk (vertices m) (perVertex m) a (triangles m) (quads m) (tets m) (pyrs m)
     (wedges m) (hexes m) (grids m) (gridScalars m) (vertexTags m) (bounds m)
     (gridsScalarRange m).
Definition set_triangles (v : list Triangle) (m : t) : t :=
  mk (vertices m) (perVertex m) (attributes m) v (quads m) (tets m) (pyrs m)
     (wedges m) (hexes m) (grids m) (gridScalars m) (vertexTags m) (bounds m)
     (gridsScalarRange m).
Definition set_quads (v : list Quad) (m : t) : t :=
  mk (vertices m) (perVertex m) (attributes m) (triangles m) v (tets m) (pyrs m)
     (wedges m) (hexes m) (grids m) (gridScalars m) (vertexTags m) (bounds m)
     (gridsScalarRange m).
Definition set_tets (v : list Tet) (m : t) : t :=
  mk (vertices m) (perVertex m) (attributes m) (triangles m) (quads m) v (pyrs m)
     (wedges m) (hexes m) (grids m) (gridScalars m) (vertexTags m) (bounds m)
     (gridsScalarRange m).
Definition set_pyrs (v : list Pyr.t) (m : t) : t :=
  mk (vertices m) (perVertex m) (attributes m) (triangles m) (quads m) (tets m) v
     (wedges m) (hexes m) (grids m) (gridScalars m) (vertexTags m) (bounds m)
     (gridsScalarRange m).
Definition set_wedges (v : list Wedge.t) (m : t) : t :=
  mk (vertices m) (perVertex m) (attributes m) (triangles m) (quads m) (tets m) (pyrs m)
     v (hexes m) (grids m) (gridScalars m) (vertexTags m) (bounds m)
     (gridsScalarRange m).
Definition set_hexes (v : list Hex.t) (m : t) : t :=
  mk (vertices m) (perVertex m) (attributes m) (triangles m) (quads m) (tets m) (pyrs m)
     (wedges m) v (grids m) (gridScalars m) (vertexTags m) (bounds m)
     (gridsScalarRange m).
Definition set_grids (v : list Grid.t) (m : t) : t :=
  mk (vertices m) (perVertex m) (attributes m) (triangles m) (quads m) (tets m) (pyrs m)
     (wedges m) (hexes m) v (gridScalars m) (vertexTags m) (bounds m)
     (gridsScalarRange m).
Definition set_gridScalars (v : list float) (m : t) : t :=
  mk (vertices m) (perVertex m) (attributes m) (triangles m) (quads m) (tets m) (pyrs m)
     (wedges m) (hexes m) (grids m) v (vertexTags m) (bounds m)
     (gridsScalarRange m).
Definition set_vertexTags (v : list Z) (m : t) : t :=
  mk (vertices m) (perVertex m) (attributes m) (triangles m) (quads m) (tets m) (pyrs m)
     (wedges m) (hexes m) (grids m) (gridScalars m) v (bounds m)
     (gridsScalarRange m).
Definition set_bounds (b : box3f) (m : t) : t :=
  mk (vertices m) (perVertex m) (attributes m) (triangles m) (quads m) (tets m) (pyrs m)
     (wedges m) (hexes m) (grids m) (gridScalars m) (vertexTags m) b
     (gridsScalarRange m).
Definition set_gridsScalarRange (r : range1f) (m : t) : t :=
  mk (vertices m) (perVertex m) (attributes m) (triangles m) (quads m) (tets m) (pyrs m)
     (wedges m) (hexes m) (grids m) (gridScalars m) (vertexTags m) (bounds m) r.

(** [UMesh::size]: the number of elements of all kinds. *)
Definition size (m : t) : Z :=
  to_size_t (size (triangles m) + size (quads m) + size (hexes m) + size (tets m)
             + size (wedges m) + size (pyrs m) + size (grids m)).

(** [vertices[i]] for an [int] index [i] (converted to [size_t]). *)
Definition vertex (m : t) (i : Z) : outcome vec3f := at_ (vertices m) (to_size_t i).

(** [box3f().including(v0).including(v1)...] over the vertices named by
    the indices, in the order given. *)
Definition including_all (m : t) (idx : list Z) : outcome box3f :=
  foldM (fun b i => v <- vertex m i ;; Ok (box3f_extend b v)) idx box3f_empty.

Definition getTriBounds (m : t) (ID : Z) : outcome box3f :=
  p <- at_ (triangles m) ID ;;
  including_all m [V3.x p; V3.y p; V3.z p].

Definition getQuadBounds (m : t) (ID : Z) : outcome box3f :=
  p <- at_ (quads m) ID ;;
  including_all m [V4.x p; V4.y p; V4.z p; V4.w p].

Definition getTetBounds (m : t) (ID : Z) : outcome box3f :=
  p <- at_ (tets m) ID ;;
  including_all m [V4.x p; V4.y p; V4.z p; V4.w p].

Definition getPyrBounds (m : t) (ID : Z) : outcome box3f :=
  p <- at_ (pyrs m) ID ;;
  including_all m [Pyr.top p; V4.x (Pyr.base p); V4.y (Pyr.base p);
                   V4.z (Pyr.base p); V4.w (Pyr.base p)].

Definition getWedgeBounds (m : t) (ID : Z) : outcome box3f :=
  p <- at_ (wedges m) ID ;;
  including_all m [V3.x (Wedge.front p); V3.y (Wedge.front p); V3.z (Wedge.front p);
                   V3.x (Wedge.back p); V3.y (Wedge.back p); V3.z (Wedge.back p)].

Definition getHexBounds (m : t) (ID : Z) : outcome box3f :=
  p <- at_ (hexes m) ID ;;
  including_all m [V4.x (Hex.top p); V4.y (Hex.top p); V4.z (Hex.top p); V4.w (Hex.top p);
                   V4.x (Hex.base p); V4.y (Hex.base p); V4.z (Hex.base p);
                   V4.w (Hex.base p)].

(** The spatial part of the grid's 4D domain. *)
Definition getGridBounds (m : t) (ID : Z) : outcome box3f :=
  g <- at_ (grids m) ID ;;
  let lo := Box.lower (Grid.domain g) in
  let hi := Box.upper (Grid.domain g) in
  Ok (Box.mk (V3.mk (V4.x lo) (V4.y lo) (V4.z lo)) (V3.mk (V4.x hi) (V4.y hi) (V4.z hi))).

(** [UMesh::getBounds(const PrimRef &)]. *)
Definition getBounds (m : t) (pr : PrimRef.t) : outcome box3f :=
  match PrimRef.type pr with
  | TRI => getTriBounds m (PrimRef.ID pr)
  | QUAD => getQuadBounds m (PrimRef.ID pr)
  | TET => getTetBounds m (PrimRef.ID pr)
  | PYR => getPyrBounds m (PrimRef.ID pr)
  | WEDGE => getWedgeBounds m (PrimRef.ID pr)
  | HEX => getHexBounds m (PrimRef.ID pr)
  | GRID => getGridBounds m (PrimRef.ID pr)
  | INVALID => Throw "primitive type #7 not implemented"
  end.

(** [UMesh::getGridValueRange]: the scalar part of the grid's domain. *)
Definition getGridValueRange (m : t) (ID : Z) : outcome range1f :=
  g <- at_ (grids m) ID ;;
  Ok (Box.mk (V4.w (Box.lower (Grid.domain g))) (V4.w (Box.upper (Grid.domain g)))).

(** The PrimRefs [PrimRef(kind, 0) ... PrimRef(kind, n-1)] that the blocked
    loops of [createVolumePrimRefs]/[createSurfacePrimRefs] write into the
    consecutive slots reserved for one kind. *)
Definition primRefsOf {A} (kind : PrimType) (v : list A) : list PrimRef.t :=
  map (PrimRef.make kind) (indices (length v)).

(** [UMesh::createVolumePrimRefs]: tets, pyramids, wedges, hexes, grids. *)
Definition createVolumePrimRefs (m : t) : list PrimRef.t :=
  primRefsOf TET (tets m) ++ primRefsOf PYR (pyrs m) ++ primRefsOf WEDGE (wedges m)
  ++ primRefsOf HEX (hexes m) ++ primRefsOf GRID (grids m).

(** [UMesh::createSurfacePrimRefs]: triangles, quads. *)
Definition createSurfacePrimRefs (m : t) : list PrimRef.t :=
  primRefsOf TRI (triangles m) ++ primRefsOf QUAD (quads m).

(** [UMesh::createAllPrimRefs]: the volume ones, with every surface one
    pushed behind them. *)
Definition createAllPrimRefs (m : t) : list PrimRef.t :=
  createVolumePrimRefs m ++ createSurfacePrimRefs m.

(** [UMesh::finalize].  The value range is extended in the primary
    attribute; see [t] for a mesh whose primary attribute is listed. *)
Definition finalize (m : t) : outcome t :=
  let m := set_perVertex (option_map Attribute.finalize (perVertex m)) m in
  let allPrims := createAllPrimRefs m in
  bounds' <- for_blocked (length allPrims) (16 * 1024)
               (fun b e (bounds : box3f) =>
                  rangeBounds <- foldM (fun r pr => pb <- getBounds m pr ;;
                                                    Ok (box3f_extend_box r pb))
                                       (slice b e allPrims) box3f_empty ;;
                  Ok (box3f_extend_box bounds rangeBounds))
               box3f_empty ;;
  range' <- for_blocked (length (grids m)) (16 * 1024)
              (fun b e (r : range1f) =>
                 rangeBounds <- foldM (fun r i => g <- getGridValueRange m i ;;
                                                  Ok (range1f_extend_range r g))
                                      (map Z.of_nat (seq b (e - b))) range1f_empty ;;
                 Ok (range1f_extend_range r rangeBounds))
              range1f_empty ;;
  Ok (set_gridsScalarRange range' (set_bounds bounds' m)).
End UMesh.

(* ===================================================================== *)
(** ** apps/partitionObjectSpace.cpp: the object-space partitioner *)
(* ===================================================================== *)

Module Brick.
(** [struct Brick]. *)
Record t : Type := mk {
  prims : list PrimRef.t;
  bounds : box3f;
  centBounds : box3f
}.
(** [new Brick]. *)
Definition new : t := mk [] box3f_empty box3f_empty.
End Brick.

(** [enum { numPlanes = 15 }]. *)
Definition numPlanes : Z := 15.

(** [(pb.center()[dim] < pos) ? 0 : 1] for [pb = mesh->getBounds(prim)];
    [false] is side 0 and [true] is side 1. *)
Definition split_side (mesh : UMesh.t) (dim : Z) (pos : float) (prim : PrimRef.t)
  : outcome bool :=
  pb <- UMesh.getBounds mesh prim ;;
  c <- V3.get (box3f_center pb) dim ;;
  Ok (negb (F32.ltb c pos)).

(** The counting loop of one candidate plane: blocks of 16*1024 prims, each
    counted into [l_count] with an [int] counter and added to [count]. *)
Definition split_count (mesh : UMesh.t) (in_ : Brick.t) (dim : Z) (pos : float)
  : outcome (Z * Z) :=
  for_blocked (length (Brick.prims in_)) (16 * 1024)
    (fun b e '(count0, count1) =>
       _ <- int_counter_reaches (Z.of_nat e) ;;
       l_count <- foldM (fun '(l0, l1) prim =>
                           s <- split_side mesh dim pos prim ;;
                           Ok (if s : bool then (l0, l1 + 1) else (l0 + 1, l1)))
                        (slice b e (Brick.prims in_)) (0, 0) ;;
       Ok (to_size_t (count0 + fst l_count), to_size_t (count1 + snd l_count)))
    (0, 0).

(** The best candidate seen so far: [bestWeight], [bestDim], [bestPos]. *)
Record best_split : Type := mk_best {
  bestWeight : float;
  bestDim : Z;
  bestPos : float
}.

(** The position of candidate [plane] along [dim]. *)
Definition candidate_pos (in_ : Brick.t) (dim plane : Z) : outcome float :=
  let f := F32.div (F32.add (F32.of_Z plane) F32.lit_1)
                   (F32.add (F32.of_Z numPlanes) F32.lit_1) in
  lo <- V3.get (Box.lower (Brick.centBounds in_)) dim ;;
  hi <- V3.get (Box.upper (Brick.centBounds in_)) dim ;;
  Ok (F32.add (F32.mul (F32.sub F32.lit_1 f) lo) (F32.mul f hi)).

(** The weight of a candidate along [dim] that leaves [count0] and [count1]
    prims on its sides. *)
Definition candidate_weight (in_ : Brick.t) (dim count0 count1 : Z) : outcome float :=
  let s0 := F32.of_Z count0 in
  let s1 := F32.of_Z count1 in
  let s := F32.div (F32.abs (F32.sub s0 s1)) (F32.add s0 s1) in
  let sz := box3f_size (Brick.bounds in_) in
  along <- V3.get sz dim ;;
  Ok (F32.div (F32.mul (F32.add F32.lit_0_1 s)
                       (F32.max (F32.max (V3.x sz) (V3.y sz)) (V3.z sz)))
              (F32.max F32.lit_1em10 along)).

(** One turn of the inner loop over the candidate planes. *)
Definition split_candidate (mesh : UMesh.t) (in_ : Brick.t) (best : best_split)
    (dim_plane : Z * Z) : outcome best_split :=
  let '(dim, plane) := dim_plane in
  pos <- candidate_pos in_ dim plane ;;
  count <- split_count mesh in_ dim pos ;;
  weight <- candidate_weight in_ dim (fst count) (snd count) ;;
  if negb (fst count =? 0) && negb (snd count =? 0) && F32.ltb weight (bestWeight best)
  then Ok (mk_best weight dim pos)
  else Ok best.

(** The pairs [(dim, plane)] in the order the two nested loops visit them. *)
Definition candidates : list (Z * Z) :=
  flat_map (fun dim => map (fun plane => (dim, plane)) (indices (Z.to_nat numPlanes)))
           (indices 3).

(** The last loop of [split]: every prim goes to the brick of its side. *)
Definition split_assign (mesh : UMesh.t) (dim : Z) (pos : float)
    (out : Brick.t * Brick.t) (prim : PrimRef.t) : outcome (Brick.t * Brick.t) :=
  pb <- UMesh.getBounds mesh prim ;;
  c <- V3.get (box3f_center pb) dim ;;
  let put (b : Brick.t) :=
    Brick.mk (Brick.prims b ++ [prim])
             (box3f_extend_box (Brick.bounds b) pb)
             (box3f_extend (Brick.centBounds b) (box3f_center pb)) in
  if F32.ltb c pos then Ok (put (fst out), snd out) else Ok (fst out, put (snd out)).

(** [split(mesh, in, out)]: the two bricks stored into [out[0]] and [out[1]]. *)
Definition split (mesh : UMesh.t) (in_ : Brick.t) : outcome (Brick.t * Brick.t) :=
  if vec3f_eqb (Box.lower (Brick.centBounds in_)) (Box.upper (Brick.centBounds in_))
  then Throw "can't split this any more ..."
  else
    best <- foldM (split_candidate mesh in_) candidates
                  (mk_best F32.lit_1e30 (-1) F32.zero) ;;
    foldM (split_assign mesh (bestDim best) (bestPos best)) (Brick.prims in_)
          (Brick.new, Brick.new).

(** An entry of [std::priority_queue<std::pair<int,Brick *>>]: the count, and
    the brick pointer as the address it holds together with the brick it
    points to.  Bricks are neither shared nor changed once queued. *)
Record entry : Type := mk_entry {
  first : Z;
  second_address : Z;
  second : Brick.t
}.

(** [a < b] on [std::pair<int,Brick *>]: by count, then by pointer. *)
Definition entry_ltb (a b : entry) : bool :=
  (first a <? first b)
  || (negb (first b <? first a) && (second_address a <? second_address b)).

(** [top()] together with the queue left by [pop()]; [None] on an empty
    queue.  The queue is kept as the list of its entries. *)
Fixpoint top_pop (q : list entry) : option (entry * list entry) :=
  match q with
  | [] => None
  | e :: q' =>
      match top_pop q' with
      | None => Some (e, [])
      | Some (m, rest) => if entry_ltb m e then Some (e, q') else Some (m, e :: rest)
      end
  end.

(** The state of [main] between two turns of its splitting loop: the queue,
    the number of [new Brick] so far and the number of calls of [split]. *)
Record main_state : Type := mk_state {
  bricks : list entry;
  allocated : nat;
  splits : nat
}.

Section Partitioner.
(** The address the n-th [new Brick] of the run returns. *)
Variable address_of_new : nat -> Z.

(** [createInitialBrick]. *)
Definition createInitialBrick (in_ : UMesh.t) : outcome main_state :=
  let prims := UMesh.createAllPrimRefs in_ in
  brick <- for_blocked (length prims) 1024
             (fun b e (brick : Brick.t) =>
                _ <- int_counter_reaches (Z.of_nat e) ;;
                foldM (fun (brick : Brick.t) prim =>
                         pb <- UMesh.getBounds in_ prim ;;
                         Ok (Brick.mk (Brick.prims brick)
                                      (box3f_extend_box (Brick.bounds brick) pb)
                                      (box3f_extend (Brick.centBounds brick)
                                                    (box3f_center pb))))
                      (slice b e prims) brick)
             (Brick.mk prims box3f_empty box3f_empty) ;;
  Ok (mk_state [mk_entry (to_int (size prims)) (address_of_new 0) brick] 1 0).

(** The splitting loop of [main].  Every turn adds one brick to the queue,
    so [fuel] turns are enough when the queue is at most [fuel] bricks short
    of [maxBricks]; [None] says the fuel ran out. *)
Fixpoint split_loop (fuel : nat) (in_ : UMesh.t) (maxBricks leafThreshold : Z)
    (st : main_state) : option (outcome main_state) :=
  if size (bricks st) <? to_size_t maxBricks then
    match fuel with
    | O => None
    | S fuel' =>
        match top_pop (bricks st) with
        | None => Some (Undefined OutOfRange)
        | Some (biggest, rest) =>
            if first biggest <? leafThreshold then Some (Ok st)
            else
              match split in_ (second biggest) with
              | Ok (half0, half1) =>
                  let e0 := mk_entry (to_int (size (Brick.prims half0)))
                                     (address_of_new (allocated st)) half0 in
                  let e1 := mk_entry (to_int (size (Brick.prims half1)))
                                     (address_of_new (S (allocated st))) half1 in
                  split_loop fuel' in_ maxBricks leafThreshold
                    (mk_state (e1 :: e0 :: rest) (S (S (allocated st))) (S (splits st)))
              | Throw w => Some (Throw w)
              | Undefined u => Some (Undefined u)
              end
        end
    end
  else Some (Ok st).

(** The emitting loop of [main]: the bricks in the order they are popped
    and handed to [writeBrick]. *)
Fixpoint emit (fuel : nat) (q : list entry) : list Brick.t :=
  match fuel with
  | O => []
  | S fuel' =>
      match top_pop q with
      | None => []
      | Some (e, rest) => second e :: emit fuel' rest
      end
  end.

(** What a run of the partitioner produces. *)
Record partition_result : Type := mk_result {
  emitted : list Brick.t;     (* the bricks written, in brickID order *)
  numSplits : nat             (* the calls of [split] *)
}.

(** [main] from [createInitialBrick] on, for the loaded mesh [in_]. *)
Definition partitionObjectSpace (in_ : UMesh.t) (maxBricks leafThreshold : Z)
  : option (outcome partition_result) :=
  match createInitialBrick in_ with
  | Ok st0 =>
      match split_loop (Z.to_nat (to_size_t maxBricks)) in_ maxBricks leafThreshold st0 with
      | Some (Ok st) => Some (Ok (mk_result (emit (length (bricks st)) (bricks st))
                                            (splits st)))
      | Some (Throw w) => Some (Throw w)
      | Some (Undefined u) => Some (Undefined u)
      | None => None
      end
  | Throw w => Some (Throw w)
  | Undefined u => Some (Undefined u)
  end.
End Partitioner.

(* ===================================================================== *)
(** ** umesh/UMesh.cpp: mergeMeshes and UMesh::append *)
(* ===================================================================== *)

(** The running totals of the first loop of [mergeMeshes] ([size_t] each). *)
Record merge_counts : Type := mk_counts {
  numVtx : Z; numTri : Z; numQud : Z; numTet : Z; numPyr : Z;
  numWdg : Z; numHex : Z; numGrd : Z; numGsc : Z
}.

(** One entry of each of the nine offset vectors ([int] each): the offsets of
    one input. *)
Record merge_offsets : Type := mk_offsets {
  vtxOffset : Z; triOffset : Z; qudOffset : Z; tetOffset : Z; pyrOffset : Z;
  wdgOffset : Z; hexOffset : Z; grdOffset : Z; gscOffset : Z
}.

Definition merge_overflow_message : string :=
  "cannot merge meshes - merged mesh would have to many vertices to be addressable by 32-bit (signed) integers".

(** One turn of the first loop: push the offsets of [input], then add its
    sizes to the totals. *)
Definition merge_count_input (st : merge_counts * list merge_offsets) (input : UMesh.t)
  : outcome (merge_counts * list merge_offsets) :=
  let '(c, offs) := st in
  let o := mk_offsets (to_int (numVtx c)) (to_int (numTri c)) (to_int (numQud c))
                      (to_int (numTet c)) (to_int (numPyr c)) (to_int (numWdg c))
                      (to_int (numHex c)) (to_int (numGrd c)) (to_int (numGsc c)) in
  let numVtx' := to_size_t (numVtx c + size (UMesh.vertices input)) in
  if numVtx' >? INT_MAX then Throw merge_overflow_message
  else Ok (mk_counts numVtx'
             (to_size_t (numTri c + size (UMesh.triangles input)))
             (to_size_t (numQud c + size (UMesh.quads input)))
             (to_size_t (numTet c + size (UMesh.tets input)))
             (to_size_t (numPyr c + size (UMesh.pyrs input)))
             (to_size_t (numWdg c + size (UMesh.wedges input)))
             (to_size_t (numHex c + size (UMesh.hexes input)))
             (to_size_t (numGrd c + size (UMesh.grids input)))
             (to_size_t (numGsc c + size (UMesh.gridScalars input))),
           offs ++ [o]).

(** The first loop of [mergeMeshes]: totals and per-input offsets. *)
Definition merge_offsets_pass (inputs : list UMesh.t)
  : outcome (merge_counts * list merge_offsets) :=
  foldM merge_count_input inputs (mk_counts 0 0 0 0 0 0 0 0 0, []).

(** The output mesh as allocated: a fresh, unnamed [perVertex] attribute and
    every array resized to its total. *)
Definition merge_allocate (c : merge_counts) : UMesh.t :=
  let zero3i := V3.mk 0 0 0 in
  let zero4i := V4.mk 0 0 0 0 in
  let zero3f := V3.mk F32.zero F32.zero F32.zero in
  let zero4f := V4.mk F32.zero F32.zero F32.zero F32.zero in
  UMesh.mk (resize (numVtx c) zero3f)
           (Some (Attribute.mk "" (resize (numVtx c) F32.zero) range1f_empty))
           []
           (resize (numTri c) zero3i) (resize (numQud c) zero4i) (resize (numTet c) zero4i)
           (resize (numPyr c) (Pyr.mk zero4i 0))
           (resize (numWdg c) (Wedge.mk zero3i zero3i))
           (resize (numHex c) (Hex.mk zero4i zero4i))
           (resize (numGrd c) (Grid.mk (Box.mk zero4f zero4f) zero3i 0))
           (resize (numGsc c) F32.zero)
           [] box3f_empty range1f_empty.

(** [input->perVertex->values[i]]. *)
Definition perVertex_value (input : UMesh.t) (i : Z) : outcome float :=
  match UMesh.perVertex input with
  | None => Undefined NullDereference
  | Some a => at_ (Attribute.values a) i
  end.

(** The body of [for (int i = 0; i < src.size(); i++)] that stores
    [f (src[i])] into [dst[offset + i]], from turn [i] on. *)
Fixpoint copy_from {A B} (f : A -> outcome B) (offset i : Z) (src : list A) (dst : list B)
  : outcome (list B) :=
  match src with
  | [] => Ok dst
  | a :: src' =>
      b <- f a ;;
      j <- int_add offset i ;;
      dst' <- set_at dst (to_size_t j) b ;;
      copy_from f offset (i + 1) src' dst'
  end.

Definition copy_block {A B} (f : A -> outcome B) (offset : Z) (src : list A) (dst : list B)
  : outcome (list B) :=
  _ <- int_counter_reaches (size src) ;;
  copy_from f offset 0 src dst.

(** The vertex loop of the second pass: position and scalar of vertex [i] go
    to slot [vtxOffsets[meshID] + i]. *)
Fixpoint merge_copy_vertices (input : UMesh.t) (offset i : Z) (src : list vec3f)
    (dst : list vec3f * list float) : outcome (list vec3f * list float) :=
  match src with
  | [] => Ok dst
  | v :: src' =>
      s <- perVertex_value input i ;;
      j <- int_add offset i ;;
      dv <- set_at (fst dst) (to_size_t j) v ;;
      ds <- set_at (snd dst) (to_size_t j) s ;;
      merge_copy_vertices input offset (i + 1) src' (dv, ds)
  end.

(** The values of the output's [perVertex], which [merge_allocate] created. *)
Definition merge_out_values (out : UMesh.t) : outcome (list float) :=
  match UMesh.perVertex out with
  | None => Undefined NullDereference
  | Some a => Ok (Attribute.values a)
  end.

(** The body of the second pass for one input and its offsets. *)
Definition merge_copy_input (out : UMesh.t) (io : UMesh.t * merge_offsets)
  : outcome UMesh.t :=
  let '(input, o) := io in
  _ <- int_counter_reaches (size (UMesh.vertices input)) ;;
  vals <- merge_out_values out ;;
  vs <- merge_copy_vertices input (vtxOffset o) 0 (UMesh.vertices input)
          (UMesh.vertices out, vals) ;;
  tris <- copy_block (Triangle_shift (vtxOffset o)) (triOffset o)
            (UMesh.triangles input) (UMesh.triangles out) ;;
  quds <- copy_block (Quad_shift (vtxOffset o)) (qudOffset o)
            (UMesh.quads input) (UMesh.quads out) ;;
  tts <- copy_block (Tet_shift (vtxOffset o)) (tetOffset o)
           (UMesh.tets input) (UMesh.tets out) ;;
  prs <- copy_block (Pyr_shift (vtxOffset o)) (pyrOffset o)
           (UMesh.pyrs input) (UMesh.pyrs out) ;;
  wdgs <- copy_block (Wedge_shift (vtxOffset o)) (wdgOffset o)
            (UMesh.wedges input) (UMesh.wedges out) ;;
  hxs <- copy_block (Hex_shift (vtxOffset o)) (hexOffset o)
           (UMesh.hexes input) (UMesh.hexes out) ;;
  grds <- copy_block (Grid_shift (gscOffset o)) (grdOffset o)
            (UMesh.grids input) (UMesh.grids out) ;;
  gscs <- copy_block Ok (gscOffset o) (UMesh.gridScalars input) (UMesh.gridScalars out) ;;
  Ok (UMesh.mk (fst vs)
               (Some (Attribute.mk "" (snd vs) range1f_empty))
               (UMesh.attributes out)
               tris quds tts prs wdgs hxs grds gscs
               (UMesh.vertexTags out) (UMesh.bounds out) (UMesh.gridsScalarRange out)).

(** The second pass: [serial_for((int)inputs.size(), ...)] runs the body for
    meshID = 0, 1, ... below the converted count. *)
Definition merge_copy_pass (inputs : list UMesh.t) (offs : list merge_offsets)
    (out : UMesh.t) : outcome UMesh.t :=
  foldM merge_copy_input (take (Z.to_nat (to_int (size inputs))) (zip inputs offs)) out.

(** [mergeMeshes(inputs)]. *)
Definition mergeMeshes (inputs : list UMesh.t) : outcome UMesh.t :=
  co <- merge_offsets_pass inputs ;;
  out <- merge_copy_pass inputs (snd co) (merge_allocate (fst co)) ;;
  UMesh.finalize out.

(** [for (auto prim : src) { prim[i] += off ...; dst.push_back(prim); }]. *)
Definition push_back_shifted {A} (shift : A -> outcome A) (src dst : list A)
  : outcome (list A) :=
  foldM (fun dst prim => p <- shift prim ;; Ok (dst ++ [p])) src dst.

(** [UMesh::append(other)], for [other] an object different from [this].
    The triangles and quads of [other] are not visited.  The scalars are
    pushed to the primary attribute; see [UMesh.t] for a mesh whose
    primary attribute is listed. *)
Definition append (this other : UMesh.t) : outcome UMesh.t :=
  let oldNumVertices := size (UMesh.vertices this) in
  let vertices' := UMesh.vertices this ++ UMesh.vertices other in
  perVertex' <- match UMesh.perVertex this with
                | None => Ok None
                | Some a =>
                    match UMesh.perVertex other with
                    | None => Undefined NullDereference
                    | Some b => Ok (Some (Attribute.mk (Attribute.name a)
                                            (Attribute.values a ++ Attribute.values b)
                                            (Attribute.valueRange a)))
                    end
                end ;;
  tets' <- push_back_shifted (Tet_shift (to_int oldNumVertices))
             (UMesh.tets other) (UMesh.tets this) ;;
  hexes' <- push_back_shifted (Hex_shift (to_int oldNumVertices))
              (UMesh.hexes other) (UMesh.hexes this) ;;
  pyrs' <- push_back_shifted (Pyr_shift (to_int oldNumVertices))
             (UMesh.pyrs other) (UMesh.pyrs this) ;;
  wedges' <- push_back_shifted (Wedge_shift (to_int oldNumVertices))
               (UMesh.wedges other) (UMesh.wedges this) ;;
  let oldNumGridScalars := size (UMesh.gridScalars this) in
  let gridScalars' := UMesh.gridScalars this ++ UMesh.gridScalars other in
  grids' <- push_back_shifted (Grid_shift (to_int oldNumGridScalars))
              (UMesh.grids other) (UMesh.grids this) ;;
  UMesh.finalize
    (UMesh.mk vertices' perVertex' (UMesh.attributes this)
              (UMesh.triangles this) (UMesh.quads this)
              tets' pyrs' wedges' hexes' grids' gridScalars'
              (UMesh.vertexTags this) (UMesh.bounds this) (UMesh.gridsScalarRange this)).

(* ===================================================================== *)
(** ** umesh/io/ugrid32.cpp: the ugrid32 importer *)
(* ===================================================================== *)

(** The function-local statics of [notDegenerate]. *)
Record degen_stats : Type := mk_stats {
  numTests : Z;
  numDegen : Z;
  nextPing : Z
}.

Definition degen_stats_init : degen_stats := mk_stats 0 0 1.

(** The bookkeeping at the end of [notDegenerate]: one more test, and for a
    degenerate element one more in [numDegen], with [nextPing] doubled when
    it is reached (the message itself is printed only when [verbose]). *)
Definition count_test (degen : bool) (st : degen_stats) : degen_stats :=
  let tests := to_size_t (numTests st + 1) in
  if degen then
    let n := to_size_t (numDegen st + 1) in
    if nextPing st <=? n then mk_stats tests n (to_size_t (nextPing st * 2))
    else mk_stats tests n (nextPing st)
  else mk_stats tests (numDegen st) (nextPing st).

(** [notDegenerate(vertices, index, N)] with [N] the length of [index]
    ([uint32_t] entries).  Asserts are compiled out: an index past the end of
    [vertices] is read all the same. *)
Definition notDegenerate (vertices : list vec3f) (index : list Z) (st : degen_stats)
  : outcome (bool * degen_stats) :=
  bounds <- foldM (fun b idx =>
                     if to_int idx <? 0 then Throw "negative index!?"
                     else v <- at_ vertices idx ;; Ok (box3f_extend b v))
                  index box3f_empty ;;
  let flat :=
    F32.eqb (V3.x (Box.lower bounds)) (V3.x (Box.upper bounds))
    || F32.eqb (V3.y (Box.lower bounds)) (V3.y (Box.upper bounds))
    || F32.eqb (V3.z (Box.lower bounds)) (V3.z (Box.upper bounds)) in
  degen <- (if size index =? 4 then
              v0 <- at_ vertices (nth 0 index 0) ;;
              v1 <- at_ vertices (nth 1 index 0) ;;
              v2 <- at_ vertices (nth 2 index 0) ;;
              v3 <- at_ vertices (nth 3 index 0) ;;
              Ok (flat || (vec3f_eqb v0 v1 || vec3f_eqb v0 v2 || vec3f_eqb v0 v3
                           || vec3f_eqb v1 v2 || vec3f_eqb v1 v3 || vec3f_eqb v2 v3))
            else Ok flat) ;;
  Ok (negb degen, count_test degen st).

(** The decoded contents of a ugrid32 file and of its scalars file: the
    vertices already converted to [float], and for every element kind the
    index tuples as read ([uint32_t], counted from 1). *)
Record ugrid32_file : Type := mk_ugrid32 {
  file_vertices : list vec3f;
  file_scalars : option (list float);
  file_tris : list (list Z);
  file_quads : list (list Z);
  file_tets : list (list Z);
  file_pyrs : list (list Z);
  file_prisms : list (list Z);
  file_hexes : list (list Z)
}.

(** [idx[i] -= 1] on [uint32_t]. *)
Definition minus_one (idx : list Z) : list Z := map (fun i => to_uint32 (i - 1)) idx.

(** The loop shared by triangles, quads, pyramids, prisms and hexes: every
    tuple is shifted to base 0, tested, and pushed when not degenerate. *)
Definition load_elements {A} (vertices : list vec3f) (make : list Z -> A)
    (tuples : list (list Z)) (st : degen_stats) : outcome (list A * degen_stats) :=
  foldM (fun '(acc, st) tuple =>
           let idx := minus_one tuple in
           r <- notDegenerate vertices idx st ;;
           Ok (if fst r then (acc ++ [make idx], snd r) else (acc, snd r)))
        tuples ([], st).

(** The tets: [isGood] and [vecTets] are filled by blocks of 1024*1024, then
    the good ones are pushed in file order. *)
Definition load_tets (vertices : list vec3f) (tuples : list (list Z)) (st : degen_stats)
  : outcome (list Tet * degen_stats) :=
  r <- for_blocked (length tuples) (1024 * 1024)
         (fun b e '(isGood, vecTets, st) =>
            foldM (fun '(isGood, vecTets, st) tuple =>
                     let idx := minus_one tuple in
                     let tet := V4.mk (to_int (nth 0 idx 0)) (to_int (nth 1 idx 0))
                                      (to_int (nth 2 idx 0)) (to_int (nth 3 idx 0)) in
                     g <- notDegenerate vertices idx st ;;
                     Ok (isGood ++ [fst g], vecTets ++ [tet], snd g))
                  (slice b e tuples) (isGood, vecTets, st))
         ([], [], st) ;;
  let '(isGood, vecTets, st') := r in
  Ok (map snd (List.filter (fun gt : bool * Tet => fst gt) (zip isGood vecTets)), st').

Definition make_triangle (idx : list Z) : Triangle :=
  V3.mk (to_int (nth 0 idx 0)) (to_int (nth 1 idx 0)) (to_int (nth 2 idx 0)).
Definition make_quad (idx : list Z) : Quad :=
  V4.mk (to_int (nth 0 idx 0)) (to_int (nth 1 idx 0))
        (to_int (nth 2 idx 0)) (to_int (nth 3 idx 0)).
Definition make_pyr (idx : list Z) : Pyr.t :=
  Pyr.mk (V4.mk (to_int (nth 0 idx 0)) (to_int (nth 1 idx 0))
                (to_int (nth 2 idx 0)) (to_int (nth 3 idx 0)))
         (to_int (nth 4 idx 0)).
(** The front and back faces are swapped on the way in. *)
Definition make_wedge (idx : list Z) : Wedge.t :=
  Wedge.mk (V3.mk (to_int (nth 3 idx 0)) (to_int (nth 4 idx 0)) (to_int (nth 5 idx 0)))
           (V3.mk (to_int (nth 0 idx 0)) (to_int (nth 1 idx 0)) (to_int (nth 2 idx 0))).
Definition make_hex (idx : list Z) : Hex.t :=
  Hex.mk (V4.mk (to_int (nth 0 idx 0)) (to_int (nth 1 idx 0))
                (to_int (nth 2 idx 0)) (to_int (nth 3 idx 0)))
         (V4.mk (to_int (nth 4 idx 0)) (to_int (nth 5 idx 0))
                (to_int (nth 6 idx 0)) (to_int (nth 7 idx 0))).

(** [UGrid32Loader::UGrid32Loader] from the decoded file on: the imported
    mesh and the statics of [notDegenerate] after the import. *)
Definition UGrid32Loader (f : ugrid32_file) (st : degen_stats)
  : outcome (UMesh.t * degen_stats) :=
  let vertices := file_vertices f in
  let perVertex :=
    option_map (fun vals => Attribute.finalize (Attribute.mk "" vals range1f_empty))
               (file_scalars f) in
  tris <- load_elements vertices make_triangle (file_tris f) st ;;
  quads <- load_elements vertices make_quad (file_quads f) (snd tris) ;;
  tets <- load_tets vertices (file_tets f) (snd quads) ;;
  pyrs <- load_elements vertices make_pyr (file_pyrs f) (snd tets) ;;
  wedges <- load_elements vertices make_wedge (file_prisms f) (snd pyrs) ;;
  hexes <- load_elements vertices make_hex (file_hexes f) (snd wedges) ;;
  result <- UMesh.finalize
              (UMesh.mk vertices perVertex [] (fst tris) (fst quads) (fst tets) (fst pyrs)
                        (fst wedges) (fst hexes) [] [] [] box3f_empty range1f_empty) ;;
  Ok (result, snd hexes).

(* ===================================================================== *)
(** ** umesh/io/IO.h: raw binary streams *)
(* ===================================================================== *)

Abbreviation byte := Init.Byte.byte.

(** The IEEE-754 binary32 interchange encoding of a [float] (NaN goes to the
    quiet NaN 0x7FC00000) and its decoding. *)
Definition bits_of_float (f : float) : Z :=
  let sign (s : bool) := if s then 2 ^ 31 else 0 in
  match f with
  | S754_zero s => sign s
  | S754_infinity s => sign s + 255 * 2 ^ 23
  | S754_nan => 255 * 2 ^ 23 + 2 ^ 22
  | S754_finite s m e =>
      if Z.pos m <? 2 ^ 23 then sign s + Z.pos m
      else sign s + (e + 150) * 2 ^ 23 + (Z.pos m - 2 ^ 23)
  end.

Definition float_of_bits (b : Z) : float :=
  let s := Z.odd (b / 2 ^ 31) in
  let E := (b / 2 ^ 23) mod 256 in
  let frac := b mod 2 ^ 23 in
  if E =? 0 then
    (if frac =? 0 then S754_zero s else S754_finite s (Z.to_pos frac) (-149))
  else if E =? 255 then
    (if frac =? 0 then S754_infinity s else S754_nan)
  else S754_finite s (Z.to_pos (frac + 2 ^ 23)) (E - 150).

(** Modelled from the spec: umesh/io/IO.h (writeElement, writeVector,
    writeString, readElement, readVector, readString) is not among the
    sources.  The spec gives the layout: an element is written raw, as the
    bytes of its fixed-size tuple of 32-bit integers or floats, in native
    (little-endian) order; a vector and a string are length-prefixed, the
    length taken here as a 64-bit count; a read that finds fewer bytes than
    declared fails with an error instead of filling in zeros. *)
Class Raw (T : Type) : Type := {
  raw_size : nat;                   (* sizeof(T) *)
  to_raw : T -> list byte;
  of_raw : list byte -> T
}.

#[export] Instance Raw_size_t : Raw Z :=
  {| raw_size := 8; to_raw := le_split 8; of_raw := le_combine |}.

(** [int]: four bytes, two's complement. *)
Definition int_to_raw (i : Z) : list byte := le_split 4 i.
Definition int_of_raw (bs : list byte) : Z := to_int (le_combine bs).
Definition float_to_raw (f : float) : list byte := le_split 4 (bits_of_float f).
Definition float_of_raw (bs : list byte) : float := float_of_bits (le_combine bs).

Definition Raw_int : Raw Z :=
  {| raw_size := 4; to_raw := int_to_raw; of_raw := int_of_raw |}.

#[export] Instance Raw_float : Raw float :=
  {| raw_size := 4; to_raw := float_to_raw; of_raw := float_of_raw |}.

(** The [k]-th field of [n] bytes of a raw element. *)
Definition field (k n : nat) (bs : list byte) : list byte := take n (drop (k * n) bs).

Definition vec3i_to_raw (v : vec3i) : list byte :=
  int_to_raw (V3.x v) ++ int_to_raw (V3.y v) ++ int_to_raw (V3.z v).
Definition vec3i_of_raw (bs : list byte) : vec3i :=
  V3.mk (int_of_raw (field 0 4 bs)) (int_of_raw (field 1 4 bs)) (int_of_raw (field 2 4 bs)).
Definition vec4i_to_raw (v : vec4i) : list byte :=
  int_to_raw (V4.x v) ++ int_to_raw (V4.y v) ++ int_to_raw (V4.z v) ++ int_to_raw (V4.w v).
Definition vec4i_of_raw (bs : list byte) : vec4i :=
  V4.mk (int_of_raw (field 0 4 bs)) (int_of_raw (field 1 4 bs))
        (int_of_raw (field 2 4 bs)) (int_of_raw (field 3 4 bs)).
Definition vec3f_to_raw (v : vec3f) : list byte :=
  float_to_raw (V3.x v) ++ float_to_raw (V3.y v) ++ float_to_raw (V3.z v).
Definition vec3f_of_raw (bs : list byte) : vec3f :=
  V3.mk (float_of_raw (field 0 4 bs)) (float_of_raw (field 1 4 bs))
        (float_of_raw (field 2 4 bs)).
Definition vec4f_to_raw (v : vec4f) : list byte :=
  float_to_raw (V4.x v) ++ float_to_raw (V4.y v) ++ float_to_raw (V4.z v)
  ++ float_to_raw (V4.w v).
Definition vec4f_of_raw (bs : list byte) : vec4f :=
  V4.mk (float_of_raw (field 0 4 bs)) (float_of_raw (field 1 4 bs))
        (float_of_raw (field 2 4 bs)) (float_of_raw (field 3 4 bs)).

#[export] Instance Raw_vec3f : Raw vec3f :=
  {| raw_size := 12; to_raw := vec3f_to_raw; of_raw := vec3f_of_raw |}.
#[export] Instance Raw_vec3i : Raw vec3i :=
  {| raw_size := 12; to_raw := vec3i_to_raw; of_raw := vec3i_of_raw |}.
#[export] Instance Raw_vec4i : Raw vec4i :=
  {| raw_size := 16; to_raw := vec4i_to_raw; of_raw := vec4i_of_raw |}.
#[export] Instance Raw_Pyr : Raw Pyr.t :=
  {| raw_size := 20;
     to_raw p := vec4i_to_raw (Pyr.base p) ++ int_to_raw (Pyr.top p);
     of_raw bs := Pyr.mk (vec4i_of_raw (take 16 bs)) (int_of_raw (field 4 4 bs)) |}.
#[export] Instance Raw_Wedge : Raw Wedge.t :=
  {| raw_size := 24;
     to_raw p := vec3i_to_raw (Wedge.front p) ++ vec3i_to_raw (Wedge.back p);
     of_raw bs := Wedge.mk (vec3i_of_raw (field 0 12 bs)) (vec3i_of_raw (field 1 12 bs)) |}.
#[export] Instance Raw_Hex : Raw Hex.t :=
  {| raw_size := 32;
     to_raw p := vec4i_to_raw (Hex.base p) ++ vec4i_to_raw (Hex.top p);
     of_raw bs := Hex.mk (vec4i_of_raw (field 0 16 bs)) (vec4i_of_raw (field 1 16 bs)) |}.
#[export] Instance Raw_Grid : Raw Grid.t :=
  {| raw_size := 48;
     to_raw g := vec4f_to_raw (Box.lower (Grid.domain g))
                 ++ vec4f_to_raw (Box.upper (Grid.domain g))
                 ++ vec3i_to_raw (Grid.numCells g) ++ int_to_raw (Grid.scalarsOffset g);
     of_raw bs := Grid.mk (Box.mk (vec4f_of_raw (field 0 16 bs)) (vec4f_of_raw (field 1 16 bs)))
                          (vec3i_of_raw (take 12 (drop 32 bs)))
                          (int_of_raw (field 11 4 bs)) |}.

(** [io::writeElement], [io::writeVector], [io::writeString]: the bytes
    appended to the stream. *)
Definition writeElement {T} `{Raw T} (e : T) : list byte := to_raw e.

Definition writeVector {T} `{Raw T} (v : list T) : list byte :=
  writeElement (size v) ++ flat_map to_raw v.

Definition writeString (s : string) : list byte :=
  writeElement (Z.of_nat (String.length s)) ++ list_byte_of_string s.

(** A [std::istream] over a byte sequence: what is left to read, and the
    eof bit that a read past the end sets. *)
Record istream : Type := mk_istream {
  rest : list byte;
  eofbit : bool
}.

(** A member function of [UMesh] that reads from a stream: it sees and
    changes the object and the stream, and returns, throws or goes wrong. *)
Record reader_state : Type := mk_reader { this : UMesh.t; in_ : istream }.

Definition reader (A : Type) : Type := reader_state -> reader_state * outcome A.

Definition ret {A} (a : A) : reader A := fun s => (s, Ok a).

Definition rbind {A B} (c : reader A) (k : A -> reader B) : reader B :=
  fun s =>
    match c s with
    | (s', Ok a) => k a s'
    | (s', Throw w) => (s', Throw w)
    | (s', Undefined u) => (s', Undefined u)
    end.

Notation "x <~ c ;; k" := (rbind c (fun x => k))
  (at level 100, c at next level, right associativity) : outcome_scope.

(** [throw std::runtime_error(what)]. *)
Definition throw {A} (what : string) : reader A := fun s => (s, Throw what).

(** An assignment to data members of [*this]. *)
Definition modify (f : UMesh.t -> UMesh.t) : reader unit :=
  fun s => (mk_reader (f (this s)) (in_ s), Ok tt).

Definition get_this : reader UMesh.t := fun s => (s, Ok (this s)).

(** [in.eof()]. *)
Definition eof : reader bool := fun s => (s, Ok (eofbit (in_ s))).

Definition io_error (what : string) : string := "could not read " ++ what.

(** Read [n] raw bytes; a stream that holds fewer sets its eof bit and the
    read fails. *)
Definition read_bytes (n : Z) (what : string) : reader (list byte) :=
  fun s =>
    if n <=? size (rest (in_ s))
    then (mk_reader (this s) (mk_istream (drop (Z.to_nat n) (rest (in_ s))) (eofbit (in_ s))),
          Ok (take (Z.to_nat n) (rest (in_ s))))
    else (mk_reader (this s) (mk_istream [] true), Throw (io_error what)).

(** [io::readElement]. *)
Definition readElement {T} `{Raw T} (what : string) : reader T :=
  bs <~ read_bytes (Z.of_nat raw_size) what ;; ret (of_raw bs).

(** The consecutive elements of [sz] bytes each. *)
Fixpoint chunks (sz n : nat) (bs : list byte) : list (list byte) :=
  match n with
  | O => []
  | S n' => take sz bs :: chunks sz n' (drop sz bs)
  end.

(** [io::readVector]: the count, then that many raw elements. *)
Definition readVector {T} `{Raw T} (what : string) : reader (list T) :=
  n <~ readElement (T := Z) what ;;
  bs <~ read_bytes (n * Z.of_nat raw_size) what ;;
  ret (map of_raw (chunks raw_size (Z.to_nat n) bs)).

(** [io::readString]. *)
Definition readString (what : string) : reader string :=
  n <~ readElement (T := Z) what ;;
  bs <~ read_bytes n what ;;
  ret (string_of_list_byte bs).

(** [try { c } catch (...) { /* ignore */ }]. *)
Definition try_ignore {A} (c : reader A) : reader unit :=
  fun s =>
    match c s with
    | (s', Ok _) => (s', Ok tt)
    | (s', Throw _) => (s', Ok tt)
    | (s', Undefined u) => (s', Undefined u)
    end.

(** [this->finalize()]. *)
Definition finalize_this : reader unit :=
  fun s =>
    match UMesh.finalize (this s) with
    | Ok m => (mk_reader m (in_ s), Ok tt)
    | Throw w => (s, Throw w)
    | Undefined u => (s, Undefined u)
    end.

(* ===================================================================== *)
(** ** umesh/UMesh.cpp: the binary codec *)
(* ===================================================================== *)

Definition bum_magic : Z := 0x234235568.
Definition bum_magic_old : Z := 0x234235567.
Definition bum_magic_566 : Z := 0x234235566.

Definition wrong_magic_message : string := "wrong magic number in umesh file ...".

Definition writeAttribute (a : Attribute.t) : list byte :=
  writeString (Attribute.name a) ++ writeVector (Attribute.values a).

(** [UMesh::writeTo]: the bytes written to the stream. *)
Definition writeTo (m : UMesh.t) : list byte :=
  let attrs :=
    match UMesh.perVertex m, UMesh.attributes m with
    | Some p, [] => [p]
    | _, attributes => attributes
    end in
  writeElement bum_magic
  ++ writeVector (UMesh.vertices m)
  ++ writeElement (size attrs)
  ++ flat_map writeAttribute attrs
  ++ writeElement 0
  ++ writeVector (UMesh.triangles m)
  ++ writeVector (UMesh.quads m)
  ++ writeVector (UMesh.tets m)
  ++ writeVector (UMesh.pyrs m)
  ++ writeVector (UMesh.wedges m)
  ++ writeVector (UMesh.hexes m)
  ++ writeVector (UMesh.grids m)
  ++ writeVector (UMesh.gridScalars m)
  ++ writeVector (UMesh.vertexTags m).

(** [UMesh::saveTo]: the contents of the file written. *)
Definition saveTo (m : UMesh.t) : outcome (list byte) :=
  if (UMesh.size m >? 0) && box3f_is_empty (UMesh.bounds m)
  then Throw "invalid mesh bounds value when saving umesh - did you forget some finalize() somewhere?"
  else Ok (writeTo m).

(** [if (!attributes.empty()) perVertex = attributes[0];]. *)
Definition adopt_first_attribute : reader unit :=
  modify (fun m => match UMesh.attributes m with
                   | [] => m
                   | a :: _ => UMesh.set_perVertex (Some a) m
                   end).

(** The six element arrays, read in the order both formats share. *)
Definition read_elements : reader unit :=
  v <~ readVector "triangles" ;; _ <~ modify (UMesh.set_triangles v) ;;
  v <~ readVector "quads" ;; _ <~ modify (UMesh.set_quads v) ;;
  v <~ readVector "tets" ;; _ <~ modify (UMesh.set_tets v) ;;
  v <~ readVector "pyramids" ;; _ <~ modify (UMesh.set_pyrs v) ;;
  v <~ readVector "wedges" ;; _ <~ modify (UMesh.set_wedges v) ;;
  v <~ readVector "hexes" ;; modify (UMesh.set_hexes v).

(** [if (!in.eof()) try { readVector(vertexTags) } catch (...) {}]. *)
Definition read_vertexTags : reader unit :=
  e <~ eof ;;
  if e : bool then ret tt
  else try_ignore (v <~ readVector "vertexTags" ;; modify (UMesh.set_vertexTags v)).

(** [read_566(mesh, in)]: the format tagged 0x234235566, after its magic. *)
Definition read_566 : reader unit :=
  v <~ readVector "vertices" ;; _ <~ modify (UMesh.set_vertices v) ;;
  vals <~ readVector "scalars" ;;
  let attr := Attribute.finalize (Attribute.mk "" vals range1f_empty) in
  _ <~ modify (fun m => UMesh.set_attributes (UMesh.attributes m ++ [attr]) m) ;;
  _ <~ adopt_first_attribute ;;
  _ <~ read_elements ;;
  _ <~ read_vertexTags ;;
  finalize_this.

(** What [UMesh::readFrom] reads behind the magic of the two formats that
    differ in [hasGrids] only. *)
Definition read_sections (hasGrids : bool) : reader unit :=
  v <~ readVector "vertices" ;; _ <~ modify (UMesh.set_vertices v) ;;
  numPerVertexAttributes <~ readElement (T := Z) "numPerVertexAttributes" ;;
  _ <~ (if negb (numPerVertexAttributes =? 0) then
          name <~ readString "name" ;;
          vals <~ readVector "scalars" ;;
          let attr := Attribute.finalize (Attribute.mk name vals range1f_empty) in
          modify (fun m => UMesh.set_attributes (UMesh.attributes m ++ [attr]) m)
        else ret tt) ;;
  _ <~ adopt_first_attribute ;;
  numPerElementAttributes <~ readElement (T := Z) "numPerElementAttributes" ;;
  _ <~ read_elements ;;
  _ <~ (if hasGrids then
          v <~ readVector "grids" ;; _ <~ modify (UMesh.set_grids v) ;;
          v <~ readVector "gridScalars" ;; modify (UMesh.set_gridScalars v)
        else ret tt) ;;
  _ <~ read_vertexTags ;;
  finalize_this.

(** [UMesh::readFrom]. *)
Definition readFrom : reader unit :=
  magic <~ readElement (T := Z) "magic" ;;
  if magic =? bum_magic_566 then read_566
  else
    hasGrids <~ (if negb (magic =? bum_magic)
                 then (if negb (magic =? bum_magic_old)
                       then throw wrong_magic_message
                       else ret false)
                 else ret true) ;;
    read_sections hasGrids.

(** [UMesh::loadFrom] on a file with the given contents. *)
Definition loadFrom (file : list byte) : outcome UMesh.t :=
  match readFrom (mk_reader UMesh.empty (mk_istream file false)) with
  | (s, Ok _) => UMesh.finalize (this s)
  | (_, Throw w) => Throw w
  | (_, Undefined u) => Undefined u
  end.

(* ===================================================================== *)
(** ** apps/importUGrid32.cpp *)
(* ===================================================================== *)

(** [main] once the command line is read and the input files are decoded:
    the import, the vertex tags 0, 1, ... pushed when no scalars file is
    given, and the contents of the file that is saved. *)
Definition importUGrid32 (f : ugrid32_file) (st : degen_stats)
  : outcome (list byte * degen_stats) :=
  r <- UGrid32Loader f st ;;
  let mesh := fst r in
  let mesh :=
    match file_scalars f with
    | None => UMesh.set_vertexTags
                (UMesh.vertexTags mesh ++ indices (length (UMesh.vertices mesh))) mesh
    | Some _ => mesh
    end in
  file <- saveTo mesh ;;
  Ok (file, snd r).

(* ===================================================================== *)
(** ** umesh/apps/replaceScalarField.cpp *)
(* ===================================================================== *)

(** [std::to_string] of a [size_t]. *)
Definition to_string (n : Z) : string := NilZero.string_of_uint (N.to_uint (Z.to_N n)).

(** [main] from the loaded mesh [in_] and the loaded [scalars] on: the
    check of the number of scalars, the new primary attribute, the two
    calls of [finalize], and the contents of the file that is saved. *)
Definition replaceScalarField (inUMeshFileName inScalarsFileName : string)
    (in_ : UMesh.t) (scalars : list float) : outcome (list byte) :=
  if negb (size scalars =? size (UMesh.vertices in_)) then
    Throw ("num scalars found in " ++ inScalarsFileName
           ++ " (" ++ to_string (size scalars)
           ++ ") does not match number of vertices in umesh file "
           ++ inUMeshFileName
           ++ " (" ++ to_string (size (UMesh.vertices in_)) ++ ")")
  else
    let perVertex := Attribute.mk "" scalars range1f_empty in
    let perVertex := Attribute.finalize perVertex in
    in_ <- UMesh.finalize (UMesh.set_perVertex (Some perVertex) in_) ;;
    saveTo in_.

(* ===================================================================== *)
(** ** umesh/converters/rawToGrids.cpp *)
(* ===================================================================== *)

(** [Grid::numScalars] (UMesh.h):
    [(numCells.x+1)*size_t(numCells.y+1)*(numCells.z+1)]. *)
Definition numScalars (g : Grid.t) : outcome Z :=
  x <- int_add (V3.x (Grid.numCells g)) 1 ;;
  y <- int_add (V3.y (Grid.numCells g)) 1 ;;
  z <- int_add (V3.z (Grid.numCells g)) 1 ;;
  Ok (to_size_t (to_size_t (to_size_t x * to_size_t y) * to_size_t z)).

Definition brickSize : Z := 8.

(** The template argument of [rawToGrids<T>]: [float] or [uint8_t]. *)
Inductive input_format : Type := FLOAT | UINT8.

Definition sizeof_input (T : input_format) : nat :=
  match T with FLOAT => 4 | UINT8 => 1 end.

(** [toScalar] on the bytes of one input: the [float] itself, or
    [ui/255.f]. *)
Definition toScalar (T : input_format) (input : list byte) : float :=
  match T with
  | FLOAT => float_of_raw input
  | UINT8 => F32.div (F32.of_Z (le_combine input)) (F32.of_Z 255)
  end.

(** The largest [std::vector<float>] (libstdc++, 64 bit); memory itself is
    taken as unbounded. *)
Definition vector_float_max_size : Z := 2 ^ 61 - 1.

(** [for (int i = 0; i < n; i += brickSize-1)]: the values of [i], and the
    last increment, which is undefined when it leaves the [int] range. *)
Definition brick_starts (n : Z) : list Z :=
  map (fun k => (brickSize - 1) * Z.of_nat k)
      (seq 0 (Z.to_nat ((n + (brickSize - 2)) / (brickSize - 1)))).

Definition for_bricks {S} (n : Z) (body : Z -> S -> outcome S) (s : S) : outcome S :=
  s' <- foldM (fun s i => body i s) (brick_starts n) s ;;
  if in_int ((brickSize - 1) * Z.of_nat (length (brick_starts n))) then Ok s'
  else Undefined SignedOverflow.

(** [for (int i = lo; i <= hi; i++)] for [hi] below [INT_MAX]. *)
Definition int_range (lo hi : Z) : list Z :=
  map (fun k => lo + Z.of_nat k) (seq 0 (Z.to_nat (hi - lo + 1))).

(** [iix+dims.x*(iiy+(size_t)dims.y*(iiz))], on [size_t]. *)
Definition sample_index (dims : vec3i) (iix iiy iiz : Z) : Z :=
  let row := to_size_t (to_size_t (V3.y dims) * to_size_t iiz) in
  let col := to_size_t (to_size_t iiy + row) in
  to_size_t (to_size_t iix + to_size_t (to_size_t (V3.x dims) * col)).

(** The body of the three outer loops: one grid, its scalars pushed behind
    those of the grids before it. *)
Definition rawToGrids_brick (dims : vec3i) (scalars : list float) (ix iy iz : Z)
    (mesh : UMesh.t) : outcome UMesh.t :=
  ix7 <- int_add ix (brickSize - 1) ;; dx <- int_add (V3.x dims) (-1) ;;
  iy7 <- int_add iy (brickSize - 1) ;; dy <- int_add (V3.y dims) (-1) ;;
  iz7 <- int_add iz (brickSize - 1) ;; dz <- int_add (V3.z dims) (-1) ;;
  let ex := Z.min ix7 dx in
  let ey := Z.min iy7 dy in
  let ez := Z.min iz7 dz in
  let scalarsOffset := to_int (size (UMesh.gridScalars mesh)) in
  pushed <-
    foldM (fun s iiz =>
      foldM (fun s iiy =>
        foldM (fun '(gridScalars, r) iix =>
                 scalar <- at_ scalars (sample_index dims iix iiy iiz) ;;
                 Ok (gridScalars ++ [scalar],
                     if negb (F32.is_nan scalar) then range1f_extend r scalar else r))
              (int_range ix ex) s)
        (int_range iy ey) s)
      (int_range iz ez) (UMesh.gridScalars mesh, range1f_empty) ;;
  let r := snd pushed in
  let g := Grid.mk (Box.mk (V4.mk (F32.of_Z ix) (F32.of_Z iy) (F32.of_Z iz) (Box.lower r))
                           (V4.mk (F32.of_Z ex) (F32.of_Z ey) (F32.of_Z ez) (Box.upper r)))
                   (V3.mk (ex - ix) (ey - iy) (ez - iz))
                   scalarsOffset in
  Ok (UMesh.set_grids (UMesh.grids mesh ++ [g]) (UMesh.set_gridScalars (fst pushed) mesh)).

(** The scalars of the volume: [dims.x*(size_t)dims.y*dims.z] inputs, read
    from the bytes of the raw file as far as they reach and zero behind
    them, each turned into a [float]. *)
Definition rawToGrids_scalars (T : input_format) (dims : vec3i) (raw : list byte)
  : outcome (list float) :=
  let n := to_size_t (to_size_t (to_size_t (V3.x dims) * to_size_t (V3.y dims))
                      * to_size_t (V3.z dims)) in
  if n >? vector_float_max_size
  then Throw "cannot create std::vector larger than max_size()"
  else
    let bytes := (Z.to_nat n * sizeof_input T)%nat in
    let inputs := chunks (sizeof_input T) (Z.to_nat n)
                         (take bytes raw ++ replicate (bytes - length raw) Byte.x00) in
    Ok (map (toScalar T) inputs).

(** The mesh [rawToGrids<T>] has built when it calls [finalize]. *)
Definition rawToGrids_grids (T : input_format) (dims : vec3i) (raw : list byte)
  : outcome UMesh.t :=
  let mesh := UMesh.set_perVertex (Some (Attribute.make 0)) UMesh.empty in
  scalars <- rawToGrids_scalars T dims raw ;;
  dz <- int_add (V3.z dims) (-1) ;;
  for_bricks dz (fun iz mesh =>
    dy <- int_add (V3.y dims) (-1) ;;
    for_bricks dy (fun iy mesh =>
      dx <- int_add (V3.x dims) (-1) ;;
      for_bricks dx (fun ix mesh => rawToGrids_brick dims scalars ix iy iz mesh) mesh)
      mesh)
    mesh.

(** [rawToGrids<T>]: the contents of the file saved. *)
Definition rawToGrids (T : input_format) (dims : vec3i) (raw : list byte)
  : outcome (list byte) :=
  mesh <- rawToGrids_grids T dims raw ;;
  mesh <- UMesh.finalize mesh ;;
  saveTo mesh.

(* ===================================================================== *)
(** ** umesh/UMesh.h: the value range of an element *)
(* ===================================================================== *)

(** [range1f().including(perVertex->values[i0]).including(...)...] over the
    scalars named by the indices, in the order given. *)
Definition including_values (m : UMesh.t) (idx : list Z) : outcome range1f :=
  foldM (fun r i => s <- perVertex_value m (to_size_t i) ;; Ok (range1f_extend r s))
        idx range1f_empty.

Definition getTetValueRange (m : UMesh.t) (ID : Z) : outcome range1f :=
  p <- at_ (UMesh.tets m) ID ;;
  including_values m [V4.x p; V4.y p; V4.z p; V4.w p].

Definition getPyrValueRange (m : UMesh.t) (ID : Z) : outcome range1f :=
  p <- at_ (UMesh.pyrs m) ID ;;
  including_values m [Pyr.top p; V4.x (Pyr.base p); V4.y (Pyr.base p);
                      V4.z (Pyr.base p); V4.w (Pyr.base p)].

Definition getWedgeValueRange (m : UMesh.t) (ID : Z) : outcome range1f :=
  p <- at_ (UMesh.wedges m) ID ;;
  including_values m [V3.x (Wedge.front p); V3.y (Wedge.front p); V3.z (Wedge.front p);
                      V3.x (Wedge.back p); V3.y (Wedge.back p); V3.z (Wedge.back p)].

Definition getHexValueRange (m : UMesh.t) (ID : Z) : outcome range1f :=
  p <- at_ (UMesh.hexes m) ID ;;
  including_values m [V4.x (Hex.top p); V4.y (Hex.top p); V4.z (Hex.top p);
                      V4.w (Hex.top p); V4.x (Hex.base p); V4.y (Hex.base p);
                      V4.z (Hex.base p); V4.w (Hex.base p)].

Definition getTriValueRange (m : UMesh.t) (ID : Z) : outcome range1f :=
  p <- at_ (UMesh.triangles m) ID ;;
  including_values m [V3.x p; V3.y p; V3.z p].

Definition getQuadValueRange (m : UMesh.t) (ID : Z) : outcome range1f :=
  p <- at_ (UMesh.quads m) ID ;;
  including_values m [V4.x p; V4.y p; V4.z p; V4.w p].

(** [UMesh::getValueRange(const PrimRef &)]. *)
Definition getValueRange (m : UMesh.t) (pr : PrimRef.t) : outcome range1f :=
  match PrimRef.type pr with
  | TRI => getTriValueRange m (PrimRef.ID pr)
  | QUAD => getQuadValueRange m (PrimRef.ID pr)
  | TET => getTetValueRange m (PrimRef.ID pr)
  | PYR => getPyrValueRange m (PrimRef.ID pr)
  | WEDGE => getWedgeValueRange m (PrimRef.ID pr)
  | HEX => getHexValueRange m (PrimRef.ID pr)
  | GRID => UMesh.getGridValueRange m (PrimRef.ID pr)
  | INVALID => Throw "not implemented"
  end.

(** [UMesh::getBounds4f(const PrimRef &)]: the bounds in space, with the
    value range as fourth coordinate. *)
Definition getBounds4f (m : UMesh.t) (pr : PrimRef.t) : outcome box4f :=
  spatial <- UMesh.getBounds m pr ;;
  value <- getValueRange m pr ;;
  Ok (Box.mk (V4.mk (V3.x (Box.lower spatial)) (V3.y (Box.lower spatial))
                    (V3.z (Box.lower spatial)) (Box.lower value))
             (V4.mk (V3.x (Box.upper spatial)) (V3.y (Box.upper spatial))
                    (V3.z (Box.upper spatial)) (Box.upper value))).

(* ===================================================================== *)
(** ** umesh/apps/exportBBs.cpp *)
(* ===================================================================== *)

(** The bytes of a [box4f]: [lower], then [upper]. *)
Definition box4f_to_raw (bb : box4f) : list byte :=
  vec4f_to_raw (Box.lower bb) ++ vec4f_to_raw (Box.upper bb).

(** [main] for the loaded meshes [inputs]: the bytes written to the output
    file, one [box4f] per element of every input. *)
Definition exportBBs (inputs : list UMesh.t) : outcome (list byte) :=
  foldM (fun out in_ =>
           foldM (fun out prim =>
                    bb <- getBounds4f in_ prim ;;
                    Ok (out ++ box4f_to_raw bb))
                 (UMesh.createAllPrimRefs in_) out)
        inputs [].

(* ===================================================================== *)
(** ** umesh/converters/fun3DExtractVariable.cpp *)
(* ===================================================================== *)

(** [UMesh::setScalar] (UMesh.h; the asserts are compiled out).  The value
    is stored in the primary attribute; see [UMesh.t] for a mesh whose
    primary attribute is listed. *)
Definition setScalar (m : UMesh.t) (scalarID : Z) (value : float) : outcome UMesh.t :=
  match UMesh.perVertex m with
  | None => Undefined NullDereference
  | Some a =>
      values <- set_at (Attribute.values a) scalarID value ;;
      Ok (UMesh.set_perVertex
            (Some (Attribute.mk (Attribute.name a) values (Attribute.valueRange a))) m)
  end.

(** The [std::map<size_t,size_t> requestedVertices] when the loop
    [requestedVertices[mesh->vertexTags[i]] = i] has run. *)
Definition requestedVertices (vertexTags : list Z) : gmap Z Z :=
  fold_left (fun requested '(i, tag) => <[tag := i]> requested)
            (zip (indices (length vertexTags)) vertexTags) ∅.

(** The loop over the scalars of one rank, as [readTimeStep] returned them
    with their global vertex IDs: a scalar whose ID is requested is stored
    at the vertex the map gives. *)
Definition extract_rank (requested : gmap Z Z) (globalVertexIDs : list Z)
    (scalars : list float) (mesh : UMesh.t) : outcome UMesh.t :=
  mesh' <- foldM (fun mesh i =>
                    vertexID <- at_ globalVertexIDs i ;;
                    match requested !! vertexID with
                    | None => Ok mesh
                    | Some ourID => s <- at_ scalars i ;; setScalar mesh ourID s
                    end)
                 (indices (length scalars)) mesh ;;
  _ <- int_counter_reaches (size scalars) ;;
  Ok mesh'.

(** One time step: the ranks [readTimeStep] could read, in turn, then
    [mesh->perVertex->finalize()]. *)
Definition extract_time_step (requested : gmap Z Z)
    (ranks : list (list Z * list float)) (mesh : UMesh.t) : outcome UMesh.t :=
  mesh' <- foldM (fun mesh '(globalVertexIDs, scalars) =>
                    extract_rank requested globalVertexIDs scalars mesh)
                 ranks mesh ;;
  match UMesh.perVertex mesh' with
  | None => Undefined NullDereference
  | Some a => Ok (UMesh.set_perVertex (Some (Attribute.finalize a)) mesh')
  end.

(* ===================================================================== *)
(** ** Notions used to state the properties *)
(* ===================================================================== *)

(** The PrimRefs held by the bricks of a queue. *)
Definition queued_prims (q : list entry) : list PrimRef.t :=
  concat (map (fun e => Brick.prims (second e)) q).

(** Every array of the mesh has fewer entries than a 60-bit ID can tell
    apart. *)
Definition ids_fit (m : UMesh.t) : Prop :=
  size (UMesh.triangles m) <= 2 ^ 60 /\ size (UMesh.quads m) <= 2 ^ 60
  /\ size (UMesh.tets m) <= 2 ^ 60 /\ size (UMesh.pyrs m) <= 2 ^ 60
  /\ size (UMesh.wedges m) <= 2 ^ 60 /\ size (UMesh.hexes m) <= 2 ^ 60
  /\ size (UMesh.grids m) <= 2 ^ 60.

(** The side [split] puts a prim on, for the plane it chose. *)
Definition on_side (mesh : UMesh.t) (dim : Z) (pos : float) (s : bool) (prim : PrimRef.t)
  : bool :=
  match split_side mesh dim pos prim with
  | Ok s' => Bool.eqb s s'
  | _ => false
  end.

(** The position an index refers to ([vertices[i]] for [i] in range). *)
Definition position (vertices : list vec3f) (i : Z) : vec3f :=
  default (V3.mk F32.zero F32.zero F32.zero) (vertices !! Z.to_nat i).

Definition positions (vertices : list vec3f) (idx : list Z) : list vec3f :=
  map (position vertices) idx.

(** The bounding box of some positions. *)
Definition bbox (ps : list vec3f) : box3f := fold_left box3f_extend ps box3f_empty.

(** A box that is flat along some axis. *)
Definition box3f_is_flat (b : box3f) : bool :=
  F32.eqb (V3.x (Box.lower b)) (V3.x (Box.upper b))
  || F32.eqb (V3.y (Box.lower b)) (V3.y (Box.upper b))
  || F32.eqb (V3.z (Box.lower b)) (V3.z (Box.upper b)).

(** Some two of the positions are equal. *)
Fixpoint has_equal_pair (ps : list vec3f) : bool :=
  match ps with
  | [] => false
  | p :: ps' => existsb (vec3f_eqb p) ps' || has_equal_pair ps'
  end.

(** An element is degenerate when the bounding box of its vertices is flat
    along some axis, or when it has four vertices, two of them at equal
    positions. *)
Definition degenerate (vertices : list vec3f) (idx : list Z) : bool :=
  box3f_is_flat (bbox (positions vertices idx))
  || ((size idx =? 4) && has_equal_pair (positions vertices idx)).

(** A position with a NaN coordinate. *)
Definition vec3f_has_nan (v : vec3f) : bool :=
  F32.is_nan (V3.x v) || F32.is_nan (V3.y v) || F32.is_nan (V3.z v).

(** An index tuple as a ugrid32 file holds it: entries counted from 1 that
    name vertices of the file, and that fit an [int] once counted from 0. *)
Definition tuple_in_range (vertices : list vec3f) (tuple : list Z) : Prop :=
  Forall (fun e => 1 <= e <= size vertices /\ e <= 2 ^ 31) tuple.

(** The statics of [notDegenerate] after testing the tuples in turn. *)
Definition stats_after (vertices : list vec3f) (tuples : list (list Z)) (st : degen_stats)
  : degen_stats :=
  fold_left (fun st tuple => count_test (degenerate vertices (minus_one tuple)) st) tuples st.

(** The tuples of a file that are kept. *)
Definition kept (vertices : list vec3f) (tuples : list (list Z)) : list (list Z) :=
  List.filter (fun tuple => negb (degenerate vertices (minus_one tuple))) tuples.

(** A vector with the entries from slot [off] on replaced by [block]. *)
Definition overwrite {A} (off : Z) (block dst : list A) : list A :=
  take (Z.to_nat off) dst ++ block ++ drop (Z.to_nat off + length block) dst.

(** Every vertex index of an element increased by [n]. *)
Definition vec3i_plus (n : Z) (v : vec3i) : vec3i :=
  V3.mk (V3.x v + n) (V3.y v + n) (V3.z v + n).
Definition vec4i_plus (n : Z) (v : vec4i) : vec4i :=
  V4.mk (V4.x v + n) (V4.y v + n) (V4.z v + n) (V4.w v + n).
Definition Pyr_plus (n : Z) (p : Pyr.t) : Pyr.t :=
  Pyr.mk (vec4i_plus n (Pyr.base p)) (Pyr.top p + n).
Definition Wedge_plus (n : Z) (p : Wedge.t) : Wedge.t :=
  Wedge.mk (vec3i_plus n (Wedge.front p)) (vec3i_plus n (Wedge.back p)).
Definition Hex_plus (n : Z) (p : Hex.t) : Hex.t :=
  Hex.mk (vec4i_plus n (Hex.base p)) (vec4i_plus n (Hex.top p)).

(** The scalar offset of a grid increased by [n]. *)
Definition Grid_rebase (n : Z) (g : Grid.t) : Grid.t :=
  Grid.mk (Grid.domain g) (Grid.numCells g) (Grid.scalarsOffset g + n).

(** The values of the primary per-vertex attribute, none without one. *)
Definition primary_values (m : UMesh.t) : list float :=
  match UMesh.perVertex m with
  | Some a => Attribute.values a
  | None => []
  end.

(** The mesh carries a primary per-vertex attribute with at least one value
    per vertex. *)
Definition carries_values (m : UMesh.t) : Prop :=
  exists a, UMesh.perVertex m = Some a
            /\ size (UMesh.vertices m) <= size (Attribute.values a).

(** Every array of the mesh can be walked with an [int] counter. *)
Definition fits_int (m : UMesh.t) : Prop :=
  size (UMesh.vertices m) <= INT_MAX
  /\ size (UMesh.triangles m) <= INT_MAX /\ size (UMesh.quads m) <= INT_MAX
  /\ size (UMesh.tets m) <= INT_MAX /\ size (UMesh.pyrs m) <= INT_MAX
  /\ size (UMesh.wedges m) <= INT_MAX /\ size (UMesh.hexes m) <= INT_MAX
  /\ size (UMesh.grids m) <= INT_MAX /\ size (UMesh.gridScalars m) <= INT_MAX.

(** [A] followed by [B], not yet finalized: the vertices of both, one scalar
    per vertex under a fresh unnamed attribute, the elements of [A] unchanged
    followed by the elements of [B] with every vertex index increased by the
    number of vertices of [A], the grids of [B] rebased by the number of grid
    scalars of [A], and the grid scalars of both. *)
Definition concatenation (A B : UMesh.t) : UMesh.t :=
  let Na := size (UMesh.vertices A) in
  UMesh.mk (UMesh.vertices A ++ UMesh.vertices B)
           (Some (Attribute.mk ""
                    (take (length (UMesh.vertices A)) (primary_values A)
                     ++ take (length (UMesh.vertices B)) (primary_values B))
                    range1f_empty))
           []
           (UMesh.triangles A ++ map (vec3i_plus Na) (UMesh.triangles B))
           (UMesh.quads A ++ map (vec4i_plus Na) (UMesh.quads B))
           (UMesh.tets A ++ map (vec4i_plus Na) (UMesh.tets B))
           (UMesh.pyrs A ++ map (Pyr_plus Na) (UMesh.pyrs B))
           (UMesh.wedges A ++ map (Wedge_plus Na) (UMesh.wedges B))
           (UMesh.hexes A ++ map (Hex_plus Na) (UMesh.hexes B))
           (UMesh.grids A ++ map (Grid_rebase (size (UMesh.gridScalars A))) (UMesh.grids B))
           (UMesh.gridScalars A ++ UMesh.gridScalars B)
           [] box3f_empty range1f_empty.

(** An index that names one of [n] vertices. *)
Definition index_ok (n i : Z) : Prop := 0 <= i < n.

Definition vec3i_ok (n : Z) (v : vec3i) : Prop :=
  index_ok n (V3.x v) /\ index_ok n (V3.y v) /\ index_ok n (V3.z v).
Definition vec4i_ok (n : Z) (v : vec4i) : Prop :=
  index_ok n (V4.x v) /\ index_ok n (V4.y v) /\ index_ok n (V4.z v)
  /\ index_ok n (V4.w v).
Definition Pyr_ok (n : Z) (p : Pyr.t) : Prop :=
  vec4i_ok n (Pyr.base p) /\ index_ok n (Pyr.top p).
Definition Wedge_ok (n : Z) (p : Wedge.t) : Prop :=
  vec3i_ok n (Wedge.front p) /\ vec3i_ok n (Wedge.back p).
Definition Hex_ok (n : Z) (p : Hex.t) : Prop :=
  vec4i_ok n (Hex.base p) /\ vec4i_ok n (Hex.top p).

(** The scalars of a grid start inside a scalar array of [n] entries. *)
Definition Grid_ok (n : Z) (g : Grid.t) : Prop := 0 <= Grid.scalarsOffset g <= n.

(** Every element of the mesh names vertices of the mesh, and every grid
    scalars of the mesh. *)
Definition indices_valid (m : UMesh.t) : Prop :=
  let n := size (UMesh.vertices m) in
  Forall (vec3i_ok n) (UMesh.triangles m) /\ Forall (vec4i_ok n) (UMesh.quads m)
  /\ Forall (vec4i_ok n) (UMesh.tets m) /\ Forall (Pyr_ok n) (UMesh.pyrs m)
  /\ Forall (Wedge_ok n) (UMesh.wedges m) /\ Forall (Hex_ok n) (UMesh.hexes m)
  /\ Forall (Grid_ok (size (UMesh.gridScalars m))) (UMesh.grids m).

(** Every vertex of the mesh has a scalar in the primary attribute. *)
Definition scalars_cover (m : UMesh.t) : Prop :=
  UMesh.vertices m = [] \/ carries_values m.

(** The totals of the first loop of [mergeMeshes] in unbounded integers. *)
Definition counts_add (c : merge_counts) (m : UMesh.t) : merge_counts :=
  mk_counts (numVtx c + size (UMesh.vertices m))
            (numTri c + size (UMesh.triangles m))
            (numQud c + size (UMesh.quads m))
            (numTet c + size (UMesh.tets m))
            (numPyr c + size (UMesh.pyrs m))
            (numWdg c + size (UMesh.wedges m))
            (numHex c + size (UMesh.hexes m))
            (numGrd c + size (UMesh.grids m))
            (numGsc c + size (UMesh.gridScalars m)).

Definition counts_zero : merge_counts := mk_counts 0 0 0 0 0 0 0 0 0.

Definition merge_totals (inputs : list UMesh.t) : merge_counts :=
  fold_left counts_add inputs counts_zero.

Definition offsets_of (c : merge_counts) : merge_offsets :=
  mk_offsets (numVtx c) (numTri c) (numQud c) (numTet c) (numPyr c)
             (numWdg c) (numHex c) (numGrd c) (numGsc c).

(** The offsets of each input: the totals of the inputs before it. *)
Fixpoint offsets_from (c : merge_counts) (inputs : list UMesh.t) : list merge_offsets :=
  match inputs with
  | [] => []
  | m :: rest => offsets_of c :: offsets_from (counts_add c m) rest
  end.

Definition counts_le (c d : merge_counts) : Prop :=
  numVtx c <= numVtx d /\ numTri c <= numTri d /\ numQud c <= numQud d
  /\ numTet c <= numTet d /\ numPyr c <= numPyr d /\ numWdg c <= numWdg d
  /\ numHex c <= numHex d /\ numGrd c <= numGrd d /\ numGsc c <= numGsc d.

Definition counts_nonneg (c : merge_counts) : Prop := counts_le counts_zero c.

(** Every total can be held by an [int]. *)
Definition counts_fit (c : merge_counts) : Prop :=
  counts_le c (mk_counts INT_MAX INT_MAX INT_MAX INT_MAX INT_MAX INT_MAX INT_MAX
                         INT_MAX INT_MAX).

(** Counts without vertices are counts without elements that name vertices. *)
Definition elements_need_vertices (c : merge_counts) : Prop :=
  numVtx c = 0 ->
  numTri c = 0 /\ numQud c = 0 /\ numTet c = 0 /\ numPyr c = 0 /\ numWdg c = 0
  /\ numHex c = 0.

(** The output mesh during the second pass of [mergeMeshes]: every array has
    the length it was allocated with, and every element names vertices of
    the output. *)
Definition allocated_as (c : merge_counts) (out : UMesh.t) : Prop :=
  size (UMesh.vertices out) = numVtx c
  /\ (exists a, UMesh.perVertex out = Some a /\ Attribute.name a = ""
                /\ size (Attribute.values a) = numVtx c)
  /\ size (UMesh.triangles out) = numTri c /\ size (UMesh.quads out) = numQud c
  /\ size (UMesh.tets out) = numTet c /\ size (UMesh.pyrs out) = numPyr c
  /\ size (UMesh.wedges out) = numWdg c /\ size (UMesh.hexes out) = numHex c
  /\ size (UMesh.grids out) = numGrd c /\ size (UMesh.gridScalars out) = numGsc c
  /\ Forall (vec3i_ok (numVtx c)) (UMesh.triangles out)
  /\ Forall (vec4i_ok (numVtx c)) (UMesh.quads out)
  /\ Forall (vec4i_ok (numVtx c)) (UMesh.tets out)
  /\ Forall (Pyr_ok (numVtx c)) (UMesh.pyrs out)
  /\ Forall (Wedge_ok (numVtx c)) (UMesh.wedges out)
  /\ Forall (Hex_ok (numVtx c)) (UMesh.hexes out).

(** The slots of one input lie inside arrays allocated for the totals [c]. *)
Definition slots_inside (c : merge_counts) (io : UMesh.t * merge_offsets) : Prop :=
  let '(input, o) := io in
  indices_valid input /\ scalars_cover input
  /\ (0 <= vtxOffset o /\ vtxOffset o + size (UMesh.vertices input) <= numVtx c)
  /\ (0 <= triOffset o /\ triOffset o + size (UMesh.triangles input) <= numTri c)
  /\ (0 <= qudOffset o /\ qudOffset o + size (UMesh.quads input) <= numQud c)
  /\ (0 <= tetOffset o /\ tetOffset o + size (UMesh.tets input) <= numTet c)
  /\ (0 <= pyrOffset o /\ pyrOffset o + size (UMesh.pyrs input) <= numPyr c)
  /\ (0 <= wdgOffset o /\ wdgOffset o + size (UMesh.wedges input) <= numWdg c)
  /\ (0 <= hexOffset o /\ hexOffset o + size (UMesh.hexes input) <= numHex c)
  /\ (0 <= grdOffset o /\ grdOffset o + size (UMesh.grids input) <= numGrd c)
  /\ (0 <= gscOffset o /\ gscOffset o + size (UMesh.gridScalars input) <= numGsc c).

(** The primary attribute is the unnamed one the output of [mergeMeshes] is
    allocated with, holding one value per vertex. *)
Definition fresh_values (out : UMesh.t) : Prop :=
  exists vals, UMesh.perVertex out = Some (Attribute.mk "" vals range1f_empty)
               /\ size vals = size (UMesh.vertices out).

(** The count a queue entry holds for a brick: [(int)brick->prims.size()]. *)
Definition prim_count (b : Brick.t) : Z := to_int (size (Brick.prims b)).

(** The count of every entry is that of the brick it points to. *)
Definition counts_match (q : list entry) : Prop :=
  Forall (fun e => first e = prim_count (second e)) q.

(** Counts added field by field. *)
Definition counts_plus (c d : merge_counts) : merge_counts :=
  mk_counts (numVtx c + numVtx d) (numTri c + numTri d) (numQud c + numQud d)
            (numTet c + numTet d) (numPyr c + numPyr d) (numWdg c + numWdg d)
            (numHex c + numHex d) (numGrd c + numGrd d) (numGsc c + numGsc d).

(** The sizes of the arrays of a mesh. *)
Definition counts_of (m : UMesh.t) : merge_counts := counts_add counts_zero m.

(** The mesh [mergeMeshes] starts from when nothing is to be merged: no
    vertex, no element, and the unnamed attribute without values. *)
Definition merge_base : UMesh.t := merge_allocate counts_zero.

(** The inputs put one behind the other, not yet finalized. *)
Definition concatenation_of (inputs : list UMesh.t) : UMesh.t :=
  fold_left concatenation inputs merge_base.

(** A mesh under construction in [mergeMeshes]: the arrays of [acc], each
    followed by the value-initialised entries that [c] more entries take. *)
Definition padded (acc : UMesh.t) (c : merge_counts) : UMesh.t :=
  let zero3i := V3.mk 0 0 0 in
  let zero4i := V4.mk 0 0 0 0 in
  let zero3f := V3.mk F32.zero F32.zero F32.zero in
  let zero4f := V4.mk F32.zero F32.zero F32.zero F32.zero in
  UMesh.mk (UMesh.vertices acc ++ resize (numVtx c) zero3f)
           (Some (Attribute.mk "" (primary_values acc ++ resize (numVtx c) F32.zero)
                               range1f_empty))
           []
           (UMesh.triangles acc ++ resize (numTri c) zero3i)
           (UMesh.quads acc ++ resize (numQud c) zero4i)
           (UMesh.tets acc ++ resize (numTet c) zero4i)
           (UMesh.pyrs acc ++ resize (numPyr c) (Pyr.mk zero4i 0))
           (UMesh.wedges acc ++ resize (numWdg c) (Wedge.mk zero3i zero3i))
           (UMesh.hexes acc ++ resize (numHex c) (Hex.mk zero4i zero4i))
           (UMesh.grids acc ++ resize (numGrd c) (Grid.mk (Box.mk zero4f zero4f) zero3i 0))
           (UMesh.gridScalars acc ++ resize (numGsc c) F32.zero)
           [] box3f_empty range1f_empty.

(** A mesh as [concatenation] builds it: an unnamed attribute with one value
    per vertex, no attribute list, no tags, nothing computed yet. *)
Definition plain (m : UMesh.t) : Prop :=
  UMesh.perVertex m = Some (Attribute.mk "" (primary_values m) range1f_empty)
  /\ length (primary_values m) = length (UMesh.vertices m)
  /\ UMesh.attributes m = [] /\ UMesh.vertexTags m = []
  /\ UMesh.bounds m = box3f_empty /\ UMesh.gridsScalarRange m = range1f_empty.

(** Every triangle, quad, tet, pyramid, wedge and hex of the mesh names
    vertices of the mesh. *)
Definition names_own_vertices (m : UMesh.t) : Prop :=
  let n := size (UMesh.vertices m) in
  Forall (vec3i_ok n) (UMesh.triangles m) /\ Forall (vec4i_ok n) (UMesh.quads m)
  /\ Forall (vec4i_ok n) (UMesh.tets m) /\ Forall (Pyr_ok n) (UMesh.pyrs m)
  /\ Forall (Wedge_ok n) (UMesh.wedges m) /\ Forall (Hex_ok n) (UMesh.hexes m).

(** Two meshes hold the same vertices, elements, grids and grid scalars. *)
Definition same_geometry (m m' : UMesh.t) : Prop :=
  UMesh.vertices m' = UMesh.vertices m
  /\ UMesh.triangles m' = UMesh.triangles m /\ UMesh.quads m' = UMesh.quads m
  /\ UMesh.tets m' = UMesh.tets m /\ UMesh.pyrs m' = UMesh.pyrs m
  /\ UMesh.wedges m' = UMesh.wedges m /\ UMesh.hexes m' = UMesh.hexes m
  /\ UMesh.grids m' = UMesh.grids m /\ UMesh.gridScalars m' = UMesh.gridScalars m.

(** A decoded ugrid32 file whose element tuples have the length of their
    kind and name vertices of the file, each section and the vertex array
    short enough for an [int] to count. *)
Definition file_well_formed (f : ugrid32_file) : Prop :=
  let ok (arity : nat) (tuples : list (list Z)) :=
    size tuples <= INT_MAX
    /\ Forall (fun t => length t = arity /\ tuple_in_range (file_vertices f) t) tuples in
  size (file_vertices f) <= INT_MAX
  /\ ok 3%nat (file_tris f) /\ ok 4%nat (file_quads f) /\ ok 4%nat (file_tets f)
  /\ ok 5%nat (file_pyrs f) /\ ok 6%nat (file_prisms f) /\ ok 8%nat (file_hexes f).

(** The number of elements a file holds. *)
Definition file_elements (f : ugrid32_file) : Z :=
  size (file_tris f) + size (file_quads f) + size (file_tets f)
  + size (file_pyrs f) + size (file_prisms f) + size (file_hexes f).

(** A [float] that is a binary32 value: what a C++ [float] holds. *)
Definition binary32 (f : float) : Prop := valid_binary F32.prec F32.emax f = true.

Definition vec3f_binary32 (v : vec3f) : Prop :=
  binary32 (V3.x v) /\ binary32 (V3.y v) /\ binary32 (V3.z v).
Definition vec4f_binary32 (v : vec4f) : Prop :=
  binary32 (V4.x v) /\ binary32 (V4.y v) /\ binary32 (V4.z v) /\ binary32 (V4.w v).

(** An integer that an [int], and one that a [size_t], holds. *)
Definition is_int (i : Z) : Prop := INT_MIN <= i <= INT_MAX.
Definition is_size_t (n : Z) : Prop := 0 <= n < 2 ^ 64.

Definition vec3i_is_int (v : vec3i) : Prop :=
  is_int (V3.x v) /\ is_int (V3.y v) /\ is_int (V3.z v).
Definition vec4i_is_int (v : vec4i) : Prop :=
  is_int (V4.x v) /\ is_int (V4.y v) /\ is_int (V4.z v) /\ is_int (V4.w v).

(** The fields of a grid are values of their C++ types. *)
Definition Grid_machine (g : Grid.t) : Prop :=
  vec4f_binary32 (Box.lower (Grid.domain g)) /\ vec4f_binary32 (Box.upper (Grid.domain g))
  /\ vec3i_is_int (Grid.numCells g) /\ is_int (Grid.scalarsOffset g).

(** The name and the values of an attribute are ones a [std::string] and a
    [std::vector<float>] hold. *)
Definition Attribute_machine (a : Attribute.t) : Prop :=
  is_size_t (Z.of_nat (String.length (Attribute.name a)))
  /\ is_size_t (size (Attribute.values a))
  /\ Forall binary32 (Attribute.values a).

(** The attributes [writeTo] writes: the attribute list, or the primary
    attribute alone when the list is empty. *)
Definition saved_attributes (m : UMesh.t) : list Attribute.t :=
  match UMesh.perVertex m, UMesh.attributes m with
  | Some p, [] => [p]
  | _, attributes => attributes
  end.

(** Every float, grid, tag and saved attribute of the mesh is a value of
    its C++ type. *)
Definition machine_values (m : UMesh.t) : Prop :=
  Forall vec3f_binary32 (UMesh.vertices m)
  /\ Forall Attribute_machine (saved_attributes m)
  /\ Forall Grid_machine (UMesh.grids m)
  /\ Forall binary32 (UMesh.gridScalars m)
  /\ is_size_t (size (UMesh.vertexTags m))
  /\ Forall is_size_t (UMesh.vertexTags m).

(** An element that is read back from its raw bytes. *)
Definition reads_back {T} `{Raw T} (e : T) : Prop :=
  length (to_raw e) = raw_size /\ of_raw (to_raw e) = e.

(** An attribute as [readFrom] builds it from its name and values. *)
Definition Attribute_as_read (a : Attribute.t) : Attribute.t :=
  Attribute.finalize (Attribute.mk (Attribute.name a) (Attribute.values a) range1f_empty).

(** The mesh [readFrom] holds when it has read a stream [writeTo] wrote for
    [m], before it calls [finalize]: the saved attributes rebuilt, the
    first of them as primary attribute. *)
Definition as_read (m : UMesh.t) : UMesh.t :=
  let attrs := map Attribute_as_read (saved_attributes m) in
  UMesh.mk (UMesh.vertices m) (head attrs) attrs (UMesh.triangles m) (UMesh.quads m)
           (UMesh.tets m) (UMesh.pyrs m) (UMesh.wedges m) (UMesh.hexes m) (UMesh.grids m)
           (UMesh.gridScalars m) (UMesh.vertexTags m) box3f_empty range1f_empty.

(** The values of the first attribute [writeTo] writes, if there is one. *)
Definition stored_values (m : UMesh.t) : list float :=
  match saved_attributes m with
  | a :: _ => Attribute.values a
  | [] => []
  end.

(** Two meshes hold the same vertices, triangles, quads, tets, pyramids,
    wedges and hexes. *)
Definition same_elements (m m' : UMesh.t) : Prop :=
  UMesh.vertices m' = UMesh.vertices m
  /\ UMesh.triangles m' = UMesh.triangles m /\ UMesh.quads m' = UMesh.quads m
  /\ UMesh.tets m' = UMesh.tets m /\ UMesh.pyrs m' = UMesh.pyrs m
  /\ UMesh.wedges m' = UMesh.wedges m /\ UMesh.hexes m' = UMesh.hexes m.

(** [m'] holds the attributes [attrs], by name and values, as its attribute
    list, and the first of them as its primary attribute. *)
Definition holds_attributes (attrs : list Attribute.t) (m' : UMesh.t) : Prop :=
  map Attribute.name (UMesh.attributes m') = map Attribute.name attrs
  /\ map Attribute.values (UMesh.attributes m') = map Attribute.values attrs
  /\ option_map Attribute.name (UMesh.perVertex m')
     = option_map Attribute.name (head attrs)
  /\ option_map Attribute.values (UMesh.perVertex m')
     = option_map Attribute.values (head attrs).

(** [m'] is what a stream gives that holds the vertices and elements of
    [m], the attributes [attrs], the grids and grid scalars of [m] when the
    format has that section, and the vertex tags of [m] when the stream has
    that section: what a missing section would give is empty. *)
Definition loaded_from (m : UMesh.t) (hasGrids tagged : bool)
    (attrs : list Attribute.t) (m' : UMesh.t) : Prop :=
  same_elements m m'
  /\ UMesh.grids m' = (if hasGrids then UMesh.grids m else [])
  /\ UMesh.gridScalars m' = (if hasGrids then UMesh.gridScalars m else [])
  /\ UMesh.vertexTags m' = (if tagged then UMesh.vertexTags m else [])
  /\ holds_attributes attrs m'.

(** [m] without what a stream leaves out: the grids and grid scalars when
    the format has no such section, the vertex tags when the stream ends
    before them. *)
Definition held (hasGrids tagged : bool) (m : UMesh.t) : UMesh.t :=
  UMesh.mk (UMesh.vertices m) (UMesh.perVertex m) (UMesh.attributes m)
           (UMesh.triangles m) (UMesh.quads m) (UMesh.tets m) (UMesh.pyrs m)
           (UMesh.wedges m) (UMesh.hexes m)
           (if hasGrids then UMesh.grids m else [])
           (if hasGrids then UMesh.gridScalars m else [])
           (if tagged then UMesh.vertexTags m else [])
           (UMesh.bounds m) (UMesh.gridsScalarRange m).

(** The one attribute of the oldest format: values without a name. *)
Definition unnamed_attribute (m : UMesh.t) : Attribute.t :=
  Attribute.mk "" (stored_values m) range1f_empty.

(** [m] as the oldest format holds it: no grids, one unnamed attribute. *)
Definition held_566 (tagged : bool) (m : UMesh.t) : UMesh.t :=
  UMesh.set_attributes []
    (UMesh.set_perVertex (Some (unnamed_attribute m)) (held false tagged m)).

(** The mesh the importer has built from a file when it calls [finalize]:
    the vertices and scalars of the file, and of every section the tuples
    that are not degenerate, counted from 0. *)
Definition imported (f : ugrid32_file) : UMesh.t :=
  let vs := file_vertices f in
  UMesh.mk vs
           (option_map (fun vals => Attribute.finalize (Attribute.mk "" vals range1f_empty))
                       (file_scalars f))
           []
           (map (fun t => make_triangle (minus_one t)) (kept vs (file_tris f)))
           (map (fun t => make_quad (minus_one t)) (kept vs (file_quads f)))
           (map (fun t => make_quad (minus_one t)) (kept vs (file_tets f)))
           (map (fun t => make_pyr (minus_one t)) (kept vs (file_pyrs f)))
           (map (fun t => make_wedge (minus_one t)) (kept vs (file_prisms f)))
           (map (fun t => make_hex (minus_one t)) (kept vs (file_hexes f)))
           [] [] [] box3f_empty range1f_empty.

(** The statics of [notDegenerate] after the six sections of a file. *)
Definition stats_after_file (f : ugrid32_file) (st : degen_stats) : degen_stats :=
  let vs := file_vertices f in
  stats_after vs (file_hexes f)
    (stats_after vs (file_prisms f)
       (stats_after vs (file_pyrs f)
          (stats_after vs (file_tets f)
             (stats_after vs (file_quads f) (stats_after vs (file_tris f) st))))).

(** The positions and scalars of a decoded ugrid32 file are [float]s, one
    scalar per vertex. *)
Definition file_machine_values (f : ugrid32_file) : Prop :=
  Forall vec3f_binary32 (file_vertices f)
  /\ match file_scalars f with
     | Some vals => length vals = length (file_vertices f) /\ Forall binary32 vals
     | None => True
     end.

(** The mesh with [scalars] as the values of a new, unnamed primary
    attribute. *)
Definition rescored (m : UMesh.t) (scalars : list float) : UMesh.t :=
  UMesh.set_perVertex (Some (Attribute.mk "" scalars range1f_empty)) m.

(** The scalars of the grids lie one grid behind the other and fill the
    scalar array from [off] up to [total]: every grid starts where the one
    before it ends, with its start stored as an [int]. *)
Fixpoint laid_out (off : Z) (grids : list Grid.t) (total : Z) : Prop :=
  match grids with
  | [] => off = total
  | g :: grids' =>
      Grid.scalarsOffset g = to_int off
      /\ exists k, numScalars g = Ok k /\ laid_out (off + k) grids' total
  end.

(** A grid of at least one and at most [brickSize-1] cells along each axis. *)
Definition brick_sized (g : Grid.t) : Prop :=
  1 <= V3.x (Grid.numCells g) <= brickSize - 1
  /\ 1 <= V3.y (Grid.numCells g) <= brickSize - 1
  /\ 1 <= V3.z (Grid.numCells g) <= brickSize - 1.

(** A mesh of grids only: no vertex, no element of another kind. *)
Definition only_grids (m : UMesh.t) : Prop :=
  UMesh.vertices m = [] /\ UMesh.triangles m = [] /\ UMesh.quads m = []
  /\ UMesh.tets m = [] /\ UMesh.pyrs m = [] /\ UMesh.wedges m = []
  /\ UMesh.hexes m = [].

(** The number of bricks along an axis of [d] samples: one per
    [brickSize-1] cells, the last one as short as it has to be. *)
Definition bricks_along (d : Z) : Z := (d + (brickSize - 3)) / (brickSize - 1).

(** The dimensions of a volume that [rawToGrids] walks without leaving the
    [int] range, and holds in one vector. *)
Definition dims_ok (dims : vec3i) : Prop :=
  1 <= V3.x dims <= INT_MAX - (brickSize - 3)
  /\ 1 <= V3.y dims <= INT_MAX - (brickSize - 3)
  /\ 1 <= V3.z dims <= INT_MAX - (brickSize - 3)
  /\ V3.x dims * V3.y dims * V3.z dims <= vector_float_max_size.

(** A mesh with an element that is not a grid: one that names vertices. *)
Definition has_indexed_element (m : UMesh.t) : Prop :=
  UMesh.tets m <> [] \/ UMesh.pyrs m <> [] \/ UMesh.wedges m <> []
  \/ UMesh.hexes m <> [] \/ UMesh.triangles m <> [] \/ UMesh.quads m <> [].

(** The elements of all the meshes together. *)
Definition total_size (inputs : list UMesh.t) : Z :=
  fold_right Z.add 0 (map UMesh.size inputs).

(** [j] is the last vertex that carries the tag [t]. *)
Definition last_with_tag (vertexTags : list Z) (t : Z) (j : nat) : Prop :=
  vertexTags !! j = Some t /\ forall j', (j < j')%nat -> vertexTags !! j' <> Some t.

(** The scalars of a time step with their global vertex IDs, rank after
    rank. *)
Definition tagged_scalars (ranks : list (list Z * list float)) : list (Z * float) :=
  flat_map (fun '(globalVertexIDs, scalars) => zip globalVertexIDs scalars) ranks.

(** The values after a run over tagged scalars, each stored at the vertex
    the map gives for its tag. *)
Definition scattered (requested : gmap Z Z) (pairs : list (Z * float))
    (values : list float) : list float :=
  fold_left (fun vals '(tag, s) =>
               match requested !! tag with
               | Some j => <[Z.to_nat j := s]> vals
               | None => vals
               end) pairs values.

(** The targets of the tagged scalars lie inside [n] values. *)
Definition targets_inside (requested : gmap Z Z) (pairs : list (Z * float)) (n : nat)
  : Prop :=
  Forall (fun p => forall k, requested !! fst p = Some k -> 0 <= k < Z.of_nat n) pairs.

(** A section breaks off: its first tuple that does not name vertices of
    the file holds, behind entries that do, an entry that is 0 or above
    2^31, which no [int] holds once it is counted from 0. *)
Definition breaks_off (vertices : list vec3f) (tuples : list (list Z)) : Prop :=
  exists good pre e post rest,
    tuples = good ++ (pre ++ e :: post) :: rest
    /\ Forall (tuple_in_range vertices) good
    /\ tuple_in_range vertices pre
    /\ (e = 0 \/ 2 ^ 31 < e < 2 ^ 32).

(** The sections of a ugrid32 file in the order they are read. *)
Definition file_sections (f : ugrid32_file) : list (list (list Z)) :=
  [file_tris f; file_quads f; file_tets f; file_pyrs f; file_prisms f; file_hexes f].

(** The brick of the grid starts at the sample [(ix, iy, iz)] of the
    volume: the corners of its domain are that sample and the one
    [numCells] further. *)
Definition brick_at (g : Grid.t) (ix iy iz : Z) : Prop :=
  let lo := Box.lower (Grid.domain g) in
  let hi := Box.upper (Grid.domain g) in
  V4.x lo = F32.of_Z ix /\ V4.y lo = F32.of_Z iy /\ V4.z lo = F32.of_Z iz
  /\ V4.x hi = F32.of_Z (ix + V3.x (Grid.numCells g))
  /\ V4.y hi = F32.of_Z (iy + V3.y (Grid.numCells g))
  /\ V4.z hi = F32.of_Z (iz + V3.z (Grid.numCells g)).

(** The grid scalars from [off] on are the samples of the volume at the
    lattice points of the brick of [g] that starts at [(ix, iy, iz)], with
    x running fastest, then y, then z. *)
Definition samples_of_brick (dims : vec3i) (scalars gridScalars : list float) (off : Z)
    (g : Grid.t) (ix iy iz : Z) : Prop :=
  forall a b c,
    0 <= a <= V3.x (Grid.numCells g) -> 0 <= b <= V3.y (Grid.numCells g) ->
    0 <= c <= V3.z (Grid.numCells g) ->
    exists v,
      scalars !! Z.to_nat (sample_index dims (ix + a) (iy + b) (iz + c)) = Some v
      /\ gridScalars
           !! Z.to_nat (off + (a + (V3.x (Grid.numCells g) + 1)
                                    * (b + (V3.y (Grid.numCells g) + 1) * c)))
         = Some v.

(** Grid after grid, from [off] on, the grid scalars are the samples of the
    bricks of the grids. *)
Fixpoint grids_hold_samples (dims : vec3i) (scalars gridScalars : list float) (off : Z)
    (grids : list Grid.t) : Prop :=
  match grids with
  | [] => True
  | g :: grids' =>
      (exists ix iy iz,
          brick_at g ix iy iz /\ samples_of_brick dims scalars gridScalars off g ix iy iz)
      /\ exists k, numScalars g = Ok k
                   /\ grids_hold_samples dims scalars gridScalars (off + k) grids'
  end.

(** The lattice points of a brick in the order the three inner loops of
    [rawToGrids] visit them. *)
Definition lattice (xs ys zs : list Z) : list (Z * Z * Z) :=
  flat_map (fun z => flat_map (fun y => map (fun x => (x, y, z)) xs) ys) zs.

(* ===================================================================== *)
(** ** Example inputs *)
(* ===================================================================== *)

(** Addresses handed out by [new Brick] in the examples. *)
Definition example_address (n : nat) : Z := 4096 + 64 * Z.of_nat n.

Definition vertex_of (x y z : Z) : vec3f := V3.mk (F32.of_Z x) (F32.of_Z y) (F32.of_Z z).

(** Two triangles, one in the plane x = 0 and one in the plane x = 1. *)
Definition two_triangles : UMesh.t :=
  UMesh.set_triangles [V3.mk 0 1 2; V3.mk 3 4 5]
    (UMesh.set_vertices [vertex_of 0 0 0; vertex_of 0 4 0; vertex_of 0 0 1;
                         vertex_of 1 0 0; vertex_of 1 4 0; vertex_of 1 0 1]
       UMesh.empty).

Definition two_triangles_partition : partition_result :=
  Eval vm_compute in
    match partitionObjectSpace example_address two_triangles 2 1 with
    | Some (Ok r) => r
    | _ => mk_result [] 0
    end.

(** The same two triangles, stretched to a length of 2^110 along y. *)
Definition long_triangles : UMesh.t :=
  UMesh.set_triangles [V3.mk 0 1 2; V3.mk 3 4 5]
    (UMesh.set_vertices [vertex_of 0 0 0; vertex_of 0 (2 ^ 110) 0; vertex_of 0 0 1;
                         vertex_of 1 0 0; vertex_of 1 (2 ^ 110) 0; vertex_of 1 0 1]
       UMesh.empty).

(** The brick [createInitialBrick] builds for [long_triangles]: the centres
    of its two prims are (0, 2^109, 0.5) and (1, 2^109, 0.5). *)
Definition long_brick : Brick.t :=
  Brick.mk [PrimRef.mk TRI 0; PrimRef.mk TRI 1]
           (Box.mk (vertex_of 0 0 0) (vertex_of 1 (2 ^ 110) 1))
           (Box.mk (V3.mk (F32.of_Z 0) (F32.of_Z (2 ^ 109)) F32.lit_0_5)
                   (V3.mk (F32.of_Z 1) (F32.of_Z (2 ^ 109)) F32.lit_0_5)).

(** A tetrahedron with a scalar per vertex, a triangle on one of its faces
    and a grid of one cell with its eight scalars. *)
Definition mesh_A : UMesh.t :=
  UMesh.mk [vertex_of 0 0 0; vertex_of 1 0 0; vertex_of 0 1 0; vertex_of 0 0 1]
           (Some (Attribute.mk "pressure"
                    [F32.of_Z 1; F32.of_Z 2; F32.of_Z 3; F32.of_Z 4] range1f_empty))
           []
           [V3.mk 0 1 2] [] [V4.mk 0 1 2 3] [] [] []
           [Grid.mk (Box.mk (V4.mk (F32.of_Z 0) (F32.of_Z 0) (F32.of_Z 0) (F32.of_Z 1))
                            (V4.mk (F32.of_Z 1) (F32.of_Z 1) (F32.of_Z 1) (F32.of_Z 8)))
                    (V3.mk 1 1 1) 0]
           (map F32.of_Z [1; 2; 3; 4; 5; 6; 7; 8])
           [] box3f_empty range1f_empty.

(** A pyramid over a quad, with a scalar per vertex, and a grid of its own. *)
Definition mesh_B : UMesh.t :=
  UMesh.mk [vertex_of 2 0 0; vertex_of 3 0 0; vertex_of 3 1 0; vertex_of 2 1 0;
            vertex_of 2 0 1]
           (Some (Attribute.mk "pressure"
                    [F32.of_Z 5; F32.of_Z 6; F32.of_Z 7; F32.of_Z 8; F32.of_Z 9]
                    range1f_empty))
           []
           [] [V4.mk 0 1 2 3] [] [Pyr.mk (V4.mk 0 1 2 3) 4] [] []
           [Grid.mk (Box.mk (V4.mk (F32.of_Z 2) (F32.of_Z 0) (F32.of_Z 0) (F32.of_Z 1))
                            (V4.mk (F32.of_Z 3) (F32.of_Z 1) (F32.of_Z 1) (F32.of_Z 8)))
                    (V3.mk 1 1 1) 0]
           (map F32.of_Z [8; 7; 6; 5; 4; 3; 2; 1])
           [] box3f_empty range1f_empty.

Definition mesh_AB : UMesh.t :=
  Eval vm_compute in
    match mergeMeshes [mesh_A; mesh_B] with
    | Ok m => m
    | _ => UMesh.empty
    end.

(** The scenario of the spec: four vertices, the tetrahedron (0,1,2,3) and a
    second one, (0,1,1,3), that repeats a vertex; a ugrid32 file counts the
    vertices from 1. *)
Definition tet_scenario : ugrid32_file :=
  mk_ugrid32 [vertex_of 0 0 0; vertex_of 1 0 0; vertex_of 0 1 0; vertex_of 0 0 1]
             None [] [] [[1; 2; 3; 4]; [1; 2; 2; 4]] [] [] [].

(** A mesh of [INT_MAX + 1] vertices and nothing else. *)
Definition crowded_mesh : UMesh.t :=
  UMesh.set_vertices (replicate (Z.to_nat (INT_MAX + 1)) (vertex_of 0 0 0)) UMesh.empty.

(** The mesh [replaceScalarField] holds when it saves its result: [mesh_A]
    as loaded from a file, then given a new primary attribute, then
    finalized. *)
Definition mesh_A_loaded : UMesh.t :=
  Eval vm_compute in
    match loadFrom (writeTo mesh_A) with
    | Ok m => m
    | _ => UMesh.empty
    end.

Definition new_scalars : list float := map F32.of_Z [10; 20; 30; 40].

Definition mesh_A_rescored : UMesh.t :=
  Eval vm_compute in
    match UMesh.finalize
            (UMesh.set_perVertex
               (Some (Attribute.finalize (Attribute.mk "" new_scalars range1f_empty)))
               mesh_A_loaded) with
    | Ok m => m
    | _ => UMesh.empty
    end.

(** A mesh with two per-vertex attributes, the first of them primary. *)
Definition mesh_two_attributes : UMesh.t :=
  Eval vm_compute in
    match UMesh.finalize
            (UMesh.set_attributes
               [Attribute.mk "pressure" (map F32.of_Z [1; 2; 3; 4]) range1f_empty;
                Attribute.mk "density" (map F32.of_Z [5; 6; 7; 8]) range1f_empty]
               mesh_A) with
    | Ok m => m
    | _ => UMesh.empty
    end.

(** Modelled from the spec: no writer of the two older formats is among the
    sources.  The spec gives their layouts: the oldest has no attribute
    name, no per-element attribute count and no grids section (vertices, one
    unnamed attribute, triangles, quads, tets, pyramids, wedges, hexes,
    optional tags); the middle one is the current layout without the grids
    section.  In every format the stream may end before the vertex tags. *)
Definition tags_section (tagged : bool) (m : UMesh.t) : list byte :=
  if tagged then writeVector (UMesh.vertexTags m) else [].

(** What the oldest format holds behind the magic. *)
Definition sections_566 (tagged : bool) (m : UMesh.t) : list byte :=
  writeVector (UMesh.vertices m)
  ++ writeVector (stored_values m)
  ++ writeVector (UMesh.triangles m)
  ++ writeVector (UMesh.quads m)
  ++ writeVector (UMesh.tets m)
  ++ writeVector (UMesh.pyrs m)
  ++ writeVector (UMesh.wedges m)
  ++ writeVector (UMesh.hexes m)
  ++ tags_section tagged m.

Definition stream_566 (m : UMesh.t) (tagged : bool) : list byte :=
  writeElement bum_magic_566 ++ sections_566 tagged m.

(** What the two later formats hold behind the magic. *)
Definition format_sections (hasGrids tagged : bool) (m : UMesh.t) : list byte :=
  writeVector (UMesh.vertices m)
  ++ writeElement (size (saved_attributes m))
  ++ flat_map writeAttribute (saved_attributes m)
  ++ writeElement 0
  ++ writeVector (UMesh.triangles m)
  ++ writeVector (UMesh.quads m)
  ++ writeVector (UMesh.tets m)
  ++ writeVector (UMesh.pyrs m)
  ++ writeVector (UMesh.wedges m)
  ++ writeVector (UMesh.hexes m)
  ++ (if hasGrids
      then writeVector (UMesh.grids m) ++ writeVector (UMesh.gridScalars m)
           ++ tags_section tagged m
      else tags_section tagged m).

Definition stream_567 (m : UMesh.t) (tagged : bool) : list byte :=
  writeElement bum_magic_old ++ format_sections false tagged m.

Definition stream_568 (m : UMesh.t) (tagged : bool) : list byte :=
  writeElement bum_magic ++ format_sections true tagged m.

(** The current layout behind a magic that no format has. *)
Definition stream_unknown (m : UMesh.t) : list byte :=
  writeElement 0x234235569 ++ drop 8 (writeTo m).

(** A file with a vertex that has a NaN coordinate, and a tetrahedron that
    names that vertex twice: (0,1,3,3), counted from 1 in the file. *)
Definition nan_scenario : ugrid32_file :=
  mk_ugrid32 [vertex_of 0 0 0; vertex_of 1 0 0; vertex_of 0 1 0;
              V3.mk S754_nan (F32.of_Z 1) (F32.of_Z 1)]
             None [] [] [[1; 2; 4; 4]] [] [] [].

(** The run on [two_triangles] that asks for five bricks with a leaf
    threshold of two prims. *)
Definition two_triangles_leaves : partition_result :=
  Eval vm_compute in
    match partitionObjectSpace example_address two_triangles 5 2 with
    | Some (Ok r) => r
    | _ => mk_result [] 0
    end.

(** The brick [createInitialBrick] builds for [two_triangles], and the two
    bricks [split] makes of it. *)
Definition two_triangles_brick : Brick.t :=
  Eval vm_compute in
    match createInitialBrick example_address two_triangles with
    | Ok st => match bricks st with e :: _ => second e | [] => Brick.new end
    | _ => Brick.new
    end.

Definition two_triangles_halves : Brick.t * Brick.t :=
  Eval vm_compute in
    match split two_triangles two_triangles_brick with
    | Ok halves => halves
    | _ => (Brick.new, Brick.new)
    end.

(** Three meshes merged: [mesh_A], [mesh_B] and [mesh_A] as loaded from a
    file, with its attribute list. *)
Definition mesh_ABA : UMesh.t :=
  Eval vm_compute in
    match mergeMeshes [mesh_A; mesh_B; mesh_A_loaded] with
    | Ok m => m
    | _ => UMesh.empty
    end.

(** [mesh_B] appended to [mesh_A]. *)
Definition mesh_A_then_B : UMesh.t :=
  Eval vm_compute in
    match append mesh_A mesh_B with
    | Ok m => m
    | _ => UMesh.empty
    end.

(** [mesh_B] without its quad, appended to [mesh_A] and merged with it. *)
Definition mesh_B_volume : UMesh.t := UMesh.set_quads [] mesh_B.

Definition mesh_A_then_B_volume : UMesh.t :=
  Eval vm_compute in
    match append mesh_A mesh_B_volume with
    | Ok m => m
    | _ => UMesh.empty
    end.

Definition mesh_A_and_B_volume : UMesh.t :=
  Eval vm_compute in
    match mergeMeshes [mesh_A; mesh_B_volume] with
    | Ok m => m
    | _ => UMesh.empty
    end.

(** [mesh_A] finalized. *)
Definition mesh_A_finalized : UMesh.t :=
  Eval vm_compute in
    match UMesh.finalize mesh_A with
    | Ok m => m
    | _ => UMesh.empty
    end.

(** The file [replaceScalarField] saves for [mesh_A] as loaded and the new
    scalars. *)
Definition mesh_A_rescored_file : list byte :=
  Eval vm_compute in
    match replaceScalarField "in.umesh" "new.floats" mesh_A_loaded new_scalars with
    | Ok file => file
    | _ => []
    end.

(** A volume of 9 x 2 x 2 samples of one byte each, and the mesh of its
    two grids. *)
Definition volume_9_2_2 : list byte := map (fun _ => Byte.x01) (seq 0 36).

Definition grids_9_2_2 : UMesh.t :=
  Eval vm_compute in
    match rawToGrids_grids UINT8 (V3.mk 9 2 2) volume_9_2_2 with
    | Ok mesh => mesh
    | _ => UMesh.empty
    end.

(** What [exportBBs] writes for [mesh_A] and [mesh_B]. *)
Definition bbs_of_A_and_B : list byte :=
  Eval vm_compute in
    match exportBBs [mesh_A; mesh_B] with
    | Ok out => out
    | _ => []
    end.

(** [mesh_A] without its scalars. *)
Definition mesh_A_bare : UMesh.t := UMesh.set_perVertex None mesh_A.

(** Three vertices, the first and the last with the same tag, no scalar
    set yet; and a rank with a scalar for each of the two tags. *)
Definition tags_5_7_5 : list Z := [5; 7; 5].

Definition mesh_three_zeros : UMesh.t :=
  UMesh.set_perVertex (Some (Attribute.make 3)) UMesh.empty.

Definition rank_5_7 : list (list Z * list float) :=
  [([5; 7], [F32.of_Z 10; F32.of_Z 20])].

Definition mesh_three_scattered : UMesh.t :=
  Eval vm_compute in
    match extract_time_step (requestedVertices tags_5_7_5) rank_5_7 mesh_three_zeros with
    | Ok mesh => mesh
    | _ => UMesh.empty
    end.

(** The four vertices of the scenario, a tetrahedron, and a second one
    with the index 0 where a ugrid32 file counts from 1. *)
Definition zero_index_scenario : ugrid32_file :=
  mk_ugrid32 [vertex_of 0 0 0; vertex_of 1 0 0; vertex_of 0 1 0; vertex_of 0 0 1]
             None [] [] [[1; 2; 3; 4]; [1; 2; 0; 4]] [] [] [].

(* ===================================================================== *)
(** * Properties *)
(* ===================================================================== *)

(** ** Loops *)

Lemma bind_Ok {A B} (c : outcome A) (k : A -> outcome B) b :
  bind c k = Ok b -> exists a, c = Ok a /\ k a = Ok b.
Proof. destruct c; simpl; intros H; try discriminate. eauto. Qed.

Lemma foldM_app {A S} (body : S -> A -> outcome S) l1 l2 s :
  foldM body (l1 ++ l2) s = bind (foldM body l1 s) (foldM body l2).
Proof.
  revert s. induction l1 as [|a l1 IH]; intros s; simpl; [reflexivity|].
  destruct (body s a); simpl; auto.
Qed.

(** A property kept by every turn is kept by the loop. *)
Lemma foldM_invariant {A S} (P : S -> Prop) (body : S -> A -> outcome S) l :
  (forall s a s', In a l -> P s -> body s a = Ok s' -> P s') ->
  forall s s', P s -> foldM body l s = Ok s' -> P s'.
Proof.
  induction l as [|a l IH]; intros Hbody s s' Hs H; simpl in H.
  - congruence.
  - apply bind_Ok in H as (s1 & H1 & H2).
    eapply IH; [| |exact H2].
    + intros; eapply Hbody; eauto; now right.
    + eapply Hbody; eauto; now left.
Qed.

(** A loop whose turns all return does return. *)
Lemma foldM_returns {A S} (P : S -> Prop) (body : S -> A -> outcome S) l :
  (forall s a, In a l -> P s -> exists s', body s a = Ok s' /\ P s') ->
  forall s, P s -> exists s', foldM body l s = Ok s' /\ P s'.
Proof.
  induction l as [|a l IH]; intros Hbody s Hs; simpl.
  - eauto.
  - destruct (Hbody s a) as (s1 & H1 & P1); [now left|exact Hs|].
    rewrite H1; simpl. apply IH; [|exact P1].
    intros; apply Hbody; [now right|assumption].
Qed.

Lemma In_slice {A} (b e : nat) (v : list A) x : In x (slice b e v) -> In x v.
Proof.
  unfold slice. intros H.
  apply list_elem_of_In in H. apply list_elem_of_In.
  now apply (subseteq_drop b v), (subseteq_take (e - b)).
Qed.

Lemma blocks_bounds n bs b e : In (b, e) (blocks n bs) -> (e <= n)%nat.
Proof.
  unfold blocks. intros H. apply in_map_iff in H as (k & Hk & _).
  inversion Hk; subst. apply Nat.le_min_l.
Qed.

Lemma for_blocked_invariant {S} (P : S -> Prop) n bs (body : nat -> nat -> S -> outcome S) :
  (forall b e s s', (e <= n)%nat -> P s -> body b e s = Ok s' -> P s') ->
  forall s s', P s -> for_blocked n bs body s = Ok s' -> P s'.
Proof.
  intros Hbody s s' Hs H. unfold for_blocked in H.
  eapply (foldM_invariant P); [|exact Hs|exact H].
  intros s0 [b e] s1 Hin P0 H0.
  exact (Hbody b e s0 s1 (blocks_bounds _ _ _ _ Hin) P0 H0).
Qed.

Lemma for_blocked_returns {S} (P : S -> Prop) n bs (body : nat -> nat -> S -> outcome S) :
  (forall b e s, (e <= n)%nat -> P s -> exists s', body b e s = Ok s' /\ P s') ->
  forall s, P s -> exists s', for_blocked n bs body s = Ok s' /\ P s'.
Proof.
  intros Hbody s Hs. unfold for_blocked.
  apply (foldM_returns P); [|exact Hs].
  intros s0 [b e] Hin P0.
  exact (Hbody b e s0 (blocks_bounds _ _ _ _ Hin) P0).
Qed.

(** ** The partitioner *)

Lemma split_assign_spec mesh dim pos b0 b1 p o :
  split_assign mesh dim pos (b0, b1) p = Ok o ->
  exists s, split_side mesh dim pos p = Ok s
    /\ Brick.prims (fst o) = Brick.prims b0 ++ (if s then [] else [p])
    /\ Brick.prims (snd o) = Brick.prims b1 ++ (if s then [p] else []).
Proof.
  unfold split_assign, split_side.
  destruct (UMesh.getBounds mesh p) as [pb| |]; simpl; try discriminate.
  destruct (V3.get (box3f_center pb) dim) as [c| |]; simpl; try discriminate.
  destruct (F32.ltb c pos); intros H; inversion H; subst; simpl.
  - exists false. now rewrite app_nil_r.
  - exists true. now rewrite app_nil_r.
Qed.

Lemma split_assign_loop mesh dim pos l : forall b0 b1 o,
  foldM (split_assign mesh dim pos) l (b0, b1) = Ok o ->
  Brick.prims (fst o) = Brick.prims b0 ++ List.filter (on_side mesh dim pos false) l
  /\ Brick.prims (snd o) = Brick.prims b1 ++ List.filter (on_side mesh dim pos true) l
  /\ Forall (fun p => on_side mesh dim pos false p = negb (on_side mesh dim pos true p)) l.
Proof.
  induction l as [|p l IH]; intros b0 b1 o H; simpl in H.
  - inversion H; subst; simpl. rewrite !app_nil_r. auto.
  - apply bind_Ok in H as ([o0 o1] & H1 & H2).
    apply split_assign_spec in H1 as (s & Hs & E0 & E1). simpl in E0, E1.
    apply IH in H2 as (F0 & F1 & F2).
    assert (on_side mesh dim pos false p = negb s /\ on_side mesh dim pos true p = s)
      as [L R] by (unfold on_side; rewrite Hs; now destruct s).
    rewrite F0, F1, E0, E1. simpl. rewrite L, R.
    destruct s; simpl; rewrite <- ?app_assoc; simpl; repeat split; auto;
      constructor; auto; rewrite L, R; reflexivity.
Qed.

Lemma filter_sides_Permutation {A} (f g : A -> bool) l :
  Forall (fun p => f p = negb (g p)) l ->
  Permutation (List.filter f l ++ List.filter g l) l.
Proof.
  induction 1 as [|p l Hp _ IH]; simpl; [constructor|].
  rewrite Hp. destruct (g p); simpl.
  - apply Permutation_sym, Permutation_cons_app, Permutation_sym, IH.
  - now constructor.
Qed.

(** [split] hands every prim of its brick to exactly one of the two bricks
    it returns: each gets the prims of one side of the chosen plane, in
    their order. *)
Lemma split_spec mesh in_ out0 out1 :
  split mesh in_ = Ok (out0, out1) ->
  exists dim pos,
    Brick.prims out0 = List.filter (on_side mesh dim pos false) (Brick.prims in_)
    /\ Brick.prims out1 = List.filter (on_side mesh dim pos true) (Brick.prims in_)
    /\ Forall (fun p => on_side mesh dim pos false p = negb (on_side mesh dim pos true p))
              (Brick.prims in_).
Proof.
  unfold split. destruct (vec3f_eqb _ _); [discriminate|]. intros H.
  apply bind_Ok in H as (best & _ & H).
  exists (bestDim best), (bestPos best).
  now apply split_assign_loop in H.
Qed.

Lemma split_Permutation mesh in_ out0 out1 :
  split mesh in_ = Ok (out0, out1) ->
  Permutation (Brick.prims out0 ++ Brick.prims out1) (Brick.prims in_).
Proof.
  intros H. apply split_spec in H as (dim & pos & -> & -> & F).
  now apply filter_sides_Permutation.
Qed.

Lemma top_pop_Permutation q : forall m rest,
  top_pop q = Some (m, rest) -> Permutation q (m :: rest).
Proof.
  induction q as [|e q IH]; intros m rest H; simpl in H; [discriminate|].
  destruct (top_pop q) as [[m' rest']|] eqn:E.
  - specialize (IH _ _ eq_refl).
    destruct (entry_ltb m' e); inversion H; subst; [reflexivity|].
    eapply perm_trans; [apply perm_skip, IH|apply perm_swap].
  - destruct q; [|simpl in E; destruct (top_pop q) as [[? ?]|]; [destruct (entry_ltb _ _)|]; discriminate].
    inversion H; subst. reflexivity.
Qed.

Lemma top_pop_nonempty e q : exists m rest, top_pop (e :: q) = Some (m, rest).
Proof.
  simpl. destruct (top_pop q) as [[m rest]|]; [destruct (entry_ltb m e)|]; eauto.
Qed.

Lemma queued_prims_Permutation q q' :
  Permutation q q' -> Permutation (queued_prims q) (queued_prims q').
Proof.
  intros H. unfold queued_prims.
  induction H; simpl.
  - constructor.
  - now apply Permutation_app_head.
  - rewrite !app_assoc. apply Permutation_app_tail, Permutation_app_comm.
  - etransitivity; eauto.
Qed.

Section PartitionerProperties.
Variable address_of_new : nat -> Z.

(** The splitting loop only moves prims between bricks. *)
Lemma split_loop_prims fuel in_ maxBricks leafThreshold : forall st st',
  split_loop address_of_new fuel in_ maxBricks leafThreshold st = Some (Ok st') ->
  Permutation (queued_prims (bricks st')) (queued_prims (bricks st)).
Proof.
  induction fuel as [|fuel IH]; intros st st' H; simpl in H.
  - destruct (size (bricks st) <? to_size_t maxBricks); [discriminate|].
    inversion H; subst; reflexivity.
  - destruct (size (bricks st) <? to_size_t maxBricks); [|inversion H; subst; reflexivity].
    destruct (top_pop (bricks st)) as [[biggest rest]|] eqn:Etop; [|discriminate].
    destruct (first biggest <? leafThreshold); [inversion H; subst; reflexivity|].
    destruct (split in_ (second biggest)) as [[half0 half1]| |] eqn:Esplit; try discriminate.
    apply IH in H. eapply perm_trans; [exact H|]. simpl.
    apply top_pop_Permutation, queued_prims_Permutation, Permutation_sym in Etop.
    eapply perm_trans; [|exact Etop].
    apply split_Permutation in Esplit.
    unfold queued_prims; simpl. rewrite app_assoc.
    apply Permutation_app_tail.
    eapply perm_trans; [apply Permutation_app_comm|exact Esplit].
Qed.

(** The loop stops before its fuel does. *)
Lemma split_loop_fuel fuel in_ maxBricks leafThreshold : forall st,
  to_size_t maxBricks - size (bricks st) <= Z.of_nat fuel ->
  split_loop address_of_new fuel in_ maxBricks leafThreshold st <> None.
Proof.
  induction fuel as [|fuel IH]; intros st Hfuel; simpl.
  - destruct (size (bricks st) <? to_size_t maxBricks) eqn:E; [|discriminate].
    apply Z.ltb_lt in E. lia.
  - destruct (size (bricks st) <? to_size_t maxBricks) eqn:E; [|discriminate].
    destruct (top_pop (bricks st)) as [[biggest rest]|] eqn:Etop; [|discriminate].
    destruct (first biggest <? leafThreshold); [discriminate|].
    destruct (split in_ (second biggest)) as [[half0 half1]| |]; try discriminate.
    apply IH. simpl.
    apply top_pop_Permutation, Permutation_length in Etop. simpl in Etop.
    unfold size in *. simpl. lia.
Qed.

Lemma emit_prims fuel : forall q,
  (length q <= fuel)%nat ->
  Permutation (concat (map Brick.prims (emit fuel q))) (queued_prims q).
Proof.
  induction fuel as [|fuel IH]; intros q Hq.
  - destruct q; [reflexivity|simpl in Hq; lia].
  - simpl. destruct q as [|e q]; [reflexivity|].
    destruct (top_pop_nonempty e q) as (m & rest & E). rewrite E.
    pose proof (top_pop_Permutation _ _ _ E) as P.
    eapply perm_trans;
      [|apply Permutation_sym, (queued_prims_Permutation _ _ P)].
    unfold queued_prims; simpl. apply Permutation_app_head.
    apply IH. apply Permutation_length in P. simpl in P, Hq. lia.
Qed.

Lemma createInitialBrick_spec in_ st :
  createInitialBrick address_of_new in_ = Ok st ->
  exists brick,
    bricks st = [mk_entry (to_int (size (UMesh.createAllPrimRefs in_)))
                          (address_of_new 0) brick]
    /\ Brick.prims brick = UMesh.createAllPrimRefs in_
    /\ splits st = 0%nat.
Proof.
  unfold createInitialBrick. intros H.
  apply bind_Ok in H as (brick & H & E). inversion E; subst; clear E.
  exists brick. repeat split.
  revert H. apply (for_blocked_invariant
    (fun b : Brick.t => Brick.prims b = UMesh.createAllPrimRefs in_)); [|reflexivity].
  intros b e s s' _ Hs H. apply bind_Ok in H as (_ & _ & H).
  revert H. apply (foldM_invariant
    (fun b : Brick.t => Brick.prims b = UMesh.createAllPrimRefs in_)); [|exact Hs].
  intros s0 p s1 _ H0 H1. apply bind_Ok in H1 as (pb & _ & H1).
  inversion H1; subst. exact H0.
Qed.
End PartitionerProperties.

Lemma primRefsOf_type {A} kind (v : list A) pr :
  In pr (UMesh.primRefsOf kind v) -> PrimRef.type pr = kind.
Proof.
  unfold UMesh.primRefsOf. intros H. apply in_map_iff in H as (i & <- & _). reflexivity.
Qed.

Lemma primRefsOf_NoDup {A} kind (v : list A) :
  size v <= 2 ^ 60 -> NoDup (UMesh.primRefsOf kind v).
Proof.
  intros Hv. unfold UMesh.primRefsOf, indices.
  apply (NoDup_fmap_2_strong (PrimRef.make kind)).
  - intros i j Hi Hj E.
    apply list_elem_of_In, in_map_iff in Hi as (a & <- & Ha).
    apply list_elem_of_In, in_map_iff in Hj as (b & <- & Hb).
    apply in_seq in Ha, Hb. unfold size in Hv.
    unfold PrimRef.make in E. inversion E as [E'].
    rewrite !Z.mod_small in E' by lia. now rewrite E'.
  - apply (NoDup_fmap_2 Z.of_nat), NoDup_seq.
Qed.

Lemma NoDup_app_kinds (l k : list PrimRef.t) (P : PrimType -> Prop) :
  (forall x, In x l -> P (PrimRef.type x)) ->
  (forall x, In x k -> ~ P (PrimRef.type x)) ->
  NoDup l -> NoDup k -> NoDup (l ++ k).
Proof.
  intros Hl Hk Nl Nk. apply NoDup_app. repeat split; auto.
  intros x Hx Hx'. apply list_elem_of_In in Hx, Hx'. exact (Hk x Hx' (Hl x Hx)).
Qed.

(** [createAllPrimRefs] names every element once. *)
Lemma createAllPrimRefs_NoDup m : ids_fit m -> NoDup (UMesh.createAllPrimRefs m).
Proof.
  intros (Htri & Hquad & Htet & Hpyr & Hwdg & Hhex & Hgrd).
  unfold UMesh.createAllPrimRefs, UMesh.createVolumePrimRefs, UMesh.createSurfacePrimRefs.
  rewrite <- !app_assoc.
  repeat
    (match goal with
     | |- NoDup (UMesh.primRefsOf ?k _ ++ _) =>
         apply (NoDup_app_kinds _ _ (fun t => t = k));
         [ intros x Hx; exact (primRefsOf_type _ _ _ Hx)
         | intros x Hx E;
           repeat (apply in_app_or in Hx as [Hx|Hx];
                   [apply primRefsOf_type in Hx; congruence|]);
           apply primRefsOf_type in Hx; congruence
         | now apply primRefsOf_NoDup
         | ]
     end).
  now apply primRefsOf_NoDup.
Qed.

Section PartitionTheorems.
Variable address_of_new : nat -> Z.

(** The partitioner always comes to an end: the fuel of [split_loop] is
    never what stops it. *)
Lemma partitionObjectSpace_total in_ maxBricks leafThreshold :
  partitionObjectSpace address_of_new in_ maxBricks leafThreshold <> None.
Proof.
  unfold partitionObjectSpace.
  destruct (createInitialBrick address_of_new in_) as [st0| |] eqn:E0; try discriminate.
  apply createInitialBrick_spec in E0 as (brick & Hq & _).
  pose proof (split_loop_fuel address_of_new (Z.to_nat (to_size_t maxBricks))
                in_ maxBricks leafThreshold st0) as F.
  destruct (split_loop _ _ _ _ _ _) as [[st| |]|]; try discriminate.
  exfalso. apply F; [|reflexivity].
  rewrite Hq. unfold size, to_size_t. simpl.
  pose proof (Z.mod_pos_bound maxBricks (2 ^ 64)). lia.
Qed.

(** C1.  Whenever the partitioner succeeds, the PrimRefs of the bricks it
    emits, taken together, are the PrimRefs of the source mesh, each exactly
    once: the concatenation of the bricks' prim lists is a permutation of
    [createAllPrimRefs] and holds no PrimRef twice, so no element is
    dropped, none is in two bricks.  In particular every successful call of
    [split] hands each prim of its brick to exactly one of the two bricks it
    returns: they hold the prims of the two sides of one plane. *)
Theorem partition_is_exact_cover in_ maxBricks leafThreshold r :
  ids_fit in_ ->
  partitionObjectSpace address_of_new in_ maxBricks leafThreshold = Some (Ok r) ->
  Permutation (concat (map Brick.prims (emitted r))) (UMesh.createAllPrimRefs in_)
  /\ NoDup (concat (map Brick.prims (emitted r)))
  /\ (forall b out0 out1,
        split in_ b = Ok (out0, out1) ->
        exists dim pos,
          Brick.prims out0 = List.filter (on_side in_ dim pos false) (Brick.prims b)
          /\ Brick.prims out1 = List.filter (on_side in_ dim pos true) (Brick.prims b)
          /\ Forall (fun p => on_side in_ dim pos false p
                              = negb (on_side in_ dim pos true p)) (Brick.prims b)).
Proof.
  intros Hfit H. unfold partitionObjectSpace in H.
  destruct (createInitialBrick address_of_new in_) as [st0| |] eqn:E0; try discriminate.
  destruct (split_loop _ _ _ _ _ _) as [[st| |]|] eqn:E1; try discriminate.
  inversion H; subst; clear H. simpl.
  apply createInitialBrick_spec in E0 as (brick & Hq & Hprims & _).
  apply split_loop_prims in E1. rewrite Hq in E1.
  unfold queued_prims in E1 at 2. simpl in E1. rewrite app_nil_r, Hprims in E1.
  assert (Permutation (concat (map Brick.prims (emit (length (bricks st)) (bricks st))))
                      (UMesh.createAllPrimRefs in_)) as P.
  { eapply perm_trans; [apply emit_prims; lia|exact E1]. }
  split; [exact P|]. split.
  - apply (NoDup_Permutation_proper _ _ P).
    now apply createAllPrimRefs_NoDup.
  - intros b out0 out1. apply split_spec.
Qed.

(** C9.  With maxBricks = 1 the run is [createInitialBrick] and nothing
    else: the result is its outcome, with no call of [split], and when it
    returns, the queue holds one brick whose prims are all the PrimRefs of
    the mesh, the splitting loop returns that queue at once whatever its
    fuel, and that brick is the one brick emitted. *)
Theorem maxBricks_one_emits_initial_brick in_ leafThreshold :
  partitionObjectSpace address_of_new in_ 1 leafThreshold
  = Some (st <- createInitialBrick address_of_new in_ ;;
          Ok (mk_result (map second (bricks st)) 0))
  /\ (forall st,
        createInitialBrick address_of_new in_ = Ok st ->
        exists brick,
          map second (bricks st) = [brick]
          /\ Brick.prims brick = UMesh.createAllPrimRefs in_
          /\ (forall fuel,
                split_loop address_of_new fuel in_ 1 leafThreshold st = Some (Ok st))).
Proof.
  assert (forall st, createInitialBrick address_of_new in_ = Ok st ->
            exists brick, map second (bricks st) = [brick]
              /\ Brick.prims brick = UMesh.createAllPrimRefs in_
              /\ splits st = 0%nat
              /\ length (bricks st) = 1%nat
              /\ forall fuel,
                   split_loop address_of_new fuel in_ 1 leafThreshold st = Some (Ok st))
    as Hinit.
  { intros st E. apply createInitialBrick_spec in E as (brick & Hq & Hp & Hs).
    exists brick. rewrite Hq. repeat split; auto.
    intros [|fuel]; simpl; rewrite Hq; reflexivity. }
  split.
  - unfold partitionObjectSpace.
    destruct (createInitialBrick address_of_new in_) as [st| |] eqn:E; try reflexivity.
    destruct (Hinit st eq_refl) as (brick & Hq & _ & Hs & Hlen & Hloop).
    rewrite Hloop. simpl. rewrite Hs, Hlen.
    destruct (bricks st) as [|e [|? ?]]; try discriminate. reflexivity.
  - intros st E. destruct (Hinit st E) as (brick & ? & ? & _ & _ & ?). eauto.
Qed.
End PartitionTheorems.

Lemma two_triangles_partition_run :
  partitionObjectSpace example_address two_triangles 2 1 = Some (Ok two_triangles_partition).
Proof. vm_compute. reflexivity. Qed.

Lemma two_triangles_ids_fit : ids_fit two_triangles.
Proof. unfold ids_fit, size; simpl; lia. Qed.

Lemma partition_is_exact_cover_witness :
  ids_fit two_triangles
  /\ partitionObjectSpace example_address two_triangles 2 1 = Some (Ok two_triangles_partition)
  /\ Permutation (concat (map Brick.prims (emitted two_triangles_partition)))
                 (UMesh.createAllPrimRefs two_triangles)
  /\ NoDup (concat (map Brick.prims (emitted two_triangles_partition))).
Proof.
  split; [exact two_triangles_ids_fit|].
  split; [exact two_triangles_partition_run|].
  destruct (partition_is_exact_cover example_address two_triangles 2 1
              two_triangles_partition two_triangles_ids_fit two_triangles_partition_run)
    as (P & N & _).
  exact (conj P N).
Defined.

(** ** Bricks that cannot be split *)

(** A brick whose centroid box is a single point is refused. *)
Lemma split_point_centBounds mesh in_ :
  vec3f_eqb (Box.lower (Brick.centBounds in_)) (Box.upper (Brick.centBounds in_)) = true ->
  split mesh in_ = Throw "can't split this any more ...".
Proof. intros H. unfold split. now rewrite H. Qed.

(** A brick without prims is split into two bricks without prims. *)
Lemma split_empty_brick mesh :
  split mesh Brick.new = Ok (Brick.new, Brick.new).
Proof. vm_compute. reflexivity. Qed.

Lemma long_brick_is_initial :
  createInitialBrick example_address long_triangles
  = Ok (mk_state [mk_entry 2 (example_address 0) long_brick] 1 0).
Proof. vm_compute. reflexivity. Qed.

(** C7.  [long_brick] holds two prims whose centres differ along x only, in
    a box 2^110 long along y.  Its centroid box is not a point, so [split]
    does not throw; none of the 45 candidate planes is accepted (along x the
    weight is above 1e30, along y and z one side is empty), so the best
    candidate stays the initial one with [bestDim = -1]; and [split] then
    reads coordinate -1 of a centre instead of reporting the brick as
    unsplittable.  A brick without prims, for which every plane leaves both
    sides empty, is not reported either: [split] returns two bricks without
    prims, and the partitioner run on a mesh without elements with a leaf
    threshold of 0 splits such bricks until it has [maxBricks] of them. *)
Theorem split_without_candidate_reads_out_of_range :
  vec3f_eqb (Box.lower (Brick.centBounds long_brick))
            (Box.upper (Brick.centBounds long_brick)) = false
  /\ foldM (split_candidate long_triangles long_brick) candidates
           (mk_best F32.lit_1e30 (-1) F32.zero)
     = Ok (mk_best F32.lit_1e30 (-1) F32.zero)
  /\ split long_triangles long_brick = Undefined OutOfRange
  /\ partitionObjectSpace example_address long_triangles 2 1 = Some (Undefined OutOfRange)
  /\ split UMesh.empty Brick.new = Ok (Brick.new, Brick.new)
  /\ partitionObjectSpace example_address UMesh.empty 3 0
     = Some (Ok (mk_result [Brick.new; Brick.new; Brick.new] 2)).
Proof. repeat split; vm_compute; reflexivity. Qed.

(** ** Machine integers and floats *)

Lemma to_int_small z : INT_MIN <= z <= INT_MAX -> to_int z = z.
Proof.
  unfold INT_MIN, INT_MAX, to_int. intros H. rewrite Z.mod_small; lia.
Qed.

Lemma to_size_t_small z : 0 <= z < 2 ^ 64 -> to_size_t z = z.
Proof. intros H. unfold to_size_t. now rewrite Z.mod_small. Qed.

Lemma to_uint32_small z : 0 <= z < 2 ^ 32 -> to_uint32 z = z.
Proof. intros H. unfold to_uint32. now rewrite Z.mod_small. Qed.

Lemma at_in_range {A} (v : list A) i :
  0 <= i < size v -> exists a, v !! Z.to_nat i = Some a /\ at_ v i = Ok a.
Proof.
  intros H. unfold at_, size in *.
  destruct (Z.ltb_spec i 0); [lia|].
  destruct (lookup_lt_is_Some_2 v (Z.to_nat i)) as [a Ha]; [lia|].
  exists a. now rewrite Ha.
Qed.

Lemma SFcompare_refl x : F32.is_nan x = false -> SFcompare x x = Some Eq.
Proof.
  destruct x as [s|s| |s m e]; simpl; try discriminate; intros _.
  - reflexivity.
  - now destruct s.
  - destruct s; rewrite Z.compare_refl, Pos.compare_cont_refl; reflexivity.
Qed.

(** [a == a] holds for every float but NaN. *)
Lemma F32_eqb_refl x : F32.is_nan x = false -> F32.eqb x x = true.
Proof. intros H. unfold F32.eqb, SFeqb. now rewrite SFcompare_refl. Qed.

Lemma vec3f_eqb_refl v : vec3f_has_nan v = false -> vec3f_eqb v v = true.
Proof.
  unfold vec3f_has_nan, vec3f_eqb. intros H.
  apply orb_false_elim in H as [H Hz]. apply orb_false_elim in H as [Hx Hy].
  now rewrite !F32_eqb_refl.
Qed.

(** ** The ugrid32 importer *)

Lemma at_position vertices i :
  0 <= i < size vertices -> at_ vertices i = Ok (position vertices i).
Proof.
  intros H. unfold at_, position, size in *.
  destruct (Z.ltb_spec i 0); [lia|].
  destruct (lookup_lt_is_Some_2 vertices (Z.to_nat i)) as [a Ha]; [lia|].
  unfold vec3f in *. now rewrite Ha.
Qed.

(** An entry of a tuple in range, counted from 0. *)
Lemma minus_one_in_range vertices tuple :
  tuple_in_range vertices tuple ->
  Forall (fun i => 0 <= i < size vertices /\ i <= INT_MAX) (minus_one tuple).
Proof.
  unfold tuple_in_range, minus_one, INT_MAX. intros H.
  apply Forall_map. eapply Forall_impl; [exact H|].
  intros e [He1 He2]. simpl. rewrite to_uint32_small; lia.
Qed.

Lemma notDegenerate_bounds vertices index : forall b,
  Forall (fun i => 0 <= i < size vertices /\ i <= INT_MAX) index ->
  foldM (fun b idx =>
           if to_int idx <? 0 then Throw "negative index!?"
           else v <- at_ vertices idx ;; Ok (box3f_extend b v))
        index b
  = Ok (fold_left box3f_extend (positions vertices index) b).
Proof.
  induction index as [|i index IH]; intros b H; simpl; [reflexivity|].
  inversion H as [|? ? [Hi Hmax] H']; subst.
  rewrite to_int_small by (unfold INT_MIN; lia).
  destruct (Z.ltb_spec i 0); [lia|].
  rewrite at_position by lia. simpl. now apply IH.
Qed.

(** [notDegenerate] on indices in range: it returns, the element is good
    exactly when it is not degenerate, and the test is counted. *)
Lemma notDegenerate_spec vertices index st :
  Forall (fun i => 0 <= i < size vertices /\ i <= INT_MAX) index ->
  notDegenerate vertices index st
  = Ok (negb (degenerate vertices index), count_test (degenerate vertices index) st).
Proof.
  intros H. unfold notDegenerate, degenerate.
  rewrite notDegenerate_bounds by exact H. simpl.
  fold (bbox (positions vertices index)).
  change (F32.eqb _ _ || F32.eqb _ _ || F32.eqb _ _)
    with (box3f_is_flat (bbox (positions vertices index))).
  destruct (Z.eqb_spec (size index) 4) as [E|E]; simpl.
  - destruct index as [|a [|b [|c [|d [|? ?]]]]];
      try (exfalso; unfold size in E; simpl in E; lia).
    inversion H as [|? ? [Ha _] H1]; subst.
    inversion H1 as [|? ? [Hb _] H2]; subst.
    inversion H2 as [|? ? [Hc _] H3]; subst.
    inversion H3 as [|? ? [Hd _] _]; subst.
    simpl. rewrite !at_position by lia. simpl.
    rewrite !orb_false_r, <- !orb_assoc. reflexivity.
  - rewrite orb_false_r. reflexivity.
Qed.

Lemma load_elements_loop {A} vertices (make : list Z -> A) tuples : forall acc st,
  Forall (tuple_in_range vertices) tuples ->
  foldM (fun '(acc, st) tuple =>
           let idx := minus_one tuple in
           r <- notDegenerate vertices idx st ;;
           Ok (if fst r then (acc ++ [make idx], snd r) else (acc, snd r)))
        tuples (acc, st)
  = Ok (acc ++ map (fun tuple => make (minus_one tuple)) (kept vertices tuples),
        stats_after vertices tuples st).
Proof.
  induction tuples as [|t tuples IH]; intros acc st H; simpl.
  - now rewrite app_nil_r.
  - inversion H as [|? ? Ht H']; subst.
    rewrite notDegenerate_spec by now apply minus_one_in_range.
    simpl. unfold kept in *. simpl.
    destruct (degenerate vertices (minus_one t)); simpl.
    + now apply IH.
    + rewrite IH by assumption. now rewrite <- app_assoc.
Qed.

(** Every kind but the tets: the elements kept are the ones that are not
    degenerate, in file order. *)
Lemma load_elements_spec {A} vertices (make : list Z -> A) tuples st :
  Forall (tuple_in_range vertices) tuples ->
  load_elements vertices make tuples st
  = Ok (map (fun tuple => make (minus_one tuple)) (kept vertices tuples),
        stats_after vertices tuples st).
Proof. intros H. unfold load_elements. now rewrite load_elements_loop. Qed.

(** ** Blocked loops *)

Lemma slice_min_length {A} (a e : nat) (l : list A) :
  slice a (Nat.min (length l) e) l = take (e - a) (drop a l).
Proof.
  unfold slice.
  destruct (Nat.le_gt_cases e (length l)) as [H|H].
  - now rewrite Nat.min_r.
  - rewrite Nat.min_l by lia.
    rewrite !take_ge; [reflexivity| |]; rewrite length_drop; lia.
Qed.

(** A blocked loop whose body runs a plain loop over its block is that plain
    loop over the whole vector. *)
Lemma for_blocked_foldM {A S} (step : S -> A -> outcome S) (l : list A) (bs : nat)
    (body : nat -> nat -> S -> outcome S) :
  (0 < bs)%nat ->
  (forall b e s, body b e s = foldM step (slice b e l) s) ->
  forall s, for_blocked (length l) bs body s = foldM step l s.
Proof.
  intros Hbs Hbody s. unfold for_blocked, blocks.
  set (c := ((length l + (bs - 1)) / bs)%nat).
  assert (forall c j s,
            foldM (fun s '(b, e) => body b e s)
                  (map (fun k => ((k * bs)%nat, Nat.min (length l) ((k + 1) * bs))) (seq j c)) s
            = foldM step (take (c * bs) (drop (j * bs) l)) s) as Hloop.
  { clear c s. induction c as [|c IH]; intros j s; simpl; [reflexivity|].
    rewrite Hbody, slice_min_length.
    replace ((j + 1) * bs - j * bs)%nat with bs by lia.
    rewrite <- (take_take_drop (drop (j * bs) l) bs (c * bs)), foldM_app.
    destruct (foldM step (take bs (drop (j * bs) l)) s) as [s'| |]; simpl; try reflexivity.
    rewrite IH, drop_drop. do 3 f_equal. lia. }
  rewrite Hloop. simpl. rewrite drop_0, take_ge; [reflexivity|].
  subst c. pose proof (Nat.div_mod_eq (length l + (bs - 1)) bs) as E.
  pose proof (Nat.mod_upper_bound (length l + (bs - 1)) bs). nia.
Qed.

(** ** The tets of a ugrid32 file *)

Lemma good_tets_zip {A B} (good : A -> bool) (make : A -> B) (l : list A) :
  forall ig vt,
    length ig = length vt ->
    map snd (List.filter (fun gt : bool * B => fst gt)
                         (zip (ig ++ map good l) (vt ++ map make l)))
    = map snd (List.filter (fun gt : bool * B => fst gt) (zip ig vt))
      ++ map make (List.filter good l).
Proof.
  intros ig vt Hlen.
  rewrite zip_with_app by exact Hlen.
  rewrite List.filter_app, map_app. f_equal.
  induction l as [|a l IH]; simpl; [reflexivity|].
  destruct (good a); simpl; now rewrite IH.
Qed.

Lemma load_tets_loop vertices tuples : forall isGood vecTets st,
  Forall (tuple_in_range vertices) tuples ->
  foldM (fun '(isGood, vecTets, st) tuple =>
           let idx := minus_one tuple in
           let tet := V4.mk (to_int (nth 0 idx 0)) (to_int (nth 1 idx 0))
                            (to_int (nth 2 idx 0)) (to_int (nth 3 idx 0)) in
           g <- notDegenerate vertices idx st ;;
           Ok (isGood ++ [fst g], vecTets ++ [tet], snd g))
        tuples (isGood, vecTets, st)
  = Ok (isGood ++ map (fun t => negb (degenerate vertices (minus_one t))) tuples,
        vecTets ++ map (fun t => make_quad (minus_one t)) tuples,
        stats_after vertices tuples st).
Proof.
  induction tuples as [|t tuples IH]; intros isGood vecTets st H; simpl.
  - now rewrite !app_nil_r.
  - inversion H as [|? ? Ht H']; subst.
    rewrite notDegenerate_spec by now apply minus_one_in_range.
    simpl. rewrite IH by assumption. now rewrite <- !app_assoc.
Qed.

(** The tets kept are the ones that are not degenerate, in file order. *)
Lemma load_tets_spec vertices tuples st :
  Forall (tuple_in_range vertices) tuples ->
  load_tets vertices tuples st
  = Ok (map (fun t => make_quad (minus_one t)) (kept vertices tuples),
        stats_after vertices tuples st).
Proof.
  intros H. unfold load_tets.
  erewrite for_blocked_foldM;
    [rewrite load_tets_loop by exact H
    |apply Nat.mul_pos_pos; lia
    |intros b e [[isGood vecTets] st0]; reflexivity].
  simpl. unfold kept. f_equal. f_equal.
  exact (good_tets_zip (fun t => negb (degenerate vertices (minus_one t)))
           (fun t => make_quad (minus_one t)) tuples [] [] eq_refl).
Qed.

(** A tuple that names some vertex twice has two equal positions, unless
    NaN coordinates make the position differ from itself. *)
Lemma repeated_index_equal_pair vertices (idx : list Z) :
  ~ NoDup idx ->
  Forall (fun p => vec3f_has_nan p = false) (positions vertices idx) ->
  has_equal_pair (positions vertices idx) = true.
Proof.
  induction idx as [|a idx IH]; intros Hdup Hnan; simpl.
  - exfalso. apply Hdup. constructor.
  - inversion Hnan as [|? ? Ha Hrest]; subst.
    destruct (decide (a ∈ idx)) as [Hin|Hnotin].
    + apply orb_true_intro. left. apply existsb_exists.
      exists (position vertices a). split.
      * apply in_map, list_elem_of_In, Hin.
      * now apply vec3f_eqb_refl.
    + rewrite IH; [apply orb_true_r| |exact Hrest].
      intros Hnd. apply Hdup. now constructor.
Qed.

(** C8.  For a ugrid32 file whose tets name vertices of the file:
    the import of the tets returns, and it keeps exactly the tets that are
    not degenerate, in file order, [numDegen] counting the others; a tet is
    degenerate (so not appended) when the bounding box of its vertices is
    flat along some axis or two of its four vertex positions are equal, and
    this is the case of every tet that names a vertex twice, such as
    (0,1,1,3), as long as no coordinate of its vertices is NaN.  The loop of
    every other element kind keeps the elements that are not degenerate in
    the same way. *)
Theorem ugrid32_drops_degenerate_elements vertices tuples st :
  Forall (fun t => length t = 4%nat /\ tuple_in_range vertices t) tuples ->
  load_tets vertices tuples st
  = Ok (map (fun t => make_quad (minus_one t)) (kept vertices tuples),
        stats_after vertices tuples st)
  /\ (forall t, In t (kept vertices tuples) <->
                In t tuples /\ degenerate vertices (minus_one t) = false)
  /\ (forall t,
        In t tuples -> ~ NoDup t ->
        Forall (fun p => vec3f_has_nan p = false) (positions vertices (minus_one t)) ->
        degenerate vertices (minus_one t) = true /\ ~ In t (kept vertices tuples))
  /\ (forall A (make : list Z -> A) others st',
        Forall (tuple_in_range vertices) others ->
        load_elements vertices make others st'
        = Ok (map (fun t => make (minus_one t)) (kept vertices others),
              stats_after vertices others st')).
Proof.
  intros H.
  assert (forall t, In t (kept vertices tuples) <->
                    In t tuples /\ degenerate vertices (minus_one t) = false) as Hkept.
  { intros t. unfold kept. rewrite filter_In, negb_true_iff. reflexivity. }
  split; [|split; [exact Hkept|split]].
  - apply load_tets_spec. eapply Forall_impl; [exact H|]. now intros t [_ Ht].
  - intros t Hin Hdup Hnan.
    assert (degenerate vertices (minus_one t) = true) as D.
    { unfold degenerate.
      apply (proj1 (List.Forall_forall _ _) H) in Hin as [Hlen _].
      replace (size (minus_one t) =? 4) with true
        by (unfold size, minus_one; rewrite length_map, Hlen; reflexivity).
      rewrite repeated_index_equal_pair; [apply orb_true_r| |exact Hnan].
      intros Hnd. apply Hdup. unfold minus_one in Hnd.
      exact (NoDup_fmap_1 _ _ Hnd). }
    split; [exact D|]. rewrite Hkept, D. intros [_ ?]; discriminate.
  - intros A make others st'. apply load_elements_spec.
Qed.

Lemma tet_scenario_in_range :
  Forall (fun t => length t = 4%nat /\ tuple_in_range (file_vertices tet_scenario) t)
         (file_tets tet_scenario).
Proof.
  unfold tuple_in_range, size; simpl.
  repeat (constructor; try (split; [reflexivity|]); try lia).
Qed.

Lemma ugrid32_drops_degenerate_elements_witness :
  Forall (fun t => length t = 4%nat /\ tuple_in_range (file_vertices tet_scenario) t)
         (file_tets tet_scenario)
  /\ load_tets (file_vertices tet_scenario) (file_tets tet_scenario) degen_stats_init
     = Ok (map (fun t => make_quad (minus_one t))
               (kept (file_vertices tet_scenario) (file_tets tet_scenario)),
           stats_after (file_vertices tet_scenario) (file_tets tet_scenario)
                       degen_stats_init).
Proof.
  split; [exact tet_scenario_in_range|].
  exact (proj1 (ugrid32_drops_degenerate_elements (file_vertices tet_scenario)
                  (file_tets tet_scenario) degen_stats_init tet_scenario_in_range)).
Defined.

(** The scenario of the spec, run: the import returns a mesh with the one
    tet (0,1,2,3); the tet (0,1,1,3) is counted as degenerate and left out. *)
Lemma tet_scenario_import :
  exists result,
    UGrid32Loader tet_scenario degen_stats_init = Ok (result, mk_stats 2 1 2)
    /\ UMesh.tets result = [V4.mk 0 1 2 3]
    /\ kept (file_vertices tet_scenario) (file_tets tet_scenario) = [[1; 2; 3; 4]].
Proof.
  eexists. split; [vm_compute; reflexivity|]. split; vm_compute; reflexivity.
Qed.

(** A tetrahedron that names twice a vertex with a NaN coordinate is not
    found degenerate: the position does not compare equal to itself, and
    the bounding box is flat along no axis.  The import keeps it. *)
Lemma nan_scenario_keeps_repeated_vertex :
  ~ NoDup [1; 2; 4; 4]
  /\ exists result st,
      UGrid32Loader nan_scenario degen_stats_init = Ok (result, st)
      /\ UMesh.tets result = [V4.mk 0 1 3 3]
      /\ numDegen st = 0.
Proof.
  split.
  - intros H. apply NoDup_cons in H as [_ H]. apply NoDup_cons in H as [_ H].
    apply NoDup_cons in H as [H _]. apply H. now left.
  - eexists. eexists. split; [vm_compute; reflexivity|]. split; reflexivity.
Qed.


(** ** Element shifts *)

Lemma int_add_Ok a b c : int_add a b = Ok c -> c = a + b /\ in_int (a + b) = true.
Proof.
  unfold int_add. destruct (in_int (a + b)); intros H; inversion H; auto.
Qed.

Lemma vec3i_shift_Ok n v w : vec3i_shift n v = Ok w -> w = vec3i_plus n v.
Proof.
  unfold vec3i_shift, vec3i_plus. intros H.
  apply bind_Ok in H as (a & Ha & H). apply bind_Ok in H as (b & Hb & H).
  apply bind_Ok in H as (c & Hc & H).
  apply int_add_Ok in Ha as [-> _], Hb as [-> _], Hc as [-> _].
  now inversion H.
Qed.

Lemma vec4i_shift_Ok n v w : vec4i_shift n v = Ok w -> w = vec4i_plus n v.
Proof.
  unfold vec4i_shift, vec4i_plus. intros H.
  apply bind_Ok in H as (a & Ha & H). apply bind_Ok in H as (b & Hb & H).
  apply bind_Ok in H as (c & Hc & H). apply bind_Ok in H as (d & Hd & H).
  apply int_add_Ok in Ha as [-> _], Hb as [-> _], Hc as [-> _], Hd as [-> _].
  now inversion H.
Qed.

Lemma Pyr_shift_Ok n p q : Pyr_shift n p = Ok q -> q = Pyr_plus n p.
Proof.
  unfold Pyr_shift, Pyr_plus. intros H.
  apply bind_Ok in H as (b & Hb & H). apply bind_Ok in H as (t & Ht & H).
  apply vec4i_shift_Ok in Hb as ->. apply int_add_Ok in Ht as [-> _].
  now inversion H.
Qed.

Lemma Wedge_shift_Ok n p q : Wedge_shift n p = Ok q -> q = Wedge_plus n p.
Proof.
  unfold Wedge_shift, Wedge_plus. intros H.
  apply bind_Ok in H as (f & Hf & H). apply bind_Ok in H as (b & Hb & H).
  apply vec3i_shift_Ok in Hf as ->. apply vec3i_shift_Ok in Hb as ->.
  now inversion H.
Qed.

Lemma Hex_shift_Ok n p q : Hex_shift n p = Ok q -> q = Hex_plus n p.
Proof.
  unfold Hex_shift, Hex_plus. intros H.
  apply bind_Ok in H as (b & Hb & H). apply bind_Ok in H as (t & Ht & H).
  apply vec4i_shift_Ok in Hb as ->. apply vec4i_shift_Ok in Ht as ->.
  now inversion H.
Qed.

Lemma Grid_shift_Ok n g h : Grid_shift n g = Ok h -> h = Grid_rebase n g.
Proof.
  unfold Grid_shift, Grid_rebase. intros H.
  apply bind_Ok in H as (o & Ho & H). apply int_add_Ok in Ho as [-> _].
  now inversion H.
Qed.

Lemma vec3i_plus_0 v : vec3i_plus 0 v = v.
Proof. destruct v. unfold vec3i_plus; simpl. now rewrite !Z.add_0_r. Qed.

Lemma vec4i_plus_0 v : vec4i_plus 0 v = v.
Proof. destruct v. unfold vec4i_plus; simpl. now rewrite !Z.add_0_r. Qed.

Lemma Pyr_plus_0 p : Pyr_plus 0 p = p.
Proof. destruct p. unfold Pyr_plus; simpl. now rewrite vec4i_plus_0, Z.add_0_r. Qed.

Lemma Wedge_plus_0 p : Wedge_plus 0 p = p.
Proof. destruct p. unfold Wedge_plus; simpl. now rewrite !vec3i_plus_0. Qed.

Lemma Hex_plus_0 p : Hex_plus 0 p = p.
Proof. destruct p. unfold Hex_plus; simpl. now rewrite !vec4i_plus_0. Qed.

Lemma Grid_rebase_0 g : Grid_rebase 0 g = g.
Proof. destruct g. unfold Grid_rebase; simpl. now rewrite Z.add_0_r. Qed.

Lemma map_id_ext {A} (f : A -> A) l : (forall a, f a = a) -> map f l = l.
Proof. intros H. induction l; simpl; congruence. Qed.

(** ** Copy loops *)

Lemma set_at_Ok {A} (v : list A) i a v' :
  set_at v i a = Ok v' ->
  0 <= i < size v /\ v' = take (Z.to_nat i) v ++ a :: drop (S (Z.to_nat i)) v.
Proof.
  unfold set_at, size.
  destruct (Z.leb_spec 0 i) as [Hlo|Hlo]; simpl; [|discriminate].
  destruct (Z.ltb_spec i (Z.of_nat (length v))) as [Hhi|Hhi]; [|discriminate].
  intros E; inversion E; subst. split; [lia|].
  apply insert_take_drop. lia.
Qed.

(** What a copy loop that returns has done: the slots from [offset + i] on
    hold the images of the source entries, the others are as before. *)
Lemma copy_from_Ok {A B} (f : A -> outcome B) (g : A -> B) offset src :
  (forall a b, f a = Ok b -> b = g a) ->
  forall i dst dst',
    0 <= offset + i ->
    copy_from f offset i src dst = Ok dst' ->
    dst' = overwrite (offset + i) (map g src) dst.
Proof.
  intros Hf. unfold overwrite. rewrite length_map.
  induction src as [|a src IH]; intros i dst dst' Hi H; simpl in H.
  - inversion H; subst. simpl. now rewrite Nat.add_0_r, take_drop.
  - apply bind_Ok in H as (b & Hb & H). apply bind_Ok in H as (j & Hj & H).
    apply bind_Ok in H as (dst1 & H1 & H).
    apply Hf in Hb as ->. apply int_add_Ok in Hj as [-> Hj].
    unfold in_int, INT_MIN, INT_MAX in Hj. apply andb_true_iff in Hj as [Hlo Hhi].
    apply Z.leb_le in Hlo, Hhi.
    rewrite to_size_t_small in H1 by lia.
    apply set_at_Ok in H1 as [Hrange ->].
    set (n := Z.to_nat (offset + i)) in *.
    assert (length (take n dst) = n) as Hn
      by (rewrite length_take; unfold size in Hrange; lia).
    apply IH in H; [|lia].
    rewrite H. replace (Z.to_nat (offset + (i + 1))) with (length (take n dst) + 1)%nat by lia.
    rewrite take_app_add, <- Nat.add_assoc, drop_app_add. simpl.
    rewrite take_0, drop_drop, <- app_assoc. simpl. do 4 f_equal. lia.
Qed.

Lemma copy_block_Ok {A B} (f : A -> outcome B) (g : A -> B) offset src dst dst' :
  (forall a b, f a = Ok b -> b = g a) ->
  0 <= offset ->
  copy_block f offset src dst = Ok dst' ->
  size src <= INT_MAX /\ dst' = overwrite offset (map g src) dst.
Proof.
  intros Hf Hoff H. unfold copy_block in H.
  apply bind_Ok in H as (u & Hn & H).
  unfold int_counter_reaches in Hn.
  destruct (Z.leb_spec (size src) INT_MAX); [|discriminate].
  split; [assumption|].
  apply (copy_from_Ok f g) in H; auto; [|lia].
  now rewrite Z.add_0_r in H.
Qed.

(** The vertex loop: positions and scalars land in the same slots, and every
    vertex had a scalar to read. *)
Lemma merge_copy_vertices_Ok input offset src :
  forall i dv ds dst',
    0 <= i -> 0 <= offset ->
    merge_copy_vertices input offset i src (dv, ds) = Ok dst' ->
    let ss := take (length src) (drop (Z.to_nat i) (primary_values input)) in
    length ss = length src
    /\ fst dst' = overwrite (offset + i) src dv
    /\ snd dst' = overwrite (offset + i) ss ds.
Proof.
  unfold overwrite.
  induction src as [|v src IH]; intros i dv ds dst' Hi Hoff H; simpl in H.
  - inversion H; subst. simpl. now rewrite Nat.add_0_r, !take_drop.
  - apply bind_Ok in H as (s & Hs & H). apply bind_Ok in H as (j & Hj & H).
    apply bind_Ok in H as (dv1 & Hv1 & H). apply bind_Ok in H as (ds1 & Hs1 & H).
    apply int_add_Ok in Hj as [-> Hj].
    unfold in_int, INT_MIN, INT_MAX in Hj. apply andb_true_iff in Hj as [Hlo Hhi].
    apply Z.leb_le in Hlo, Hhi.
    rewrite to_size_t_small in Hv1, Hs1 by lia.
    apply set_at_Ok in Hv1 as [Hrv ->]. apply set_at_Ok in Hs1 as [Hrs ->].
    simpl fst in *; simpl snd in *.
    set (n := Z.to_nat (offset + i)) in *.
    assert (length (take n dv) = n) as Hnv
      by (rewrite length_take; unfold size in Hrv; lia).
    assert (length (take n ds) = n) as Hns
      by (rewrite length_take; unfold size in Hrs; lia).
    assert (primary_values input !! Z.to_nat i = Some s) as Hlook.
    { unfold perVertex_value, primary_values in *.
      destruct (UMesh.perVertex input) as [a|]; [|discriminate].
      unfold at_ in Hs. destruct (i <? 0); [discriminate|].
      destruct (Attribute.values a !! Z.to_nat i); inversion Hs; reflexivity. }
    apply IH in H; [|lia|lia].
    destruct H as (El & Ev & Es).
    replace (Z.to_nat (i + 1)) with (S (Z.to_nat i)) in * by lia.
    rewrite (drop_S _ _ _ Hlook). simpl. split; [|split].
    + now rewrite El.
    + rewrite Ev.
      replace (Z.to_nat (offset + (i + 1))) with (length (take n dv) + 1)%nat by lia.
      rewrite take_app_add, <- Nat.add_assoc, drop_app_add. simpl.
      rewrite take_0, drop_drop, <- app_assoc. simpl. do 4 f_equal. lia.
    + rewrite Es, El.
      replace (Z.to_nat (offset + (i + 1))) with (length (take n ds) + 1)%nat by lia.
      rewrite take_app_add, <- Nat.add_assoc, drop_app_add. simpl.
      rewrite take_0, drop_drop, <- app_assoc. simpl. do 4 f_equal. lia.
Qed.

Lemma overwrite_first {A} (block : list A) n d :
  overwrite 0 block (replicate (length block + n) d) = block ++ replicate n d.
Proof.
  unfold overwrite. simpl. now rewrite drop_replicate_add.
Qed.

Lemma overwrite_second {A} (first block : list A) d :
  overwrite (size first) block (first ++ replicate (length block) d) = first ++ block.
Proof.
  unfold overwrite, size. rewrite Nat2Z.id, take_app_length.
  rewrite drop_app_add, drop_ge by (rewrite length_replicate; lia).
  now rewrite app_nil_r.
Qed.

(** [finalize] leaves everything but the cached boxes and ranges alone. *)
Lemma finalize_frame m m' :
  UMesh.finalize m = Ok m' ->
  m' = UMesh.mk (UMesh.vertices m) (option_map Attribute.finalize (UMesh.perVertex m))
                (UMesh.attributes m) (UMesh.triangles m) (UMesh.quads m) (UMesh.tets m)
                (UMesh.pyrs m) (UMesh.wedges m) (UMesh.hexes m) (UMesh.grids m)
                (UMesh.gridScalars m) (UMesh.vertexTags m)
                (UMesh.bounds m') (UMesh.gridsScalarRange m').
Proof.
  unfold UMesh.finalize. intros H.
  apply bind_Ok in H as (b & _ & H). apply bind_Ok in H as (r & _ & H).
  inversion H; subst. reflexivity.
Qed.

(** ** mergeMeshes *)

(** What the second pass has done for one input when its body returns. *)
Lemma merge_copy_input_Ok out input o out' :
  0 <= vtxOffset o -> 0 <= triOffset o -> 0 <= qudOffset o -> 0 <= tetOffset o ->
  0 <= pyrOffset o -> 0 <= wdgOffset o -> 0 <= hexOffset o -> 0 <= grdOffset o ->
  0 <= gscOffset o ->
  merge_copy_input out (input, o) = Ok out' ->
  fits_int input
  /\ length (take (length (UMesh.vertices input)) (primary_values input))
     = length (UMesh.vertices input)
  /\ out' =
     UMesh.mk
       (overwrite (vtxOffset o) (UMesh.vertices input) (UMesh.vertices out))
       (Some (Attribute.mk ""
                (overwrite (vtxOffset o)
                   (take (length (UMesh.vertices input)) (primary_values input))
                   (primary_values out))
                range1f_empty))
       (UMesh.attributes out)
       (overwrite (triOffset o) (map (vec3i_plus (vtxOffset o)) (UMesh.triangles input))
                  (UMesh.triangles out))
       (overwrite (qudOffset o) (map (vec4i_plus (vtxOffset o)) (UMesh.quads input))
                  (UMesh.quads out))
       (overwrite (tetOffset o) (map (vec4i_plus (vtxOffset o)) (UMesh.tets input))
                  (UMesh.tets out))
       (overwrite (pyrOffset o) (map (Pyr_plus (vtxOffset o)) (UMesh.pyrs input))
                  (UMesh.pyrs out))
       (overwrite (wdgOffset o) (map (Wedge_plus (vtxOffset o)) (UMesh.wedges input))
                  (UMesh.wedges out))
       (overwrite (hexOffset o) (map (Hex_plus (vtxOffset o)) (UMesh.hexes input))
                  (UMesh.hexes out))
       (overwrite (grdOffset o) (map (Grid_rebase (gscOffset o)) (UMesh.grids input))
                  (UMesh.grids out))
       (overwrite (gscOffset o) (UMesh.gridScalars input) (UMesh.gridScalars out))
       (UMesh.vertexTags out) (UMesh.bounds out) (UMesh.gridsScalarRange out).
Proof.
  intros Hvtx Htri Hqud Htet Hpyr Hwdg Hhex Hgrd Hgsc H. unfold merge_copy_input in H.
  apply bind_Ok in H as (u & Hn & H).
  unfold int_counter_reaches in Hn.
  destruct (Z.leb_spec (size (UMesh.vertices input)) INT_MAX) as [Hnv|]; [|discriminate].
  apply bind_Ok in H as (vals & Hvals & H).
  assert (vals = primary_values out) as ->.
  { unfold merge_out_values, primary_values in *.
    destruct (UMesh.perVertex out); inversion Hvals; reflexivity. }
  apply bind_Ok in H as (vs & Hvs & H).
  apply merge_copy_vertices_Ok in Hvs as (Hlen & Ev & Es); [|lia|assumption].
  rewrite Z.add_0_r in Ev, Es. simpl in Es, Hlen.
  apply bind_Ok in H as (tris & Htris & H).
  apply (copy_block_Ok _ (vec3i_plus (vtxOffset o))) in Htris as [? ->];
    [|apply vec3i_shift_Ok|assumption].
  apply bind_Ok in H as (quds & Hquds & H).
  apply (copy_block_Ok _ (vec4i_plus (vtxOffset o))) in Hquds as [? ->];
    [|apply vec4i_shift_Ok|assumption].
  apply bind_Ok in H as (tts & Htts & H).
  apply (copy_block_Ok _ (vec4i_plus (vtxOffset o))) in Htts as [? ->];
    [|apply vec4i_shift_Ok|assumption].
  apply bind_Ok in H as (prs & Hprs & H).
  apply (copy_block_Ok _ (Pyr_plus (vtxOffset o))) in Hprs as [? ->];
    [|apply Pyr_shift_Ok|assumption].
  apply bind_Ok in H as (wdgs & Hwdgs & H).
  apply (copy_block_Ok _ (Wedge_plus (vtxOffset o))) in Hwdgs as [? ->];
    [|apply Wedge_shift_Ok|assumption].
  apply bind_Ok in H as (hxs & Hhxs & H).
  apply (copy_block_Ok _ (Hex_plus (vtxOffset o))) in Hhxs as [? ->];
    [|apply Hex_shift_Ok|assumption].
  apply bind_Ok in H as (grds & Hgrds & H).
  apply (copy_block_Ok _ (Grid_rebase (gscOffset o))) in Hgrds as [? ->];
    [|apply Grid_shift_Ok|assumption].
  apply bind_Ok in H as (gscs & Hgscs & H).
  apply (copy_block_Ok _ (fun s => s)) in Hgscs as [? ->];
    [|intros a b E; now inversion E|assumption].
  rewrite map_id in *.
  inversion H; subst; clear H.
  rewrite Ev, Es. unfold fits_int. auto 20.
Qed.

Lemma merge_offsets_pass_pair A B co :
  merge_offsets_pass [A; B] = Ok co ->
  co = (mk_counts
          (to_size_t (to_size_t (0 + size (UMesh.vertices A)) + size (UMesh.vertices B)))
          (to_size_t (to_size_t (0 + size (UMesh.triangles A)) + size (UMesh.triangles B)))
          (to_size_t (to_size_t (0 + size (UMesh.quads A)) + size (UMesh.quads B)))
          (to_size_t (to_size_t (0 + size (UMesh.tets A)) + size (UMesh.tets B)))
          (to_size_t (to_size_t (0 + size (UMesh.pyrs A)) + size (UMesh.pyrs B)))
          (to_size_t (to_size_t (0 + size (UMesh.wedges A)) + size (UMesh.wedges B)))
          (to_size_t (to_size_t (0 + size (UMesh.hexes A)) + size (UMesh.hexes B)))
          (to_size_t (to_size_t (0 + size (UMesh.grids A)) + size (UMesh.grids B)))
          (to_size_t (to_size_t (0 + size (UMesh.gridScalars A))
                      + size (UMesh.gridScalars B))),
        [mk_offsets (to_int 0) (to_int 0) (to_int 0) (to_int 0) (to_int 0)
                    (to_int 0) (to_int 0) (to_int 0) (to_int 0);
         mk_offsets (to_int (to_size_t (0 + size (UMesh.vertices A))))
                    (to_int (to_size_t (0 + size (UMesh.triangles A))))
                    (to_int (to_size_t (0 + size (UMesh.quads A))))
                    (to_int (to_size_t (0 + size (UMesh.tets A))))
                    (to_int (to_size_t (0 + size (UMesh.pyrs A))))
                    (to_int (to_size_t (0 + size (UMesh.wedges A))))
                    (to_int (to_size_t (0 + size (UMesh.hexes A))))
                    (to_int (to_size_t (0 + size (UMesh.grids A))))
                    (to_int (to_size_t (0 + size (UMesh.gridScalars A))))]).
Proof.
  unfold merge_offsets_pass. cbn [foldM]. intros H.
  apply bind_Ok in H as ([cA offsA] & HA & H).
  apply bind_Ok in H as ([cB offsB] & HB & H).
  inversion H; subst; clear H.
  unfold merge_count_input in HA.
  cbn [numVtx numTri numQud numTet numPyr numWdg numHex numGrd numGsc] in HA.
  match type of HA with (if ?c then _ else _) = _ => destruct c end; [discriminate|].
  inversion HA; subst; clear HA.
  unfold merge_count_input in HB.
  cbn [numVtx numTri numQud numTet numPyr numWdg numHex numGrd numGsc] in HB.
  match type of HB with (if ?c then _ else _) = _ => destruct c end; [discriminate|].
  inversion HB; subst; clear HB. reflexivity.
Qed.

Lemma size_small_offset {A} (v : list A) :
  size v <= INT_MAX -> to_int (to_size_t (0 + size v)) = size v.
Proof.
  unfold INT_MAX, size. intros H.
  rewrite to_size_t_small by lia.
  rewrite to_int_small by (unfold INT_MIN, INT_MAX; lia). lia.
Qed.

Lemma resize_total {A B} (va : list A) (vb : list A) (d : B) :
  size va <= INT_MAX -> size vb <= INT_MAX ->
  resize (to_size_t (to_size_t (0 + size va) + size vb)) d
  = replicate (length va + length vb) d.
Proof.
  unfold INT_MAX, size, resize. intros Ha Hb.
  rewrite (to_size_t_small (0 + _)) by lia.
  rewrite to_size_t_small by lia. f_equal. lia.
Qed.

(** One array of the output after both inputs have been copied. *)
Lemma merged_blocks {Y} (ba bb : list Y) (na nb : nat) (d : Y) :
  length ba = na -> length bb = nb ->
  overwrite (Z.of_nat na) bb (overwrite 0 ba (replicate (na + nb) d)) = ba ++ bb.
Proof.
  intros <- <-. rewrite overwrite_first. apply overwrite_second.
Qed.

Lemma merged_array {X Y} (gA gB : X -> Y) (xa xb : list X) (d : Y) :
  overwrite (size xa) (map gB xb)
    (overwrite 0 (map gA xa) (replicate (length xa + length xb) d))
  = map gA xa ++ map gB xb.
Proof. apply merged_blocks; apply length_map. Qed.

(** Two meshes merged: what was needed for the call to return, and the mesh
    that was finalized. *)
Lemma merged_pair_is_concatenation A B out :
  mergeMeshes [A; B] = Ok out ->
  fits_int A /\ fits_int B
  /\ size (UMesh.vertices A) + size (UMesh.vertices B) <= INT_MAX
  /\ UMesh.finalize (concatenation A B) = Ok out.
Proof.
  unfold mergeMeshes. intros H.
  apply bind_Ok in H as (co & Hco & H). apply bind_Ok in H as (raw & Hraw & H).
  pose proof Hco as Hsum.
  apply merge_offsets_pass_pair in Hco. subst co.
  unfold merge_copy_pass in Hraw. cbn [snd fst] in Hraw.
  replace (Z.to_nat (to_int (size [A; B]))) with 2%nat in Hraw by reflexivity.
  cbn [zip zip_with take foldM] in Hraw.
  apply bind_Ok in Hraw as (out1 & H1 & Hraw). apply bind_Ok in Hraw as (out2 & H2 & Hraw).
  inversion Hraw; subst out2; clear Hraw.
  apply merge_copy_input_Ok in H1 as (FA & LA & E1);
    try (cbn; rewrite to_int_small; unfold INT_MIN, INT_MAX; lia).
  pose proof FA as (HAv & HAtri & HAqud & HAtet & HApyr & HAwdg & HAhex & HAgrd & HAgsc).
  apply merge_copy_input_Ok in H2 as (FB & LB & E2);
    try (cbn; rewrite size_small_offset by assumption; unfold size; lia).
  pose proof FB as (HBv & HBtri & HBqud & HBtet & HBpyr & HBwdg & HBhex & HBgrd & HBgsc).
  split; [exact FA|]. split; [exact FB|].
  assert (size (UMesh.vertices A) + size (UMesh.vertices B) <= INT_MAX) as Hv.
  { unfold merge_offsets_pass in Hsum. cbn [foldM] in Hsum.
    apply bind_Ok in Hsum as ([cA offsA] & HcA & Hsum).
    apply bind_Ok in Hsum as ([cB offsB] & HcB & _).
    unfold merge_count_input in HcA. cbn [numVtx] in HcA.
    match type of HcA with (if ?c then _ else _) = _ => destruct c end; [discriminate|].
    inversion HcA; subst; clear HcA.
    unfold merge_count_input in HcB. cbn [numVtx] in HcB.
    match type of HcB with (if ?c then _ else _) = _ => destruct c eqn:E end;
      [discriminate|].
    rewrite (to_size_t_small (0 + _)) in E by (unfold INT_MAX, size in *; lia).
    rewrite to_size_t_small in E by (unfold INT_MAX, size in *; lia).
    lia. }
  split; [exact Hv|].
  rewrite <- H. f_equal. rewrite E2, E1. clear E1 E2 H.
  cbn [vtxOffset triOffset qudOffset tetOffset pyrOffset wdgOffset hexOffset grdOffset
       gscOffset UMesh.vertices UMesh.triangles UMesh.quads UMesh.tets UMesh.pyrs
       UMesh.wedges UMesh.hexes UMesh.grids UMesh.gridScalars UMesh.attributes
       UMesh.vertexTags UMesh.bounds UMesh.gridsScalarRange UMesh.perVertex
       merge_allocate primary_values Attribute.values numVtx numTri numQud numTet
       numPyr numWdg numHex numGrd numGsc].
  rewrite !size_small_offset by assumption.
  rewrite !resize_total by assumption.
  rewrite (to_int_small 0) by (unfold INT_MIN, INT_MAX; lia).
  rewrite !merged_array.
  rewrite (map_id_ext (vec3i_plus 0)) by apply vec3i_plus_0.
  rewrite !(map_id_ext (vec4i_plus 0)) by apply vec4i_plus_0.
  rewrite (map_id_ext (Pyr_plus 0)) by apply Pyr_plus_0.
  rewrite (map_id_ext (Wedge_plus 0)) by apply Wedge_plus_0.
  rewrite (map_id_ext (Hex_plus 0)) by apply Hex_plus_0.
  rewrite (map_id_ext (Grid_rebase 0)) by apply Grid_rebase_0.
  unfold concatenation. f_equal.
  - unfold size. symmetry. now apply merged_blocks.
  - do 2 f_equal. unfold size. symmetry. now apply merged_blocks.
  - unfold size. symmetry. now apply merged_blocks.
Qed.

(** ** mergeMeshes returns on well-formed inputs *)

Lemma int_add_returns a b : INT_MIN <= a + b <= INT_MAX -> int_add a b = Ok (a + b).
Proof.
  intros H. unfold int_add, in_int.
  destruct (Z.leb_spec INT_MIN (a + b)); [|lia].
  destruct (Z.leb_spec (a + b) INT_MAX); [|lia]. reflexivity.
Qed.

Lemma set_at_returns {A} (v : list A) i a :
  0 <= i < size v -> set_at v i a = Ok (<[Z.to_nat i := a]> v).
Proof.
  intros H. unfold set_at.
  destruct (Z.leb_spec 0 i); [|lia]. destruct (Z.ltb_spec i (size v)); [|lia].
  reflexivity.
Qed.

Lemma int_counter_returns n : n <= INT_MAX -> int_counter_reaches n = Ok tt.
Proof.
  intros H. unfold int_counter_reaches. destruct (Z.leb_spec n INT_MAX); [reflexivity|lia].
Qed.

(** A copy loop whose slots lie inside the destination returns, keeps the
    length of the destination, and keeps what holds of all its entries. *)
Lemma copy_from_returns {A B} (P : B -> Prop) (f : A -> outcome B) offset src :
  forall i dst,
    Forall (fun a => exists b, f a = Ok b /\ P b) src ->
    0 <= offset + i -> offset + i + size src <= size dst -> size dst <= INT_MAX ->
    Forall P dst ->
    exists dst', copy_from f offset i src dst = Ok dst'
                 /\ size dst' = size dst /\ Forall P dst'.
Proof.
  induction src as [|a src IH]; intros i dst Hf Hlo Hhi Hmax HP; simpl.
  - eauto.
  - inversion Hf as [|? ? (b & Hb & Pb) Hf']; subst.
    unfold size in *. simpl in Hhi.
    rewrite Hb; simpl.
    rewrite int_add_returns by (unfold INT_MIN, INT_MAX in *; lia). simpl.
    rewrite to_size_t_small by (unfold INT_MAX in *; lia).
    rewrite set_at_returns by (unfold size; lia). simpl.
    destruct (IH (i + 1) (<[Z.to_nat (offset + i) := b]> dst)) as (dst' & H & L & F);
      rewrite ?length_insert; try lia; try assumption.
    + now apply Forall_insert.
    + exists dst'. rewrite length_insert in L. auto.
Qed.

Lemma copy_block_returns {A B} (P : B -> Prop) (f : A -> outcome B) offset src dst :
  Forall (fun a => exists b, f a = Ok b /\ P b) src ->
  0 <= offset -> offset + size src <= size dst -> size dst <= INT_MAX ->
  Forall P dst ->
  exists dst', copy_block f offset src dst = Ok dst'
               /\ size dst' = size dst /\ Forall P dst'.
Proof.
  intros Hf Hlo Hhi Hmax HP. unfold copy_block.
  rewrite int_counter_returns by lia. simpl.
  apply copy_from_returns; auto; lia.
Qed.

Lemma perVertex_value_returns input i :
  scalars_cover input -> 0 <= i < size (UMesh.vertices input) ->
  exists s, perVertex_value input i = Ok s.
Proof.
  intros [E|(a & Ha & Hn)] Hi.
  - rewrite E in Hi. unfold size in Hi. simpl in Hi. lia.
  - unfold perVertex_value. rewrite Ha.
    destruct (at_in_range (Attribute.values a) i) as (s & _ & Hs); [lia|eauto].
Qed.

Lemma merge_copy_vertices_returns input offset src :
  forall i vs vals,
    (forall k, i <= k < i + size src -> exists s, perVertex_value input k = Ok s) ->
    0 <= offset + i -> offset + i + size src <= size vs -> size vs <= INT_MAX ->
    size vals = size vs ->
    exists vs' vals', merge_copy_vertices input offset i src (vs, vals) = Ok (vs', vals')
                      /\ size vs' = size vs /\ size vals' = size vals.
Proof.
  induction src as [|v src IH]; intros i vs vals Hs Hlo Hhi Hmax Hv; simpl.
  - eauto.
  - unfold size in *. simpl in Hhi, Hs.
    destruct (Hs i) as (s & Es); [lia|]. rewrite Es; simpl.
    rewrite int_add_returns by (unfold INT_MIN, INT_MAX in *; lia). simpl.
    rewrite to_size_t_small by (unfold INT_MAX in *; lia).
    rewrite set_at_returns by (unfold size; lia). simpl.
    rewrite set_at_returns by (unfold size; lia). simpl.
    destruct (IH (i + 1) (<[Z.to_nat (offset + i) := v]> vs)
                 (<[Z.to_nat (offset + i) := s]> vals)) as (vs' & vals' & H & L1 & L2);
      rewrite ?length_insert; try lia.
    + intros k Hk. apply Hs. lia.
    + exists vs', vals'. rewrite !length_insert in *. auto.
Qed.

Lemma index_shift_returns n N off i :
  index_ok n i -> 0 <= off -> off + n <= N -> N <= INT_MAX ->
  int_add i off = Ok (i + off) /\ index_ok N (i + off).
Proof.
  unfold index_ok. intros Hi Hoff Hn HN. split; [|lia].
  apply int_add_returns. unfold INT_MIN, INT_MAX in *. lia.
Qed.

Lemma vec3i_shift_returns n N off v :
  vec3i_ok n v -> 0 <= off -> off + n <= N -> N <= INT_MAX ->
  exists w, vec3i_shift off v = Ok w /\ vec3i_ok N w.
Proof.
  intros (Hx & Hy & Hz) Hoff Hn HN. unfold vec3i_shift.
  destruct (index_shift_returns n N off _ Hx Hoff Hn HN) as [-> ?].
  destruct (index_shift_returns n N off _ Hy Hoff Hn HN) as [-> ?].
  destruct (index_shift_returns n N off _ Hz Hoff Hn HN) as [-> ?].
  simpl. eexists; split; [reflexivity|]. unfold vec3i_ok, vec4i_ok; cbn. tauto.
Qed.

Lemma vec4i_shift_returns n N off v :
  vec4i_ok n v -> 0 <= off -> off + n <= N -> N <= INT_MAX ->
  exists w, vec4i_shift off v = Ok w /\ vec4i_ok N w.
Proof.
  intros (Hx & Hy & Hz & Hw) Hoff Hn HN. unfold vec4i_shift.
  destruct (index_shift_returns n N off _ Hx Hoff Hn HN) as [-> ?].
  destruct (index_shift_returns n N off _ Hy Hoff Hn HN) as [-> ?].
  destruct (index_shift_returns n N off _ Hz Hoff Hn HN) as [-> ?].
  destruct (index_shift_returns n N off _ Hw Hoff Hn HN) as [-> ?].
  simpl. eexists; split; [reflexivity|]. unfold vec3i_ok, vec4i_ok; cbn. tauto.
Qed.

Lemma Pyr_shift_returns n N off p :
  Pyr_ok n p -> 0 <= off -> off + n <= N -> N <= INT_MAX ->
  exists q, Pyr_shift off p = Ok q /\ Pyr_ok N q.
Proof.
  intros (Hb & Ht) Hoff Hn HN. unfold Pyr_shift.
  destruct (vec4i_shift_returns n N off _ Hb Hoff Hn HN) as (b & -> & ?).
  destruct (index_shift_returns n N off _ Ht Hoff Hn HN) as [-> ?].
  simpl. eexists; split; [reflexivity|]. split; assumption.
Qed.

Lemma Wedge_shift_returns n N off p :
  Wedge_ok n p -> 0 <= off -> off + n <= N -> N <= INT_MAX ->
  exists q, Wedge_shift off p = Ok q /\ Wedge_ok N q.
Proof.
  intros (Hf & Hb) Hoff Hn HN. unfold Wedge_shift.
  destruct (vec3i_shift_returns n N off _ Hf Hoff Hn HN) as (f & -> & ?).
  destruct (vec3i_shift_returns n N off _ Hb Hoff Hn HN) as (b & -> & ?).
  simpl. eexists; split; [reflexivity|]. split; assumption.
Qed.

Lemma Hex_shift_returns n N off p :
  Hex_ok n p -> 0 <= off -> off + n <= N -> N <= INT_MAX ->
  exists q, Hex_shift off p = Ok q /\ Hex_ok N q.
Proof.
  intros (Hb & Ht) Hoff Hn HN. unfold Hex_shift.
  destruct (vec4i_shift_returns n N off _ Hb Hoff Hn HN) as (b & -> & ?).
  destruct (vec4i_shift_returns n N off _ Ht Hoff Hn HN) as (t & -> & ?).
  simpl. eexists; split; [reflexivity|]. split; assumption.
Qed.

Lemma Grid_shift_returns n N off g :
  Grid_ok n g -> 0 <= off -> off + n <= N -> N <= INT_MAX ->
  exists h, Grid_shift off g = Ok h /\ True.
Proof.
  unfold Grid_ok. intros Hg Hoff Hn HN. unfold Grid_shift.
  rewrite int_add_returns by (unfold INT_MIN, INT_MAX in *; lia).
  simpl. eauto.
Qed.

Lemma Forall_True {A} (l : list A) : Forall (fun _ => True) l.
Proof. induction l; constructor; auto. Qed.

(** One turn of the second pass returns, and leaves the output as allocated. *)
Lemma merge_copy_input_returns c out io :
  counts_fit c -> allocated_as c out -> slots_inside c io ->
  exists out', merge_copy_input out io = Ok out' /\ allocated_as c out'.
Proof.
  destruct io as [input o].
  intros (Fv & Ftri & Fqud & Ftet & Fpyr & Fwdg & Fhex & Fgrd & Fgsc).
  cbn in Fv, Ftri, Fqud, Ftet, Fpyr, Fwdg, Fhex, Fgrd, Fgsc.
  intros (Lv & (a & Ha & Hname & La) & Ltri & Lqud & Ltet & Lpyr & Lwdg & Lhex & Lgrd & Lgsc
          & Otri & Oqud & Otet & Opyr & Owdg & Ohex).
  intros ((Vtri & Vqud & Vtet & Vpyr & Vwdg & Vhex & Vgrd) & Hcov
          & [Sv Sv'] & [Stri Stri'] & [Squd Squd'] & [Stet Stet'] & [Spyr Spyr']
          & [Swdg Swdg'] & [Shex Shex'] & [Sgrd Sgrd'] & [Sgsc Sgsc']).
  assert (0 <= size (UMesh.vertices input)) as Hnn by (unfold size; lia).
  unfold merge_copy_input.
  rewrite int_counter_returns by lia. simpl.
  unfold merge_out_values. rewrite Ha. simpl.
  destruct (merge_copy_vertices_returns input (vtxOffset o) (UMesh.vertices input) 0
              (UMesh.vertices out) (Attribute.values a))
    as (vs' & vals' & -> & Lvs & Lvals); try lia.
  { intros k Hk. apply perVertex_value_returns; [assumption|lia]. }
  simpl.
  destruct (copy_block_returns (B:=Triangle) (vec3i_ok (numVtx c)) (Triangle_shift (vtxOffset o))
              (triOffset o) (UMesh.triangles input) (UMesh.triangles out))
    as (tris & -> & Ltris & Otris); try lia; try assumption.
  { eapply Forall_impl; [exact Vtri|]. intros v Hv.
    eapply vec3i_shift_returns; eauto. }
  simpl.
  destruct (copy_block_returns (B:=Quad) (vec4i_ok (numVtx c)) (Quad_shift (vtxOffset o))
              (qudOffset o) (UMesh.quads input) (UMesh.quads out))
    as (quds & -> & Lquds & Oquds); try lia; try assumption.
  { eapply Forall_impl; [exact Vqud|]. intros v Hv.
    eapply vec4i_shift_returns; eauto. }
  simpl.
  destruct (copy_block_returns (B:=Tet) (vec4i_ok (numVtx c)) (Tet_shift (vtxOffset o))
              (tetOffset o) (UMesh.tets input) (UMesh.tets out))
    as (tts & -> & Ltts & Otts); try lia; try assumption.
  { eapply Forall_impl; [exact Vtet|]. intros v Hv.
    eapply vec4i_shift_returns; eauto. }
  simpl.
  destruct (copy_block_returns (Pyr_ok (numVtx c)) (Pyr_shift (vtxOffset o))
              (pyrOffset o) (UMesh.pyrs input) (UMesh.pyrs out))
    as (prs & -> & Lprs & Oprs); try lia; try assumption.
  { eapply Forall_impl; [exact Vpyr|]. intros v Hv.
    eapply Pyr_shift_returns; eauto. }
  simpl.
  destruct (copy_block_returns (Wedge_ok (numVtx c)) (Wedge_shift (vtxOffset o))
              (wdgOffset o) (UMesh.wedges input) (UMesh.wedges out))
    as (wdgs & -> & Lwdgs & Owdgs); try lia; try assumption.
  { eapply Forall_impl; [exact Vwdg|]. intros v Hv.
    eapply Wedge_shift_returns; eauto. }
  simpl.
  destruct (copy_block_returns (Hex_ok (numVtx c)) (Hex_shift (vtxOffset o))
              (hexOffset o) (UMesh.hexes input) (UMesh.hexes out))
    as (hxs & -> & Lhxs & Ohxs); try lia; try assumption.
  { eapply Forall_impl; [exact Vhex|]. intros v Hv.
    eapply Hex_shift_returns; eauto. }
  simpl.
  destruct (copy_block_returns (fun _ => True) (Grid_shift (gscOffset o))
              (grdOffset o) (UMesh.grids input) (UMesh.grids out))
    as (grds & -> & Lgrds & _); try lia; try apply Forall_True.
  { eapply Forall_impl; [exact Vgrd|]. intros g Hg.
    eapply (Grid_shift_returns _ (numGsc c)); eauto. }
  simpl.
  destruct (copy_block_returns (fun _ : float => True) Ok
              (gscOffset o) (UMesh.gridScalars input) (UMesh.gridScalars out))
    as (gscs & -> & Lgscs & _); try lia; try apply Forall_True.
  { apply Forall_forall. intros s _. eauto. }
  simpl. eexists. split; [reflexivity|].
  unfold allocated_as. cbn.
  repeat split; try congruence; try assumption.
  eexists. split; [reflexivity|]. cbn. split; [reflexivity|congruence].
Qed.

(** *** The first pass *)

Lemma counts_le_refl c : counts_le c c.
Proof. unfold counts_le. repeat split; lia. Qed.

Lemma counts_le_trans c d e : counts_le c d -> counts_le d e -> counts_le c e.
Proof. unfold counts_le. intros H1 H2. repeat split; lia. Qed.

Lemma counts_add_le c m : counts_le c (counts_add c m).
Proof. unfold counts_le, counts_add, size. cbn. repeat split; lia. Qed.

Lemma totals_le inputs : forall c, counts_le c (fold_left counts_add inputs c).
Proof.
  induction inputs as [|m inputs IH]; intros c; simpl.
  - apply counts_le_refl.
  - eapply counts_le_trans; [apply counts_add_le|apply IH].
Qed.

(** Totals that fit an [int] are what the first pass computes, with the
    totals of the inputs before it as the offsets of each input. *)
Lemma merge_offsets_from inputs :
  forall c offs,
    counts_nonneg c -> counts_fit (fold_left counts_add inputs c) ->
    foldM merge_count_input inputs (c, offs)
    = Ok (fold_left counts_add inputs c, offs ++ offsets_from c inputs).
Proof.
  induction inputs as [|m inputs IH]; intros c offs Hc Hfit; simpl.
  - now rewrite app_nil_r.
  - pose proof (counts_le_trans _ _ _ (counts_add_le c m)
                  (counts_le_trans _ _ _ (totals_le inputs (counts_add c m)) Hfit)) as Hcm.
    pose proof (counts_le_trans _ _ _ (totals_le inputs (counts_add c m)) Hfit) as Ham.
    destruct Hc as (N1 & N2 & N3 & N4 & N5 & N6 & N7 & N8 & N9).
    destruct Hcm as (C1 & C2 & C3 & C4 & C5 & C6 & C7 & C8 & C9).
    destruct Ham as (A1 & A2 & A3 & A4 & A5 & A6 & A7 & A8 & A9).
    cbn in N1, N2, N3, N4, N5, N6, N7, N8, N9, C1, C2, C3, C4, C5, C6, C7, C8, C9,
           A1, A2, A3, A4, A5, A6, A7, A8, A9.
    unfold INT_MAX in *.
    rewrite !to_size_t_small by (unfold size in *; lia).
    rewrite !to_int_small by (unfold INT_MAX, INT_MIN; lia).
    destruct (Z.gtb_spec (numVtx c + size (UMesh.vertices m)) 2147483647) as [Hgt|_];
      [lia|].
    simpl.
    transitivity (Ok (fold_left counts_add inputs (counts_add c m),
                      (offs ++ [offsets_of c]) ++ offsets_from (counts_add c m) inputs));
      [apply IH|now rewrite <- app_assoc].
    + unfold counts_nonneg, counts_le, counts_add, size. cbn. repeat split; lia.
    + exact Hfit.
Qed.

Lemma slots_inside_offsets T inputs :
  forall c,
    counts_nonneg c -> counts_le (fold_left counts_add inputs c) T ->
    Forall indices_valid inputs -> Forall scalars_cover inputs ->
    Forall (slots_inside T) (zip inputs (offsets_from c inputs)).
Proof.
  induction inputs as [|m inputs IH]; intros c Hc HT Hv Hs; simpl.
  - constructor.
  - inversion Hv; inversion Hs; subst.
    pose proof (counts_le_trans _ _ _ (totals_le inputs (counts_add c m)) HT) as Ham.
    constructor.
    + destruct Hc as (N1 & N2 & N3 & N4 & N5 & N6 & N7 & N8 & N9).
      destruct Ham as (A1 & A2 & A3 & A4 & A5 & A6 & A7 & A8 & A9).
      cbn in N1, N2, N3, N4, N5, N6, N7, N8, N9, A1, A2, A3, A4, A5, A6, A7, A8, A9.
      unfold slots_inside. cbn.
      split; [assumption|]. split; [assumption|]. repeat split; assumption.
    + apply IH; try assumption.
      destruct Hc as (N1 & N2 & N3 & N4 & N5 & N6 & N7 & N8 & N9).
      cbn in N1, N2, N3, N4, N5, N6, N7, N8, N9.
      unfold counts_nonneg, counts_le, counts_add, size. cbn. repeat split; lia.
Qed.

Lemma no_index_below_zero3 v : ~ vec3i_ok 0 v.
Proof. unfold vec3i_ok, index_ok. lia. Qed.

Lemma no_index_below_zero4 v : ~ vec4i_ok 0 v.
Proof. unfold vec4i_ok, index_ok. lia. Qed.

Lemma Forall_absurd {A} (P : A -> Prop) l : (forall a, ~ P a) -> Forall P l -> l = [].
Proof. intros HP H. destruct H as [|a l Ha _]; [reflexivity|]. now apply HP in Ha. Qed.

Lemma totals_need_vertices inputs :
  forall c,
    counts_nonneg c -> elements_need_vertices c -> Forall indices_valid inputs ->
    elements_need_vertices (fold_left counts_add inputs c).
Proof.
  induction inputs as [|m inputs IH]; intros c Hc He Hv; simpl; [exact He|].
  inversion Hv as [|? ? Hm Hv']; subst.
  destruct Hc as (N1 & N2 & N3 & N4 & N5 & N6 & N7 & N8 & N9).
  cbn in N1, N2, N3, N4, N5, N6, N7, N8, N9.
  apply IH; [| |exact Hv'].
  - unfold counts_nonneg, counts_le, counts_add, size. cbn. repeat split; lia.
  - unfold elements_need_vertices, counts_add. cbn. intros H0.
    assert (numVtx c = 0 /\ size (UMesh.vertices m) = 0) as [Hc0 Hm0]
        by (unfold size in *; lia).
    destruct (He Hc0) as (-> & -> & -> & -> & -> & ->).
    destruct Hm as (Vtri & Vqud & Vtet & Vpyr & Vwdg & Vhex & _).
    cbv zeta in Vtri, Vqud, Vtet, Vpyr, Vwdg, Vhex.
    rewrite Hm0 in Vtri, Vqud, Vtet, Vpyr, Vwdg, Vhex.
    rewrite (Forall_absurd _ _ no_index_below_zero3 Vtri).
    rewrite (Forall_absurd _ _ no_index_below_zero4 Vqud).
    rewrite (Forall_absurd _ _ no_index_below_zero4 Vtet).
    rewrite (Forall_absurd (Pyr_ok 0) (UMesh.pyrs m)); [|
      intros p [Hp _]; exact (no_index_below_zero4 _ Hp) | exact Vpyr].
    rewrite (Forall_absurd (Wedge_ok 0) (UMesh.wedges m)); [|
      intros p [Hp _]; exact (no_index_below_zero3 _ Hp) | exact Vwdg].
    rewrite (Forall_absurd (Hex_ok 0) (UMesh.hexes m)); [|
      intros p [Hp _]; exact (no_index_below_zero4 _ Hp) | exact Vhex].
    unfold size. simpl. repeat split; reflexivity.
Qed.

Lemma Forall_resize {A} (P : A -> Prop) n a : (0 < n -> P a) -> Forall P (resize n a).
Proof.
  intros H. unfold resize. destruct (Z.to_nat n) eqn:E; simpl; [constructor|].
  assert (P a) by (apply H; lia).
  constructor; [assumption|]. apply Forall_replicate; assumption.
Qed.

Lemma size_resize {A} n (a : A) : 0 <= n -> size (resize n a) = n.
Proof. intros H. unfold size, resize. rewrite length_replicate. lia. Qed.

(** The freshly allocated output is as the second pass keeps it. *)
Lemma merge_allocate_allocated c :
  counts_nonneg c -> elements_need_vertices c -> allocated_as c (merge_allocate c).
Proof.
  intros (N1 & N2 & N3 & N4 & N5 & N6 & N7 & N8 & N9) He.
  cbn in N1, N2, N3, N4, N5, N6, N7, N8, N9.
  unfold allocated_as, merge_allocate. cbn.
  rewrite !size_resize by assumption.
  assert (forall n, numVtx c = 0 -> n = 0 -> 0 < n -> False) as Hz by (intros; lia).
  destruct (Z.eq_dec (numVtx c) 0) as [E0|E0].
  - destruct (He E0) as (E1 & E2 & E3 & E4 & E5 & E6).
    rewrite E1, E2, E3, E4, E5, E6.
    repeat split; try reflexivity; try (unfold resize; simpl; constructor).
    eexists. split; [reflexivity|]. cbn. rewrite size_resize by lia. split; reflexivity.
  - assert (index_ok (numVtx c) 0) as H0 by (unfold index_ok; lia).
    repeat split; try reflexivity;
      try (apply Forall_resize; intros _;
           cbv [vec3i_ok vec4i_ok Pyr_ok Wedge_ok Hex_ok]; cbn; tauto).
    eexists. split; [reflexivity|]. cbn. rewrite size_resize by lia. split; reflexivity.
Qed.

(** *** finalize *)

Lemma vertex_returns m i :
  index_ok (size (UMesh.vertices m)) i -> size (UMesh.vertices m) <= INT_MAX ->
  exists v, UMesh.vertex m i = Ok v.
Proof.
  unfold index_ok. intros Hi Hn. unfold UMesh.vertex.
  rewrite to_size_t_small by (unfold INT_MAX in *; lia).
  destruct (at_in_range (UMesh.vertices m) i Hi) as (v & _ & Hv). eauto.
Qed.

Lemma including_all_returns m idx :
  Forall (index_ok (size (UMesh.vertices m))) idx -> size (UMesh.vertices m) <= INT_MAX ->
  exists b, UMesh.including_all m idx = Ok b.
Proof.
  intros Hidx Hn. unfold UMesh.including_all.
  destruct (foldM_returns (fun _ => True)
              (fun b i => v <- UMesh.vertex m i ;; Ok (box3f_extend b v)) idx)
    with (s := box3f_empty) as (b & Hb & _); [|exact I|eauto].
  intros s i Hin _. rewrite List.Forall_forall in Hidx.
  destruct (vertex_returns m i (Hidx i Hin) Hn) as (v & ->). simpl. eauto.
Qed.

(** An ID below the length of an array is stored whole in a PrimRef and
    names an entry of the array. *)
Lemma at_primRef_ID {A} (v : list A) kind (k : nat) :
  (k < length v)%nat -> size v <= INT_MAX ->
  exists a, In a v /\ PrimRef.make kind (Z.of_nat k) = PrimRef.mk kind (Z.of_nat k)
            /\ at_ v (Z.of_nat k) = Ok a.
Proof.
  intros Hk Hn. unfold PrimRef.make.
  rewrite Z.mod_small by (unfold size, INT_MAX in *; lia).
  destruct (at_in_range v (Z.of_nat k)) as (a & Ha & E); [unfold size; lia|].
  exists a. split; [|split; [reflexivity|exact E]].
  apply list_elem_of_In. eapply list_elem_of_lookup_2. exact Ha.
Qed.

Lemma In_primRefsOf {A} kind (v : list A) pr :
  In pr (UMesh.primRefsOf kind v) ->
  exists k, (k < length v)%nat /\ pr = PrimRef.make kind (Z.of_nat k).
Proof.
  unfold UMesh.primRefsOf, indices. intros H.
  apply in_map_iff in H as (i & <- & H).
  apply in_map_iff in H as (k & <- & H).
  apply in_seq in H. exists k. split; [lia|reflexivity].
Qed.

(** The bounds of every element of a mesh whose elements name vertices of
    the mesh can be computed. *)
Lemma getBounds_returns m pr :
  fits_int m ->
  Forall (vec3i_ok (size (UMesh.vertices m))) (UMesh.triangles m) ->
  Forall (vec4i_ok (size (UMesh.vertices m))) (UMesh.quads m) ->
  Forall (vec4i_ok (size (UMesh.vertices m))) (UMesh.tets m) ->
  Forall (Pyr_ok (size (UMesh.vertices m))) (UMesh.pyrs m) ->
  Forall (Wedge_ok (size (UMesh.vertices m))) (UMesh.wedges m) ->
  Forall (Hex_ok (size (UMesh.vertices m))) (UMesh.hexes m) ->
  In pr (UMesh.createAllPrimRefs m) ->
  exists b, UMesh.getBounds m pr = Ok b.
Proof.
  intros (Fv & Ftri & Fqud & Ftet & Fpyr & Fwdg & Fhex & Fgrd & Fgsc)
         Vtri Vqud Vtet Vpyr Vwdg Vhex Hin.
  rewrite List.Forall_forall in Vtri, Vqud, Vtet, Vpyr, Vwdg, Vhex.
  unfold UMesh.createAllPrimRefs, UMesh.createVolumePrimRefs,
         UMesh.createSurfacePrimRefs in Hin.
  repeat (apply in_app_or in Hin as [Hin|Hin]);
    apply In_primRefsOf in Hin as (k & Hk & ->).
  - destruct (at_primRef_ID (UMesh.tets m) TET k Hk Ftet) as (p & Hp & -> & E).
    unfold UMesh.getBounds, UMesh.getTetBounds. cbn [PrimRef.type PrimRef.ID]. rewrite E. simpl.
    destruct (Vtet p Hp) as (? & ? & ? & ?).
    apply including_all_returns; [|assumption].
    repeat (constructor; [assumption|]); constructor.
  - destruct (at_primRef_ID (UMesh.pyrs m) PYR k Hk Fpyr) as (p & Hp & -> & E).
    unfold UMesh.getBounds, UMesh.getPyrBounds. cbn [PrimRef.type PrimRef.ID]. rewrite E. simpl.
    destruct (Vpyr p Hp) as ((? & ? & ? & ?) & ?).
    apply including_all_returns; [|assumption].
    repeat (constructor; [assumption|]); constructor.
  - destruct (at_primRef_ID (UMesh.wedges m) WEDGE k Hk Fwdg) as (p & Hp & -> & E).
    unfold UMesh.getBounds, UMesh.getWedgeBounds. cbn [PrimRef.type PrimRef.ID]. rewrite E. simpl.
    destruct (Vwdg p Hp) as ((? & ? & ?) & (? & ? & ?)).
    apply including_all_returns; [|assumption].
    repeat (constructor; [assumption|]); constructor.
  - destruct (at_primRef_ID (UMesh.hexes m) HEX k Hk Fhex) as (p & Hp & -> & E).
    unfold UMesh.getBounds, UMesh.getHexBounds. cbn [PrimRef.type PrimRef.ID]. rewrite E. simpl.
    destruct (Vhex p Hp) as ((? & ? & ? & ?) & (? & ? & ? & ?)).
    apply including_all_returns; [|assumption].
    repeat (constructor; [assumption|]); constructor.
  - destruct (at_primRef_ID (UMesh.grids m) GRID k Hk Fgrd) as (p & Hp & -> & E).
    unfold UMesh.getBounds, UMesh.getGridBounds. cbn [PrimRef.type PrimRef.ID]. rewrite E. simpl. eauto.
  - destruct (at_primRef_ID (UMesh.triangles m) TRI k Hk Ftri) as (p & Hp & -> & E).
    unfold UMesh.getBounds, UMesh.getTriBounds. cbn [PrimRef.type PrimRef.ID]. rewrite E. simpl.
    destruct (Vtri p Hp) as (? & ? & ?).
    apply including_all_returns; [|assumption].
    repeat (constructor; [assumption|]); constructor.
  - destruct (at_primRef_ID (UMesh.quads m) QUAD k Hk Fqud) as (p & Hp & -> & E).
    unfold UMesh.getBounds, UMesh.getQuadBounds. cbn [PrimRef.type PrimRef.ID]. rewrite E. simpl.
    destruct (Vqud p Hp) as (? & ? & ? & ?).
    apply including_all_returns; [|assumption].
    repeat (constructor; [assumption|]); constructor.
Qed.

(** [finalize] returns on a mesh whose elements name vertices of the mesh. *)
Lemma finalize_returns m :
  fits_int m ->
  Forall (vec3i_ok (size (UMesh.vertices m))) (UMesh.triangles m) ->
  Forall (vec4i_ok (size (UMesh.vertices m))) (UMesh.quads m) ->
  Forall (vec4i_ok (size (UMesh.vertices m))) (UMesh.tets m) ->
  Forall (Pyr_ok (size (UMesh.vertices m))) (UMesh.pyrs m) ->
  Forall (Wedge_ok (size (UMesh.vertices m))) (UMesh.wedges m) ->
  Forall (Hex_ok (size (UMesh.vertices m))) (UMesh.hexes m) ->
  exists m', UMesh.finalize m = Ok m'.
Proof.
  intros Hfit Vtri Vqud Vtet Vpyr Vwdg Vhex. unfold UMesh.finalize.
  set (m1 := UMesh.set_perVertex _ m).
  destruct (for_blocked_returns (fun _ : box3f => True)
              (length (UMesh.createAllPrimRefs m1)) (16 * 1024)
              (fun b e (bounds : box3f) =>
                 rangeBounds <- foldM (fun r pr => pb <- UMesh.getBounds m1 pr ;;
                                                   Ok (box3f_extend_box r pb))
                                      (slice b e (UMesh.createAllPrimRefs m1)) box3f_empty ;;
                 Ok (box3f_extend_box bounds rangeBounds)))
    with (s := box3f_empty) as (bounds' & -> & _); [|exact I|].
  { intros b e s _ _.
    destruct (foldM_returns (fun _ : box3f => True)
                (fun r pr => pb <- UMesh.getBounds m1 pr ;; Ok (box3f_extend_box r pb))
                (slice b e (UMesh.createAllPrimRefs m1)))
      with (s := box3f_empty) as (r & -> & _); [|exact I|simpl; eauto].
    intros r pr Hin _. apply In_slice in Hin.
    destruct (getBounds_returns m1 pr) as (pb & ->); try assumption.
    simpl. eauto. }
  cbn [bind].
  match goal with
  | |- context [for_blocked ?n ?bs ?body range1f_empty] =>
      destruct (for_blocked_returns (fun _ : range1f => True) n bs body)
        with (s := range1f_empty) as (range' & -> & _); [|exact I|simpl; eauto]
  end.
  intros b e s He _.
  destruct (foldM_returns (fun _ : range1f => True)
              (fun r i => g <- UMesh.getGridValueRange m1 i ;; Ok (range1f_extend_range r g))
              (map Z.of_nat (seq b (e - b))))
    with (s := range1f_empty) as (r & -> & _); [|exact I|simpl; eauto].
  intros r i Hin _. apply in_map_iff in Hin as (k & <- & Hk). apply in_seq in Hk.
  unfold UMesh.getGridValueRange.
  destruct (at_in_range (UMesh.grids m1) (Z.of_nat k)) as (g & _ & ->);
    [unfold size; lia|].
  simpl. eauto.
Qed.

(** *** The whole of mergeMeshes *)

Lemma counts_zero_nonneg : counts_nonneg counts_zero.
Proof. apply counts_le_refl. Qed.

Lemma counts_zero_need_vertices : elements_need_vertices counts_zero.
Proof. unfold elements_need_vertices. cbn. tauto. Qed.

Lemma merge_totals_nonneg inputs : counts_nonneg (merge_totals inputs).
Proof. apply totals_le. Qed.

(** For inputs whose elements name their own vertices, whose vertices all
    have a scalar, and whose totals fit an [int], [mergeMeshes] returns: no
    step of it throws or goes wrong.  The mesh returned has the total number
    of vertices and an unnamed primary attribute with one value each. *)
Lemma mergeMeshes_returns inputs :
  Forall indices_valid inputs -> Forall scalars_cover inputs ->
  counts_fit (merge_totals inputs) ->
  exists out a,
    mergeMeshes inputs = Ok out
    /\ size (UMesh.vertices out) = numVtx (merge_totals inputs)
    /\ UMesh.perVertex out = Some a /\ Attribute.name a = ""
    /\ size (Attribute.values a) = size (UMesh.vertices out).
Proof.
  intros Hv Hs Hfit. unfold mergeMeshes, merge_offsets_pass.
  change (mk_counts 0 0 0 0 0 0 0 0 0) with counts_zero.
  rewrite (merge_offsets_from inputs counts_zero []); [|apply counts_zero_nonneg|exact Hfit].
  cbn [bind fst snd app]. fold (merge_totals inputs).
  set (T := merge_totals inputs) in *.
  unfold merge_copy_pass.
  destruct (foldM_returns (allocated_as T) merge_copy_input
              (take (Z.to_nat (to_int (size inputs)))
                    (zip inputs (offsets_from counts_zero inputs))))
    with (s := merge_allocate T) as (out1 & -> & Hout).
  - intros out io Hin Hout.
    apply merge_copy_input_returns; [exact Hfit|exact Hout|].
    pose proof (slots_inside_offsets T inputs counts_zero counts_zero_nonneg
                  (counts_le_refl _) Hv Hs) as Hall.
    rewrite List.Forall_forall in Hall. apply Hall.
    apply list_elem_of_In. apply list_elem_of_In in Hin.
    eapply subseteq_take; exact Hin.
  - apply merge_allocate_allocated; [apply merge_totals_nonneg|].
    apply totals_need_vertices; [apply counts_zero_nonneg|apply counts_zero_need_vertices|
                                 exact Hv].
  - cbn [bind].
    destruct Hout as (Lv & (a & Ha & Hname & La) & Ltri & Lqud & Ltet & Lpyr & Lwdg & Lhex
                      & Lgrd & Lgsc & Otri & Oqud & Otet & Opyr & Owdg & Ohex).
    destruct Hfit as (F1 & F2 & F3 & F4 & F5 & F6 & F7 & F8 & F9).
    cbn in F1, F2, F3, F4, F5, F6, F7, F8, F9.
    destruct (finalize_returns out1) as (out & Hfin); rewrite ?Lv; try assumption.
    { unfold fits_int. repeat split; congruence. }
    exists out, (Attribute.finalize a). split; [exact Hfin|].
    pose proof (finalize_frame _ _ Hfin) as E.
    rewrite E. cbn. rewrite Ha. cbn.
    repeat split; try assumption. congruence.
Qed.

(** C3.  For meshes [A] and [B] that both carry a primary per-vertex
    attribute, [mergeMeshes [A; B]] returns whenever the elements of each
    name its own vertices and the totals fit an [int]; and the mesh it
    returns has as many vertices as [A] and [B] together, the vertices of [A]
    followed by those of [B]; every element array holds the elements of [A]
    unchanged followed by those of [B] with each vertex index increased by
    the number of vertices of [A]; the grids of [B] follow those of [A] with
    their scalar offset increased by the number of grid scalars of [A]; the
    primary attribute holds the scalars of [A]'s vertices then those of
    [B]'s; and the result is [finalize] applied, once, to the mesh so put
    together. *)
Theorem mergeMeshes_pair A B :
  carries_values A -> carries_values B ->
  let Na := size (UMesh.vertices A) in
  let Nb := size (UMesh.vertices B) in
  (indices_valid A -> indices_valid B -> counts_fit (merge_totals [A; B]) ->
   exists out, mergeMeshes [A; B] = Ok out)
  /\ forall out,
      mergeMeshes [A; B] = Ok out ->
      size (UMesh.vertices out) = Na + Nb /\ Na + Nb <= INT_MAX
      /\ UMesh.vertices out = UMesh.vertices A ++ UMesh.vertices B
      /\ UMesh.triangles out
         = UMesh.triangles A ++ map (vec3i_plus Na) (UMesh.triangles B)
      /\ UMesh.quads out = UMesh.quads A ++ map (vec4i_plus Na) (UMesh.quads B)
      /\ UMesh.tets out = UMesh.tets A ++ map (vec4i_plus Na) (UMesh.tets B)
      /\ UMesh.pyrs out = UMesh.pyrs A ++ map (Pyr_plus Na) (UMesh.pyrs B)
      /\ UMesh.wedges out = UMesh.wedges A ++ map (Wedge_plus Na) (UMesh.wedges B)
      /\ UMesh.hexes out = UMesh.hexes A ++ map (Hex_plus Na) (UMesh.hexes B)
      /\ UMesh.grids out
         = UMesh.grids A
           ++ map (Grid_rebase (size (UMesh.gridScalars A))) (UMesh.grids B)
      /\ UMesh.gridScalars out = UMesh.gridScalars A ++ UMesh.gridScalars B
      /\ (exists a b,
            UMesh.perVertex A = Some a /\ UMesh.perVertex B = Some b
            /\ UMesh.perVertex out
               = Some (Attribute.finalize
                         (Attribute.mk ""
                            (take (Z.to_nat Na) (Attribute.values a)
                             ++ take (Z.to_nat Nb) (Attribute.values b))
                            range1f_empty)))
      /\ UMesh.finalize (concatenation A B) = Ok out.
Proof.
  intros HA HB Na Nb. split.
  - intros VA VB Hfit.
    destruct (mergeMeshes_returns [A; B]) as (out & _ & H & _).
    + constructor; [assumption|]. constructor; [assumption|]. constructor.
    + constructor; [now right|]. constructor; [now right|]. constructor.
    + exact Hfit.
    + eauto.
  - destruct HA as (a & Ha & _). destruct HB as (b & Hb & _). intros out H.
    apply merged_pair_is_concatenation in H as (_ & _ & Hsum & Hfin).
    pose proof (finalize_frame _ _ Hfin) as E.
    unfold concatenation in E. cbn in E.
    unfold primary_values in E. rewrite Ha, Hb in E.
    subst Na Nb. unfold size in *.
    repeat match goal with |- _ /\ _ => split end; try exact Hfin; try exact Hsum;
      rewrite E; cbn; rewrite ?length_app, ?Nat2Z.id; try reflexivity; try lia.
    eauto.
Qed.

Lemma mesh_AB_merged : mergeMeshes [mesh_A; mesh_B] = Ok mesh_AB.
Proof. vm_compute. reflexivity. Qed.

Lemma mesh_A_carries_values : carries_values mesh_A.
Proof. eexists. split; [reflexivity|]. vm_compute. discriminate. Qed.

Lemma mesh_B_carries_values : carries_values mesh_B.
Proof. eexists. split; [reflexivity|]. vm_compute. discriminate. Qed.

Lemma mesh_A_indices_valid : indices_valid mesh_A.
Proof.
  unfold indices_valid, mesh_A, size. cbn.
  repeat split; repeat constructor; cbn; lia.
Qed.

Lemma mesh_B_indices_valid : indices_valid mesh_B.
Proof.
  unfold indices_valid, mesh_B, size. cbn.
  repeat split; repeat constructor; cbn; lia.
Qed.

Lemma mesh_AB_counts_fit : counts_fit (merge_totals [mesh_A; mesh_B]).
Proof. unfold counts_fit, counts_le. vm_compute. repeat split; discriminate. Qed.

Lemma mergeMeshes_pair_witness :
  carries_values mesh_A /\ carries_values mesh_B
  /\ (exists out, mergeMeshes [mesh_A; mesh_B] = Ok out)
  /\ size (UMesh.vertices mesh_AB) = 4 + 5
  /\ UMesh.pyrs mesh_AB = [Pyr.mk (V4.mk 4 5 6 7) 8]
  /\ UMesh.tets mesh_AB = [V4.mk 0 1 2 3].
Proof.
  split; [exact mesh_A_carries_values|]. split; [exact mesh_B_carries_values|].
  pose proof (mergeMeshes_pair mesh_A mesh_B mesh_A_carries_values
                mesh_B_carries_values) as P.
  cbv zeta in P. destruct P as [R P].
  split; [exact (R mesh_A_indices_valid mesh_B_indices_valid mesh_AB_counts_fit)|].
  destruct (P mesh_AB mesh_AB_merged) as (Hn & _ & _ & _ & _ & Htet & Hpyr & _).
  split; [exact Hn|]. split; [exact Hpyr|exact Htet].
Defined.

(** ** The overflow check of mergeMeshes *)

Lemma numVtx_totals l :
  forall c, numVtx (fold_left counts_add l c)
            = numVtx c + numVtx (fold_left counts_add l counts_zero).
Proof.
  induction l as [|m l IH]; intros c; simpl.
  - lia.
  - rewrite (IH (counts_add c m)), (IH (counts_add counts_zero m)). cbn. lia.
Qed.

(** The first loop throws at the first input with which the vertex total
    passes [INT_MAX]. *)
Lemma merge_count_overflow inputs :
  forall k c offs,
    0 <= numVtx c <= INT_MAX ->
    Forall (fun m => size (UMesh.vertices m) < 2 ^ 63) inputs ->
    numVtx c + numVtx (merge_totals (take k inputs)) > INT_MAX ->
    foldM merge_count_input inputs (c, offs) = Throw merge_overflow_message.
Proof.
  induction inputs as [|m inputs IH]; intros k c offs Hc Hsmall Hk.
  - rewrite take_nil in Hk. cbn in Hk. lia.
  - destruct k as [|k]; [cbn in Hk; lia|].
    inversion Hsmall as [|? ? Hm Hsmall']; subst.
    unfold merge_totals in Hk. simpl in Hk. rewrite numVtx_totals in Hk. cbn in Hk.
    simpl.
    assert (0 <= size (UMesh.vertices m)) by (unfold size; lia).
    rewrite (to_size_t_small (numVtx c + size (UMesh.vertices m)))
      by (unfold INT_MAX in *; lia).
    destruct (Z.gtb_spec (numVtx c + size (UMesh.vertices m)) INT_MAX) as [Hgt|Hle].
    + reflexivity.
    + simpl. apply (IH k); [cbn; lia|exact Hsmall'|].
      cbn. unfold merge_totals. lia.
Qed.

(** C5.  Whenever the vertex counts of the first [k] inputs add up to more
    than [INT_MAX] (each vector holding fewer than [2^63] entries, as any
    vector does), the first loop of [mergeMeshes], which computes the
    offsets, throws the overflow error; whatever follows that loop, the
    allocation of the output first of all, is not run; and [mergeMeshes]
    ends with that error and no mesh. *)
Theorem mergeMeshes_overflow inputs k :
  Forall (fun m => size (UMesh.vertices m) < 2 ^ 63) inputs ->
  numVtx (merge_totals (take k inputs)) > INT_MAX ->
  merge_offsets_pass inputs = Throw merge_overflow_message
  /\ (forall (rest : merge_counts * list merge_offsets -> outcome UMesh.t),
        (co <- merge_offsets_pass inputs ;; rest co) = Throw merge_overflow_message)
  /\ mergeMeshes inputs = Throw merge_overflow_message.
Proof.
  intros Hsmall Hk.
  assert (merge_offsets_pass inputs = Throw merge_overflow_message) as H.
  { unfold merge_offsets_pass. apply (merge_count_overflow inputs k); [|exact Hsmall|].
    - cbn. unfold INT_MAX. lia.
    - cbn. lia. }
  split; [exact H|]. split.
  - intros rest. rewrite H. reflexivity.
  - unfold mergeMeshes. rewrite H. reflexivity.
Qed.

Lemma crowded_mesh_size : size (UMesh.vertices crowded_mesh) = INT_MAX + 1.
Proof.
  unfold crowded_mesh, UMesh.set_vertices, size. cbn [UMesh.vertices].
  rewrite length_replicate. unfold INT_MAX. lia.
Qed.

Lemma mergeMeshes_overflow_witness :
  Forall (fun m => size (UMesh.vertices m) < 2 ^ 63) [mesh_A; crowded_mesh]
  /\ numVtx (merge_totals (take 2 [mesh_A; crowded_mesh])) > INT_MAX
  /\ mergeMeshes [mesh_A; crowded_mesh] = Throw merge_overflow_message.
Proof.
  assert (Forall (fun m => size (UMesh.vertices m) < 2 ^ 63) [mesh_A; crowded_mesh]) as H1.
  { constructor; [vm_compute; reflexivity|].
    constructor; [|constructor]. rewrite crowded_mesh_size. unfold INT_MAX. lia. }
  assert (numVtx (merge_totals (take 2 [mesh_A; crowded_mesh])) > INT_MAX) as H2.
  { cbn [take merge_totals fold_left counts_add numVtx counts_zero].
    rewrite crowded_mesh_size. unfold size. lia. }
  split; [exact H1|]. split; [exact H2|].
  exact (proj2 (proj2 (mergeMeshes_overflow [mesh_A; crowded_mesh] 2 H1 H2))).
Defined.

(** ** The per-vertex scalars read by mergeMeshes *)

Lemma at_Ok {A} (v : list A) i a : at_ v i = Ok a -> 0 <= i < size v.
Proof.
  unfold at_, size. destruct (Z.ltb_spec i 0); [discriminate|].
  destruct (v !! Z.to_nat i) eqn:E; [|discriminate].
  intros _. apply lookup_lt_Some in E. lia.
Qed.

Lemma at_never_throws {A} (v : list A) i w : at_ v i <> Throw w.
Proof.
  unfold at_. destruct (i <? 0); [discriminate|].
  destruct (v !! Z.to_nat i); discriminate.
Qed.

Lemma perVertex_value_never_throws input i w : perVertex_value input i <> Throw w.
Proof.
  unfold perVertex_value. destruct (UMesh.perVertex input); [|discriminate].
  apply at_never_throws.
Qed.

(** The vertex loop reads the scalar of every vertex it visits. *)
Lemma merge_copy_vertices_reads input offset src :
  forall i dst dst',
    merge_copy_vertices input offset i src dst = Ok dst' ->
    forall k, i <= k < i + size src -> exists s, perVertex_value input k = Ok s.
Proof.
  induction src as [|v src IH]; intros i dst dst' H k Hk.
  - unfold size in Hk. simpl in Hk. lia.
  - simpl in H. apply bind_Ok in H as (s & Hs & H). apply bind_Ok in H as (j & Hj & H).
    apply bind_Ok in H as (dv & Hdv & H). apply bind_Ok in H as (ds & Hds & H).
    destruct (Z.eq_dec k i) as [->|Hne]; [eauto|].
    apply (IH _ _ _ H). unfold size in *. simpl in Hk. lia.
Qed.

Lemma merge_copy_vertices_never_throws input offset src :
  forall i dst w, merge_copy_vertices input offset i src dst <> Throw w.
Proof.
  induction src as [|v src IH]; intros i dst w; simpl; [discriminate|].
  destruct (perVertex_value input i) as [s|w'|u] eqn:Es; simpl; try discriminate.
  - unfold int_add. destruct (in_int (offset + i)); simpl; [|discriminate].
    unfold set_at.
    destruct ((0 <=? to_size_t (offset + i)) && (to_size_t (offset + i) <? size (fst dst)));
      simpl; [|discriminate].
    destruct ((0 <=? to_size_t (offset + i)) && (to_size_t (offset + i) <? size (snd dst)));
      simpl; [|discriminate].
    apply IH.
  - exfalso. exact (perVertex_value_never_throws _ _ _ Es).
Qed.

Lemma merge_copy_vertices_lengths input offset src :
  forall i dst dst',
    merge_copy_vertices input offset i src dst = Ok dst' ->
    length (fst dst') = length (fst dst) /\ length (snd dst') = length (snd dst).
Proof.
  induction src as [|v src IH]; intros i dst dst' H; simpl in H.
  - inversion H; subst. auto.
  - apply bind_Ok in H as (s & Hs & H). apply bind_Ok in H as (j & Hj & H).
    apply bind_Ok in H as (dv & Hdv & H). apply bind_Ok in H as (ds & Hds & H).
    apply IH in H. cbn [fst snd] in H.
    apply set_at_Ok in Hdv as (R1 & ->). apply set_at_Ok in Hds as (R2 & ->).
    rewrite <- !insert_take_drop in H by (unfold size in *; lia).
    rewrite !length_insert in H. exact H.
Qed.

(** Scalars that can be read for every vertex are scalars that cover the
    vertices. *)
Lemma readable_scalars_cover input :
  (forall k, 0 <= k < size (UMesh.vertices input) ->
             exists s, perVertex_value input k = Ok s) ->
  scalars_cover input.
Proof.
  intros H. unfold scalars_cover.
  destruct (UMesh.vertices input) as [|v vs] eqn:E; [now left|right].
  destruct (H (Z.of_nat (length vs))) as (s & Hs); [unfold size; cbn [length]; lia|].
  unfold perVertex_value in Hs. unfold carries_values.
  destruct (UMesh.perVertex input) as [a|]; [|discriminate].
  exists a. split; [reflexivity|].
  apply at_Ok in Hs. rewrite E. unfold size in *. cbn [length]. lia.
Qed.

Lemma scalars_cover_readable input i :
  scalars_cover input -> 0 <= i < size (UMesh.vertices input) ->
  exists s, perVertex_value input i = Ok s.
Proof. apply perVertex_value_returns. Qed.

(** A turn of the second pass that returns has found a scalar for every
    vertex of its input. *)
Lemma merge_copy_input_reads out input o out' :
  merge_copy_input out (input, o) = Ok out' -> scalars_cover input.
Proof.
  unfold merge_copy_input. intros H.
  apply bind_Ok in H as (u & _ & H). apply bind_Ok in H as (vals & _ & H).
  apply bind_Ok in H as (vs & Hvs & _).
  apply readable_scalars_cover. intros k Hk.
  apply (merge_copy_vertices_reads _ _ _ _ _ _ Hvs). lia.
Qed.

(** On an input with a vertex that has no scalar, a turn of the second pass
    goes wrong. *)
Lemma merge_copy_input_undefined out input o :
  ~ scalars_cover input -> exists u, merge_copy_input out (input, o) = Undefined u.
Proof.
  intros Hno.
  destruct (merge_copy_input out (input, o)) as [out'|w|u] eqn:E.
  - exfalso. apply Hno. exact (merge_copy_input_reads _ _ _ _ E).
  - exfalso. unfold merge_copy_input in E.
    unfold int_counter_reaches in E.
    destruct (size (UMesh.vertices input) <=? INT_MAX); [|discriminate].
    cbn [bind] in E. unfold merge_out_values in E.
    destruct (UMesh.perVertex out); [|discriminate]. cbn [bind] in E.
    destruct (merge_copy_vertices input (vtxOffset o) 0 (UMesh.vertices input)
                (UMesh.vertices out, Attribute.values t)) as [vs|w'|u] eqn:Ev.
    + exfalso. apply Hno. apply readable_scalars_cover. intros k Hk.
      apply (merge_copy_vertices_reads _ _ _ _ _ _ Ev). lia.
    + exact (merge_copy_vertices_never_throws _ _ _ _ _ _ Ev).
    + discriminate.
  - eauto.
Qed.

Lemma foldM_all_turns {A S} (body : S -> A -> outcome S) l :
  forall s s', foldM body l s = Ok s' ->
               Forall (fun a => exists s1 s2, body s1 a = Ok s2) l.
Proof.
  induction l as [|a l IH]; intros s s' H; simpl in H; [constructor|].
  apply bind_Ok in H as (s1 & H1 & H2). constructor; eauto.
Qed.

Lemma merge_count_offsets_length inputs :
  forall st st', foldM merge_count_input inputs st = Ok st' ->
                 length (snd st') = (length (snd st) + length inputs)%nat.
Proof.
  induction inputs as [|m inputs IH]; intros [c offs] st' H; simpl in H.
  - inversion H; subst. simpl. lia.
  - apply bind_Ok in H as (st1 & H1 & H2).
    destruct (_ >? INT_MAX) in H1; [discriminate|]. inversion H1; subst.
    apply IH in H2. cbn [snd] in *. rewrite length_app in H2. simpl in *. lia.
Qed.

Lemma merge_copy_input_fresh out io out' :
  fresh_values out -> merge_copy_input out io = Ok out' -> fresh_values out'.
Proof.
  destruct io as [input o]. intros (vals & Hp & Hn) H. unfold merge_copy_input in H.
  apply bind_Ok in H as (u & _ & H). apply bind_Ok in H as (vals' & Hvals & H).
  apply bind_Ok in H as (vs & Hvs & H).
  unfold merge_out_values in Hvals. rewrite Hp in Hvals. inversion Hvals; subst vals'.
  apply merge_copy_vertices_lengths in Hvs as [L1 L2]. cbn [fst snd Attribute.values] in *.
  repeat (apply bind_Ok in H as (? & _ & H)).
  inversion H; subst. unfold fresh_values. cbn.
  eexists. split; [reflexivity|]. unfold size in *. lia.
Qed.

(** The mesh [mergeMeshes] returns carries the attribute it allocated,
    finalized: unnamed, with one value per vertex. *)
Lemma mergeMeshes_fresh inputs out :
  mergeMeshes inputs = Ok out ->
  exists vals,
    UMesh.perVertex out = Some (Attribute.finalize (Attribute.mk "" vals range1f_empty))
    /\ size vals = size (UMesh.vertices out).
Proof.
  unfold mergeMeshes. intros H.
  apply bind_Ok in H as (co & _ & H). apply bind_Ok in H as (out1 & H1 & Hfin).
  unfold merge_copy_pass in H1.
  assert (fresh_values out1) as (vals & Hp & Hn).
  { eapply (foldM_invariant fresh_values); [| |exact H1].
    - intros s a s' _. apply merge_copy_input_fresh.
    - unfold fresh_values, merge_allocate. cbn.
      eexists. split; [reflexivity|]. unfold size, resize. now rewrite !length_replicate. }
  pose proof (finalize_frame _ _ Hfin) as E.
  exists vals. rewrite E. cbn. rewrite Hp. cbn. auto.
Qed.

(** When [mergeMeshes] returns, the scalars of every input it visited cover
    the vertices of that input. *)
Lemma mergeMeshes_reads_all inputs out :
  size inputs <= INT_MAX -> mergeMeshes inputs = Ok out -> Forall scalars_cover inputs.
Proof.
  unfold mergeMeshes. intros Hn H.
  apply bind_Ok in H as (co & H0 & H). apply bind_Ok in H as (out1 & H1 & _).
  unfold merge_offsets_pass in H0. apply merge_count_offsets_length in H0.
  cbn [snd length] in H0.
  unfold merge_copy_pass in H1.
  rewrite to_int_small in H1 by (unfold INT_MIN, INT_MAX, size in *; lia).
  rewrite take_ge in H1 by (rewrite length_zip; unfold size; lia).
  apply foldM_all_turns in H1.
  rewrite <- (fst_zip inputs (snd co)) by lia.
  apply Forall_fmap. eapply Forall_impl; [exact H1|].
  intros [input o] (s1 & s2 & Hio). cbn. exact (merge_copy_input_reads _ _ _ _ Hio).
Qed.

(** C10.  [mergeMeshes] reads [input->perVertex->values[i]] for every vertex
    [i] of every input it visits.  A turn of its second pass goes wrong on an
    input that has a vertex without such a value, so that a call that returns
    has found, for every input with at least one vertex, a primary attribute
    with at least one value per vertex (an input without vertices needs no
    attribute).  Under that condition every one of these reads is valid, and
    the whole call returns for inputs whose elements name their own vertices
    and whose totals fit an [int].  The mesh returned carries the attribute
    created by the call: unnamed, with exactly one value per vertex of the
    output. *)
Theorem mergeMeshes_needs_scalars :
  (forall out input o,
      ~ scalars_cover input -> exists u, merge_copy_input out (input, o) = Undefined u)
  /\ (forall inputs out,
        size inputs <= INT_MAX -> mergeMeshes inputs = Ok out ->
        Forall scalars_cover inputs)
  /\ (forall input i,
        scalars_cover input -> 0 <= i < size (UMesh.vertices input) ->
        exists s, perVertex_value input i = Ok s)
  /\ (forall inputs,
        Forall scalars_cover inputs -> Forall indices_valid inputs ->
        counts_fit (merge_totals inputs) ->
        exists out, mergeMeshes inputs = Ok out)
  /\ (forall inputs out,
        mergeMeshes inputs = Ok out ->
        exists vals,
          UMesh.perVertex out
          = Some (Attribute.finalize (Attribute.mk "" vals range1f_empty))
          /\ size vals = size (UMesh.vertices out)).
Proof.
  split; [exact merge_copy_input_undefined|].
  split; [exact mergeMeshes_reads_all|].
  split; [exact scalars_cover_readable|].
  split; [|exact mergeMeshes_fresh].
  intros inputs Hs Hv Hfit.
  destruct (mergeMeshes_returns inputs Hv Hs Hfit) as (out & _ & H & _). eauto.
Qed.

(** A mesh without vertices and without a primary attribute is merged all
    the same: nothing of its attribute is read. *)
Lemma mergeMeshes_reads_nothing_of_empty :
  ~ carries_values UMesh.empty
  /\ exists out, mergeMeshes [mesh_A; UMesh.empty] = Ok out
                 /\ UMesh.vertices out = UMesh.vertices mesh_A
                 /\ UMesh.tets out = UMesh.tets mesh_A.
Proof.
  split.
  - intros (a & Ha & _). discriminate Ha.
  - eexists. split; [vm_compute; reflexivity|]. split; reflexivity.
Qed.

(** A mesh with vertices and no primary attribute makes the call go wrong. *)
Lemma mergeMeshes_null_attribute :
  mergeMeshes [two_triangles] = Undefined NullDereference.
Proof. vm_compute. reflexivity. Qed.

(** ** UMesh::append *)

(** Whatever [other] holds, [append] leaves the triangles and the quads of
    [this] as they were: no loop of it visits those of [other]. *)
Lemma append_keeps_surface this other out :
  append this other = Ok out ->
  UMesh.triangles out = UMesh.triangles this /\ UMesh.quads out = UMesh.quads this.
Proof.
  unfold append. intros H.
  do 6 (apply bind_Ok in H as (? & _ & H)).
  apply finalize_frame in H. rewrite H. cbn. auto.
Qed.

(** C4.  [mesh_B], with its quad and its pyramid, appended to [mesh_A]: the
    vertices, the scalars, the pyramid (its indices increased by the four
    vertices of [mesh_A]), the grid (its scalar offset increased by the
    eight grid scalars of [mesh_A]) and the grid scalars arrive, and the
    result is finalized; the quad of [mesh_B] does not arrive, while
    [mergeMeshes] on the same two meshes copies it. *)
Theorem append_drops_surface_elements :
  UMesh.quads mesh_B = [V4.mk 0 1 2 3]
  /\ exists out,
      append mesh_A mesh_B = Ok out
      /\ size (UMesh.vertices out) = 4 + 5
      /\ UMesh.pyrs out = [Pyr.mk (V4.mk 4 5 6 7) 8]
      /\ map Grid.scalarsOffset (UMesh.grids out) = [0; 8]
      /\ size (UMesh.gridScalars out) = 8 + 8
      /\ UMesh.finalize out = Ok out
      /\ UMesh.quads out = []
      /\ UMesh.quads mesh_AB = [V4.mk 4 5 6 7].
Proof.
  split; [reflexivity|].
  eexists. split; [vm_compute; reflexivity|].
  repeat split; vm_compute; reflexivity.
Qed.

(** ** The binary codec *)

(** C2.  The mesh that [replaceScalarField] saves, [mesh_A] loaded from a
    file and given new scalars as its primary attribute, is finalized, is
    saved, and is loaded again with every vertex and element as saved, but
    with the scalars and the attribute name the file had before: the writer
    writes the attribute list, not the primary attribute, whenever the list
    is not empty.  A finalized mesh with two attributes is saved with both
    and cannot be loaded again: the reader reads one attribute whatever the
    count. *)
Theorem saved_mesh_loses_primary_attribute :
  UMesh.finalize mesh_A_rescored = Ok mesh_A_rescored
  /\ option_map Attribute.values (UMesh.perVertex mesh_A_rescored) = Some new_scalars
  /\ (exists file out a,
        saveTo mesh_A_rescored = Ok file /\ loadFrom file = Ok out
        /\ UMesh.vertices out = UMesh.vertices mesh_A_rescored
        /\ UMesh.tets out = UMesh.tets mesh_A_rescored
        /\ UMesh.perVertex out = Some a
        /\ Attribute.name a = "pressure"
        /\ Attribute.values a = map F32.of_Z [1; 2; 3; 4])
  /\ UMesh.finalize mesh_two_attributes = Ok mesh_two_attributes
  /\ (file <- saveTo mesh_two_attributes ;; loadFrom file)
     = Throw "could not read triangles".
Proof.
  split; [vm_compute; reflexivity|]. split; [vm_compute; reflexivity|].
  split.
  - eexists. eexists. eexists.
    split; [vm_compute; reflexivity|]. split; [vm_compute; reflexivity|].
    repeat split; vm_compute; reflexivity.
  - split; vm_compute; reflexivity.
Qed.

(** ** The magic of a stream *)

Lemma read_magic obj magic payload e :
  0 <= magic < 2 ^ 64 ->
  readElement (T := Z) "magic"
    (mk_reader obj (mk_istream (writeElement magic ++ payload) e))
  = (mk_reader obj (mk_istream payload e), Ok magic).
Proof.
  intros Hm. unfold readElement, rbind, read_bytes, ret, writeElement.
  cbn [to_raw of_raw raw_size Raw_size_t this in_ rest eofbit].
  assert (length (le_split 8 magic) = 8%nat) as L by apply length_le_split.
  destruct (Z.leb_spec (Z.of_nat 8) (size (le_split 8 magic ++ payload))) as [_|Hlt].
  - rewrite Nat2Z.id.
    rewrite (take_app_length' _ _ 8) by (symmetry; exact L).
    rewrite (drop_app_length' _ _ 8) by (symmetry; exact L).
    rewrite le_combine_split. rewrite Z.mod_small by (cbn; lia). reflexivity.
  - exfalso. unfold size in Hlt. rewrite length_app, L in Hlt. lia.
Qed.

(** ** The queue of the partitioner *)

Lemma entry_ltb_trans a b c :
  entry_ltb a b = true -> entry_ltb b c = true -> entry_ltb a c = true.
Proof.
  unfold entry_ltb. intros H1 H2.
  apply orb_true_iff in H1, H2. apply orb_true_iff.
  rewrite !andb_true_iff, !negb_true_iff, !Z.ltb_lt, !Z.ltb_ge in *. lia.
Qed.

Lemma entry_ltb_irrefl m : entry_ltb m m = false.
Proof. unfold entry_ltb. rewrite !Z.ltb_irrefl. reflexivity. Qed.

Lemma entry_ltb_first m e : entry_ltb m e = false -> first e <= first m.
Proof.
  unfold entry_ltb. intros H. apply orb_false_iff in H as [H _].
  apply Z.ltb_ge in H. exact H.
Qed.

(** [top()] is an entry that no entry of the queue is above. *)
Lemma top_pop_max q :
  forall m rest, top_pop q = Some (m, rest) ->
                 Forall (fun e => entry_ltb m e = false) q.
Proof.
  induction q as [|e q IH]; intros m rest H; simpl in H; [discriminate|].
  destruct (top_pop q) as [[m' rest']|] eqn:E.
  - specialize (IH m' rest' eq_refl).
    destruct (entry_ltb m' e) eqn:L; inversion H; subst.
    + constructor.
      * apply entry_ltb_irrefl.
      * eapply Forall_impl; [exact IH|]. intros x Hx.
        destruct (entry_ltb m x) eqn:Lx; [|reflexivity].
        pose proof (entry_ltb_trans _ _ _ L Lx) as T. cbn beta in Hx. congruence.
    + constructor; assumption.
  - inversion H; subst. destruct q; [|simpl in E; destruct (top_pop q); try destruct p;
                                      try destruct (entry_ltb _ _); discriminate].
    constructor; [apply entry_ltb_irrefl|constructor].
Qed.

Lemma top_pop_length q m rest : top_pop q = Some (m, rest) -> length q = S (length rest).
Proof. intros H. apply top_pop_Permutation, Permutation_length in H. exact H. Qed.

(** The emitting loop writes the bricks of the queue, each once. *)
Lemma emit_Permutation fuel :
  forall q, (length q <= fuel)%nat -> Permutation (emit fuel q) (map second q).
Proof.
  induction fuel as [|fuel IH]; intros q Hq.
  - destruct q; [constructor|simpl in Hq; lia].
  - simpl. destruct q as [|e q]; [constructor|].
    destruct (top_pop_nonempty e q) as (m & rest & E). rewrite E.
    pose proof (top_pop_length _ _ _ E) as L.
    pose proof (top_pop_Permutation _ _ _ E) as P.
    eapply perm_trans; [apply perm_skip, IH; simpl in Hq, L; lia|].
    apply Permutation_sym. exact (Permutation_map second P).
Qed.

(** The emitting loop writes the bricks from the most prims down. *)
Lemma emit_sorted fuel :
  forall q, counts_match q -> (length q <= fuel)%nat ->
            StronglySorted (fun a b => prim_count b <= prim_count a) (emit fuel q).
Proof.
  induction fuel as [|fuel IH]; intros q Hc Hq; simpl; [constructor|].
  destruct (top_pop q) as [[m rest]|] eqn:E; [|constructor].
  pose proof (top_pop_length _ _ _ E) as L.
  pose proof (top_pop_Permutation _ _ _ E) as P.
  pose proof (top_pop_max _ _ _ E) as M.
  assert (counts_match (m :: rest)) as Hc'.
  { unfold counts_match in *. rewrite List.Forall_forall in *. intros x Hx. apply Hc.
    eapply Permutation_in; [apply Permutation_sym; exact P|exact Hx]. }
  inversion Hc' as [|? ? Hm Hrest]; subst.
  constructor.
  - apply IH; [exact Hrest|lia].
  - rewrite List.Forall_forall. intros b Hb.
    eapply Permutation_in in Hb; [|apply emit_Permutation; lia].
    apply in_map_iff in Hb as (x & <- & Hx).
    rewrite List.Forall_forall in M, Hrest.
    rewrite <- (Hrest x Hx), <- Hm. apply entry_ltb_first, M.
    eapply Permutation_in; [apply Permutation_sym; exact P|now right].
Qed.

Section PartitionerCounts.
Variable address_of_new : nat -> Z.

(** What the splitting loop keeps: one more brick per split, entries whose
    counts match their bricks, never more bricks than asked for. *)
Lemma split_loop_counts fuel in_ maxBricks leafThreshold : forall st st',
  split_loop address_of_new fuel in_ maxBricks leafThreshold st = Some (Ok st') ->
  counts_match (bricks st) ->
  (length (bricks st') + splits st = length (bricks st) + splits st')%nat
  /\ counts_match (bricks st')
  /\ size (bricks st') <= Z.max (size (bricks st)) (to_size_t maxBricks)
  /\ (size (bricks st') < to_size_t maxBricks ->
      Forall (fun e => first e < leafThreshold) (bricks st')).
Proof.
  induction fuel as [|fuel IH]; intros st st' H Hc; simpl in H.
  - destruct (Z.ltb_spec (size (bricks st)) (to_size_t maxBricks)); [discriminate|].
    inversion H; subst. repeat split; try assumption; lia.
  - destruct (Z.ltb_spec (size (bricks st)) (to_size_t maxBricks)) as [Hlt|Hge].
    + destruct (top_pop (bricks st)) as [[biggest rest]|] eqn:E; [|discriminate].
      pose proof (top_pop_length _ _ _ E) as L.
      pose proof (top_pop_Permutation _ _ _ E) as P.
      destruct (Z.ltb_spec (first biggest) leafThreshold) as [Hleaf|Hbig].
      * inversion H; subst. repeat split; try assumption; try lia.
        intros _. pose proof (top_pop_max _ _ _ E) as M.
        eapply Forall_impl; [exact M|]. intros e He. apply entry_ltb_first in He. lia.
      * destruct (split in_ (second biggest)) as [[half0 half1]| |] eqn:S; try discriminate.
        apply IH in H.
        -- destruct H as (H1 & H2 & H3 & H4). cbn [bricks splits] in *.
           unfold size in *. cbn [length] in *.
           repeat split; try assumption; try lia.
        -- cbn [bricks]. unfold counts_match in *.
           constructor; [reflexivity|]. constructor; [reflexivity|].
           rewrite List.Forall_forall in *. intros x Hx. apply Hc.
           eapply Permutation_in; [apply Permutation_sym; exact P|now right].
    + inversion H; subst. repeat split; try assumption; lia.
Qed.

Lemma partition_run_counts in_ maxBricks leafThreshold r :
  partitionObjectSpace address_of_new in_ maxBricks leafThreshold = Some (Ok r) ->
  exists st,
    Permutation (emitted r) (map second (bricks st))
    /\ length (emitted r) = length (bricks st)
    /\ StronglySorted (fun a b => prim_count b <= prim_count a) (emitted r)
    /\ length (bricks st) = S (numSplits r)
    /\ counts_match (bricks st)
    /\ size (bricks st) <= Z.max 1 (to_size_t maxBricks)
    /\ (size (bricks st) < to_size_t maxBricks ->
        Forall (fun e => first e < leafThreshold) (bricks st)).
Proof.
  unfold partitionObjectSpace. intros H.
  destruct (createInitialBrick address_of_new in_) as [st0| |] eqn:E0; try discriminate.
  destruct (split_loop address_of_new _ in_ maxBricks leafThreshold st0)
    as [[st| |]|] eqn:E1; try discriminate.
  inversion H; subst. cbn [emitted numSplits].
  apply createInitialBrick_spec in E0 as (brick & Hb & Hp & Hs).
  apply split_loop_counts in E1.
  - destruct E1 as (H1 & H2 & H3 & H4). rewrite Hb, Hs in *. cbn [length] in *.
    unfold size in H3. cbn [length] in H3.
    exists st. split; [apply emit_Permutation; lia|].
    split; [rewrite (Permutation_length (emit_Permutation _ (bricks st) (Nat.le_refl _)));
            apply length_map|].
    split; [apply emit_sorted; [exact H2|lia]|].
    split; [lia|]. split; [exact H2|]. split; [exact H3|exact H4].
  - rewrite Hb. constructor; [|constructor]. cbn. unfold prim_count. now rewrite Hp.
Qed.

(** Every run that returns has written one brick more than it has split,
    and, apart from the one brick it always writes, never more than
    [maxBricks] of them, [maxBricks] being taken as the [size_t] that the
    loop compares [bricks.size()] with.  For a [maxBricks] that is not
    negative that is its value; a negative one is converted to a value of
    2^64 minus its amount, and limits nothing. *)
Theorem partition_brick_count in_ maxBricks leafThreshold r :
  partitionObjectSpace address_of_new in_ maxBricks leafThreshold = Some (Ok r) ->
  length (emitted r) = S (numSplits r)
  /\ size (emitted r) <= Z.max 1 (to_size_t maxBricks)
  /\ (0 <= maxBricks <= INT_MAX -> size (emitted r) <= Z.max 1 maxBricks)
  /\ (INT_MIN <= maxBricks < 0 -> to_size_t maxBricks = 2 ^ 64 + maxBricks).
Proof.
  intros H. apply partition_run_counts in H as (st & _ & L & _ & Hn & _ & Hmax & _).
  unfold size in *. rewrite L. split; [exact Hn|]. split; [exact Hmax|]. split.
  - intros Hpos. rewrite <- (to_size_t_small maxBricks); [exact Hmax|].
    unfold INT_MAX in Hpos. lia.
  - intros Hneg. unfold to_size_t, INT_MIN in *.
    rewrite <- (Z.mod_add maxBricks 1 (2 ^ 64)) by lia.
    rewrite Z.mod_small; lia.
Qed.

(** A run that writes fewer bricks than [maxBricks] has stopped at the leaf
    threshold: every brick written holds fewer than [leafThreshold] prims. *)
Theorem partition_stops_below_leaf_threshold in_ maxBricks leafThreshold r :
  partitionObjectSpace address_of_new in_ maxBricks leafThreshold = Some (Ok r) ->
  size (emitted r) < to_size_t maxBricks ->
  Forall (fun b => prim_count b < leafThreshold) (emitted r).
Proof.
  intros H Hlt. apply partition_run_counts in H as (st & P & L & _ & _ & Hc & _ & Hleaf).
  unfold size in *. rewrite L in Hlt. specialize (Hleaf Hlt).
  unfold counts_match in Hc. rewrite List.Forall_forall in *. intros b Hb.
  eapply Permutation_in in Hb; [|exact P].
  apply in_map_iff in Hb as (e & <- & He).
  rewrite <- (Hc e He). exact (Hleaf e He).
Qed.

(** The bricks are written from the one with the most prims down: brick 0
    is a biggest one. *)
Theorem partition_emits_biggest_first in_ maxBricks leafThreshold r :
  partitionObjectSpace address_of_new in_ maxBricks leafThreshold = Some (Ok r) ->
  StronglySorted (fun a b => prim_count b <= prim_count a) (emitted r).
Proof.
  intros H. apply partition_run_counts in H as (st & _ & _ & S & _). exact S.
Qed.
End PartitionerCounts.

Lemma two_triangles_leaves_run :
  partitionObjectSpace example_address two_triangles 5 2 = Some (Ok two_triangles_leaves).
Proof. vm_compute. reflexivity. Qed.

Lemma partition_brick_count_witness :
  partitionObjectSpace example_address two_triangles 2 1 = Some (Ok two_triangles_partition)
  /\ length (emitted two_triangles_partition) = S (numSplits two_triangles_partition)
  /\ size (emitted two_triangles_partition) <= Z.max 1 (to_size_t 2).
Proof.
  split; [exact two_triangles_partition_run|].
  pose proof (partition_brick_count example_address two_triangles 2 1
                two_triangles_partition two_triangles_partition_run) as (H1 & H2 & _).
  split; assumption.
Defined.

Lemma partition_stops_below_leaf_threshold_witness :
  partitionObjectSpace example_address two_triangles 5 2 = Some (Ok two_triangles_leaves)
  /\ size (emitted two_triangles_leaves) < to_size_t 5
  /\ Forall (fun b => prim_count b < 2) (emitted two_triangles_leaves).
Proof.
  assert (size (emitted two_triangles_leaves) < to_size_t 5) as H by (vm_compute; reflexivity).
  split; [exact two_triangles_leaves_run|]. split; [exact H|].
  exact (partition_stops_below_leaf_threshold example_address two_triangles 5 2
           two_triangles_leaves two_triangles_leaves_run H).
Defined.

Lemma partition_emits_biggest_first_witness :
  partitionObjectSpace example_address two_triangles 5 2 = Some (Ok two_triangles_leaves)
  /\ StronglySorted (fun a b => prim_count b <= prim_count a)
                    (emitted two_triangles_leaves).
Proof.
  split; [exact two_triangles_leaves_run|].
  exact (partition_emits_biggest_first example_address two_triangles 5 2
           two_triangles_leaves two_triangles_leaves_run).
Defined.

(** ** Progress of split *)

Lemma get_minus_one {A} (v : V3.t A) : V3.get v (-1) = Undefined OutOfRange.
Proof. reflexivity. Qed.

(** A count that is not zero has counted a prim. *)
Lemma split_count_counted mesh in_ dim pos c0 c1 :
  split_count mesh in_ dim pos = Ok (c0, c1) ->
  (c0 <> 0 -> exists p, In p (Brick.prims in_) /\ split_side mesh dim pos p = Ok false)
  /\ (c1 <> 0 -> exists p, In p (Brick.prims in_) /\ split_side mesh dim pos p = Ok true).
Proof.
  unfold split_count. intros H.
  set (P := fun c : Z * Z =>
              (fst c <> 0 -> exists p, In p (Brick.prims in_)
                                       /\ split_side mesh dim pos p = Ok false)
              /\ (snd c <> 0 -> exists p, In p (Brick.prims in_)
                                          /\ split_side mesh dim pos p = Ok true)).
  change (P (c0, c1)).
  eapply (for_blocked_invariant P); [| |exact H].
  - intros b e [count0 count1] s' He [P0 P1] Hb. cbn [fst snd] in *.
    apply bind_Ok in Hb as (u & _ & Hb). apply bind_Ok in Hb as (l & Hl & Hb).
    inversion Hb; subst s'. clear Hb.
    assert (P l) as [L0 L1].
    { eapply (foldM_invariant P); [| |exact Hl].
      - intros [l0 l1] p s' Hin [Q0 Q1] Hs. cbn [fst snd] in *.
        apply In_slice in Hin.
        apply bind_Ok in Hs as (s & Hside & Hs). inversion Hs; subst s'.
        destruct s; cbn [fst snd]; split; intros Hne; eauto.
      - split; cbn; intros F; contradiction. }
    split; cbn [fst snd]; intros Hne.
    + destruct (Z.eq_dec count0 0) as [->|N]; [|auto].
      apply L0. intros E0. rewrite E0 in Hne. apply Hne. reflexivity.
    + destruct (Z.eq_dec count1 0) as [->|N]; [|auto].
      apply L1. intros E0. rewrite E0 in Hne. apply Hne. reflexivity.
  - split; cbn; intros F; contradiction.
Qed.

(** The plane [split] settles on, when it settles on one, has prims on both
    sides. *)
Lemma split_candidates_chosen mesh in_ best :
  foldM (split_candidate mesh in_) candidates (mk_best F32.lit_1e30 (-1) F32.zero) = Ok best ->
  bestDim best = -1
  \/ ((exists p, In p (Brick.prims in_)
                 /\ split_side mesh (bestDim best) (bestPos best) p = Ok false)
      /\ (exists p, In p (Brick.prims in_)
                    /\ split_side mesh (bestDim best) (bestPos best) p = Ok true)).
Proof.
  apply (foldM_invariant
           (fun best =>
              bestDim best = -1
              \/ ((exists p, In p (Brick.prims in_)
                             /\ split_side mesh (bestDim best) (bestPos best) p = Ok false)
                  /\ (exists p, In p (Brick.prims in_)
                                /\ split_side mesh (bestDim best) (bestPos best) p = Ok true)))).
  - intros b [dim plane] b' _ Hb H. unfold split_candidate in H.
    apply bind_Ok in H as (pos & _ & H). apply bind_Ok in H as ([c0 c1] & Hc & H).
    apply bind_Ok in H as (w & _ & H). cbn [fst snd] in H.
    destruct (Z.eqb_spec c0 0) as [|N0]; cbn [negb andb] in H;
      [inversion H; subst; exact Hb|].
    destruct (Z.eqb_spec c1 0) as [|N1]; cbn [negb andb] in H;
      [inversion H; subst; exact Hb|].
    destruct (F32.ltb w (bestWeight b)); inversion H; subst; [|exact Hb].
    right. cbn [bestDim bestPos].
    apply split_count_counted in Hc as [H0 H1]. split; auto.
  - now left.
Qed.

Lemma filter_holds_one {A} (f : A -> bool) l a :
  In a l -> f a = true -> (0 < length (List.filter f l))%nat.
Proof.
  intros Hin Hf. assert (In a (List.filter f l)) as H by (apply filter_In; auto).
  destruct (List.filter f l); [contradiction|simpl; lia].
Qed.

(** When [split] returns for a brick that holds prims, each of the two
    bricks it returns holds at least one prim, and fewer than the brick it
    split. *)
Theorem split_halves_are_smaller mesh in_ out0 out1 :
  Brick.prims in_ <> [] ->
  split mesh in_ = Ok (out0, out1) ->
  (0 < length (Brick.prims out0) < length (Brick.prims in_))%nat
  /\ (0 < length (Brick.prims out1) < length (Brick.prims in_))%nat.
Proof.
  intros Hne H.
  pose proof (Permutation_length (split_Permutation _ _ _ _ H)) as L.
  rewrite length_app in L.
  unfold split in H.
  destruct (vec3f_eqb _ _); [discriminate|].
  apply bind_Ok in H as (best & Hbest & H).
  apply split_candidates_chosen in Hbest as [Hm|[(p0 & I0 & S0) (p1 & I1 & S1)]].
  - exfalso. rewrite Hm in H.
    destruct (Brick.prims in_) as [|p l]; [contradiction|].
    simpl in H. apply bind_Ok in H as ([b0 b1] & Hp & _).
    apply split_assign_spec in Hp as (s & Hs & _).
    unfold split_side in Hs.
    destruct (UMesh.getBounds mesh p); simpl in Hs; discriminate.
  - apply split_assign_loop in H as (E0 & E1 & _). cbn [fst snd Brick.prims Brick.new app] in *.
    assert (on_side mesh (bestDim best) (bestPos best) false p0 = true) as F0
        by (unfold on_side; rewrite S0; reflexivity).
    assert (on_side mesh (bestDim best) (bestPos best) true p1 = true) as F1
        by (unfold on_side; rewrite S1; reflexivity).
    pose proof (filter_holds_one _ _ _ I0 F0) as N0.
    pose proof (filter_holds_one _ _ _ I1 F1) as N1.
    rewrite <- E0 in N0. rewrite <- E1 in N1.
    lia.
Qed.

Lemma two_triangles_split :
  split two_triangles two_triangles_brick = Ok two_triangles_halves.
Proof. vm_compute. reflexivity. Qed.

Lemma split_halves_are_smaller_witness :
  Brick.prims two_triangles_brick <> []
  /\ split two_triangles two_triangles_brick = Ok two_triangles_halves
  /\ (0 < length (Brick.prims (fst two_triangles_halves))
      < length (Brick.prims two_triangles_brick))%nat.
Proof.
  assert (Brick.prims two_triangles_brick <> []) as H by discriminate.
  split; [exact H|]. split; [exact two_triangles_split|].
  exact (proj1 (split_halves_are_smaller two_triangles two_triangles_brick
                  (fst two_triangles_halves) (snd two_triangles_halves) H
                  two_triangles_split)).
Defined.

(** ** mergeMeshes of any number of meshes *)

Lemma counts_plus_zero c : counts_plus c counts_zero = c.
Proof. destruct c. unfold counts_plus. cbn. f_equal; lia. Qed.

Lemma totals_split l :
  forall c, fold_left counts_add l c = counts_plus c (fold_left counts_add l counts_zero).
Proof.
  induction l as [|m l IH]; intros c; simpl.
  - now rewrite counts_plus_zero.
  - rewrite (IH (counts_add c m)), (IH (counts_add counts_zero m)).
    unfold counts_plus, counts_add. cbn. f_equal; lia.
Qed.

Lemma overwrite_append {A} (p block : list A) (k : nat) d :
  overwrite (size p) block (p ++ replicate (length block + k) d)
  = (p ++ block) ++ replicate k d.
Proof.
  unfold overwrite, size. rewrite Nat2Z.id.
  rewrite take_app_length, <- app_assoc. f_equal. f_equal.
  rewrite drop_app_ge by lia.
  replace (length p + length block - length p)%nat with (length block) by lia.
  rewrite drop_replicate. f_equal. lia.
Qed.

Lemma resize_plus {A} (a b : Z) (d : A) :
  0 <= a -> 0 <= b -> resize (a + b) d = replicate (Z.to_nat a + Z.to_nat b) d.
Proof. intros Ha Hb. unfold resize. now rewrite Z2Nat.inj_add. Qed.

Lemma overwrite_padded {A} (p block : list A) (off n c : Z) d :
  off = size p -> size block = n -> 0 <= c ->
  overwrite off block (p ++ resize (n + c) d) = (p ++ block) ++ resize c d.
Proof.
  intros -> <- Hc. rewrite resize_plus by (unfold size; lia).
  unfold size at 2. rewrite Nat2Z.id. apply overwrite_append.
Qed.

Lemma size_map {A B} (f : A -> B) l : size (map f l) = size l.
Proof. unfold size. now rewrite length_map. Qed.

Lemma counts_of_concatenation acc m :
  counts_of (concatenation acc m) = counts_add (counts_of acc) m.
Proof.
  unfold counts_of, counts_add, concatenation, size. cbn.
  rewrite !length_app, !length_map. f_equal; rewrite Nat2Z.inj_add; reflexivity.
Qed.

Lemma concatenation_plain acc m :
  plain acc ->
  length (take (length (UMesh.vertices m)) (primary_values m)) = length (UMesh.vertices m) ->
  plain (concatenation acc m).
Proof.
  intros (Hp & Hl & _) Hm. unfold plain, concatenation, primary_values at 1 2. cbn.
  repeat split; try reflexivity.
  rewrite !length_app, Hm, length_take. lia.
Qed.

(** One turn of the second pass puts the input behind what is there. *)
Lemma merge_step acc m c out1 :
  plain acc -> counts_nonneg c ->
  merge_copy_input (padded acc (counts_plus (counts_of m) c)) (m, offsets_of (counts_of acc))
  = Ok out1 ->
  out1 = padded (concatenation acc m) c /\ plain (concatenation acc m).
Proof.
  intros Hplain (N1 & N2 & N3 & N4 & N5 & N6 & N7 & N8 & N9) H.
  cbn in N1, N2, N3, N4, N5, N6, N7, N8, N9.
  apply merge_copy_input_Ok in H; try (cbn; unfold size; lia).
  destruct H as (_ & Hvals & ->).
  pose proof (concatenation_plain acc m Hplain Hvals) as Hplain'.
  split; [|exact Hplain'].
  destruct Hplain as (Hp & Hl & _).
  unfold padded. cbn [UMesh.vertices UMesh.triangles UMesh.quads UMesh.tets UMesh.pyrs
                      UMesh.wedges UMesh.hexes UMesh.grids UMesh.gridScalars
                      UMesh.attributes UMesh.vertexTags UMesh.bounds
                      UMesh.gridsScalarRange UMesh.perVertex
                      offsets_of counts_of counts_add counts_zero counts_plus
                      vtxOffset triOffset qudOffset tetOffset pyrOffset wdgOffset
                      hexOffset grdOffset gscOffset
                      numVtx numTri numQud numTet numPyr numWdg numHex numGrd numGsc].
  unfold primary_values at 2. cbn [UMesh.perVertex Attribute.values].
  rewrite !Z.add_0_l.
  assert (size (UMesh.vertices acc) = size (primary_values acc)) as Hs
      by (unfold size; now rewrite Hl).
  rewrite !(overwrite_padded _ _ _ _ _ _ eq_refl);
    try assumption; try reflexivity; try apply size_map.
  rewrite (overwrite_padded _ _ _ _ _ _ Hs); try assumption.
  - unfold concatenation. cbn [UMesh.vertices UMesh.triangles UMesh.quads UMesh.tets
                               UMesh.pyrs UMesh.wedges UMesh.hexes UMesh.grids
                               UMesh.gridScalars].
    unfold primary_values at 3. cbn [UMesh.perVertex Attribute.values].
    rewrite (take_ge (primary_values acc)) by lia.
    reflexivity.
  - unfold size. now rewrite Hvals.
Qed.

Lemma padded_zero acc : plain acc -> padded acc counts_zero = acc.
Proof.
  intros (Hp & _ & Ha & Ht & Hb & Hr). destruct acc as [? [[n v r]|] ? ? ? ? ? ? ? ? ? ? ? ?];
    unfold primary_values in Hp; cbn in *; [|discriminate].
  inversion Hp; subst.
  unfold padded, resize, primary_values. cbn. rewrite !app_nil_r.
  reflexivity.
Qed.

(** The second pass puts the inputs behind one another, in their order. *)
Lemma merge_pass_content inputs :
  forall acc out,
    plain acc ->
    foldM merge_copy_input (zip inputs (offsets_from (counts_of acc) inputs))
          (padded acc (fold_left counts_add inputs counts_zero)) = Ok out ->
    out = fold_left concatenation inputs acc /\ plain out.
Proof.
  induction inputs as [|m inputs IH]; intros acc out Hplain H.
  - simpl in H. inversion H; subst. rewrite padded_zero by assumption. simpl. auto.
  - cbn [fold_left offsets_from zip zip_with foldM] in H.
    apply bind_Ok in H as (out1 & H1 & H2).
    rewrite totals_split in H1.
    apply merge_step in H1 as [-> Hplain']; [|exact Hplain|apply totals_le].
    rewrite <- counts_of_concatenation in H2.
    exact (IH _ _ Hplain' H2).
Qed.

Lemma merge_base_plain : plain merge_base.
Proof. unfold plain. cbn. repeat split; reflexivity. Qed.

(** For any number of inputs whose totals fit an [int], the mesh
    [mergeMeshes] returns is [finalize] applied to the inputs put one behind
    the other: the vertices of all inputs in their order, one scalar per
    vertex, every element with its indices increased by the number of
    vertices of the inputs before it, every grid with its scalar offset
    increased by the number of grid scalars of the inputs before it. *)
Theorem mergeMeshes_is_concatenation inputs out :
  size inputs <= INT_MAX -> counts_fit (merge_totals inputs) ->
  mergeMeshes inputs = Ok out ->
  UMesh.finalize (concatenation_of inputs) = Ok out.
Proof.
  intros Hn Hfit H. unfold mergeMeshes, merge_offsets_pass in H.
  change (mk_counts 0 0 0 0 0 0 0 0 0) with counts_zero in H.
  rewrite (merge_offsets_from inputs counts_zero []) in H;
    [|apply counts_zero_nonneg|exact Hfit].
  cbn [bind fst snd app] in H.
  apply bind_Ok in H as (out1 & H1 & Hfin).
  unfold merge_copy_pass in H1.
  rewrite to_int_small in H1 by (unfold INT_MIN, INT_MAX, size in *; lia).
  rewrite take_ge in H1.
  - apply (merge_pass_content inputs merge_base out1 merge_base_plain) in H1 as [-> _].
    exact Hfin.
  - rewrite length_zip. unfold size. lia.
Qed.

Lemma mesh_ABA_merged : mergeMeshes [mesh_A; mesh_B; mesh_A_loaded] = Ok mesh_ABA.
Proof. vm_compute. reflexivity. Qed.

Lemma mergeMeshes_is_concatenation_witness :
  size [mesh_A; mesh_B; mesh_A_loaded] <= INT_MAX
  /\ counts_fit (merge_totals [mesh_A; mesh_B; mesh_A_loaded])
  /\ mergeMeshes [mesh_A; mesh_B; mesh_A_loaded] = Ok mesh_ABA
  /\ UMesh.finalize (concatenation_of [mesh_A; mesh_B; mesh_A_loaded]) = Ok mesh_ABA.
Proof.
  assert (size [mesh_A; mesh_B; mesh_A_loaded] <= INT_MAX) as H1 by (vm_compute; discriminate).
  assert (counts_fit (merge_totals [mesh_A; mesh_B; mesh_A_loaded])) as H2
      by (unfold counts_fit, counts_le; vm_compute; repeat split; discriminate).
  split; [exact H1|]. split; [exact H2|]. split; [exact mesh_ABA_merged|].
  exact (mergeMeshes_is_concatenation _ _ H1 H2 mesh_ABA_merged).
Defined.

Lemma merge_copy_input_frame out io out' :
  merge_copy_input out io = Ok out' ->
  UMesh.attributes out' = UMesh.attributes out
  /\ UMesh.vertexTags out' = UMesh.vertexTags out.
Proof.
  destruct io as [input o]. unfold merge_copy_input. intros H.
  do 11 (apply bind_Ok in H as (? & _ & H)).
  inversion H; subst. cbn. auto.
Qed.

(** The mesh [mergeMeshes] returns has no attribute list and no vertex
    tags, whatever the inputs hold. *)
Theorem mergeMeshes_drops_tags_and_attributes inputs out :
  mergeMeshes inputs = Ok out ->
  UMesh.attributes out = [] /\ UMesh.vertexTags out = [].
Proof.
  unfold mergeMeshes. intros H.
  apply bind_Ok in H as (co & _ & H). apply bind_Ok in H as (out1 & H1 & Hfin).
  unfold merge_copy_pass in H1.
  assert (UMesh.attributes out1 = [] /\ UMesh.vertexTags out1 = []) as [Ha Ht].
  { eapply (foldM_invariant
              (fun o => UMesh.attributes o = [] /\ UMesh.vertexTags o = []));
      [| |exact H1].
    - intros s a s' _ [Ha Ht] Hs. apply merge_copy_input_frame in Hs as [-> ->]. auto.
    - split; reflexivity. }
  apply finalize_frame in Hfin. rewrite Hfin. cbn. auto.
Qed.

Lemma mergeMeshes_drops_tags_and_attributes_witness :
  UMesh.attributes mesh_A_loaded <> []
  /\ mergeMeshes [mesh_A; mesh_B; mesh_A_loaded] = Ok mesh_ABA
  /\ UMesh.attributes mesh_ABA = [] /\ UMesh.vertexTags mesh_ABA = [].
Proof.
  split; [discriminate|]. split; [exact mesh_ABA_merged|].
  exact (mergeMeshes_drops_tags_and_attributes _ _ mesh_ABA_merged).
Defined.

(** ** What UMesh::append appends *)

Lemma push_back_shifted_Ok {A} (shift : A -> outcome A) (g : A -> A) src :
  (forall a b, shift a = Ok b -> b = g a) ->
  forall dst dst', push_back_shifted shift src dst = Ok dst' -> dst' = dst ++ map g src.
Proof.
  intros Hg. unfold push_back_shifted.
  induction src as [|a src IH]; intros dst dst' H; simpl in H.
  - inversion H. now rewrite app_nil_r.
  - apply bind_Ok in H as (dst1 & H1 & H2).
    apply bind_Ok in H1 as (p & Hp & H1). inversion H1; subst dst1.
    apply IH in H2. rewrite H2, <- app_assoc. simpl. now rewrite (Hg _ _ Hp).
Qed.

(** The mesh [append] returns, array by array, with what it does to the
    primary attribute. *)
Lemma append_Ok this other out :
  size (UMesh.vertices this) <= INT_MAX -> size (UMesh.gridScalars this) <= INT_MAX ->
  append this other = Ok out ->
  let n := size (UMesh.vertices this) in
  out = UMesh.mk (UMesh.vertices this ++ UMesh.vertices other) (UMesh.perVertex out)
                 (UMesh.attributes this) (UMesh.triangles out) (UMesh.quads out)
                 (UMesh.tets this ++ map (vec4i_plus n) (UMesh.tets other))
                 (UMesh.pyrs this ++ map (Pyr_plus n) (UMesh.pyrs other))
                 (UMesh.wedges this ++ map (Wedge_plus n) (UMesh.wedges other))
                 (UMesh.hexes this ++ map (Hex_plus n) (UMesh.hexes other))
                 (UMesh.grids this
                  ++ map (Grid_rebase (size (UMesh.gridScalars this))) (UMesh.grids other))
                 (UMesh.gridScalars this ++ UMesh.gridScalars other)
                 (UMesh.vertexTags this) (UMesh.bounds out) (UMesh.gridsScalarRange out)
  /\ match UMesh.perVertex this with
     | None => UMesh.perVertex out = None
     | Some a =>
         exists b, UMesh.perVertex other = Some b
                   /\ option_map Attribute.name (UMesh.perVertex out)
                      = Some (Attribute.name a)
                   /\ option_map Attribute.values (UMesh.perVertex out)
                      = Some (Attribute.values a ++ Attribute.values b)
     end.
Proof.
  intros Hv Hg H n. unfold append in H.
  rewrite !to_int_small in H by (unfold INT_MIN, INT_MAX, size in *; lia).
  apply bind_Ok in H as (pv & Hpv & H).
  apply bind_Ok in H as (tets' & Htet & H).
  apply bind_Ok in H as (hexes' & Hhex & H).
  apply bind_Ok in H as (pyrs' & Hpyr & H).
  apply bind_Ok in H as (wedges' & Hwdg & H).
  apply bind_Ok in H as (grids' & Hgrd & H).
  apply (push_back_shifted_Ok _ (vec4i_plus n)) in Htet; [|apply vec4i_shift_Ok].
  apply (push_back_shifted_Ok _ (Hex_plus n)) in Hhex; [|apply Hex_shift_Ok].
  apply (push_back_shifted_Ok _ (Pyr_plus n)) in Hpyr; [|apply Pyr_shift_Ok].
  apply (push_back_shifted_Ok _ (Wedge_plus n)) in Hwdg; [|apply Wedge_shift_Ok].
  apply (push_back_shifted_Ok _ (Grid_rebase (size (UMesh.gridScalars this)))) in Hgrd;
    [|apply Grid_shift_Ok].
  apply finalize_frame in H. rewrite H. cbn. subst.
  split; [reflexivity|].
  destruct (UMesh.perVertex this) as [a|].
  - destruct (UMesh.perVertex other) as [b|]; [|discriminate].
    inversion Hpv; subst. exists b. cbn. auto.
  - inversion Hpv; subst. reflexivity.
Qed.

(** [append] puts the vertices, the scalars, the tets, pyramids, wedges and
    hexes, the grids and the grid scalars of [other] behind those of [this]:
    every vertex index increased by the number of vertices [this] had, every
    scalar offset by the number of grid scalars it had.  All values of
    [other]'s attribute are appended to the primary attribute, however many
    they are; a mesh without a primary attribute gets none from [other].
    No attribute is added to the list or renamed, and the vertex tags stay
    as they are. *)
Theorem append_appends this other out :
  size (UMesh.vertices this) <= INT_MAX -> size (UMesh.gridScalars this) <= INT_MAX ->
  append this other = Ok out ->
  let n := size (UMesh.vertices this) in
  UMesh.vertices out = UMesh.vertices this ++ UMesh.vertices other
  /\ UMesh.tets out = UMesh.tets this ++ map (vec4i_plus n) (UMesh.tets other)
  /\ UMesh.pyrs out = UMesh.pyrs this ++ map (Pyr_plus n) (UMesh.pyrs other)
  /\ UMesh.wedges out = UMesh.wedges this ++ map (Wedge_plus n) (UMesh.wedges other)
  /\ UMesh.hexes out = UMesh.hexes this ++ map (Hex_plus n) (UMesh.hexes other)
  /\ UMesh.grids out
     = UMesh.grids this
       ++ map (Grid_rebase (size (UMesh.gridScalars this))) (UMesh.grids other)
  /\ UMesh.gridScalars out = UMesh.gridScalars this ++ UMesh.gridScalars other
  /\ map Attribute.name (UMesh.attributes out)
     = map Attribute.name (UMesh.attributes this)
  /\ UMesh.vertexTags out = UMesh.vertexTags this
  /\ match UMesh.perVertex this with
     | None => UMesh.perVertex out = None
     | Some a =>
         exists b, UMesh.perVertex other = Some b
                   /\ option_map Attribute.name (UMesh.perVertex out)
                      = Some (Attribute.name a)
                   /\ option_map Attribute.values (UMesh.perVertex out)
                      = Some (Attribute.values a ++ Attribute.values b)
     end.
Proof.
  intros Hv Hg H n.
  destruct (append_Ok this other out Hv Hg H) as [E Hpv]. fold n in E.
  split; [rewrite E; reflexivity|]. split; [rewrite E; reflexivity|].
  split; [rewrite E; reflexivity|]. split; [rewrite E; reflexivity|].
  split; [rewrite E; reflexivity|]. split; [rewrite E; reflexivity|].
  split; [rewrite E; reflexivity|]. split; [rewrite E; reflexivity|].
  split; [rewrite E; reflexivity|]. exact Hpv.
Qed.

Lemma mesh_A_then_B_appended : append mesh_A mesh_B = Ok mesh_A_then_B.
Proof. vm_compute. reflexivity. Qed.

Lemma append_appends_witness :
  size (UMesh.vertices mesh_A) <= INT_MAX /\ size (UMesh.gridScalars mesh_A) <= INT_MAX
  /\ append mesh_A mesh_B = Ok mesh_A_then_B
  /\ UMesh.pyrs mesh_A_then_B
     = UMesh.pyrs mesh_A ++ map (Pyr_plus (size (UMesh.vertices mesh_A))) (UMesh.pyrs mesh_B).
Proof.
  assert (size (UMesh.vertices mesh_A) <= INT_MAX) as H1 by (vm_compute; discriminate).
  assert (size (UMesh.gridScalars mesh_A) <= INT_MAX) as H2 by (vm_compute; discriminate).
  split; [exact H1|]. split; [exact H2|]. split; [exact mesh_A_then_B_appended|].
  pose proof (append_appends mesh_A mesh_B mesh_A_then_B H1 H2 mesh_A_then_B_appended) as P.
  cbv zeta in P. exact (proj1 (proj2 (proj2 P))).
Defined.

(** For meshes that hold one scalar per vertex, and no triangle or quad in
    [other], [append] and [mergeMeshes] put [other] behind [this] in the
    same way: whenever both return, they return the same vertices, elements,
    grids, grid scalars and scalars. *)
Theorem append_agrees_with_mergeMeshes this other a b outA outM :
  UMesh.perVertex this = Some a ->
  size (Attribute.values a) = size (UMesh.vertices this) ->
  UMesh.perVertex other = Some b ->
  size (Attribute.values b) = size (UMesh.vertices other) ->
  UMesh.triangles other = [] -> UMesh.quads other = [] ->
  append this other = Ok outA -> mergeMeshes [this; other] = Ok outM ->
  same_geometry outA outM
  /\ option_map Attribute.values (UMesh.perVertex outM)
     = option_map Attribute.values (UMesh.perVertex outA).
Proof.
  intros Ha La Hb Lb Htri Hqud HA HM.
  apply merged_pair_is_concatenation in HM as ((Fv & _ & _ & _ & _ & _ & _ & _ & Fg) & _ & _ & HM).
  apply finalize_frame in HM.
  pose proof (append_keeps_surface _ _ _ HA) as [Ktri Kqud].
  apply append_Ok in HA; [|exact Fv|exact Fg]. cbv zeta in HA.
  destruct HA as (E & Apv).
  assert (UMesh.vertices outA = UMesh.vertices this ++ UMesh.vertices other) as Av
      by (rewrite E; reflexivity).
  assert (UMesh.tets outA
          = UMesh.tets this
            ++ map (vec4i_plus (size (UMesh.vertices this))) (UMesh.tets other)) as Atet
      by (rewrite E; reflexivity).
  assert (UMesh.pyrs outA
          = UMesh.pyrs this
            ++ map (Pyr_plus (size (UMesh.vertices this))) (UMesh.pyrs other)) as Apyr
      by (rewrite E; reflexivity).
  assert (UMesh.wedges outA
          = UMesh.wedges this
            ++ map (Wedge_plus (size (UMesh.vertices this))) (UMesh.wedges other)) as Awdg
      by (rewrite E; reflexivity).
  assert (UMesh.hexes outA
          = UMesh.hexes this
            ++ map (Hex_plus (size (UMesh.vertices this))) (UMesh.hexes other)) as Ahex
      by (rewrite E; reflexivity).
  assert (UMesh.grids outA
          = UMesh.grids this
            ++ map (Grid_rebase (size (UMesh.gridScalars this))) (UMesh.grids other))
    as Agrd by (rewrite E; reflexivity).
  assert (UMesh.gridScalars outA = UMesh.gridScalars this ++ UMesh.gridScalars other)
    as Agsc by (rewrite E; reflexivity).
  clear E.
  rewrite Ha in Apv. destruct Apv as (b' & Hb' & _ & Avals).
  rewrite Hb in Hb'. inversion Hb'; subst b'.
  unfold same_geometry. rewrite HM. cbn.
  unfold primary_values. rewrite Ha, Hb, Htri, Hqud. cbn. rewrite !app_nil_r.
  rewrite Avals. unfold size in La, Lb.
  rewrite !take_ge by lia. repeat split; congruence.
Qed.

Lemma append_agrees_with_mergeMeshes_witness :
  append mesh_A mesh_B_volume = Ok mesh_A_then_B_volume
  /\ mergeMeshes [mesh_A; mesh_B_volume] = Ok mesh_A_and_B_volume
  /\ same_geometry mesh_A_then_B_volume mesh_A_and_B_volume.
Proof.
  assert (append mesh_A mesh_B_volume = Ok mesh_A_then_B_volume) as HA
      by (vm_compute; reflexivity).
  assert (mergeMeshes [mesh_A; mesh_B_volume] = Ok mesh_A_and_B_volume) as HM
      by (vm_compute; reflexivity).
  split; [exact HA|]. split; [exact HM|].
  refine (proj1 (append_agrees_with_mergeMeshes mesh_A mesh_B_volume _ _ _ _
                   eq_refl _ eq_refl _ eq_refl eq_refl HA HM)); vm_compute; reflexivity.
Defined.

(** ** finalize *)

(** [finalize] returns on a mesh whose elements name vertices of the mesh
    and whose arrays an [int] can count.  It changes no vertex, element,
    grid, grid scalar or vertex tag, and no name or value of an attribute,
    listed or primary: what it computes anew is a value range, the bounds
    and the grid scalar range. *)
Theorem finalize_keeps_the_mesh m :
  fits_int m -> names_own_vertices m ->
  exists m',
    UMesh.finalize m = Ok m'
    /\ same_geometry m m'
    /\ map Attribute.name (UMesh.attributes m') = map Attribute.name (UMesh.attributes m)
    /\ map Attribute.values (UMesh.attributes m')
       = map Attribute.values (UMesh.attributes m)
    /\ UMesh.vertexTags m' = UMesh.vertexTags m
    /\ option_map Attribute.name (UMesh.perVertex m')
       = option_map Attribute.name (UMesh.perVertex m)
    /\ option_map Attribute.values (UMesh.perVertex m')
       = option_map Attribute.values (UMesh.perVertex m).
Proof.
  intros Hfit (Vtri & Vqud & Vtet & Vpyr & Vwdg & Vhex).
  destruct (finalize_returns m Hfit Vtri Vqud Vtet Vpyr Vwdg Vhex) as (m' & H).
  exists m'. split; [exact H|].
  apply finalize_frame in H. rewrite H. unfold same_geometry. cbn.
  destruct (UMesh.perVertex m); cbn; repeat split; reflexivity.
Qed.

Lemma mesh_A_fits_int : fits_int mesh_A.
Proof. unfold fits_int. vm_compute. repeat split; discriminate. Qed.

Lemma mesh_A_names_own_vertices : names_own_vertices mesh_A.
Proof.
  destruct mesh_A_indices_valid as (H1 & H2 & H3 & H4 & H5 & H6 & _).
  repeat split; assumption.
Qed.

Lemma finalize_keeps_the_mesh_witness :
  fits_int mesh_A /\ names_own_vertices mesh_A
  /\ exists m', UMesh.finalize mesh_A = Ok m' /\ same_geometry mesh_A m'.
Proof.
  split; [exact mesh_A_fits_int|]. split; [exact mesh_A_names_own_vertices|].
  destruct (finalize_keeps_the_mesh mesh_A mesh_A_fits_int mesh_A_names_own_vertices)
    as (m' & H & G & _).
  exists m'. split; assumption.
Defined.

(** A second [finalize] right after the first returns too, and computes the
    bounds and the grid scalar range the first one computed: both are built
    anew, from the vertices, elements and grids alone. *)
Theorem finalize_again_same_bounds m m1 :
  UMesh.finalize m = Ok m1 ->
  exists m2,
    UMesh.finalize m1 = Ok m2
    /\ UMesh.bounds m2 = UMesh.bounds m1
    /\ UMesh.gridsScalarRange m2 = UMesh.gridsScalarRange m1
    /\ same_geometry m1 m2.
Proof.
  intros H. unfold UMesh.finalize in H.
  apply bind_Ok in H as (b & Hb & H). apply bind_Ok in H as (r & Hr & H).
  inversion H; subst m1. clear H.
  unfold UMesh.finalize.
  match goal with
  | |- context [for_blocked ?n ?bs ?body box3f_empty] =>
      replace (for_blocked n bs body box3f_empty) with (Ok b : outcome box3f)
        by (symmetry; exact Hb)
  end.
  cbn [bind].
  match goal with
  | |- context [for_blocked ?n ?bs ?body range1f_empty] =>
      replace (for_blocked n bs body range1f_empty) with (Ok r : outcome range1f)
        by (symmetry; exact Hr)
  end.
  cbn [bind]. eexists. split; [reflexivity|].
  unfold same_geometry. cbn. repeat split; reflexivity.
Qed.

Lemma mesh_A_finalize : UMesh.finalize mesh_A = Ok mesh_A_finalized.
Proof. vm_compute. reflexivity. Qed.

Lemma finalize_again_same_bounds_witness :
  UMesh.finalize mesh_A = Ok mesh_A_finalized
  /\ exists m2, UMesh.finalize mesh_A_finalized = Ok m2
                /\ UMesh.bounds m2 = UMesh.bounds mesh_A_finalized.
Proof.
  split; [exact mesh_A_finalize|].
  destruct (finalize_again_same_bounds mesh_A mesh_A_finalized mesh_A_finalize)
    as (m2 & H & B & _).
  exists m2. split; assumption.
Defined.

(** ** The ugrid32 importer as a whole *)

Lemma kept_length vertices tuples :
  (length (kept vertices tuples) <= length tuples)%nat.
Proof. unfold kept. apply List.filter_length_le. Qed.

(** The statics after a section: one test per tuple, one degenerate per
    tuple that is not kept. *)
Lemma stats_after_counts vertices tuples :
  forall st,
    0 <= numDegen st -> 0 <= numTests st ->
    numTests st + size tuples < 2 ^ 64 -> numDegen st + size tuples < 2 ^ 64 ->
    numTests (stats_after vertices tuples st) = numTests st + size tuples
    /\ numDegen (stats_after vertices tuples st)
       = numDegen st + size tuples - size (kept vertices tuples).
Proof.
  unfold stats_after, kept, size.
  induction tuples as [|t tuples IH]; intros st D0 T0 HT HD.
  - simpl. lia.
  - cbn [fold_left List.filter length] in *.
    rewrite Nat2Z.inj_succ in HT, HD.
    set (st1 := count_test (degenerate vertices (minus_one t)) st).
    assert (numTests st1 = numTests st + 1
            /\ numDegen st1 = numDegen st
                              + (if degenerate vertices (minus_one t) then 1 else 0)) as [E1 E2].
    { subst st1. unfold count_test.
      rewrite !to_size_t_small by lia.
      destruct (degenerate vertices (minus_one t)); [|cbn; lia].
      destruct (nextPing st <=? numDegen st + 1); cbn; lia. }
    destruct (IH st1) as [I1 I2]; try lia;
      [destruct (degenerate vertices (minus_one t)); lia
      |destruct (degenerate vertices (minus_one t)); lia|].
    rewrite I1, I2, E1, E2.
    destruct (degenerate vertices (minus_one t)); cbn [negb length];
      rewrite ?Nat2Z.inj_succ; lia.
Qed.

Lemma nth_in_range vertices tuple k :
  tuple_in_range vertices tuple -> (k < length tuple)%nat ->
  size vertices <= INT_MAX ->
  index_ok (size vertices) (to_int (nth k (minus_one tuple) 0)).
Proof.
  intros Ht Hk Hn. apply minus_one_in_range in Ht.
  rewrite List.Forall_forall in Ht.
  assert (In (nth k (minus_one tuple) 0) (minus_one tuple)) as Hin
      by (apply nth_In; unfold minus_one; now rewrite length_map).
  destruct (Ht _ Hin) as [H1 H2].
  rewrite to_int_small by (unfold INT_MIN, INT_MAX in *; lia). exact H1.
Qed.

Lemma made_elements_ok {A} (P : A -> Prop) (make : list Z -> A) arity vertices tuples :
  (forall t, length t = arity -> tuple_in_range vertices t -> P (make (minus_one t))) ->
  Forall (fun t => length t = arity /\ tuple_in_range vertices t) tuples ->
  Forall P (map (fun t => make (minus_one t)) (kept vertices tuples)).
Proof.
  intros Hmake Hall. apply Forall_map. unfold kept.
  rewrite List.Forall_forall in *. intros t Ht. apply filter_In in Ht as [Ht _].
  destruct (Hall t Ht). auto.
Qed.

Lemma in_range_section arity vertices tuples :
  Forall (fun t => length t = arity /\ tuple_in_range vertices t) tuples ->
  Forall (tuple_in_range vertices) tuples.
Proof. intros H. eapply Forall_impl; [exact H|]. now intros t [_ Ht]. Qed.

Ltac made_in_range :=
  cbv [vec3i_ok vec4i_ok Pyr_ok Wedge_ok Hex_ok
       make_triangle make_quad make_pyr make_wedge make_hex];
  cbn [V3.x V3.y V3.z V4.x V4.y V4.z V4.w Pyr.base Pyr.top Wedge.front Wedge.back
       Hex.base Hex.top];
  repeat match goal with |- _ /\ _ => split end;
  apply nth_in_range; auto; lia.

(** On a well-formed file the six sections are read without an error, and
    the importer finalizes the mesh it has built. *)
Lemma UGrid32Loader_well_formed f st :
  file_well_formed f ->
  UGrid32Loader f st
  = (result <- UMesh.finalize (imported f) ;; Ok (result, stats_after_file f st)).
Proof.
  intros (Hv & (Ntri & Htri) & (Nqud & Hqud) & (Ntet & Htet) & (Npyr & Hpyr)
          & (Nwdg & Hwdg) & (Nhex & Hhex)).
  unfold UGrid32Loader, imported, stats_after_file.
  set (vs := file_vertices f) in *.
  rewrite (load_elements_spec vs make_triangle) by (eapply in_range_section; eauto).
  cbn [bind fst snd].
  rewrite (load_elements_spec vs make_quad) by (eapply in_range_section; eauto).
  cbn [bind fst snd].
  rewrite (load_tets_spec vs) by (eapply in_range_section; eauto).
  cbn [bind fst snd].
  rewrite (load_elements_spec vs make_pyr) by (eapply in_range_section; eauto).
  cbn [bind fst snd].
  rewrite (load_elements_spec vs make_wedge) by (eapply in_range_section; eauto).
  cbn [bind fst snd].
  rewrite (load_elements_spec vs make_hex) by (eapply in_range_section; eauto).
  cbn [bind fst snd]. reflexivity.
Qed.

(** The mesh built from a well-formed file names its own vertices, and an
    [int] counts each of its arrays. *)
Lemma imported_well_formed f :
  file_well_formed f -> fits_int (imported f) /\ names_own_vertices (imported f).
Proof.
  intros (Hv & (Ntri & Htri) & (Nqud & Hqud) & (Ntet & Htet) & (Npyr & Hpyr)
          & (Nwdg & Hwdg) & (Nhex & Hhex)).
  set (vs := file_vertices f) in *.
  pose proof (kept_length vs (file_tris f)) as Ktri.
  pose proof (kept_length vs (file_quads f)) as Kqud.
  pose proof (kept_length vs (file_tets f)) as Ktet.
  pose proof (kept_length vs (file_pyrs f)) as Kpyr.
  pose proof (kept_length vs (file_prisms f)) as Kwdg.
  pose proof (kept_length vs (file_hexes f)) as Khex.
  split.
  - subst vs. unfold fits_int, imported, size in *. cbn.
    rewrite !length_map. unfold INT_MAX in *. repeat split; lia.
  - unfold names_own_vertices, imported.
    cbn [UMesh.vertices UMesh.triangles UMesh.quads UMesh.tets UMesh.pyrs UMesh.wedges
         UMesh.hexes]. fold vs.
    repeat match goal with |- _ /\ _ => split end.
    + apply (made_elements_ok _ _ 3%nat); [|exact Htri]. intros t L R. made_in_range.
    + apply (made_elements_ok _ _ 4%nat); [|exact Hqud]. intros t L R. made_in_range.
    + apply (made_elements_ok _ _ 4%nat); [|exact Htet]. intros t L R. made_in_range.
    + apply (made_elements_ok _ _ 5%nat); [|exact Hpyr]. intros t L R. made_in_range.
    + apply (made_elements_ok _ _ 6%nat); [|exact Hwdg]. intros t L R. made_in_range.
    + apply (made_elements_ok _ _ 8%nat); [|exact Hhex]. intros t L R. made_in_range.
Qed.

(** For a well-formed file, the first import of a run returns; the mesh
    holds the vertices of the file and, of every kind, the elements that are
    not degenerate, each naming vertices of the mesh; and every element of
    the file is accounted for: it is in the mesh or counted in [numDegen]. *)
Theorem ugrid32_import_accounts_for_every_element f :
  file_well_formed f ->
  exists result st',
    UGrid32Loader f degen_stats_init = Ok (result, st')
    /\ UMesh.vertices result = file_vertices f
    /\ UMesh.triangles result
       = map (fun t => make_triangle (minus_one t)) (kept (file_vertices f) (file_tris f))
    /\ UMesh.quads result
       = map (fun t => make_quad (minus_one t)) (kept (file_vertices f) (file_quads f))
    /\ UMesh.tets result
       = map (fun t => make_quad (minus_one t)) (kept (file_vertices f) (file_tets f))
    /\ UMesh.pyrs result
       = map (fun t => make_pyr (minus_one t)) (kept (file_vertices f) (file_pyrs f))
    /\ UMesh.wedges result
       = map (fun t => make_wedge (minus_one t)) (kept (file_vertices f) (file_prisms f))
    /\ UMesh.hexes result
       = map (fun t => make_hex (minus_one t)) (kept (file_vertices f) (file_hexes f))
    /\ names_own_vertices result
    /\ numTests st' = file_elements f
    /\ UMesh.size result + numDegen st' = file_elements f.
Proof.
  intros Hf.
  destruct (imported_well_formed f Hf) as [Hfit Hown].
  pose proof Hown as (Vtri & Vqud & Vtet & Vpyr & Vwdg & Vhex).
  destruct (finalize_returns (imported f) Hfit Vtri Vqud Vtet Vpyr Vwdg Vhex)
    as (result & Hfin).
  exists result, (stats_after_file f degen_stats_init).
  split; [rewrite (UGrid32Loader_well_formed f _ Hf), Hfin; reflexivity|].
  pose proof (finalize_frame _ _ Hfin) as E.
  cbn [imported UMesh.vertices UMesh.perVertex UMesh.attributes UMesh.triangles
       UMesh.quads UMesh.tets UMesh.pyrs UMesh.wedges UMesh.hexes UMesh.grids
       UMesh.gridScalars UMesh.vertexTags] in E.
  destruct Hf as (Hv & (Ntri & Htri) & (Nqud & Hqud) & (Ntet & Htet) & (Npyr & Hpyr)
                  & (Nwdg & Hwdg) & (Nhex & Hhex)).
  set (vs := file_vertices f) in *.
  set (tris := map _ (kept vs (file_tris f))) in *.
  set (quds := map _ (kept vs (file_quads f))) in *.
  set (tets := map _ (kept vs (file_tets f))) in *.
  set (pyrs := map _ (kept vs (file_pyrs f))) in *.
  set (wdgs := map _ (kept vs (file_prisms f))) in *.
  set (hxs := map _ (kept vs (file_hexes f))) in *.
  assert (UMesh.vertices result = vs) as Ev by (rewrite E; reflexivity).
  assert (UMesh.triangles result = tris) as Etri by (rewrite E; reflexivity).
  assert (UMesh.quads result = quds) as Equd by (rewrite E; reflexivity).
  assert (UMesh.tets result = tets) as Etet by (rewrite E; reflexivity).
  assert (UMesh.pyrs result = pyrs) as Epyr by (rewrite E; reflexivity).
  assert (UMesh.wedges result = wdgs) as Ewdg by (rewrite E; reflexivity).
  assert (UMesh.hexes result = hxs) as Ehex by (rewrite E; reflexivity).
  assert (UMesh.grids result = []) as Egrd by (rewrite E; reflexivity).
  do 7 (split; [assumption|]).
  split.
  { unfold names_own_vertices. rewrite Ev, Etri, Equd, Etet, Epyr, Ewdg, Ehex.
    exact Hown. }
  pose proof (kept_length vs (file_tris f)) as Ktri.
  pose proof (kept_length vs (file_quads f)) as Kqud.
  pose proof (kept_length vs (file_tets f)) as Ktet.
  pose proof (kept_length vs (file_pyrs f)) as Kpyr.
  pose proof (kept_length vs (file_prisms f)) as Kwdg.
  pose proof (kept_length vs (file_hexes f)) as Khex.
  unfold stats_after_file. fold vs.
  unfold size, INT_MAX in *.
  destruct (stats_after_counts vs (file_tris f) degen_stats_init) as [T1 D1];
    try (cbn [numDegen numTests degen_stats_init]; unfold size in *; lia).
  destruct (stats_after_counts vs (file_quads f) (stats_after vs (file_tris f) degen_stats_init))
    as [T2 D2]; try (cbn [numDegen numTests degen_stats_init] in *; unfold size in *; lia).
  destruct (stats_after_counts vs (file_tets f)
              (stats_after vs (file_quads f) (stats_after vs (file_tris f) degen_stats_init)))
    as [T3 D3]; try (cbn [numDegen numTests degen_stats_init] in *; unfold size in *; lia).
  destruct (stats_after_counts vs (file_pyrs f)
              (stats_after vs (file_tets f)
                 (stats_after vs (file_quads f)
                    (stats_after vs (file_tris f) degen_stats_init))))
    as [T4 D4]; try (cbn [numDegen numTests degen_stats_init] in *; unfold size in *; lia).
  destruct (stats_after_counts vs (file_prisms f)
              (stats_after vs (file_pyrs f)
                 (stats_after vs (file_tets f)
                    (stats_after vs (file_quads f)
                       (stats_after vs (file_tris f) degen_stats_init)))))
    as [T5 D5]; try (cbn [numDegen numTests degen_stats_init] in *; unfold size in *; lia).
  destruct (stats_after_counts vs (file_hexes f)
              (stats_after vs (file_prisms f)
                 (stats_after vs (file_pyrs f)
                    (stats_after vs (file_tets f)
                       (stats_after vs (file_quads f)
                          (stats_after vs (file_tris f) degen_stats_init))))))
    as [T6 D6]; try (cbn [numDegen numTests degen_stats_init] in *; unfold size in *; lia).
  cbn [numDegen numTests degen_stats_init] in *. unfold size in *.
  unfold file_elements, UMesh.size, size.
  rewrite Etri, Equd, Etet, Epyr, Ewdg, Ehex, Egrd.
  unfold tris, quds, tets, pyrs, wdgs, hxs. rewrite !length_map. cbn [length].
  rewrite to_size_t_small by lia.
  split; lia.
Qed.

Lemma tet_scenario_well_formed : file_well_formed tet_scenario.
Proof.
  unfold file_well_formed.
  split; [vm_compute; discriminate|].
  split; [split; [vm_compute; discriminate|constructor]|].
  split; [split; [vm_compute; discriminate|constructor]|].
  split; [split; [vm_compute; discriminate|exact tet_scenario_in_range]|].
  split; [split; [vm_compute; discriminate|constructor]|].
  split; (split; [vm_compute; discriminate|constructor]).
Qed.

Lemma ugrid32_import_accounts_for_every_element_witness :
  file_well_formed tet_scenario
  /\ exists result st',
      UGrid32Loader tet_scenario degen_stats_init = Ok (result, st')
      /\ UMesh.size result + numDegen st' = file_elements tet_scenario.
Proof.
  split; [exact tet_scenario_well_formed|].
  destruct (ugrid32_import_accounts_for_every_element tet_scenario tet_scenario_well_formed)
    as (result & st' & H & _ & _ & _ & _ & _ & _ & _ & _ & _ & Hn).
  exists result, st'. split; assumption.
Defined.

(** ** Indices that leave the range of an int *)

Lemma entry_out_of_int e :
  e = 0 \/ 2 ^ 31 < e < 2 ^ 32 -> (to_int (to_uint32 (e - 1)) <? 0) = true.
Proof.
  intros H. apply Z.ltb_lt. unfold to_int, to_uint32.
  destruct H as [->|H].
  - reflexivity.
  - rewrite (Z.mod_small (e - 1)) by lia.
    replace (e - 1 + 2 ^ 31) with ((e - 1 - 2 ^ 31) + 1 * 2 ^ 32) by lia.
    rewrite Z.mod_add by lia. rewrite Z.mod_small by lia. lia.
Qed.

(** A tuple with an entry that is 0, or above 2^31, behind entries that name
    vertices makes [notDegenerate] throw. *)
Lemma notDegenerate_negative_index vertices pre e post st :
  tuple_in_range vertices pre -> e = 0 \/ 2 ^ 31 < e < 2 ^ 32 ->
  notDegenerate vertices (minus_one (pre ++ e :: post)) st = Throw "negative index!?".
Proof.
  intros Hpre He. unfold notDegenerate, minus_one.
  rewrite map_app. cbn [map]. rewrite foldM_app.
  fold (minus_one pre).
  rewrite notDegenerate_bounds by (apply minus_one_in_range; exact Hpre).
  cbn [bind foldM]. rewrite (entry_out_of_int e He). reflexivity.
Qed.

(** The shared loop throws at the first tuple that does not name
    vertices, when that tuple holds an entry that is 0 or above 2^31. *)
Lemma load_elements_rejects {A} vertices (make : list Z -> A) tuples st :
  breaks_off vertices tuples ->
  load_elements vertices make tuples st = Throw "negative index!?".
Proof.
  intros (good & pre & e & post & rest & -> & Hgood & Hpre & He). unfold load_elements.
  rewrite foldM_app, load_elements_loop by exact Hgood.
  cbn [bind foldM]. rewrite notDegenerate_negative_index by assumption.
  reflexivity.
Qed.

(** So does the loop over the tets. *)
Lemma load_tets_rejects vertices tuples st :
  breaks_off vertices tuples ->
  load_tets vertices tuples st = Throw "negative index!?".
Proof.
  intros (good & pre & e & post & rest & -> & Hgood & Hpre & He). unfold load_tets.
  erewrite for_blocked_foldM;
    [|apply Nat.mul_pos_pos; lia
     |intros b e0 [[isGood vecTets] st0]; reflexivity].
  rewrite foldM_app, load_tets_loop by exact Hgood.
  cbn [bind foldM]. rewrite notDegenerate_negative_index by assumption.
  reflexivity.
Qed.

(** The import ends with the error "negative index!?" when the first tuple
    of the file that does not name vertices, in the order the sections are
    read, holds an entry that is 0 or above 2^31 behind entries that name
    vertices: no mesh is returned. *)
Theorem ugrid32_rejects_negative_index f st before section after :
  file_sections f = before ++ section :: after ->
  Forall (Forall (tuple_in_range (file_vertices f))) before ->
  breaks_off (file_vertices f) section ->
  UGrid32Loader f st = Throw "negative index!?".
Proof.
  intros Hsec Hbefore Hbad. unfold file_sections in Hsec. unfold UGrid32Loader.
  destruct before as [|s1 before]; cbn [app] in Hsec.
  { injection Hsec as <- _. now rewrite load_elements_rejects. }
  apply List.Forall_cons_iff in Hbefore as [H1 Hbefore].
  injection Hsec as <- Hsec.
  rewrite (load_elements_spec _ make_triangle) by exact H1. cbn [bind fst snd].
  destruct before as [|s2 before]; cbn [app] in Hsec.
  { injection Hsec as <- _. now rewrite load_elements_rejects. }
  apply List.Forall_cons_iff in Hbefore as [H2 Hbefore].
  injection Hsec as <- Hsec.
  rewrite (load_elements_spec _ make_quad) by exact H2. cbn [bind fst snd].
  destruct before as [|s3 before]; cbn [app] in Hsec.
  { injection Hsec as <- _. now rewrite load_tets_rejects. }
  apply List.Forall_cons_iff in Hbefore as [H3 Hbefore].
  injection Hsec as <- Hsec.
  rewrite load_tets_spec by exact H3. cbn [bind fst snd].
  destruct before as [|s4 before]; cbn [app] in Hsec.
  { injection Hsec as <- _. now rewrite load_elements_rejects. }
  apply List.Forall_cons_iff in Hbefore as [H4 Hbefore].
  injection Hsec as <- Hsec.
  rewrite (load_elements_spec _ make_pyr) by exact H4. cbn [bind fst snd].
  destruct before as [|s5 before]; cbn [app] in Hsec.
  { injection Hsec as <- _. now rewrite load_elements_rejects. }
  apply List.Forall_cons_iff in Hbefore as [H5 Hbefore].
  injection Hsec as <- Hsec.
  rewrite (load_elements_spec _ make_wedge) by exact H5. cbn [bind fst snd].
  destruct before as [|s6 before]; cbn [app] in Hsec.
  { injection Hsec as <- _. now rewrite load_elements_rejects. }
  destruct before; discriminate Hsec.
Qed.

Lemma ugrid32_rejects_negative_index_witness :
  file_sections zero_index_scenario = [[]; []] ++ file_tets zero_index_scenario :: [[]; []; []]
  /\ breaks_off (file_vertices zero_index_scenario) (file_tets zero_index_scenario)
  /\ UGrid32Loader zero_index_scenario degen_stats_init = Throw "negative index!?".
Proof.
  assert (size (file_vertices zero_index_scenario) = 4) as Hs by (vm_compute; reflexivity).
  assert (tuple_in_range (file_vertices zero_index_scenario) [1; 2; 3; 4]) as H4
      by (unfold tuple_in_range; rewrite Hs; repeat (constructor; [lia|]); constructor).
  assert (tuple_in_range (file_vertices zero_index_scenario) [1; 2]) as H2
      by (unfold tuple_in_range; rewrite Hs; repeat (constructor; [lia|]); constructor).
  assert (breaks_off (file_vertices zero_index_scenario) (file_tets zero_index_scenario))
    as Hbad.
  { exists [[1; 2; 3; 4]], [1; 2], 0, [4], [].
    split; [reflexivity|]. split; [constructor; [exact H4|constructor]|].
    split; [exact H2|]. left. reflexivity. }
  split; [reflexivity|]. split; [exact Hbad|].
  refine (ugrid32_rejects_negative_index zero_index_scenario degen_stats_init
            [[]; []] _ [[]; []; []] eq_refl _ Hbad).
  constructor; [constructor|]. constructor; [constructor|constructor].
Defined.
(** ** Raw elements read back *)

Lemma digits2_pos_bounds m :
  2 ^ (Z.pos (digits2_pos m) - 1) <= Z.pos m < 2 ^ Z.pos (digits2_pos m).
Proof.
  induction m as [p IH|p IH|]; cbn [digits2_pos].
  - rewrite Pos2Z.inj_succ, (Pos2Z.inj_xI p).
    replace (Z.succ (Z.pos (digits2_pos p)) - 1) with (Z.succ (Z.pos (digits2_pos p) - 1)) by lia.
    rewrite !Z.pow_succ_r by lia. lia.
  - rewrite Pos2Z.inj_succ, (Pos2Z.inj_xO p).
    replace (Z.succ (Z.pos (digits2_pos p)) - 1) with (Z.succ (Z.pos (digits2_pos p) - 1)) by lia.
    rewrite !Z.pow_succ_r by lia. lia.
  - cbn. lia.
Qed.

(** The finite binary32 values: subnormal ones have exponent -149, normal
    ones a mantissa of 24 bits. *)
Lemma binary32_finite s m e :
  binary32 (S754_finite s m e) ->
  (Z.pos m < 2 ^ 23 /\ e = -149)
  \/ (2 ^ 23 <= Z.pos m < 2 ^ 24 /\ -149 <= e <= 104).
Proof.
  unfold binary32, valid_binary, bounded, canonical_mantissa, fexp, emin,
    F32.prec, F32.emax.
  intros H. apply andb_prop in H as [H1 H2].
  apply Z.leb_le in H2. apply Z.eqb_eq in H1.
  pose proof (digits2_pos_bounds m) as [Hlo Hhi].
  set (d := Z.pos (digits2_pos m)) in *.
  assert (0 < d) by (unfold d; lia).
  destruct (Z.lt_ge_cases (Z.pos m) (2 ^ 23)) as [Hm|Hm].
  - left. split; [exact Hm|].
    assert (d - 1 < 23).
    { apply (Z.pow_lt_mono_r_iff 2); lia. }
    lia.
  - right.
    assert (23 < d).
    { apply (Z.pow_lt_mono_r_iff 2); lia. }
    assert (d = 24) by lia.
    split; [|lia]. split; [exact Hm|]. replace 24 with d by assumption. exact Hhi.
Qed.

Lemma float_of_bits_fields (s : bool) E frac :
  0 <= E < 256 -> 0 <= frac < 2 ^ 23 ->
  let b := (if s then 2 ^ 31 else 0) + E * 2 ^ 23 + frac in
  0 <= b < 2 ^ 32
  /\ Z.odd (b / 2 ^ 31) = s /\ (b / 2 ^ 23) mod 256 = E /\ b mod 2 ^ 23 = frac.
Proof.
  intros HE Hf b.
  assert (b = (frac + E * 2 ^ 23) + (if s then 1 else 0) * 2 ^ 31) as E1
      by (unfold b; destruct s; lia).
  assert (b = frac + (E + (if s then 1 else 0) * 256) * 2 ^ 23) as E2
      by (unfold b; destruct s; lia).
  split; [unfold b; destruct s; lia|]. split; [|split].
  - rewrite E1, Z.div_add by lia.
    rewrite (Z.div_small (frac + E * 2 ^ 23)) by lia. destruct s; reflexivity.
  - rewrite E2, Z.div_add by lia. rewrite (Z.div_small frac) by lia.
    rewrite Z.add_0_l, Z.mod_add by lia. apply Z.mod_small; lia.
  - rewrite E2, Z.mod_add by lia. apply Z.mod_small; lia.
Qed.

Lemma float_of_bits_of_float f :
  binary32 f -> 0 <= bits_of_float f < 2 ^ 32 /\ float_of_bits (bits_of_float f) = f.
Proof.
  destruct f as [s|s| |s m e]; intros H.
  - destruct s; vm_compute; repeat split; congruence.
  - destruct s; vm_compute; repeat split; congruence.
  - vm_compute; repeat split; congruence.
  - apply binary32_finite in H as [[Hm ->]|[Hm He]].
    + unfold bits_of_float. rewrite (proj2 (Z.ltb_lt _ _) Hm).
      assert (0 < Z.pos m) as Hpos by lia.
      destruct (float_of_bits_fields s 0 (Z.pos m)) as (Hb & Hs & HE & Hf); [lia|lia|].
      rewrite Z.mul_0_l, Z.add_0_r in Hb, Hs, HE, Hf.
      split; [exact Hb|].
      unfold float_of_bits. rewrite Hs, HE, Hf. cbn [Z.eqb].
      destruct (Z.eqb_spec (Z.pos m) 0) as [?|_]; [lia|]. reflexivity.
    + unfold bits_of_float.
      rewrite (proj2 (Z.ltb_ge _ _) (proj1 Hm)).
      destruct (float_of_bits_fields s (e + 150) (Z.pos m - 2 ^ 23))
        as (Hb & Hs & HE & Hf); [lia|lia|].
      split; [exact Hb|].
      unfold float_of_bits. rewrite Hs, HE, Hf.
      destruct (Z.eqb_spec (e + 150) 0) as [?|_]; [lia|].
      destruct (Z.eqb_spec (e + 150) 255) as [?|_]; [lia|].
      replace (e + 150 - 150) with e by lia.
      replace (Z.pos m - 2 ^ 23 + 2 ^ 23) with (Z.pos m) by lia.
      rewrite Pos2Z.id. reflexivity.
Qed.

Lemma int_of_raw_to_raw i : is_int i -> int_of_raw (int_to_raw i) = i.
Proof.
  unfold is_int, INT_MIN, INT_MAX, int_of_raw, int_to_raw, to_int. intros H.
  rewrite le_combine_split. change (Z.of_nat 4 * 8) with 32.
  rewrite Z.add_mod_idemp_l by lia. rewrite Z.mod_small by lia. lia.
Qed.

Lemma float_of_raw_to_raw f : binary32 f -> float_of_raw (float_to_raw f) = f.
Proof.
  intros H. unfold float_of_raw, float_to_raw.
  destruct (float_of_bits_of_float f H) as [Hb Hf].
  rewrite le_combine_split. change (Z.of_nat 4 * 8) with 32.
  rewrite Z.mod_small by exact Hb. exact Hf.
Qed.

(** The four bytes of a 32-bit field. *)
Lemma four_bytes z : exists b0 b1 b2 b3, le_split 4 z = [b0; b1; b2; b3].
Proof. do 4 eexists. reflexivity. Qed.

(** Raw elements are taken apart field by field, each field made of the
    four bytes it was written as. *)
Ltac raw_fields :=
  cbv [vec3i_to_raw vec4i_to_raw vec3f_to_raw vec4f_to_raw
       vec3i_of_raw vec4i_of_raw vec3f_of_raw vec4f_of_raw field];
  repeat match goal with
         | |- context [int_to_raw ?i] =>
             let E := fresh "E" in
             destruct (four_bytes i) as (? & ? & ? & ? & E);
             change (int_to_raw i) with (le_split 4 i) in *;
             rewrite E; apply (f_equal int_of_raw) in E;
             change (int_of_raw (le_split 4 i)) with (int_of_raw (int_to_raw i)) in E
         | |- context [float_to_raw ?f] =>
             let E := fresh "E" in
             destruct (four_bytes (bits_of_float f)) as (? & ? & ? & ? & E);
             change (float_to_raw f) with (le_split 4 (bits_of_float f)) in *;
             rewrite E; apply (f_equal float_of_raw) in E;
             change (float_of_raw (le_split 4 (bits_of_float f)))
               with (float_of_raw (float_to_raw f)) in E
         end;
  cbn [firstn skipn app Nat.mul Nat.add length];
  repeat match goal with
         | E : int_of_raw (int_to_raw _) = _ |- _ =>
             rewrite <- E, int_of_raw_to_raw by assumption; clear E
         | E : float_of_raw (float_to_raw _) = _ |- _ =>
             rewrite <- E, float_of_raw_to_raw by assumption; clear E
         end.

Lemma size_t_reads_back n : is_size_t n -> reads_back n.
Proof.
  intros H. split; [apply length_le_split|].
  cbn [of_raw to_raw Raw_size_t]. rewrite le_combine_split.
  change (Z.of_nat 8 * 8) with 64. apply Z.mod_small. exact H.
Qed.

Lemma float_reads_back f : binary32 f -> reads_back f.
Proof.
  intros H. split; [apply length_le_split|]. apply float_of_raw_to_raw. exact H.
Qed.

Lemma vec3f_reads_back v : vec3f_binary32 v -> reads_back v.
Proof.
  intros (Hx & Hy & Hz). destruct v as [x y z]. cbn [V3.x V3.y V3.z] in *.
  unfold reads_back. cbn [of_raw to_raw raw_size Raw_vec3f V3.x V3.y V3.z].
  raw_fields. split; reflexivity.
Qed.

Lemma vec3i_reads_back v : vec3i_is_int v -> reads_back v.
Proof.
  intros (Hx & Hy & Hz). destruct v as [x y z]. cbn [V3.x V3.y V3.z] in *.
  unfold reads_back. cbn [of_raw to_raw raw_size Raw_vec3i V3.x V3.y V3.z].
  raw_fields. split; reflexivity.
Qed.

Lemma vec4i_reads_back v : vec4i_is_int v -> reads_back v.
Proof.
  intros (Hx & Hy & Hz & Hw). destruct v as [x y z w]. cbn [V4.x V4.y V4.z V4.w] in *.
  unfold reads_back. cbn [of_raw to_raw raw_size Raw_vec4i V4.x V4.y V4.z V4.w].
  raw_fields. split; reflexivity.
Qed.

Lemma Pyr_reads_back p : vec4i_is_int (Pyr.base p) -> is_int (Pyr.top p) -> reads_back p.
Proof.
  destruct p as [[x y z w] t]. cbn [Pyr.base Pyr.top]. intros (Hx & Hy & Hz & Hw) Ht.
  cbn [V4.x V4.y V4.z V4.w] in *.
  unfold reads_back. cbn [of_raw to_raw raw_size Raw_Pyr Pyr.base Pyr.top V4.x V4.y V4.z V4.w].
  raw_fields. split; reflexivity.
Qed.

Lemma Wedge_reads_back p :
  vec3i_is_int (Wedge.front p) -> vec3i_is_int (Wedge.back p) -> reads_back p.
Proof.
  destruct p as [[x y z] [x' y' z']]. cbn [Wedge.front Wedge.back].
  intros (Hx & Hy & Hz) (Hx' & Hy' & Hz'). cbn [V3.x V3.y V3.z] in *.
  unfold reads_back.
  cbn [of_raw to_raw raw_size Raw_Wedge Wedge.front Wedge.back V3.x V3.y V3.z].
  raw_fields. split; reflexivity.
Qed.

Lemma Hex_reads_back p :
  vec4i_is_int (Hex.base p) -> vec4i_is_int (Hex.top p) -> reads_back p.
Proof.
  destruct p as [[x y z w] [x' y' z' w']]. cbn [Hex.base Hex.top].
  intros (Hx & Hy & Hz & Hw) (Hx' & Hy' & Hz' & Hw'). cbn [V4.x V4.y V4.z V4.w] in *.
  unfold reads_back.
  cbn [of_raw to_raw raw_size Raw_Hex Hex.base Hex.top V4.x V4.y V4.z V4.w].
  raw_fields. split; reflexivity.
Qed.

Lemma Grid_reads_back g : Grid_machine g -> reads_back g.
Proof.
  destruct g as [[[lx ly lz lw] [ux uy uz uw]] [nx ny nz] off].
  unfold Grid_machine. cbn [Grid.domain Grid.numCells Grid.scalarsOffset Box.lower Box.upper].
  intros ((Hlx & Hly & Hlz & Hlw) & (Hux & Huy & Huz & Huw) & (Hnx & Hny & Hnz) & Hoff).
  cbn [V4.x V4.y V4.z V4.w V3.x V3.y V3.z] in *.
  unfold reads_back.
  cbn [of_raw to_raw raw_size Raw_Grid Grid.domain Grid.numCells Grid.scalarsOffset
       Box.lower Box.upper V4.x V4.y V4.z V4.w V3.x V3.y V3.z].
  raw_fields. split; reflexivity.
Qed.

(** ** Reading what was written *)

Lemma read_bytes_app obj bs r e what :
  read_bytes (size bs) what (mk_reader obj (mk_istream (bs ++ r) e))
  = (mk_reader obj (mk_istream r e), Ok bs).
Proof.
  unfold read_bytes, size. cbn [rest in_ this eofbit].
  rewrite length_app, Nat2Z.inj_add.
  destruct (Z.leb_spec (Z.of_nat (length bs)) (Z.of_nat (length bs) + Z.of_nat (length r)))
    as [_|?]; [|lia].
  rewrite Nat2Z.id, drop_app_length, take_app_length. reflexivity.
Qed.

Lemma rbind_returns {A B} (c : reader A) (k : A -> reader B) s s' a :
  c s = (s', Ok a) -> rbind c k s = k a s'.
Proof. intros H. unfold rbind. rewrite H. reflexivity. Qed.

Lemma readElement_written {T} `{Raw T} (x : T) what obj r e :
  reads_back x ->
  readElement what (mk_reader obj (mk_istream (writeElement x ++ r) e))
  = (mk_reader obj (mk_istream r e), Ok x).
Proof.
  intros [Hl Hx]. unfold readElement, writeElement.
  erewrite rbind_returns.
  2:{ rewrite <- Hl. apply read_bytes_app. }
  unfold ret. rewrite Hx. reflexivity.
Qed.

Lemma size_flat_map_raw {T} `{Raw T} (v : list T) :
  Forall reads_back v -> size (flat_map to_raw v) = size v * Z.of_nat raw_size.
Proof.
  unfold size. induction 1 as [|x v [Hx _] _ IH]; [reflexivity|].
  cbn [flat_map length]. rewrite length_app, Nat2Z.inj_add, IH, Hx. lia.
Qed.

Lemma chunks_flat_map_raw {T} `{Raw T} (v : list T) :
  Forall reads_back v ->
  map of_raw (chunks raw_size (length v) (flat_map to_raw v)) = v.
Proof.
  induction 1 as [|x v [Hl Hx] _ IH]; [reflexivity|].
  cbn [flat_map length chunks map].
  replace (take raw_size (to_raw x ++ flat_map to_raw v)) with (to_raw x)
    by (rewrite <- Hl; symmetry; apply take_app_length).
  replace (drop raw_size (to_raw x ++ flat_map to_raw v)) with (flat_map to_raw v)
    by (rewrite <- Hl; symmetry; apply drop_app_length).
  rewrite Hx, IH. reflexivity.
Qed.

Lemma readVector_written {T} `{Raw T} (v : list T) what obj r e :
  size v < 2 ^ 64 -> Forall reads_back v ->
  readVector what (mk_reader obj (mk_istream (writeVector v ++ r) e))
  = (mk_reader obj (mk_istream r e), Ok v).
Proof.
  intros Hn Hv. unfold readVector, writeVector. rewrite <- app_assoc.
  erewrite rbind_returns.
  2:{ apply readElement_written. apply size_t_reads_back. unfold is_size_t, size in *. lia. }
  erewrite rbind_returns.
  2:{ rewrite <- (size_flat_map_raw v Hv). apply read_bytes_app. }
  unfold ret, size. rewrite Nat2Z.id, (chunks_flat_map_raw v Hv). reflexivity.
Qed.

Lemma length_list_byte_of_string (s : string) :
  length (list_byte_of_string s) = String.length s.
Proof.
  unfold list_byte_of_string. rewrite length_map.
  induction s as [|c s IH]; [reflexivity|]. cbn. now rewrite IH.
Qed.

Lemma readString_written (s : string) what obj r e :
  is_size_t (Z.of_nat (String.length s)) ->
  readString what (mk_reader obj (mk_istream (writeString s ++ r) e))
  = (mk_reader obj (mk_istream r e), Ok s).
Proof.
  intros Hn. unfold readString, writeString. rewrite <- app_assoc.
  erewrite rbind_returns.
  2:{ apply readElement_written. apply size_t_reads_back. exact Hn. }
  erewrite rbind_returns.
  2:{ replace (Z.of_nat (String.length s)) with (size (list_byte_of_string s)).
      - apply read_bytes_app.
      - unfold size. f_equal. apply length_list_byte_of_string. }
  unfold ret. rewrite string_of_list_byte_of_string. reflexivity.
Qed.

Ltac read_with lem :=
  erewrite rbind_returns; [|apply lem; assumption]; cbn beta.
Ltac modify_this :=
  erewrite rbind_returns; [|unfold modify; cbn [this in_]; reflexivity]; cbn beta.

Lemma read_elements_written obj tri qud tet pyr wdg hex r e :
  size tri < 2 ^ 64 -> size qud < 2 ^ 64 -> size tet < 2 ^ 64 ->
  size pyr < 2 ^ 64 -> size wdg < 2 ^ 64 -> size hex < 2 ^ 64 ->
  Forall reads_back tri -> Forall reads_back qud -> Forall reads_back tet ->
  Forall reads_back pyr -> Forall reads_back wdg -> Forall reads_back hex ->
  read_elements
    (mk_reader obj
       (mk_istream (writeVector tri ++ writeVector qud ++ writeVector tet
                    ++ writeVector pyr ++ writeVector wdg ++ writeVector hex ++ r) e))
  = (mk_reader (UMesh.set_hexes hex (UMesh.set_wedges wdg (UMesh.set_pyrs pyr
                 (UMesh.set_tets tet (UMesh.set_quads qud (UMesh.set_triangles tri obj))))))
               (mk_istream r e), Ok tt).
Proof.
  intros. unfold read_elements.
  read_with (readVector_written tri). modify_this.
  read_with (readVector_written qud). modify_this.
  read_with (readVector_written tet). modify_this.
  read_with (readVector_written pyr). modify_this.
  read_with (readVector_written wdg). modify_this.
  read_with (readVector_written hex). reflexivity.
Qed.

Lemma read_vertexTags_written obj tags :
  size tags < 2 ^ 64 -> Forall is_size_t tags ->
  read_vertexTags (mk_reader obj (mk_istream (writeVector tags) false))
  = (mk_reader (UMesh.set_vertexTags tags obj) (mk_istream [] false), Ok tt).
Proof.
  intros Hn Ht. unfold read_vertexTags.
  erewrite rbind_returns; [|reflexivity]. cbn beta. cbn [eofbit in_].
  unfold try_ignore.
  assert (Forall reads_back tags) as Hr.
  { eapply List.Forall_impl; [|exact Ht]. intros x Hx. apply size_t_reads_back. exact Hx. }
  rewrite <- (app_nil_r (writeVector tags)).
  read_with (readVector_written tags). reflexivity.
Qed.

(** ** A saved mesh is loaded back *)

Lemma index_is_int n i : n <= INT_MAX -> index_ok n i -> is_int i.
Proof. unfold index_ok, is_int, INT_MIN, INT_MAX. lia. Qed.

Lemma vec3i_ok_is_int n v : n <= INT_MAX -> vec3i_ok n v -> vec3i_is_int v.
Proof. intros Hn (? & ? & ?). repeat split; eapply index_is_int; eauto. Qed.

Lemma vec4i_ok_is_int n v : n <= INT_MAX -> vec4i_ok n v -> vec4i_is_int v.
Proof. intros Hn (? & ? & ? & ?). repeat split; eapply index_is_int; eauto. Qed.

Lemma own_elements_read_back m :
  size (UMesh.vertices m) <= INT_MAX -> names_own_vertices m ->
  Forall reads_back (UMesh.triangles m) /\ Forall reads_back (UMesh.quads m)
  /\ Forall reads_back (UMesh.tets m) /\ Forall reads_back (UMesh.pyrs m)
  /\ Forall reads_back (UMesh.wedges m) /\ Forall reads_back (UMesh.hexes m).
Proof.
  intros Hn (Htri & Hqud & Htet & Hpyr & Hwdg & Hhex).
  repeat match goal with |- _ /\ _ => split end.
  - eapply List.Forall_impl; [|exact Htri]. intros v Hv.
    apply vec3i_reads_back. eapply vec3i_ok_is_int; eauto.
  - eapply List.Forall_impl; [|exact Hqud]. intros v Hv.
    apply vec4i_reads_back. eapply vec4i_ok_is_int; eauto.
  - eapply List.Forall_impl; [|exact Htet]. intros v Hv.
    apply vec4i_reads_back. eapply vec4i_ok_is_int; eauto.
  - eapply List.Forall_impl; [|exact Hpyr]. intros v [Hb Ht].
    apply Pyr_reads_back; [eapply vec4i_ok_is_int|eapply index_is_int]; eauto.
  - eapply List.Forall_impl; [|exact Hwdg]. intros v [Hf Hb].
    apply Wedge_reads_back; eapply vec3i_ok_is_int; eauto.
  - eapply List.Forall_impl; [|exact Hhex]. intros v [Hb Ht].
    apply Hex_reads_back; eapply vec4i_ok_is_int; eauto.
Qed.

Lemma writeTo_sections m :
  writeTo m
  = writeElement bum_magic
    ++ writeVector (UMesh.vertices m)
    ++ writeElement (size (saved_attributes m))
    ++ flat_map writeAttribute (saved_attributes m)
    ++ writeElement 0
    ++ (writeVector (UMesh.triangles m) ++ writeVector (UMesh.quads m)
        ++ writeVector (UMesh.tets m) ++ writeVector (UMesh.pyrs m)
        ++ writeVector (UMesh.wedges m) ++ writeVector (UMesh.hexes m)
        ++ writeVector (UMesh.grids m) ++ writeVector (UMesh.gridScalars m)
        ++ writeVector (UMesh.vertexTags m)).
Proof. reflexivity. Qed.

(** [readFrom] on a stream that [writeTo] wrote, for a mesh with at most
    one saved attribute: it reads the stream to its end and leaves the
    mesh as read, finalized. *)
Lemma readFrom_written m m1 :
  machine_values m -> fits_int m -> names_own_vertices m ->
  (length (saved_attributes m) <= 1)%nat ->
  UMesh.finalize (as_read m) = Ok m1 ->
  readFrom (mk_reader UMesh.empty (mk_istream (writeTo m) false))
  = (mk_reader m1 (mk_istream [] false), Ok tt).
Proof.
  intros (Mvtx & Matt & Mgrd & Mgsc & Mtgn & Mtag)
         (Nvtx & Ntri & Nqud & Ntet & Npyr & Nwdg & Nhex & Ngrd & Ngsc) Hown Hone Hfin.
  destruct (own_elements_read_back m Nvtx Hown) as (Rtri & Rqud & Rtet & Rpyr & Rwdg & Rhex).
  assert (Forall reads_back (UMesh.vertices m)) as Rvtx
      by (eapply List.Forall_impl; [|exact Mvtx]; intros v Hv; apply vec3f_reads_back, Hv).
  assert (Forall reads_back (UMesh.grids m)) as Rgrd
      by (eapply List.Forall_impl; [|exact Mgrd]; intros v Hv; apply Grid_reads_back, Hv).
  assert (Forall reads_back (UMesh.gridScalars m)) as Rgsc
      by (eapply List.Forall_impl; [|exact Mgsc]; intros v Hv; apply float_reads_back, Hv).
  unfold INT_MAX in *.
  assert (size (UMesh.vertices m) < 2 ^ 64) as Svtx by lia.
  assert (size (UMesh.triangles m) < 2 ^ 64) as Stri by lia.
  assert (size (UMesh.quads m) < 2 ^ 64) as Squd by lia.
  assert (size (UMesh.tets m) < 2 ^ 64) as Stet by lia.
  assert (size (UMesh.pyrs m) < 2 ^ 64) as Spyr by lia.
  assert (size (UMesh.wedges m) < 2 ^ 64) as Swdg by lia.
  assert (size (UMesh.hexes m) < 2 ^ 64) as Shex by lia.
  assert (size (UMesh.grids m) < 2 ^ 64) as Sgrd by lia.
  assert (size (UMesh.gridScalars m) < 2 ^ 64) as Sgsc by lia.
  assert (size (UMesh.vertexTags m) < 2 ^ 64) as Stag by (unfold is_size_t in Mtgn; lia).
  assert (reads_back bum_magic) as Rmagic
      by (apply size_t_reads_back; unfold is_size_t, bum_magic; lia).
  assert (reads_back 0) as Rzero by (apply size_t_reads_back; unfold is_size_t; lia).
  assert (reads_back (size (saved_attributes m))) as Rnum
      by (apply size_t_reads_back; unfold is_size_t, size; lia).
  rewrite writeTo_sections. unfold readFrom.
  read_with (readElement_written bum_magic).
  change (bum_magic =? bum_magic_566) with false. cbv iota.
  change (bum_magic =? bum_magic) with true. cbn [negb].
  erewrite rbind_returns; [|reflexivity]. cbn beta.
  unfold read_sections.
  read_with (readVector_written (UMesh.vertices m)). modify_this.
  read_with (readElement_written (size (saved_attributes m))).
  unfold as_read in Hfin.
  destruct (saved_attributes m) as [|a [|a' attrs]] eqn:Hsaved;
    [| |cbn [length] in Hone; lia].
  - change (size (@nil Attribute.t)) with 0. cbn [Z.eqb negb flat_map app].
    erewrite rbind_returns; [|reflexivity]. cbn beta.
    unfold adopt_first_attribute. modify_this.
    read_with (readElement_written 0).
    read_with read_elements_written.
    erewrite rbind_returns.
    2:{ read_with (readVector_written (UMesh.grids m)). modify_this.
        read_with (readVector_written (UMesh.gridScalars m)).
        unfold modify. cbn [this in_]. reflexivity. }
    cbn beta.
    read_with read_vertexTags_written.
    unfold finalize_this. cbn [this in_].
    match type of Hfin with
    | UMesh.finalize ?t = _ =>
        match goal with |- context [UMesh.finalize ?o] => change o with t end
    end.
    rewrite Hfin. reflexivity.
  - apply Forall_inv in Matt. destruct Matt as (Aname & Asize & Avals).
    assert (Forall reads_back (Attribute.values a)) as Rval
        by (eapply List.Forall_impl; [|exact Avals]; intros v Hv; apply float_reads_back, Hv).
    assert (size (Attribute.values a) < 2 ^ 64) as Sval by (unfold is_size_t in Asize; lia).
    change (size [a]) with 1. cbn [Z.eqb negb flat_map].
    unfold writeAttribute. rewrite app_nil_r, <- app_assoc.
    erewrite rbind_returns.
    2:{ read_with (readString_written (Attribute.name a)).
        read_with (readVector_written (Attribute.values a)).
        unfold modify. cbn [this in_]. reflexivity. }
    cbn beta.
    unfold adopt_first_attribute. modify_this.
    read_with (readElement_written 0).
    read_with read_elements_written.
    erewrite rbind_returns.
    2:{ read_with (readVector_written (UMesh.grids m)). modify_this.
        read_with (readVector_written (UMesh.gridScalars m)).
        unfold modify. cbn [this in_]. reflexivity. }
    cbn beta.
    read_with read_vertexTags_written.
    unfold finalize_this. cbn [this in_].
    match type of Hfin with
    | UMesh.finalize ?t = _ =>
        match goal with |- context [UMesh.finalize ?o] => change o with t end
    end.
    rewrite Hfin. reflexivity.
Qed.

(** [loadFrom] on a file that [writeTo] wrote: the mesh as read, finalized
    by [readFrom] and once more by [loadFrom]. *)
Lemma loadFrom_written m :
  machine_values m -> fits_int m -> names_own_vertices m ->
  (length (saved_attributes m) <= 1)%nat ->
  exists m1 m2,
    UMesh.finalize (as_read m) = Ok m1 /\ UMesh.finalize m1 = Ok m2
    /\ loadFrom (writeTo m) = Ok m2.
Proof.
  intros Hval Hfit Hown Hone.
  pose proof Hown as (Vtri & Vqud & Vtet & Vpyr & Vwdg & Vhex).
  destruct (finalize_returns (as_read m) Hfit Vtri Vqud Vtet Vpyr Vwdg Vhex) as (m1 & H1).
  pose proof (finalize_frame _ _ H1) as F1. cbn [as_read UMesh.vertices UMesh.perVertex
    UMesh.attributes UMesh.triangles UMesh.quads UMesh.tets UMesh.pyrs UMesh.wedges
    UMesh.hexes UMesh.grids UMesh.gridScalars UMesh.vertexTags] in F1.
  assert (exists m2, UMesh.finalize m1 = Ok m2) as (m2 & H2).
  { apply finalize_returns; rewrite F1; cbn [UMesh.vertices UMesh.triangles UMesh.quads
      UMesh.tets UMesh.pyrs UMesh.wedges UMesh.hexes]; assumption. }
  exists m1, m2. split; [exact H1|]. split; [exact H2|].
  unfold loadFrom. rewrite (readFrom_written m m1 Hval Hfit Hown Hone H1).
  cbn [this]. exact H2.
Qed.

(** What the two calls of [finalize] leave of the mesh as read. *)
Lemma as_read_finalized m m1 m2 :
  UMesh.finalize (as_read m) = Ok m1 -> UMesh.finalize m1 = Ok m2 ->
  same_geometry m m2
  /\ UMesh.vertexTags m2 = UMesh.vertexTags m
  /\ UMesh.attributes m2 = map Attribute_as_read (saved_attributes m)
  /\ option_map Attribute.name (UMesh.perVertex m2)
     = option_map Attribute.name (head (saved_attributes m))
  /\ option_map Attribute.values (UMesh.perVertex m2)
     = option_map Attribute.values (head (saved_attributes m)).
Proof.
  intros H1 H2.
  pose proof (finalize_frame _ _ H1) as F1. pose proof (finalize_frame _ _ H2) as F2.
  cbn [as_read UMesh.vertices UMesh.perVertex
    UMesh.attributes UMesh.triangles UMesh.quads UMesh.tets UMesh.pyrs UMesh.wedges
    UMesh.hexes UMesh.grids UMesh.gridScalars UMesh.vertexTags] in F1.
  rewrite F2. unfold same_geometry. cbn [UMesh.vertices UMesh.perVertex
    UMesh.attributes UMesh.triangles UMesh.quads UMesh.tets UMesh.pyrs UMesh.wedges
    UMesh.hexes UMesh.grids UMesh.gridScalars UMesh.vertexTags].
  rewrite F1. cbn [UMesh.vertices UMesh.perVertex
    UMesh.attributes UMesh.triangles UMesh.quads UMesh.tets UMesh.pyrs UMesh.wedges
    UMesh.hexes UMesh.grids UMesh.gridScalars UMesh.vertexTags].
  split; [repeat split|].
  split; [reflexivity|]. split; [reflexivity|].
  destruct (saved_attributes m) as [|a attrs]; split; reflexivity.
Qed.

(** A mesh that [saveTo] has saved is loaded back by [loadFrom] whenever it
    has at most one attribute to save, its values are values of their C++
    types and its elements name vertices of the mesh: the loaded mesh has
    the vertices, elements, grids, grid scalars and vertex tags that were
    saved, and the saved attribute, by name and values, both as its
    attribute list and as its primary attribute. *)
Theorem saved_mesh_loads_back m file :
  machine_values m -> fits_int m -> names_own_vertices m ->
  (length (saved_attributes m) <= 1)%nat ->
  saveTo m = Ok file ->
  exists m',
    loadFrom file = Ok m'
    /\ same_geometry m m'
    /\ UMesh.vertexTags m' = UMesh.vertexTags m
    /\ map Attribute.name (UMesh.attributes m') = map Attribute.name (saved_attributes m)
    /\ map Attribute.values (UMesh.attributes m')
       = map Attribute.values (saved_attributes m)
    /\ option_map Attribute.name (UMesh.perVertex m')
       = option_map Attribute.name (head (saved_attributes m))
    /\ option_map Attribute.values (UMesh.perVertex m')
       = option_map Attribute.values (head (saved_attributes m)).
Proof.
  intros Hval Hfit Hown Hone Hsave.
  assert (file = writeTo m) as ->.
  { unfold saveTo in Hsave.
    destruct ((UMesh.size m >? 0) && box3f_is_empty (UMesh.bounds m)); congruence. }
  destruct (loadFrom_written m Hval Hfit Hown Hone) as (m1 & m2 & H1 & H2 & Hload).
  destruct (as_read_finalized m m1 m2 H1 H2) as (Hgeo & Htag & Hatt & Hname & Hvals).
  exists m2. split; [exact Hload|]. split; [exact Hgeo|]. split; [exact Htag|].
  rewrite Hatt, !map_map. cbn [Attribute_as_read Attribute.finalize Attribute.name
    Attribute.values].
  split; [reflexivity|]. split; [reflexivity|]. split; assumption.
Qed.

Lemma mesh_A_finalized_machine_values : machine_values mesh_A_finalized.
Proof.
  unfold machine_values, mesh_A_finalized, saved_attributes.
  cbn [UMesh.vertices UMesh.perVertex UMesh.attributes UMesh.grids UMesh.gridScalars
       UMesh.vertexTags].
  repeat match goal with |- _ /\ _ => split end.
  - repeat (constructor; [repeat split; vm_compute; reflexivity|]). constructor.
  - constructor; [|constructor].
    split; [vm_compute; split; congruence|]. split; [vm_compute; split; congruence|].
    repeat (constructor; [vm_compute; reflexivity|]). constructor.
  - constructor; [|constructor].
    unfold Grid_machine, vec4f_binary32, vec3i_is_int, is_int, binary32.
    cbn [Grid.domain Grid.numCells Grid.scalarsOffset Box.lower Box.upper
         V4.x V4.y V4.z V4.w V3.x V3.y V3.z].
    repeat match goal with |- _ /\ _ => split end;
      try (vm_compute; reflexivity); vm_compute; congruence.
  - repeat (constructor; [vm_compute; reflexivity|]). constructor.
  - vm_compute. split; congruence.
  - constructor.
Qed.

Lemma saved_mesh_loads_back_witness :
  saveTo mesh_A_finalized = Ok (writeTo mesh_A_finalized)
  /\ exists m',
      loadFrom (writeTo mesh_A_finalized) = Ok m'
      /\ same_geometry mesh_A_finalized m'
      /\ option_map Attribute.values (UMesh.perVertex m')
         = option_map Attribute.values (UMesh.perVertex mesh_A_finalized).
Proof.
  assert (saveTo mesh_A_finalized = Ok (writeTo mesh_A_finalized)) as Hsave
      by (vm_compute; reflexivity).
  assert (fits_int mesh_A_finalized) as Hfit
      by (unfold fits_int; vm_compute; repeat split; discriminate).
  assert (names_own_vertices mesh_A_finalized) as Hown
      by exact mesh_A_names_own_vertices.
  assert (length (saved_attributes mesh_A_finalized) <= 1)%nat as Hone
      by (vm_compute; constructor).
  split; [exact Hsave|].
  destruct (saved_mesh_loads_back mesh_A_finalized (writeTo mesh_A_finalized)
              mesh_A_finalized_machine_values Hfit Hown Hone Hsave)
    as (m' & Hload & Hgeo & _ & _ & _ & _ & Hval).
  exists m'. split; [exact Hload|]. split; [exact Hgeo|]. exact Hval.
Defined.

(** ** The three formats readFrom accepts *)

Lemma read_tags_section obj m tagged :
  is_size_t (size (UMesh.vertexTags m)) -> Forall is_size_t (UMesh.vertexTags m) ->
  read_vertexTags (mk_reader obj (mk_istream (tags_section tagged m) false))
  = (mk_reader (if tagged then UMesh.set_vertexTags (UMesh.vertexTags m) obj else obj)
               (mk_istream [] (negb tagged)), Ok tt).
Proof.
  intros Hn Ht. destruct tagged; cbn [tags_section negb].
  - apply read_vertexTags_written; [unfold is_size_t in Hn; lia|exact Ht].
  - reflexivity.
Qed.

(** What one call of [finalize] leaves of a mesh as read. *)
Lemma as_read_finalized_once d m1 :
  UMesh.finalize (as_read d) = Ok m1 ->
  same_geometry d m1
  /\ UMesh.vertexTags m1 = UMesh.vertexTags d
  /\ holds_attributes (saved_attributes d) m1.
Proof.
  intros H1. pose proof (finalize_frame _ _ H1) as F1.
  cbn [as_read UMesh.vertices UMesh.perVertex
    UMesh.attributes UMesh.triangles UMesh.quads UMesh.tets UMesh.pyrs UMesh.wedges
    UMesh.hexes UMesh.grids UMesh.gridScalars UMesh.vertexTags] in F1.
  rewrite F1. unfold same_geometry, holds_attributes. cbn [UMesh.vertices UMesh.perVertex
    UMesh.attributes UMesh.triangles UMesh.quads UMesh.tets UMesh.pyrs UMesh.wedges
    UMesh.hexes UMesh.grids UMesh.gridScalars UMesh.vertexTags].
  split; [repeat split|]. split; [reflexivity|].
  rewrite !map_map. cbn [Attribute_as_read Attribute.finalize Attribute.name
    Attribute.values].
  split; [reflexivity|]. split; [reflexivity|].
  destruct (saved_attributes d) as [|a attrs]; split; reflexivity.
Qed.

Lemma held_loaded hasGrids tagged m attrs m1 :
  same_geometry (held hasGrids tagged m) m1 ->
  UMesh.vertexTags m1 = UMesh.vertexTags (held hasGrids tagged m) ->
  holds_attributes attrs m1 ->
  loaded_from m hasGrids tagged attrs m1.
Proof.
  intros (Hv & Htri & Hqud & Htet & Hpyr & Hwdg & Hhex & Hgrd & Hgsc) Htag Hatt.
  cbn [held UMesh.vertices UMesh.triangles UMesh.quads UMesh.tets UMesh.pyrs UMesh.wedges
       UMesh.hexes UMesh.grids UMesh.gridScalars UMesh.vertexTags] in *.
  unfold loaded_from, same_elements.
  repeat match goal with |- _ /\ _ => split end; assumption.
Qed.

Lemma held_fits hasGrids tagged m :
  fits_int m -> names_own_vertices m ->
  (fits_int (held hasGrids tagged m) /\ names_own_vertices (held hasGrids tagged m))
  /\ (fits_int (held_566 tagged m) /\ names_own_vertices (held_566 tagged m)).
Proof.
  intros (Nvtx & Ntri & Nqud & Ntet & Npyr & Nwdg & Nhex & Ngrd & Ngsc)
         (Vtri & Vqud & Vtet & Vpyr & Vwdg & Vhex).
  assert (size (@nil Grid.t) <= INT_MAX) as Z1 by (vm_compute; discriminate).
  assert (size (@nil float) <= INT_MAX) as Z2 by (vm_compute; discriminate).
  unfold fits_int, names_own_vertices.
  cbn [held held_566 UMesh.set_attributes UMesh.set_perVertex
       UMesh.vertices UMesh.triangles UMesh.quads UMesh.tets UMesh.pyrs
       UMesh.wedges UMesh.hexes UMesh.grids UMesh.gridScalars].
  destruct hasGrids;
    repeat match goal with |- _ /\ _ => split end; assumption.
Qed.

(** The two calls of [finalize], of [readFrom] and of [loadFrom], return on
    a mesh as read whose elements name vertices of the mesh. *)
Lemma as_read_finalize_returns d :
  fits_int d -> names_own_vertices d ->
  exists m1 m2, UMesh.finalize (as_read d) = Ok m1 /\ UMesh.finalize m1 = Ok m2.
Proof.
  intros Hfit Hown.
  pose proof Hown as (Vtri & Vqud & Vtet & Vpyr & Vwdg & Vhex).
  destruct (finalize_returns (as_read d) Hfit Vtri Vqud Vtet Vpyr Vwdg Vhex) as (m1 & H1).
  pose proof (finalize_frame _ _ H1) as F1. cbn [as_read UMesh.vertices UMesh.perVertex
    UMesh.attributes UMesh.triangles UMesh.quads UMesh.tets UMesh.pyrs UMesh.wedges
    UMesh.hexes UMesh.grids UMesh.gridScalars UMesh.vertexTags] in F1.
  assert (exists m2, UMesh.finalize m1 = Ok m2) as (m2 & H2).
  { apply finalize_returns; rewrite F1; cbn [UMesh.vertices UMesh.triangles UMesh.quads
      UMesh.tets UMesh.pyrs UMesh.wedges UMesh.hexes]; assumption. }
  exists m1, m2. split; assumption.
Qed.

(** What the second call leaves. *)
Lemma as_read_finalized_twice d m1 m2 :
  UMesh.finalize (as_read d) = Ok m1 -> UMesh.finalize m1 = Ok m2 ->
  same_geometry d m2
  /\ UMesh.vertexTags m2 = UMesh.vertexTags d
  /\ holds_attributes (saved_attributes d) m2.
Proof.
  intros H1 H2.
  destruct (as_read_finalized d m1 m2 H1 H2) as (Hgeo & Htag & Hatt & Hname & Hvals).
  split; [exact Hgeo|]. split; [exact Htag|].
  unfold holds_attributes. rewrite Hatt, !map_map.
  cbn [Attribute_as_read Attribute.finalize Attribute.name Attribute.values].
  split; [reflexivity|]. split; [reflexivity|]. split; assumption.
Qed.

Lemma loadFrom_read stream m1 m2 e :
  readFrom (mk_reader UMesh.empty (mk_istream stream false))
  = (mk_reader m1 (mk_istream [] e), Ok tt) ->
  UMesh.finalize m1 = Ok m2 ->
  loadFrom stream = Ok m2.
Proof. intros Hr Hf. unfold loadFrom. rewrite Hr. exact Hf. Qed.

Ltac finalize_as_read Hfin :=
  unfold finalize_this; cbn [this in_];
  match type of Hfin with
  | UMesh.finalize ?t = _ =>
      match goal with |- context [UMesh.finalize ?o] => change o with t end
  end;
  rewrite Hfin; reflexivity.

(** [read_sections] on what a stream of the two later formats holds behind
    its magic, for a mesh with at most one attribute to save: it reads the
    stream to its end and leaves the mesh as read, finalized. *)
Lemma read_sections_written hasGrids tagged m m1 :
  machine_values m -> fits_int m -> names_own_vertices m ->
  (length (saved_attributes m) <= 1)%nat ->
  UMesh.finalize (as_read (held hasGrids tagged m)) = Ok m1 ->
  read_sections hasGrids
    (mk_reader UMesh.empty (mk_istream (format_sections hasGrids tagged m) false))
  = (mk_reader m1 (mk_istream [] (negb tagged)), Ok tt).
Proof.
  intros (Mvtx & Matt & Mgrd & Mgsc & Mtgn & Mtag)
         (Nvtx & Ntri & Nqud & Ntet & Npyr & Nwdg & Nhex & Ngrd & Ngsc) Hown Hone Hfin.
  destruct (own_elements_read_back m Nvtx Hown) as (Rtri & Rqud & Rtet & Rpyr & Rwdg & Rhex).
  assert (Forall reads_back (UMesh.vertices m)) as Rvtx
      by (eapply List.Forall_impl; [|exact Mvtx]; intros v Hv; apply vec3f_reads_back, Hv).
  assert (Forall reads_back (UMesh.grids m)) as Rgrd
      by (eapply List.Forall_impl; [|exact Mgrd]; intros v Hv; apply Grid_reads_back, Hv).
  assert (Forall reads_back (UMesh.gridScalars m)) as Rgsc
      by (eapply List.Forall_impl; [|exact Mgsc]; intros v Hv; apply float_reads_back, Hv).
  unfold INT_MAX in *.
  assert (size (UMesh.vertices m) < 2 ^ 64) as Svtx by lia.
  assert (size (UMesh.triangles m) < 2 ^ 64) as Stri by lia.
  assert (size (UMesh.quads m) < 2 ^ 64) as Squd by lia.
  assert (size (UMesh.tets m) < 2 ^ 64) as Stet by lia.
  assert (size (UMesh.pyrs m) < 2 ^ 64) as Spyr by lia.
  assert (size (UMesh.wedges m) < 2 ^ 64) as Swdg by lia.
  assert (size (UMesh.hexes m) < 2 ^ 64) as Shex by lia.
  assert (size (UMesh.grids m) < 2 ^ 64) as Sgrd by lia.
  assert (size (UMesh.gridScalars m) < 2 ^ 64) as Sgsc by lia.
  assert (reads_back 0) as Rzero by (apply size_t_reads_back; unfold is_size_t; lia).
  assert (reads_back (size (saved_attributes m))) as Rnum
      by (apply size_t_reads_back; unfold is_size_t, size; lia).
  unfold format_sections, read_sections.
  read_with (readVector_written (UMesh.vertices m)). modify_this.
  read_with (readElement_written (size (saved_attributes m))).
  unfold as_read in Hfin.
  change (saved_attributes (held hasGrids tagged m)) with (saved_attributes m) in Hfin.
  destruct (saved_attributes m) as [|a [|a' attrs]] eqn:Hsaved;
    [| |cbn [length] in Hone; lia].
  - change (size (@nil Attribute.t)) with 0. cbn [Z.eqb negb flat_map app].
    erewrite rbind_returns; [|reflexivity]. cbn beta.
    unfold adopt_first_attribute. modify_this.
    read_with (readElement_written 0).
    read_with read_elements_written.
    destruct hasGrids.
    + erewrite rbind_returns.
      2:{ read_with (readVector_written (UMesh.grids m)). modify_this.
          read_with (readVector_written (UMesh.gridScalars m)).
          unfold modify. cbn [this in_]. reflexivity. }
      cbn beta.
      read_with read_tags_section.
      destruct tagged; finalize_as_read Hfin.
    + erewrite rbind_returns; [|reflexivity]. cbn beta.
      read_with read_tags_section.
      destruct tagged; finalize_as_read Hfin.
  - apply Forall_inv in Matt. destruct Matt as (Aname & Asize & Avals).
    assert (Forall reads_back (Attribute.values a)) as Rval
        by (eapply List.Forall_impl; [|exact Avals]; intros v Hv; apply float_reads_back, Hv).
    assert (size (Attribute.values a) < 2 ^ 64) as Sval by (unfold is_size_t in Asize; lia).
    change (size [a]) with 1. cbn [Z.eqb negb flat_map].
    unfold writeAttribute. rewrite app_nil_r, <- app_assoc.
    erewrite rbind_returns.
    2:{ read_with (readString_written (Attribute.name a)).
        read_with (readVector_written (Attribute.values a)).
        unfold modify. cbn [this in_]. reflexivity. }
    cbn beta.
    unfold adopt_first_attribute. modify_this.
    read_with (readElement_written 0).
    read_with read_elements_written.
    destruct hasGrids.
    + erewrite rbind_returns.
      2:{ read_with (readVector_written (UMesh.grids m)). modify_this.
          read_with (readVector_written (UMesh.gridScalars m)).
          unfold modify. cbn [this in_]. reflexivity. }
      cbn beta.
      read_with read_tags_section.
      destruct tagged; finalize_as_read Hfin.
    + erewrite rbind_returns; [|reflexivity]. cbn beta.
      read_with read_tags_section.
      destruct tagged; finalize_as_read Hfin.
Qed.

Lemma stored_values_machine m :
  machine_values m ->
  size (stored_values m) < 2 ^ 64 /\ Forall reads_back (stored_values m).
Proof.
  intros (_ & Matt & _). unfold stored_values.
  destruct (saved_attributes m) as [|a attrs].
  - split; [vm_compute; reflexivity|constructor].
  - apply Forall_inv in Matt. destruct Matt as (_ & Asize & Avals).
    split; [unfold is_size_t in Asize; lia|].
    eapply List.Forall_impl; [|exact Avals]. intros v Hv. apply float_reads_back, Hv.
Qed.

(** [read_566] on what a stream of the oldest format holds behind its
    magic. *)
Lemma read_566_written tagged m m1 :
  machine_values m -> fits_int m -> names_own_vertices m ->
  UMesh.finalize (as_read (held_566 tagged m)) = Ok m1 ->
  read_566
    (mk_reader UMesh.empty
       (mk_istream (sections_566 tagged m) false))
  = (mk_reader m1 (mk_istream [] (negb tagged)), Ok tt).
Proof.
  intros Hval (Nvtx & Ntri & Nqud & Ntet & Npyr & Nwdg & Nhex & Ngrd & Ngsc) Hown Hfin.
  destruct (stored_values_machine m Hval) as (Sval & Rval).
  destruct Hval as (Mvtx & Matt & Mgrd & Mgsc & Mtgn & Mtag).
  destruct (own_elements_read_back m Nvtx Hown) as (Rtri & Rqud & Rtet & Rpyr & Rwdg & Rhex).
  assert (Forall reads_back (UMesh.vertices m)) as Rvtx
      by (eapply List.Forall_impl; [|exact Mvtx]; intros v Hv; apply vec3f_reads_back, Hv).
  unfold INT_MAX in *.
  assert (size (UMesh.vertices m) < 2 ^ 64) as Svtx by lia.
  assert (size (UMesh.triangles m) < 2 ^ 64) as Stri by lia.
  assert (size (UMesh.quads m) < 2 ^ 64) as Squd by lia.
  assert (size (UMesh.tets m) < 2 ^ 64) as Stet by lia.
  assert (size (UMesh.pyrs m) < 2 ^ 64) as Spyr by lia.
  assert (size (UMesh.wedges m) < 2 ^ 64) as Swdg by lia.
  assert (size (UMesh.hexes m) < 2 ^ 64) as Shex by lia.
  unfold sections_566, read_566.
  read_with (readVector_written (UMesh.vertices m)). modify_this.
  read_with (readVector_written (stored_values m)). modify_this.
  unfold adopt_first_attribute. modify_this.
  read_with read_elements_written.
  read_with read_tags_section.
  unfold as_read in Hfin.
  destruct tagged; finalize_as_read Hfin.
Qed.

(** A stream of each of the three formats is read to its end, by [readFrom]
    on a new mesh and by [loadFrom]. *)
Lemma stream_566_read m tagged :
  machine_values m -> fits_int m -> names_own_vertices m ->
  exists m1 m2,
    readFrom (mk_reader UMesh.empty (mk_istream (stream_566 m tagged) false))
    = (mk_reader m1 (mk_istream [] (negb tagged)), Ok tt)
    /\ loaded_from m false tagged [unnamed_attribute m] m1
    /\ loadFrom (stream_566 m tagged) = Ok m2
    /\ loaded_from m false tagged [unnamed_attribute m] m2.
Proof.
  intros Hval Hfit Hown.
  destruct (held_fits false tagged m Hfit Hown) as (_ & Hfit' & Hown').
  destruct (as_read_finalize_returns _ Hfit' Hown') as (m1 & m2 & H1 & H2).
  assert (reads_back bum_magic_566) as Rmagic
      by (apply size_t_reads_back; unfold is_size_t, bum_magic_566; lia).
  assert (readFrom (mk_reader UMesh.empty (mk_istream (stream_566 m tagged) false))
          = (mk_reader m1 (mk_istream [] (negb tagged)), Ok tt)) as Hr.
  { unfold stream_566, readFrom.
    read_with (readElement_written bum_magic_566).
    change (bum_magic_566 =? bum_magic_566) with true. cbv iota.
    apply read_566_written; assumption. }
  exists m1, m2. split; [exact Hr|].
  destruct (as_read_finalized_once _ _ H1) as (G1 & T1 & A1).
  destruct (as_read_finalized_twice _ _ _ H1 H2) as (G2 & T2 & A2).
  split; [apply held_loaded; assumption|].
  split; [exact (loadFrom_read _ _ _ _ Hr H2)|].
  apply held_loaded; assumption.
Qed.

Lemma stream_567_read m tagged :
  machine_values m -> fits_int m -> names_own_vertices m ->
  (length (saved_attributes m) <= 1)%nat ->
  exists m1 m2,
    readFrom (mk_reader UMesh.empty (mk_istream (stream_567 m tagged) false))
    = (mk_reader m1 (mk_istream [] (negb tagged)), Ok tt)
    /\ loaded_from m false tagged (saved_attributes m) m1
    /\ loadFrom (stream_567 m tagged) = Ok m2
    /\ loaded_from m false tagged (saved_attributes m) m2.
Proof.
  intros Hval Hfit Hown Hone.
  destruct (held_fits false tagged m Hfit Hown) as ((Hfit' & Hown') & _).
  destruct (as_read_finalize_returns _ Hfit' Hown') as (m1 & m2 & H1 & H2).
  assert (reads_back bum_magic_old) as Rmagic
      by (apply size_t_reads_back; unfold is_size_t, bum_magic_old; lia).
  assert (readFrom (mk_reader UMesh.empty (mk_istream (stream_567 m tagged) false))
          = (mk_reader m1 (mk_istream [] (negb tagged)), Ok tt)) as Hr.
  { unfold stream_567, readFrom.
    read_with (readElement_written bum_magic_old).
    change (bum_magic_old =? bum_magic_566) with false. cbv iota.
    change (bum_magic_old =? bum_magic) with false.
    change (bum_magic_old =? bum_magic_old) with true. cbn [negb].
    erewrite rbind_returns; [|reflexivity]. cbn beta.
    apply read_sections_written; assumption. }
  exists m1, m2. split; [exact Hr|].
  destruct (as_read_finalized_once _ _ H1) as (G1 & T1 & A1).
  destruct (as_read_finalized_twice _ _ _ H1 H2) as (G2 & T2 & A2).
  split; [apply held_loaded; assumption|].
  split; [exact (loadFrom_read _ _ _ _ Hr H2)|].
  apply held_loaded; assumption.
Qed.

Lemma stream_568_read m tagged :
  machine_values m -> fits_int m -> names_own_vertices m ->
  (length (saved_attributes m) <= 1)%nat ->
  exists m1 m2,
    readFrom (mk_reader UMesh.empty (mk_istream (stream_568 m tagged) false))
    = (mk_reader m1 (mk_istream [] (negb tagged)), Ok tt)
    /\ loaded_from m true tagged (saved_attributes m) m1
    /\ loadFrom (stream_568 m tagged) = Ok m2
    /\ loaded_from m true tagged (saved_attributes m) m2.
Proof.
  intros Hval Hfit Hown Hone.
  destruct (held_fits true tagged m Hfit Hown) as ((Hfit' & Hown') & _).
  destruct (as_read_finalize_returns _ Hfit' Hown') as (m1 & m2 & H1 & H2).
  assert (reads_back bum_magic) as Rmagic
      by (apply size_t_reads_back; unfold is_size_t, bum_magic; lia).
  assert (readFrom (mk_reader UMesh.empty (mk_istream (stream_568 m tagged) false))
          = (mk_reader m1 (mk_istream [] (negb tagged)), Ok tt)) as Hr.
  { unfold stream_568, readFrom.
    read_with (readElement_written bum_magic).
    change (bum_magic =? bum_magic_566) with false. cbv iota.
    change (bum_magic =? bum_magic) with true. cbn [negb].
    erewrite rbind_returns; [|reflexivity]. cbn beta.
    apply read_sections_written; assumption. }
  exists m1, m2. split; [exact Hr|].
  destruct (as_read_finalized_once _ _ H1) as (G1 & T1 & A1).
  destruct (as_read_finalized_twice _ _ _ H1 H2) as (G2 & T2 & A2).
  split; [apply held_loaded; assumption|].
  split; [exact (loadFrom_read _ _ _ _ Hr H2)|].
  apply held_loaded; assumption.
Qed.

(** C6.  [readFrom] on a stream that starts with a 64-bit magic goes on
    behind the magic as [read_566] for 0x234235566, as [read_sections]
    without the grids section for 0x234235567 and with it for 0x234235568;
    for any other magic it throws the wrong-magic error with the object as
    it was before the call, and [loadFrom] ends with that error and no
    mesh.  A stream of each of the three formats is accepted: [readFrom] on
    a new mesh, and [loadFrom], read it to its end and return the mesh it
    holds, whether or not the stream ends with vertex tags.  From the
    oldest format that is the vertices, one unnamed attribute, the six
    element arrays and the tags; from the middle one the vertices, the
    named attribute, the elements and the tags, without grids; from the
    current one, which [writeTo] writes, the grids and grid scalars too. *)
Theorem readFrom_dispatches_on_magic obj magic payload e :
  0 <= magic < 2 ^ 64 ->
  let s := mk_reader obj (mk_istream (writeElement magic ++ payload) e) in
  let s' := mk_reader obj (mk_istream payload e) in
  readFrom s
  = (if magic =? 0x234235566 then read_566 s'
     else if magic =? 0x234235567 then read_sections false s'
     else if magic =? 0x234235568 then read_sections true s'
     else (s', Throw wrong_magic_message))
  /\ (magic <> 0x234235566 -> magic <> 0x234235567 -> magic <> 0x234235568 ->
      readFrom s = (s', Throw wrong_magic_message)
      /\ loadFrom (writeElement magic ++ payload) = Throw wrong_magic_message)
  /\ (forall m tagged,
        machine_values m -> fits_int m -> names_own_vertices m ->
        (length (saved_attributes m) <= 1)%nat ->
        let new stream := mk_reader UMesh.empty (mk_istream stream false) in
        let at_end m' := (mk_reader m' (mk_istream [] (negb tagged)), Ok tt) in
        (exists m1 m2,
            readFrom (new (stream_566 m tagged)) = at_end m1
            /\ loaded_from m false tagged [unnamed_attribute m] m1
            /\ loadFrom (stream_566 m tagged) = Ok m2
            /\ loaded_from m false tagged [unnamed_attribute m] m2)
        /\ (exists m1 m2,
               readFrom (new (stream_567 m tagged)) = at_end m1
               /\ loaded_from m false tagged (saved_attributes m) m1
               /\ loadFrom (stream_567 m tagged) = Ok m2
               /\ loaded_from m false tagged (saved_attributes m) m2)
        /\ (exists m1 m2,
               readFrom (new (stream_568 m tagged)) = at_end m1
               /\ loaded_from m true tagged (saved_attributes m) m1
               /\ loadFrom (stream_568 m tagged) = Ok m2
               /\ loaded_from m true tagged (saved_attributes m) m2)
        /\ stream_568 m true = writeTo m).
Proof.
  intros Hm s s'.
  assert (readFrom s
          = (if magic =? 0x234235566 then read_566 s'
             else if magic =? 0x234235567 then read_sections false s'
             else if magic =? 0x234235568 then read_sections true s'
             else (s', Throw wrong_magic_message))) as H.
  { unfold readFrom, rbind at 1. subst s s'. rewrite (read_magic _ _ _ _ Hm).
    unfold bum_magic_566, bum_magic, bum_magic_old.
    destruct (Z.eqb_spec magic 0x234235566) as [E1|N1]; [reflexivity|].
    destruct (Z.eqb_spec magic 0x234235567) as [E2|N2].
    - subst magic. reflexivity.
    - destruct (Z.eqb_spec magic 0x234235568) as [E3|N3]; reflexivity. }
  split; [exact H|]. split.
  - intros N1 N2 N3.
    assert (readFrom s = (s', Throw wrong_magic_message)) as H'.
    { rewrite H.
      destruct (Z.eqb_spec magic 0x234235566); [contradiction|].
      destruct (Z.eqb_spec magic 0x234235567); [contradiction|].
      destruct (Z.eqb_spec magic 0x234235568); [contradiction|reflexivity]. }
    split; [exact H'|].
    unfold loadFrom.
    pose proof (read_magic UMesh.empty magic payload false Hm) as R.
    unfold readFrom, rbind at 1. rewrite R.
    unfold bum_magic_566, bum_magic, bum_magic_old.
    destruct (Z.eqb_spec magic 0x234235566); [contradiction|].
    destruct (Z.eqb_spec magic 0x234235567); [contradiction|].
    destruct (Z.eqb_spec magic 0x234235568); [contradiction|reflexivity].
  - intros m tagged Hval Hfit Hown Hone. cbv zeta.
    split; [exact (stream_566_read m tagged Hval Hfit Hown)|].
    split; [exact (stream_567_read m tagged Hval Hfit Hown Hone)|].
    split; [exact (stream_568_read m tagged Hval Hfit Hown Hone)|].
    reflexivity.
Qed.

Lemma readFrom_dispatches_on_magic_witness :
  0 <= 0x234235569 < 2 ^ 64
  /\ loadFrom (stream_unknown mesh_A) = Throw wrong_magic_message
  /\ (exists m', loadFrom (stream_566 mesh_A_finalized false) = Ok m'
                 /\ loaded_from mesh_A_finalized false false
                      [unnamed_attribute mesh_A_finalized] m')
  /\ (exists m', loadFrom (stream_567 mesh_A_finalized true) = Ok m'
                 /\ loaded_from mesh_A_finalized false true
                      (saved_attributes mesh_A_finalized) m')
  /\ (exists m', loadFrom (writeTo mesh_A_finalized) = Ok m'
                 /\ loaded_from mesh_A_finalized true true
                      (saved_attributes mesh_A_finalized) m').
Proof.
  assert (0 <= 0x234235569 < 2 ^ 64) as H by (cbn; lia).
  assert (fits_int mesh_A_finalized) as Hfit
      by (unfold fits_int; vm_compute; repeat split; discriminate).
  assert (names_own_vertices mesh_A_finalized) as Hown
      by exact mesh_A_names_own_vertices.
  assert (length (saved_attributes mesh_A_finalized) <= 1)%nat as Hone
      by (vm_compute; constructor).
  pose proof (readFrom_dispatches_on_magic UMesh.empty 0x234235569
                (drop 8 (writeTo mesh_A)) false H) as (_ & Hno & Hyes).
  split; [exact H|].
  split; [refine (proj2 (Hno _ _ _)); discriminate|].
  destruct (Hyes mesh_A_finalized false mesh_A_finalized_machine_values Hfit Hown Hone)
    as ((_ & m566 & _ & _ & L566 & C566) & _).
  destruct (Hyes mesh_A_finalized true mesh_A_finalized_machine_values Hfit Hown Hone)
    as (_ & (_ & m567 & _ & _ & L567 & C567) & (_ & m568 & _ & _ & L568 & C568) & E).
  split; [exists m566; split; assumption|].
  split; [exists m567; split; assumption|].
  exists m568. split; [rewrite <- E; exact L568|exact C568].
Defined.

(** The three formats, each holding [mesh_A]: the oldest loads with an
    unnamed attribute and no grids, the middle one with the attribute name
    and no grids, the current one with the grids too. *)
Lemma three_formats_load :
  (exists m a, loadFrom (stream_566 mesh_A true) = Ok m
               /\ UMesh.tets m = UMesh.tets mesh_A
               /\ UMesh.perVertex m = Some a /\ Attribute.name a = ""
               /\ Attribute.values a = primary_values mesh_A
               /\ UMesh.grids m = [])
  /\ (exists m a, loadFrom (stream_567 mesh_A true) = Ok m
                  /\ UMesh.tets m = UMesh.tets mesh_A
                  /\ UMesh.perVertex m = Some a /\ Attribute.name a = "pressure"
                  /\ Attribute.values a = primary_values mesh_A
                  /\ UMesh.grids m = [])
  /\ (exists m a, loadFrom (writeTo mesh_A) = Ok m
                  /\ UMesh.tets m = UMesh.tets mesh_A
                  /\ UMesh.perVertex m = Some a /\ Attribute.name a = "pressure"
                  /\ Attribute.values a = primary_values mesh_A
                  /\ UMesh.grids m = UMesh.grids mesh_A).
Proof.
  repeat split; (eexists; eexists; split; [vm_compute; reflexivity|]);
    repeat split; vm_compute; reflexivity.
Qed.

(** ** importUGrid32: from the ugrid32 file to the saved mesh *)

Lemma saveTo_writes m file : saveTo m = Ok file -> file = writeTo m.
Proof.
  unfold saveTo.
  destruct ((UMesh.size m >? 0) && box3f_is_empty (UMesh.bounds m)); congruence.
Qed.

Lemma indices_are_size_t n :
  Z.of_nat n <= INT_MAX -> Forall is_size_t (indices n).
Proof.
  intros Hn. unfold indices. apply Forall_map. rewrite List.Forall_forall.
  intros i Hi. apply in_seq in Hi. unfold is_size_t, INT_MAX in *. cbn. lia.
Qed.

Lemma size_indices n : size (indices n) = Z.of_nat n.
Proof. unfold size, indices. now rewrite length_map, length_seq. Qed.

(** A ugrid32 file that [importUGrid32] has turned into a umesh file is
    loaded back as the mesh the importer built: the vertices of the file,
    its non-degenerate elements, its scalars as an unnamed primary
    attribute, and, when there were no scalars, the vertex tags 0, 1, ...,
    one per vertex. *)
Theorem imported_file_loads_back f file st' :
  file_well_formed f -> file_machine_values f ->
  importUGrid32 f degen_stats_init = Ok (file, st') ->
  exists m,
    loadFrom file = Ok m
    /\ same_geometry (imported f) m
    /\ option_map Attribute.values (UMesh.perVertex m) = file_scalars f
    /\ UMesh.vertexTags m
       = match file_scalars f with
         | None => indices (length (file_vertices f))
         | Some _ => []
         end.
Proof.
  intros Hf [Mvtx Mval] Hrun.
  destruct (imported_well_formed f Hf) as [Hfit Hown].
  unfold importUGrid32 in Hrun.
  rewrite (UGrid32Loader_well_formed f _ Hf) in Hrun.
  apply bind_Ok in Hrun as ([result st1] & Hload & Hrun).
  apply bind_Ok in Hload as (result' & Hfin & Hload).
  inversion Hload; subst result' st1; clear Hload.
  cbn [fst snd] in Hrun.
  apply bind_Ok in Hrun as (file' & Hsave & Hrun).
  inversion Hrun; subst file' st'; clear Hrun.
  apply saveTo_writes in Hsave. subst file.
  pose proof (finalize_frame _ _ Hfin) as E.
  cbn [imported UMesh.vertices UMesh.perVertex UMesh.attributes UMesh.triangles
       UMesh.quads UMesh.tets UMesh.pyrs UMesh.wedges UMesh.hexes UMesh.grids
       UMesh.gridScalars UMesh.vertexTags] in E.
  assert (size (file_vertices f) <= INT_MAX) as Hn by (destruct Hf as [Hn _]; exact Hn).
  match goal with |- context [writeTo ?x] => set (mesh := x) end.
  assert (same_geometry (imported f) mesh
          /\ UMesh.attributes mesh = []
          /\ option_map Attribute.name (UMesh.perVertex mesh)
             = option_map (fun _ => "") (file_scalars f)
          /\ option_map Attribute.values (UMesh.perVertex mesh) = file_scalars f
          /\ UMesh.vertexTags mesh
             = match file_scalars f with
               | None => indices (length (file_vertices f))
               | Some _ => []
               end) as (Ggeo & Gatt & Gname & Gvals & Gtags).
  { subst mesh. rewrite E. unfold same_geometry.
    destruct (file_scalars f); cbn; repeat split; reflexivity. }
  pose proof Ggeo as (Gv & Gtri & Gqud & Gtet & Gpyr & Gwdg & Ghex & Ggrd & Ggsc).
  assert (fits_int mesh) as Hfit'.
  { unfold fits_int. rewrite Gv, Gtri, Gqud, Gtet, Gpyr, Gwdg, Ghex, Ggrd, Ggsc.
    exact Hfit. }
  assert (names_own_vertices mesh) as Hown'.
  { unfold names_own_vertices. rewrite Gv, Gtri, Gqud, Gtet, Gpyr, Gwdg, Ghex.
    exact Hown. }
  assert (saved_attributes mesh
          = match UMesh.perVertex mesh with Some p => [p] | None => [] end) as Hsaved.
  { unfold saved_attributes. rewrite Gatt. destruct (UMesh.perVertex mesh); reflexivity. }
  assert (machine_values mesh) as Hval.
  { unfold machine_values. rewrite Hsaved, Gv, Ggrd, Ggsc, Gtags.
    cbn [imported UMesh.vertices UMesh.grids UMesh.gridScalars].
    split; [exact Mvtx|]. split.
    - destruct (UMesh.perVertex mesh) as [p|]; [|constructor].
      constructor; [|constructor].
      cbn [option_map] in Gname, Gvals.
      destruct (file_scalars f) as [vals|]; [|discriminate].
      injection Gname as Gname. injection Gvals as Gvals.
      destruct Mval as [Mlen Mval].
      unfold Attribute_machine. rewrite Gname, Gvals.
      split; [unfold is_size_t; cbn [String.length]; lia|].
      split; [|exact Mval].
      unfold is_size_t, size, INT_MAX in *. rewrite Mlen. lia.
    - split; [constructor|]. split; [constructor|].
      destruct (file_scalars f).
      + split; [unfold is_size_t, size; cbn [length]; lia|constructor].
      + split; [|apply indices_are_size_t; exact Hn].
        rewrite size_indices. unfold is_size_t, size, INT_MAX in *. lia. }
  assert (length (saved_attributes mesh) <= 1)%nat as Hone.
  { rewrite Hsaved. destruct (UMesh.perVertex mesh); cbn; lia. }
  destruct (loadFrom_written mesh Hval Hfit' Hown' Hone) as (m1 & m2 & H1 & H2 & Hload).
  destruct (as_read_finalized mesh m1 m2 H1 H2) as (Lgeo & Ltag & _ & _ & Lvals).
  exists m2. split; [exact Hload|]. split.
  - destruct Lgeo as (Lv & Ltri & Lqud & Ltet & Lpyr & Lwdg & Lhex & Lgrd & Lgsc).
    unfold same_geometry.
    rewrite Lv, Ltri, Lqud, Ltet, Lpyr, Lwdg, Lhex, Lgrd, Lgsc. exact Ggeo.
  - split; [|rewrite Ltag; exact Gtags].
    rewrite Lvals, Hsaved, <- Gvals. destruct (UMesh.perVertex mesh); reflexivity.
Qed.

Lemma tet_scenario_machine_values : file_machine_values tet_scenario.
Proof.
  split; [|exact I].
  unfold tet_scenario. cbn [file_vertices].
  repeat (constructor; [repeat split; vm_compute; reflexivity|]). constructor.
Qed.

Lemma imported_file_loads_back_witness :
  file_well_formed tet_scenario /\ file_machine_values tet_scenario
  /\ exists file st' m,
      importUGrid32 tet_scenario degen_stats_init = Ok (file, st')
      /\ loadFrom file = Ok m
      /\ UMesh.vertexTags m = [0; 1; 2; 3].
Proof.
  split; [exact tet_scenario_well_formed|].
  split; [exact tet_scenario_machine_values|].
  assert (exists file st', importUGrid32 tet_scenario degen_stats_init = Ok (file, st'))
    as (file & st' & Hrun) by (do 2 eexists; vm_compute; reflexivity).
  destruct (imported_file_loads_back tet_scenario file st' tet_scenario_well_formed
              tet_scenario_machine_values Hrun) as (m & Hload & _ & _ & Htags).
  exists file, st', m. split; [exact Hrun|]. split; [exact Hload|]. exact Htags.
Defined.
(** ** replaceScalarField: which scalars reach the file *)

(** The file [replaceScalarField] saves holds the new scalars only when the
    loaded mesh has an empty attribute list.  When the list holds an
    attribute, as it does for every mesh loaded from a file with one, the
    file holds that attribute again, name and values, and the new scalars
    are not in it: loading the file gives the mesh with the scalars it had
    before. *)
Theorem replaced_scalars_saved_only_without_attributes
    inUMeshFileName inScalarsFileName in_ scalars file :
  machine_values (rescored in_ scalars) -> fits_int in_ -> names_own_vertices in_ ->
  (length (UMesh.attributes in_) <= 1)%nat ->
  replaceScalarField inUMeshFileName inScalarsFileName in_ scalars = Ok file ->
  exists m,
    loadFrom file = Ok m
    /\ same_geometry in_ m
    /\ UMesh.vertexTags m = UMesh.vertexTags in_
    /\ match UMesh.attributes in_ with
       | [] => option_map Attribute.name (UMesh.perVertex m) = Some ""
               /\ option_map Attribute.values (UMesh.perVertex m) = Some scalars
       | a :: _ => option_map Attribute.name (UMesh.perVertex m) = Some (Attribute.name a)
                   /\ option_map Attribute.values (UMesh.perVertex m)
                      = Some (Attribute.values a)
       end.
Proof.
  intros (Mvtx & Matt & Mgrd & Mgsc & Mtgn & Mtag) Hfit Hown Hone Hrun.
  unfold replaceScalarField in Hrun.
  destruct (negb (size scalars =? size (UMesh.vertices in_))); [discriminate|].
  apply bind_Ok in Hrun as (in2 & Hfin & Hsave).
  apply saveTo_writes in Hsave. subst file.
  pose proof (finalize_frame _ _ Hfin) as E.
  cbn [UMesh.set_perVertex UMesh.vertices UMesh.perVertex UMesh.attributes UMesh.triangles
       UMesh.quads UMesh.tets UMesh.pyrs UMesh.wedges UMesh.hexes UMesh.grids
       UMesh.gridScalars UMesh.vertexTags option_map] in E.
  cbn [rescored UMesh.set_perVertex UMesh.vertices UMesh.perVertex UMesh.attributes
       UMesh.grids UMesh.gridScalars UMesh.vertexTags] in Mvtx, Mgrd, Mgsc, Mtgn, Mtag.
  assert (same_geometry in_ in2 /\ UMesh.vertexTags in2 = UMesh.vertexTags in_
          /\ UMesh.attributes in2 = UMesh.attributes in_
          /\ option_map Attribute.name (UMesh.perVertex in2) = Some ""
          /\ option_map Attribute.values (UMesh.perVertex in2) = Some scalars)
    as (Ggeo & Gtag & Gatt & Gname & Gvals).
  { rewrite E. unfold same_geometry. cbn. repeat split; reflexivity. }
  pose proof Ggeo as (Gv & Gtri & Gqud & Gtet & Gpyr & Gwdg & Ghex & Ggrd & Ggsc).
  assert (fits_int in2) as Hfit'.
  { unfold fits_int. rewrite Gv, Gtri, Gqud, Gtet, Gpyr, Gwdg, Ghex, Ggrd, Ggsc.
    exact Hfit. }
  assert (names_own_vertices in2) as Hown'.
  { unfold names_own_vertices. rewrite Gv, Gtri, Gqud, Gtet, Gpyr, Gwdg, Ghex.
    exact Hown. }
  destruct (UMesh.perVertex in2) as [p|] eqn:Hp; [|discriminate].
  cbn [option_map] in Gname, Gvals. injection Gname as Gname. injection Gvals as Gvals.
  assert (saved_attributes in2
          = match UMesh.attributes in_ with [] => [p] | l => l end) as Hsaved.
  { unfold saved_attributes. rewrite Hp, Gatt. destruct (UMesh.attributes in_); reflexivity. }
  assert (machine_values in2) as Hval.
  { unfold machine_values. rewrite Hsaved, Gv, Ggrd, Ggsc, Gtag.
    split; [exact Mvtx|].
    split; [|split; [exact Mgrd|]; split; [exact Mgsc|]; split; [exact Mtgn|exact Mtag]].
    unfold saved_attributes, rescored in Matt.
    cbn [UMesh.set_perVertex UMesh.perVertex UMesh.attributes] in Matt.
    destruct (UMesh.attributes in_) as [|a l]; [|exact Matt].
    apply Forall_inv in Matt. constructor; [|constructor].
    unfold Attribute_machine in *. rewrite Gname, Gvals. exact Matt. }
  assert (length (saved_attributes in2) <= 1)%nat as Hone'.
  { rewrite Hsaved. destruct (UMesh.attributes in_); [cbn; lia|exact Hone]. }
  destruct (loadFrom_written in2 Hval Hfit' Hown' Hone') as (m1 & m2 & H1 & H2 & Hload).
  destruct (as_read_finalized in2 m1 m2 H1 H2) as (Lgeo & Ltag & _ & Lname & Lvals).
  exists m2. split; [exact Hload|]. split.
  - destruct Lgeo as (Lv & Ltri & Lqud & Ltet & Lpyr & Lwdg & Lhex & Lgrd & Lgsc).
    unfold same_geometry.
    rewrite Lv, Ltri, Lqud, Ltet, Lpyr, Lwdg, Lhex, Lgrd, Lgsc. exact Ggeo.
  - split; [rewrite Ltag; exact Gtag|].
    rewrite Lname, Lvals, Hsaved.
    destruct (UMesh.attributes in_) as [|a l]; cbn [head option_map];
      [rewrite Gname, Gvals|]; split; reflexivity.
Qed.

Lemma mesh_A_loaded_machine_values : machine_values (rescored mesh_A_loaded new_scalars).
Proof.
  unfold machine_values, rescored, mesh_A_loaded, saved_attributes.
  cbn [UMesh.set_perVertex UMesh.vertices UMesh.perVertex UMesh.attributes UMesh.grids
       UMesh.gridScalars UMesh.vertexTags].
  repeat match goal with |- _ /\ _ => split end.
  - repeat (constructor; [repeat split; vm_compute; reflexivity|]). constructor.
  - constructor; [|constructor].
    split; [vm_compute; split; congruence|]. split; [vm_compute; split; congruence|].
    repeat (constructor; [vm_compute; reflexivity|]). constructor.
  - constructor; [|constructor].
    unfold Grid_machine, vec4f_binary32, vec3i_is_int, is_int, binary32.
    cbn [Grid.domain Grid.numCells Grid.scalarsOffset Box.lower Box.upper
         V4.x V4.y V4.z V4.w V3.x V3.y V3.z].
    repeat match goal with |- _ /\ _ => split end;
      try (vm_compute; reflexivity); vm_compute; congruence.
  - repeat (constructor; [vm_compute; reflexivity|]). constructor.
  - vm_compute. split; congruence.
  - constructor.
Qed.

Lemma replaced_scalars_saved_only_without_attributes_witness :
  replaceScalarField "in.umesh" "new.floats" mesh_A_loaded new_scalars
  = Ok mesh_A_rescored_file
  /\ exists m,
      loadFrom mesh_A_rescored_file = Ok m
      /\ option_map Attribute.values (UMesh.perVertex m) = Some (map F32.of_Z [1; 2; 3; 4]).
Proof.
  assert (replaceScalarField "in.umesh" "new.floats" mesh_A_loaded new_scalars
          = Ok mesh_A_rescored_file) as Hrun by (vm_compute; reflexivity).
  assert (fits_int mesh_A_loaded) as Hfit
      by (unfold fits_int; vm_compute; repeat split; discriminate).
  assert (names_own_vertices mesh_A_loaded) as Hown
      by exact mesh_A_names_own_vertices.
  assert (length (UMesh.attributes mesh_A_loaded) <= 1)%nat as Hone
      by (vm_compute; constructor).
  split; [exact Hrun|].
  destruct (replaced_scalars_saved_only_without_attributes
              "in.umesh" "new.floats" mesh_A_loaded new_scalars mesh_A_rescored_file
              mesh_A_loaded_machine_values Hfit Hown Hone Hrun)
    as (m & Hload & _ & _ & _ & Hvals).
  exists m. split; [exact Hload|]. exact Hvals.
Defined.
(** ** rawToGrids: the layout of the grid scalars *)

(** A loop whose turns each add [k] to a measure adds [k] per turn. *)
Lemma foldM_adds {A S} (measure : S -> nat) (body : S -> A -> outcome S) l k :
  (forall s a s', In a l -> body s a = Ok s' -> measure s' = (measure s + k)%nat) ->
  forall s s', foldM body l s = Ok s' -> measure s' = (measure s + length l * k)%nat.
Proof.
  induction l as [|a l IH]; intros Hbody s s' H; cbn [foldM] in H.
  - inversion H. cbn. lia.
  - apply bind_Ok in H as (s1 & H1 & H2).
    rewrite (IH (fun s a s' Hin => Hbody s a s' (or_intror Hin)) _ _ H2).
    rewrite (Hbody _ _ _ (or_introl eq_refl) H1). cbn [length]. lia.
Qed.

Lemma for_bricks_Ok {S} n (body : Z -> S -> outcome S) s s' :
  for_bricks n body s = Ok s' ->
  foldM (fun s i => body i s) (brick_starts n) s = Ok s'.
Proof.
  unfold for_bricks. intros H. apply bind_Ok in H as (s1 & H1 & H2).
  destruct (in_int _); [|discriminate]. congruence.
Qed.

Lemma In_brick_starts n i : In i (brick_starts n) -> 0 <= i < n.
Proof.
  unfold brick_starts, brickSize.
  change (8 - 1) with 7. change (8 - 2) with 6. intros H.
  apply in_map_iff in H as (k & <- & Hk). apply in_seq in Hk.
  pose proof (Z.mul_div_le (n + 6) 7 ltac:(lia)).
  set (q := (n + 6) / 7) in *. lia.
Qed.

Lemma length_int_range lo hi : lo <= hi -> Z.of_nat (length (int_range lo hi)) = hi - lo + 1.
Proof. intros H. unfold int_range. rewrite length_map, length_seq. lia. Qed.

Lemma laid_out_snoc grids g k : forall off total,
  laid_out off grids total ->
  Grid.scalarsOffset g = to_int total -> numScalars g = Ok k ->
  laid_out off (grids ++ [g]) (total + k).
Proof.
  induction grids as [|g0 grids IH]; intros off total H Hoff Hk; cbn [laid_out app] in *.
  - subst total. split; [exact Hoff|]. exists k. split; [exact Hk|reflexivity].
  - destruct H as (H0 & k0 & Hk0 & H). split; [exact H0|].
    exists k0. split; [exact Hk0|]. apply IH; assumption.
Qed.

(** The three inner loops push one scalar per turn. *)
Lemma push_loops_length dims (scalars : list float) xs ys zs s s' :
  foldM (fun s iiz =>
    foldM (fun s iiy =>
      foldM (fun '(gridScalars, r) iix =>
               scalar <- at_ scalars (sample_index dims iix iiy iiz) ;;
               Ok (gridScalars ++ [scalar],
                   if negb (F32.is_nan scalar) then range1f_extend r scalar else r))
            xs s)
      ys s)
    zs s = Ok s' ->
  length (fst s') = (length (fst s) + length zs * (length ys * (length xs * 1)))%nat.
Proof.
  intros H.
  refine (foldM_adds (fun s => length (fst s)) _ zs _ _ s s' H).
  clear. intros s iiz s' _ H.
  refine (foldM_adds (fun s => length (fst s)) _ ys _ _ s s' H).
  clear. intros s iiy s' _ H.
  refine (foldM_adds (fun s => length (fst s)) _ xs _ _ s s' H).
  clear. intros [gs r] iix s' _ H.
  apply bind_Ok in H as (scalar & _ & H). inversion H. cbn [fst].
  rewrite length_app. reflexivity.
Qed.

(** One turn of the three outer loops: a grid of brick size is pushed, with
    as many scalars as it has, behind the scalars pushed before. *)
Lemma rawToGrids_brick_pushes dims scalars ix iy iz mesh mesh' :
  0 <= ix < V3.x dims - 1 -> 0 <= iy < V3.y dims - 1 -> 0 <= iz < V3.z dims - 1 ->
  rawToGrids_brick dims scalars ix iy iz mesh = Ok mesh' ->
  exists g k,
    mesh' = UMesh.set_grids (UMesh.grids mesh') (UMesh.set_gridScalars (UMesh.gridScalars mesh') mesh)
    /\ UMesh.grids mesh' = UMesh.grids mesh ++ [g]
    /\ size (UMesh.gridScalars mesh') = size (UMesh.gridScalars mesh) + k
    /\ Grid.scalarsOffset g = to_int (size (UMesh.gridScalars mesh))
    /\ numScalars g = Ok k /\ brick_sized g.
Proof.
  intros Hx Hy Hz H. unfold rawToGrids_brick in H.
  apply bind_Ok in H as (ix7 & Hix7 & H). apply bind_Ok in H as (dx & Hdx & H).
  apply bind_Ok in H as (iy7 & Hiy7 & H). apply bind_Ok in H as (dy & Hdy & H).
  apply bind_Ok in H as (iz7 & Hiz7 & H). apply bind_Ok in H as (dz & Hdz & H).
  apply bind_Ok in H as ([gs r] & Hpush & H).
  apply int_add_Ok in Hix7, Hdx, Hiy7, Hdy, Hiz7, Hdz.
  unfold brickSize in *.
  set (ex := Z.min ix7 dx) in *. set (ey := Z.min iy7 dy) in *.
  set (ez := Z.min iz7 dz) in *.
  assert (1 <= ex - ix <= 7) as Bx by (unfold ex; lia).
  assert (1 <= ey - iy <= 7) as By by (unfold ey; lia).
  assert (1 <= ez - iz <= 7) as Bz by (unfold ez; lia).
  apply push_loops_length in Hpush. cbn [fst] in Hpush. rename Hpush into Hlen.
  inversion H; subst mesh'; clear H. cbn [snd fst] in *.
  eexists. exists ((ex - ix + 1) * (ey - iy + 1) * (ez - iz + 1)).
  cbn [UMesh.set_grids UMesh.set_gridScalars UMesh.grids UMesh.gridScalars].
  split; [reflexivity|]. split; [reflexivity|]. split.
  - unfold size. rewrite Hlen.
    rewrite !Nat2Z.inj_add, !Nat2Z.inj_mul, !length_int_range by lia. cbn. lia.
  - cbn [Grid.scalarsOffset]. split; [reflexivity|]. split.
    + unfold numScalars. cbn [Grid.numCells V3.x V3.y V3.z].
      unfold int_add, in_int, INT_MIN, INT_MAX.
      repeat match goal with
             | |- context [(?a <=? ?b) && (?c <=? ?d)] =>
                 rewrite (proj2 (Z.leb_le a b)), (proj2 (Z.leb_le c d)) by lia;
                 cbn [andb bind]
             end.
      set (a := ex - ix + 1) in *. set (b := ey - iy + 1) in *. set (c := ez - iz + 1) in *.
      assert (0 <= a * b <= 64) by nia. assert (0 <= a * b * c <= 512) by nia.
      rewrite (to_size_t_small a), (to_size_t_small b), (to_size_t_small c) by lia.
      rewrite (to_size_t_small (a * b)) by lia.
      rewrite (to_size_t_small (a * b * c)) by lia. reflexivity.
    + unfold brick_sized, brickSize. cbn [Grid.numCells V3.x V3.y V3.z]. lia.
Qed.

(** The mesh [rawToGrids] builds holds grids only, each of at least one and
    at most seven cells along each axis, and their scalars fill the scalar
    array without a gap or an overlap: every grid starts where the grid
    before it ends, at the offset it stores (as an [int]), and the last one
    ends where the array ends. *)
Theorem rawToGrids_lays_out_scalars T dims raw mesh :
  rawToGrids_grids T dims raw = Ok mesh ->
  laid_out 0 (UMesh.grids mesh) (size (UMesh.gridScalars mesh))
  /\ Forall brick_sized (UMesh.grids mesh)
  /\ only_grids mesh.
Proof.
  intros H. unfold rawToGrids_grids in H.
  apply bind_Ok in H as (scalars & _ & H).
  apply bind_Ok in H as (dz & Hdz & H). apply int_add_Ok in Hdz as [-> _].
  apply for_bricks_Ok in H.
  set (P := fun m : UMesh.t =>
              laid_out 0 (UMesh.grids m) (size (UMesh.gridScalars m))
              /\ Forall brick_sized (UMesh.grids m) /\ only_grids m).
  refine (foldM_invariant P _ _ _ _ _ _ H).
  2:{ unfold P, only_grids. cbn. repeat split; constructor. }
  clear H. intros m0 iz m1 Hiz P0 H. apply In_brick_starts in Hiz.
  apply bind_Ok in H as (dy & Hdy & H). apply int_add_Ok in Hdy as [-> _].
  apply for_bricks_Ok in H.
  refine (foldM_invariant P _ _ _ _ _ P0 H).
  clear H P0 m0 m1. intros m0 iy m1 Hiy P0 H. apply In_brick_starts in Hiy.
  apply bind_Ok in H as (dx & Hdx & H). apply int_add_Ok in Hdx as [-> _].
  apply for_bricks_Ok in H.
  refine (foldM_invariant P _ _ _ _ _ P0 H).
  clear H P0 m0 m1. intros m0 ix m1 Hix (Hlay & Hsized & Honly) H.
  apply In_brick_starts in Hix.
  apply rawToGrids_brick_pushes in H as (g & k & E & Hg & Hs & Hoff & Hk & Hb); try lia.
  unfold P. rewrite Hg, Hs. split; [|split].
  - apply laid_out_snoc; assumption.
  - apply Forall_app. split; [exact Hsized|]. constructor; [exact Hb|constructor].
  - rewrite E. exact Honly.
Qed.

Lemma rawToGrids_lays_out_scalars_witness :
  rawToGrids_grids UINT8 (V3.mk 9 2 2) volume_9_2_2 = Ok grids_9_2_2
  /\ laid_out 0 (UMesh.grids grids_9_2_2) (size (UMesh.gridScalars grids_9_2_2))
  /\ map Grid.scalarsOffset (UMesh.grids grids_9_2_2) = [0; 32].
Proof.
  assert (rawToGrids_grids UINT8 (V3.mk 9 2 2) volume_9_2_2 = Ok grids_9_2_2) as H
      by (vm_compute; reflexivity).
  split; [exact H|].
  split; [exact (proj1 (rawToGrids_lays_out_scalars UINT8 _ _ _ H))|].
  vm_compute. reflexivity.
Defined.

(** ** rawToGrids: every volume is cut into grids *)

Lemma length_chunks sz n bs : length (chunks sz n bs) = n.
Proof. revert bs. induction n as [|n IH]; intros bs; cbn [chunks length]; auto. Qed.

Lemma rawToGrids_scalars_returns T dims raw :
  dims_ok dims ->
  exists scalars,
    rawToGrids_scalars T dims raw = Ok scalars
    /\ size scalars = V3.x dims * V3.y dims * V3.z dims.
Proof.
  intros (Hx & Hy & Hz & Hn). unfold rawToGrids_scalars, vector_float_max_size, INT_MAX,
    brickSize in *.
  set (dx := V3.x dims) in *. set (dy := V3.y dims) in *. set (dz := V3.z dims) in *.
  assert (0 < dx * dy) by nia. assert (dx * dy <= dx * dy * dz) by nia.
  rewrite (to_size_t_small dx), (to_size_t_small dy), (to_size_t_small dz) by lia.
  rewrite (to_size_t_small (dx * dy)) by lia.
  rewrite (to_size_t_small (dx * dy * dz)) by lia.
  destruct (Z.gtb_spec (dx * dy * dz) (2 ^ 61 - 1)) as [?|_]; [lia|].
  eexists. split; [reflexivity|].
  unfold size. rewrite length_map, length_chunks. lia.
Qed.

Lemma sample_index_in_range dims iix iiy iiz :
  dims_ok dims ->
  0 <= iix < V3.x dims -> 0 <= iiy < V3.y dims -> 0 <= iiz < V3.z dims ->
  0 <= sample_index dims iix iiy iiz < V3.x dims * V3.y dims * V3.z dims.
Proof.
  intros (Hx & Hy & Hz & Hn) Bx By Bz.
  unfold sample_index, vector_float_max_size, INT_MAX, brickSize in *.
  set (dx := V3.x dims) in *. set (dy := V3.y dims) in *. set (dz := V3.z dims) in *.
  assert (0 <= dy * iiz <= dy * (dz - 1)) by nia.
  assert (0 <= iiy + dy * iiz <= dy * dz - 1) by nia.
  assert (0 <= dx * (iiy + dy * iiz) <= dx * (dy * dz - 1)) by nia.
  assert (dx * (dy * dz - 1) = dx * dy * dz - dx) by lia.
  assert (0 < dx * dy) by nia. assert (dx * dy <= dx * dy * dz) by nia.
  assert (dy * dz <= dx * dy * dz) by nia.
  rewrite (to_size_t_small dy), (to_size_t_small iiz), (to_size_t_small iiy),
    (to_size_t_small dx), (to_size_t_small iix) by lia.
  rewrite (to_size_t_small (dy * iiz)) by lia.
  rewrite (to_size_t_small (iiy + dy * iiz)) by lia.
  rewrite (to_size_t_small (dx * (iiy + dy * iiz))) by lia.
  rewrite (to_size_t_small (iix + dx * (iiy + dy * iiz))) by lia.
  lia.
Qed.

Lemma In_int_range lo hi i : In i (int_range lo hi) -> lo <= i <= hi.
Proof.
  unfold int_range. intros H. apply in_map_iff in H as (k & <- & Hk).
  apply in_seq in Hk. lia.
Qed.

(** Inside the volume every turn of the three outer loops returns. *)
Lemma rawToGrids_brick_returns dims scalars ix iy iz mesh :
  dims_ok dims -> size scalars = V3.x dims * V3.y dims * V3.z dims ->
  0 <= ix < V3.x dims - 1 -> 0 <= iy < V3.y dims - 1 -> 0 <= iz < V3.z dims - 1 ->
  exists mesh', rawToGrids_brick dims scalars ix iy iz mesh = Ok mesh'.
Proof.
  intros Hdims Hsize Hx Hy Hz. pose proof Hdims as (Dx & Dy & Dz & _).
  unfold rawToGrids_brick.
  unfold brickSize, INT_MAX in Dx, Dy, Dz.
  rewrite !int_add_returns by (unfold INT_MIN, INT_MAX, brickSize; lia).
  cbn [bind]. unfold brickSize.
  set (ex := Z.min (ix + (8 - 1)) (V3.x dims + -1)).
  set (ey := Z.min (iy + (8 - 1)) (V3.y dims + -1)).
  set (ez := Z.min (iz + (8 - 1)) (V3.z dims + -1)).
  assert (forall iiz iiy, 0 <= iiz < V3.z dims -> 0 <= iiy < V3.y dims ->
          forall s : list float * range1f,
          exists s',
            foldM (fun '(gridScalars, r) iix =>
                     scalar <- at_ scalars (sample_index dims iix iiy iiz) ;;
                     Ok (gridScalars ++ [scalar],
                         if negb (F32.is_nan scalar) then range1f_extend r scalar else r))
                  (int_range ix ex) s = Ok s') as Hrow.
  { intros iiz iiy Hiiz Hiiy s.
    match goal with
    | |- context [foldM ?body ?l s] =>
        destruct (foldM_returns (fun _ => True) body l) with (s := s) as (s' & Hs' & _);
          [|exact I|eauto]
    end.
    intros [gs r] iix Hiix _. apply In_int_range in Hiix.
    destruct (at_in_range scalars (sample_index dims iix iiy iiz)) as (scalar & _ & Hat).
    { rewrite Hsize. apply sample_index_in_range; [exact Hdims| | |]; unfold ex in *; lia. }
    rewrite Hat. cbn [bind]. eauto. }
  assert (forall iiz, 0 <= iiz < V3.z dims ->
          forall s : list float * range1f,
          exists s',
            foldM (fun s iiy =>
                     foldM (fun '(gridScalars, r) iix =>
                              scalar <- at_ scalars (sample_index dims iix iiy iiz) ;;
                              Ok (gridScalars ++ [scalar],
                                  if negb (F32.is_nan scalar) then range1f_extend r scalar
                                  else r))
                           (int_range ix ex) s)
                  (int_range iy ey) s = Ok s') as Hslab.
  { intros iiz Hiiz s.
    match goal with
    | |- context [foldM ?body ?l s] =>
        destruct (foldM_returns (fun _ => True) body l) with (s := s) as (s' & Hs' & _);
          [|exact I|eauto]
    end.
    intros s0 iiy Hiiy _. apply In_int_range in Hiiy.
    destruct (Hrow iiz iiy Hiiz ltac:(unfold ey in *; lia) s0) as (s' & Hs'). eauto. }
  match goal with
  | |- context [foldM ?body (int_range iz ez) ?s0] =>
      destruct (foldM_returns (fun _ => True) body (int_range iz ez)) with (s := s0)
        as (pushed & Hpushed & _); [|exact I|rewrite Hpushed; cbn [bind]; eauto]
  end.
  intros s0 iiz Hiiz _. apply In_int_range in Hiiz.
  destruct (Hslab iiz ltac:(unfold ez in *; lia) s0) as (s' & Hs'). eauto.
Qed.

Lemma for_bricks_returns {S} (P : S -> Prop) n (body : Z -> S -> outcome S) s :
  n <= INT_MAX - (brickSize - 2) ->
  (forall s i, 0 <= i < n -> P s -> exists s', body i s = Ok s' /\ P s') ->
  P s -> exists s', for_bricks n body s = Ok s' /\ P s'.
Proof.
  intros Hn Hbody Hs. unfold for_bricks.
  destruct (foldM_returns P (fun s i => body i s) (brick_starts n)) with (s := s)
    as (s' & Hs' & HP); [|exact Hs|].
  { intros s0 i Hi. apply In_brick_starts in Hi. auto. }
  rewrite Hs'. cbn [bind].
  replace (in_int _) with true; [eauto|].
  symmetry. unfold in_int, brick_starts, INT_MIN, INT_MAX, brickSize in *.
  rewrite length_map, length_seq.
  change (8 - 1) with 7 in *. change (8 - 2) with 6 in *.
  pose proof (Z.mul_div_le (n + 6) 7 ltac:(lia)).
  set (q := (n + 6) / 7) in *.
  apply andb_true_intro. split; apply Z.leb_le; lia.
Qed.

Lemma for_bricks_adds {S} (measure : S -> nat) n (body : Z -> S -> outcome S) k s s' :
  (forall s i s', 0 <= i < n -> body i s = Ok s' -> measure s' = (measure s + k)%nat) ->
  for_bricks n body s = Ok s' ->
  measure s' = (measure s + length (brick_starts n) * k)%nat.
Proof.
  intros Hbody H. apply for_bricks_Ok in H.
  refine (foldM_adds measure _ _ k _ s s' H).
  intros s0 i s1 Hi Hb. apply In_brick_starts in Hi. exact (Hbody _ _ _ Hi Hb).
Qed.

Lemma length_brick_starts d :
  1 <= d -> Z.of_nat (length (brick_starts (d + -1))) = bricks_along d.
Proof.
  intros Hd. unfold brick_starts, bricks_along, brickSize.
  rewrite length_map, length_seq.
  replace (d + -1 + (8 - 2)) with (d + (8 - 3)) by lia.
  rewrite Z2Nat.id; [reflexivity|]. apply Z.div_pos; lia.
Qed.

(** The number of grids in the mesh [rawToGrids] has built. *)
Lemma rawToGrids_grids_length T dims raw mesh :
  rawToGrids_grids T dims raw = Ok mesh ->
  length (UMesh.grids mesh)
  = (length (brick_starts (V3.z dims + -1))
     * (length (brick_starts (V3.y dims + -1))
        * (length (brick_starts (V3.x dims + -1)) * 1)))%nat.
Proof.
  intros H. unfold rawToGrids_grids in H.
  apply bind_Ok in H as (scalars & _ & H).
  apply bind_Ok in H as (dz & Hdz & H). apply int_add_Ok in Hdz as [-> _].
  apply (for_bricks_adds (fun m => length (UMesh.grids m)) _ _
           (length (brick_starts (V3.y dims + -1))
            * (length (brick_starts (V3.x dims + -1)) * 1))) in H; [exact H|].
  clear. intros m0 iz m1 Hiz H.
  apply bind_Ok in H as (dy & Hdy & H). apply int_add_Ok in Hdy as [-> _].
  apply (for_bricks_adds (fun m => length (UMesh.grids m)) _ _
           (length (brick_starts (V3.x dims + -1)) * 1)) in H; [exact H|].
  clear - Hiz. intros m0 iy m1 Hiy H.
  apply bind_Ok in H as (dx & Hdx & H). apply int_add_Ok in Hdx as [-> _].
  apply (for_bricks_adds (fun m => length (UMesh.grids m)) _ _ 1) in H; [exact H|].
  clear - Hiz Hiy. intros m0 ix m1 Hix H.
  apply rawToGrids_brick_pushes in H as (g & k & _ & Hg & _); try lia.
  rewrite Hg, length_app. reflexivity.
Qed.

(** For a volume of at least one sample along each axis, [rawToGrids] reads
    no sample outside the volume and builds one grid per brick of
    [brickSize-1] cells: none at all when the volume is one sample thick
    along some axis. *)
Theorem rawToGrids_cuts_volume T dims raw :
  dims_ok dims ->
  exists mesh,
    rawToGrids_grids T dims raw = Ok mesh
    /\ size (UMesh.grids mesh)
       = bricks_along (V3.x dims) * bricks_along (V3.y dims) * bricks_along (V3.z dims)
    /\ (V3.x dims = 1 \/ V3.y dims = 1 \/ V3.z dims = 1 -> UMesh.grids mesh = []).
Proof.
  intros Hdims. pose proof Hdims as (Dx & Dy & Dz & Dn).
  assert (exists mesh, rawToGrids_grids T dims raw = Ok mesh) as (mesh & H).
  { unfold rawToGrids_grids.
    destruct (rawToGrids_scalars_returns T dims raw Hdims) as (scalars & -> & Hsize).
    cbn [bind]. unfold INT_MAX, brickSize in Dx, Dy, Dz.
    rewrite int_add_returns by (unfold INT_MIN, INT_MAX; lia). cbn [bind].
    destruct (for_bricks_returns (fun _ : UMesh.t => True) (V3.z dims + -1)) with
      (s := UMesh.set_perVertex (Some (Attribute.make 0)) UMesh.empty)
      (body := fun iz mesh =>
                 dy <- int_add (V3.y dims) (-1) ;;
                 for_bricks dy (fun iy mesh =>
                   dx <- int_add (V3.x dims) (-1) ;;
                   for_bricks dx
                     (fun ix mesh => rawToGrids_brick dims scalars ix iy iz mesh) mesh)
                   mesh)
      as (mesh & Hmesh & _); [| |exact I|eauto].
    { unfold INT_MAX, brickSize. lia. }
    intros m0 iz Hiz _.
    rewrite int_add_returns by (unfold INT_MIN, INT_MAX; lia). cbn [bind].
    apply for_bricks_returns; [unfold INT_MAX, brickSize; lia| |exact I].
    intros m1 iy Hiy _.
    rewrite int_add_returns by (unfold INT_MIN, INT_MAX; lia). cbn [bind].
    apply for_bricks_returns; [unfold INT_MAX, brickSize; lia| |exact I].
    intros m2 ix Hix _.
    destruct (rawToGrids_brick_returns dims scalars ix iy iz m2 Hdims Hsize) as (m3 & H3);
      try lia.
    eauto. }
  exists mesh. split; [exact H|].
  pose proof (rawToGrids_grids_length T dims raw mesh H) as Hlen.
  assert (size (UMesh.grids mesh)
          = bricks_along (V3.x dims) * bricks_along (V3.y dims) * bricks_along (V3.z dims))
    as Hcount.
  { unfold size. rewrite Hlen, !Nat2Z.inj_mul, !length_brick_starts by lia.
    change (Z.of_nat 1) with 1. lia. }
  split; [exact Hcount|].
  intros Hflat.
  assert (size (UMesh.grids mesh) = 0) as Hzero.
  { rewrite Hcount. unfold bricks_along, brickSize.
    destruct Hflat as [->|[->| ->]]; change ((1 + (8 - 3)) / (8 - 1)) with 0; lia. }
  unfold size in Hzero. destruct (UMesh.grids mesh); [reflexivity|cbn in Hzero; lia].
Qed.

Lemma rawToGrids_cuts_volume_witness :
  dims_ok (V3.mk 9 2 2)
  /\ exists mesh,
      rawToGrids_grids UINT8 (V3.mk 9 2 2) volume_9_2_2 = Ok mesh
      /\ size (UMesh.grids mesh) = 2.
Proof.
  assert (dims_ok (V3.mk 9 2 2)) as Hdims
      by (unfold dims_ok; vm_compute; repeat split; discriminate).
  split; [exact Hdims|].
  destruct (rawToGrids_cuts_volume UINT8 (V3.mk 9 2 2) volume_9_2_2 Hdims)
    as (mesh & H & Hcount & _).
  exists mesh. split; [exact H|]. exact Hcount.
Defined.
(** ** exportBBs: one box per element, for meshes that carry scalars *)

Lemma including_values_returns m idx :
  scalars_cover m -> size (UMesh.vertices m) <= INT_MAX ->
  Forall (index_ok (size (UMesh.vertices m))) idx ->
  exists r, including_values m idx = Ok r.
Proof.
  intros Hcover Hn Hidx. unfold including_values.
  destruct (foldM_returns (fun _ => True)
              (fun r i => s <- perVertex_value m (to_size_t i) ;; Ok (range1f_extend r s)) idx)
    with (s := range1f_empty) as (r & Hr & _); [|exact I|eauto].
  intros s i Hin _. rewrite List.Forall_forall in Hidx.
  pose proof (Hidx i Hin) as Hi. unfold index_ok in Hi.
  rewrite to_size_t_small by (unfold INT_MAX in *; lia).
  destruct (perVertex_value_returns m i Hcover Hi) as (v & ->). cbn [bind]. eauto.
Qed.

(** The value range of every element of a mesh that carries scalars and
    whose elements name vertices of the mesh can be computed. *)
Lemma getValueRange_returns m pr :
  fits_int m -> names_own_vertices m -> scalars_cover m ->
  In pr (UMesh.createAllPrimRefs m) ->
  exists r, getValueRange m pr = Ok r.
Proof.
  intros (Fv & Ftri & Fqud & Ftet & Fpyr & Fwdg & Fhex & Fgrd & Fgsc)
         (Vtri & Vqud & Vtet & Vpyr & Vwdg & Vhex) Hcover Hin.
  rewrite List.Forall_forall in Vtri, Vqud, Vtet, Vpyr, Vwdg, Vhex.
  unfold UMesh.createAllPrimRefs, UMesh.createVolumePrimRefs,
         UMesh.createSurfacePrimRefs in Hin.
  repeat (apply in_app_or in Hin as [Hin|Hin]);
    apply In_primRefsOf in Hin as (k & Hk & ->).
  - destruct (at_primRef_ID (UMesh.tets m) TET k Hk Ftet) as (p & Hp & -> & E).
    unfold getValueRange, getTetValueRange. cbn [PrimRef.type PrimRef.ID]. rewrite E.
    cbn [bind]. destruct (Vtet p Hp) as (? & ? & ? & ?).
    apply including_values_returns; [assumption|assumption|].
    repeat (constructor; [assumption|]); constructor.
  - destruct (at_primRef_ID (UMesh.pyrs m) PYR k Hk Fpyr) as (p & Hp & -> & E).
    unfold getValueRange, getPyrValueRange. cbn [PrimRef.type PrimRef.ID]. rewrite E.
    cbn [bind]. destruct (Vpyr p Hp) as ((? & ? & ? & ?) & ?).
    apply including_values_returns; [assumption|assumption|].
    repeat (constructor; [assumption|]); constructor.
  - destruct (at_primRef_ID (UMesh.wedges m) WEDGE k Hk Fwdg) as (p & Hp & -> & E).
    unfold getValueRange, getWedgeValueRange. cbn [PrimRef.type PrimRef.ID]. rewrite E.
    cbn [bind]. destruct (Vwdg p Hp) as ((? & ? & ?) & (? & ? & ?)).
    apply including_values_returns; [assumption|assumption|].
    repeat (constructor; [assumption|]); constructor.
  - destruct (at_primRef_ID (UMesh.hexes m) HEX k Hk Fhex) as (p & Hp & -> & E).
    unfold getValueRange, getHexValueRange. cbn [PrimRef.type PrimRef.ID]. rewrite E.
    cbn [bind]. destruct (Vhex p Hp) as ((? & ? & ? & ?) & (? & ? & ? & ?)).
    apply including_values_returns; [assumption|assumption|].
    repeat (constructor; [assumption|]); constructor.
  - destruct (at_primRef_ID (UMesh.grids m) GRID k Hk Fgrd) as (p & Hp & -> & E).
    unfold getValueRange, UMesh.getGridValueRange. cbn [PrimRef.type PrimRef.ID].
    rewrite E. cbn [bind]. eauto.
  - destruct (at_primRef_ID (UMesh.triangles m) TRI k Hk Ftri) as (p & Hp & -> & E).
    unfold getValueRange, getTriValueRange. cbn [PrimRef.type PrimRef.ID]. rewrite E.
    cbn [bind]. destruct (Vtri p Hp) as (? & ? & ?).
    apply including_values_returns; [assumption|assumption|].
    repeat (constructor; [assumption|]); constructor.
  - destruct (at_primRef_ID (UMesh.quads m) QUAD k Hk Fqud) as (p & Hp & -> & E).
    unfold getValueRange, getQuadValueRange. cbn [PrimRef.type PrimRef.ID]. rewrite E.
    cbn [bind]. destruct (Vqud p Hp) as (? & ? & ? & ?).
    apply including_values_returns; [assumption|assumption|].
    repeat (constructor; [assumption|]); constructor.
Qed.

Lemma length_box4f_to_raw bb : length (box4f_to_raw bb) = 32%nat.
Proof.
  unfold box4f_to_raw, vec4f_to_raw, float_to_raw.
  rewrite !length_app, !length_le_split. reflexivity.
Qed.

Lemma length_createAllPrimRefs m :
  fits_int m -> Z.of_nat (length (UMesh.createAllPrimRefs m)) = UMesh.size m.
Proof.
  intros (Fv & Ftri & Fqud & Ftet & Fpyr & Fwdg & Fhex & Fgrd & Fgsc).
  unfold UMesh.createAllPrimRefs, UMesh.createVolumePrimRefs,
    UMesh.createSurfacePrimRefs, UMesh.primRefsOf, UMesh.size, indices, size, INT_MAX in *.
  rewrite !length_app, !length_map, !length_seq.
  rewrite to_size_t_small by lia. lia.
Qed.

(** The boxes of one mesh: 32 bytes behind the output for each element. *)
Lemma export_mesh_returns m out :
  fits_int m -> names_own_vertices m -> scalars_cover m ->
  exists out',
    foldM (fun out prim => bb <- getBounds4f m prim ;; Ok (out ++ box4f_to_raw bb))
          (UMesh.createAllPrimRefs m) out = Ok out'
    /\ size out' = size out + 32 * UMesh.size m.
Proof.
  intros Hfit Hown Hcover.
  destruct (foldM_returns (fun _ => True)
              (fun out prim => bb <- getBounds4f m prim ;; Ok (out ++ box4f_to_raw bb))
              (UMesh.createAllPrimRefs m)) with (s := out) as (out' & Hout & _);
    [|exact I|].
  { intros s pr Hin _. unfold getBounds4f.
    pose proof Hown as (Vtri & Vqud & Vtet & Vpyr & Vwdg & Vhex).
    destruct (getBounds_returns m pr Hfit Vtri Vqud Vtet Vpyr Vwdg Vhex Hin) as (b & ->).
    destruct (getValueRange_returns m pr Hfit Hown Hcover Hin) as (r & ->).
    cbn [bind]. eauto. }
  exists out'. split; [exact Hout|].
  apply (foldM_adds (fun o : list byte => length o) _ _ 32%nat) in Hout.
  - unfold size. rewrite Hout, <- (length_createAllPrimRefs m Hfit). lia.
  - intros s pr s' _ H. apply bind_Ok in H as (bb & _ & H). inversion H.
    rewrite length_app, length_box4f_to_raw. reflexivity.
Qed.

(** The boxes of some meshes: 32 bytes behind the output for each element
    of each mesh. *)
Lemma export_meshes_returns inputs out :
  Forall (fun m => fits_int m /\ names_own_vertices m /\ scalars_cover m) inputs ->
  exists out',
    foldM (fun out in_ =>
             foldM (fun out prim =>
                      bb <- getBounds4f in_ prim ;; Ok (out ++ box4f_to_raw bb))
                   (UMesh.createAllPrimRefs in_) out)
          inputs out = Ok out'
    /\ size out' = size out + 32 * total_size inputs.
Proof.
  intros Hin. revert out.
  induction Hin as [|m inputs (Hfit & Hown & Hcover) _ IH]; intros out.
  - exists out. split; [reflexivity|]. unfold total_size. cbn. lia.
  - cbn [foldM].
    destruct (export_mesh_returns m out Hfit Hown Hcover) as (out1 & -> & H1).
    cbn [bind]. destruct (IH out1) as (out2 & H2 & H3).
    exists out2. split; [exact H2|].
    rewrite H3, H1. unfold total_size. cbn [map fold_right]. lia.
Qed.

(** For meshes that carry a scalar per vertex and whose elements name
    vertices of their mesh, [exportBBs] returns, and writes 32 bytes for
    each element of each mesh. *)
Theorem exportBBs_writes_a_box_per_element inputs :
  Forall (fun m => fits_int m /\ names_own_vertices m /\ scalars_cover m) inputs ->
  exists out, exportBBs inputs = Ok out /\ size out = 32 * total_size inputs.
Proof.
  intros Hin. unfold exportBBs.
  destruct (export_meshes_returns inputs [] Hin) as (out & Hout & Hsize).
  exists out. split; [exact Hout|].
  rewrite Hsize. unfold size. cbn [length]. lia.
Qed.

Lemma exportBBs_writes_a_box_per_element_witness :
  Forall (fun m => fits_int m /\ names_own_vertices m /\ scalars_cover m) [mesh_A; mesh_B]
  /\ exportBBs [mesh_A; mesh_B] = Ok bbs_of_A_and_B
  /\ size bbs_of_A_and_B = 32 * 6.
Proof.
  assert (Forall (fun m => fits_int m /\ names_own_vertices m /\ scalars_cover m)
                 [mesh_A; mesh_B]) as Hin.
  { destruct mesh_B_indices_valid as (H1 & H2 & H3 & H4 & H5 & H6 & _).
    constructor; [|constructor; [|constructor]].
    - split; [exact mesh_A_fits_int|]. split; [exact mesh_A_names_own_vertices|].
      right. exact mesh_A_carries_values.
    - split; [unfold fits_int; vm_compute; repeat split; discriminate|].
      split; [repeat split; assumption|]. right. exact mesh_B_carries_values. }
  split; [exact Hin|].
  assert (exportBBs [mesh_A; mesh_B] = Ok bbs_of_A_and_B) as Hrun
      by (vm_compute; reflexivity).
  split; [exact Hrun|].
  destruct (exportBBs_writes_a_box_per_element [mesh_A; mesh_B] Hin) as (out & Hout & Hsize).
  rewrite Hrun in Hout. inversion Hout; subst out. exact Hsize.
Defined.

(** ** exportBBs: meshes without scalars *)

(** A loop that meets a turn with undefined behaviour, all turns before it
    returning, has that undefined behaviour. *)
Lemma foldM_some_undefined {A S} (body : S -> A -> outcome S) l u :
  (forall s a, In a l -> (exists s', body s a = Ok s') \/ body s a = Undefined u) ->
  (exists a, In a l /\ forall s, body s a = Undefined u) ->
  forall s, foldM body l s = Undefined u.
Proof.
  induction l as [|a l IH]; intros Hall (b & Hb & Hund) s; [destruct Hb|].
  cbn [foldM].
  destruct (Hall s a (or_introl eq_refl)) as [(s' & Hs')|Hs']; rewrite Hs'; cbn [bind];
    [|reflexivity].
  destruct Hb as [->|Hb]; [rewrite Hund in Hs'; discriminate|].
  apply IH; [|eauto]. intros s0 a0 Hin. apply Hall. now right.
Qed.

Lemma including_values_null m i idx :
  UMesh.perVertex m = None -> including_values m (i :: idx) = Undefined NullDereference.
Proof.
  intros H. unfold including_values, perVertex_value. cbn [foldM]. rewrite H. reflexivity.
Qed.

(** Without a primary attribute, the box of a grid can be computed, and the
    box of any other element dereferences the empty pointer. *)
Lemma getBounds4f_without_scalars m pr :
  fits_int m -> names_own_vertices m -> UMesh.perVertex m = None ->
  In pr (UMesh.createAllPrimRefs m) ->
  (PrimRef.type pr = GRID -> exists bb, getBounds4f m pr = Ok bb)
  /\ (PrimRef.type pr <> GRID -> getBounds4f m pr = Undefined NullDereference).
Proof.
  intros Hfit Hown Hnone Hin. unfold getBounds4f.
  pose proof Hown as (Vtri & Vqud & Vtet & Vpyr & Vwdg & Vhex).
  destruct (getBounds_returns m pr Hfit Vtri Vqud Vtet Vpyr Vwdg Vhex Hin) as (b & ->).
  cbn [bind].
  destruct Hfit as (Fv & Ftri & Fqud & Ftet & Fpyr & Fwdg & Fhex & Fgrd & Fgsc).
  unfold UMesh.createAllPrimRefs, UMesh.createVolumePrimRefs,
         UMesh.createSurfacePrimRefs in Hin.
  repeat (apply in_app_or in Hin as [Hin|Hin]);
    apply In_primRefsOf in Hin as (k & Hk & ->).
  - destruct (at_primRef_ID (UMesh.tets m) TET k Hk Ftet) as (p & Hp & -> & E).
    unfold getValueRange, getTetValueRange. cbn [PrimRef.type PrimRef.ID].
    rewrite E. cbn [bind]. rewrite including_values_null by exact Hnone.
    split; [discriminate|reflexivity].
  - destruct (at_primRef_ID (UMesh.pyrs m) PYR k Hk Fpyr) as (p & Hp & -> & E).
    unfold getValueRange, getPyrValueRange. cbn [PrimRef.type PrimRef.ID].
    rewrite E. cbn [bind]. rewrite including_values_null by exact Hnone.
    split; [discriminate|reflexivity].
  - destruct (at_primRef_ID (UMesh.wedges m) WEDGE k Hk Fwdg) as (p & Hp & -> & E).
    unfold getValueRange, getWedgeValueRange. cbn [PrimRef.type PrimRef.ID].
    rewrite E. cbn [bind]. rewrite including_values_null by exact Hnone.
    split; [discriminate|reflexivity].
  - destruct (at_primRef_ID (UMesh.hexes m) HEX k Hk Fhex) as (p & Hp & -> & E).
    unfold getValueRange, getHexValueRange. cbn [PrimRef.type PrimRef.ID].
    rewrite E. cbn [bind]. rewrite including_values_null by exact Hnone.
    split; [discriminate|reflexivity].
  - destruct (at_primRef_ID (UMesh.grids m) GRID k Hk Fgrd) as (p & Hp & -> & E).
    unfold getValueRange, UMesh.getGridValueRange. cbn [PrimRef.type PrimRef.ID].
    rewrite E. cbn [bind]. split; [eauto|congruence].
  - destruct (at_primRef_ID (UMesh.triangles m) TRI k Hk Ftri) as (p & Hp & -> & E).
    unfold getValueRange, getTriValueRange. cbn [PrimRef.type PrimRef.ID].
    rewrite E. cbn [bind]. rewrite including_values_null by exact Hnone.
    split; [discriminate|reflexivity].
  - destruct (at_primRef_ID (UMesh.quads m) QUAD k Hk Fqud) as (p & Hp & -> & E).
    unfold getValueRange, getQuadValueRange. cbn [PrimRef.type PrimRef.ID].
    rewrite E. cbn [bind]. rewrite including_values_null by exact Hnone.
    split; [discriminate|reflexivity].
Qed.

Lemma first_primRef {A} kind (v : list A) :
  v <> [] -> In (PrimRef.make kind 0) (UMesh.primRefsOf kind v).
Proof.
  intros Hv. destruct v as [|a v]; [congruence|].
  unfold UMesh.primRefsOf, indices. cbn [length seq map]. now left.
Qed.

(** [exportBBs] needs scalars: a mesh without a primary attribute that
    holds a triangle, quad, tet, pyramid, wedge or hex makes the run
    undefined (the empty [perVertex] pointer is dereferenced), however well
    formed the mesh and the meshes before it are. *)
Theorem exportBBs_needs_scalars good m rest :
  Forall (fun m => fits_int m /\ names_own_vertices m /\ scalars_cover m) good ->
  fits_int m -> names_own_vertices m ->
  UMesh.perVertex m = None -> has_indexed_element m ->
  exportBBs (good ++ m :: rest) = Undefined NullDereference.
Proof.
  intros Hgood Hfit Hown Hnone Helem. unfold exportBBs.
  rewrite foldM_app.
  destruct (export_meshes_returns good [] Hgood) as (out & -> & _).
  cbn [bind foldM].
  rewrite (foldM_some_undefined _ (UMesh.createAllPrimRefs m) NullDereference);
    [reflexivity| |].
  - intros s pr Hin.
    destruct (getBounds4f_without_scalars m pr Hfit Hown Hnone Hin) as [Hgrid Hother].
    destruct (PrimRef.type pr) eqn:Ht;
      try (right; rewrite Hother by discriminate; reflexivity).
    left. destruct (Hgrid eq_refl) as (bb & ->). cbn [bind]. eauto.
  - assert (exists pr, In pr (UMesh.createAllPrimRefs m) /\ PrimRef.type pr <> GRID)
      as (pr & Hin & Ht).
    { unfold UMesh.createAllPrimRefs, UMesh.createVolumePrimRefs,
        UMesh.createSurfacePrimRefs.
      destruct Helem as [H|[H|[H|[H|[H|H]]]]].
      - exists (PrimRef.make TET 0). split; [|discriminate].
        apply in_or_app; left. apply in_or_app; left. apply first_primRef, H.
      - exists (PrimRef.make PYR 0). split; [|discriminate].
        apply in_or_app; left. apply in_or_app; right. apply in_or_app; left.
        apply first_primRef, H.
      - exists (PrimRef.make WEDGE 0). split; [|discriminate].
        apply in_or_app; left. do 2 (apply in_or_app; right). apply in_or_app; left.
        apply first_primRef, H.
      - exists (PrimRef.make HEX 0). split; [|discriminate].
        apply in_or_app; left. do 3 (apply in_or_app; right). apply in_or_app; left.
        apply first_primRef, H.
      - exists (PrimRef.make TRI 0). split; [|discriminate].
        apply in_or_app; right. apply in_or_app; left. apply first_primRef, H.
      - exists (PrimRef.make QUAD 0). split; [|discriminate].
        apply in_or_app; right. apply in_or_app; right. apply first_primRef, H. }
    exists pr. split; [exact Hin|]. intros s.
    destruct (getBounds4f_without_scalars m pr Hfit Hown Hnone Hin) as [_ Hother].
    rewrite (Hother Ht). reflexivity.
Qed.

Lemma exportBBs_needs_scalars_witness :
  UMesh.perVertex mesh_A_bare = None /\ has_indexed_element mesh_A_bare
  /\ exportBBs [mesh_B; mesh_A_bare] = Undefined NullDereference.
Proof.
  assert (Forall (fun m => fits_int m /\ names_own_vertices m /\ scalars_cover m) [mesh_B])
    as Hgood.
  { destruct mesh_B_indices_valid as (H1 & H2 & H3 & H4 & H5 & H6 & _).
    constructor; [|constructor].
    split; [unfold fits_int; vm_compute; repeat split; discriminate|].
    split; [repeat split; assumption|]. right. exact mesh_B_carries_values. }
  assert (has_indexed_element mesh_A_bare) as Helem by (left; discriminate).
  split; [reflexivity|]. split; [exact Helem|].
  exact (exportBBs_needs_scalars [mesh_B] mesh_A_bare [] Hgood mesh_A_fits_int
           mesh_A_names_own_vertices eq_refl Helem).
Defined.
(** ** fun3DExtractVariable: which vertex gets which scalar *)

Lemma requestedVertices_snoc tags t :
  requestedVertices (tags ++ [t])
  = <[t := Z.of_nat (length tags)]> (requestedVertices tags).
Proof.
  unfold requestedVertices, indices.
  rewrite length_app. cbn [length]. rewrite Nat.add_1_r, seq_S, map_app. cbn [map Nat.add].
  rewrite (zip_with_app pair) by (now rewrite length_map, length_seq).
  rewrite fold_left_app. reflexivity.
Qed.

(** The map gives, for a tag, the last vertex that carries it. *)
Lemma requestedVertices_last tags t k :
  requestedVertices tags !! t = Some k
  <-> exists j, k = Z.of_nat j /\ last_with_tag tags t j.
Proof.
  revert k. induction tags as [|t0 tags IH] using rev_ind; intros k.
  - unfold requestedVertices, last_with_tag. cbn. rewrite lookup_empty.
    split; [discriminate|]. intros (j & _ & H & _). discriminate.
  - rewrite requestedVertices_snoc. unfold last_with_tag.
    destruct (decide (t0 = t)) as [->|Hne].
    + rewrite lookup_insert_eq. split.
      * intros [= <-]. exists (length tags). split; [reflexivity|]. split.
        -- rewrite lookup_app_r by lia. now rewrite Nat.sub_diag.
        -- intros j' Hj'. rewrite lookup_ge_None_2; [discriminate|].
           rewrite length_app. cbn. lia.
      * intros (j & -> & Hj & Hlast). f_equal. f_equal.
        destruct (Nat.lt_trichotomy j (length tags)) as [Hlt|[->|Hgt]]; [|reflexivity|].
        -- exfalso. apply (Hlast (length tags) Hlt).
           rewrite lookup_app_r by lia. now rewrite Nat.sub_diag.
        -- rewrite lookup_ge_None_2 in Hj; [discriminate|].
           rewrite length_app. cbn. lia.
    + rewrite lookup_insert_ne by exact Hne. rewrite IH. unfold last_with_tag.
      split; intros (j & -> & Hj & Hlast); exists j; (split; [reflexivity|]).
      * split.
        -- rewrite lookup_app_l; [exact Hj|]. now apply lookup_lt_Some in Hj.
        -- intros j' Hj'. destruct (Nat.lt_ge_cases j' (length tags)) as [Hlt|Hge].
           ++ rewrite lookup_app_l by exact Hlt. now apply Hlast.
           ++ rewrite lookup_app_r by exact Hge.
              destruct (j' - length tags)%nat; cbn; [congruence|discriminate].
      * assert (j < length tags)%nat as Hlt.
        { destruct (Nat.lt_ge_cases j (length tags)) as [Hlt|Hge]; [exact Hlt|].
          rewrite lookup_app_r in Hj by exact Hge.
          destruct (j - length tags)%nat; cbn in Hj; [congruence|discriminate]. }
        split.
        -- now rewrite lookup_app_l in Hj by exact Hlt.
        -- intros j' Hj' Htag. apply (Hlast j' Hj').
           rewrite lookup_app_l; [exact Htag|]. now apply lookup_lt_Some in Htag.
Qed.

Lemma setScalar_Ok m k v m' :
  setScalar m k v = Ok m' ->
  0 <= k < size (primary_values m)
  /\ primary_values m' = <[Z.to_nat k := v]> (primary_values m).
Proof.
  unfold setScalar, primary_values. destruct (UMesh.perVertex m) as [a|]; [|discriminate].
  intros H. apply bind_Ok in H as (values & Hset & H).
  inversion H; subst m'; clear H. cbn [UMesh.set_perVertex UMesh.perVertex Attribute.values].
  unfold set_at in Hset.
  destruct (Z.leb_spec 0 k); cbn [andb] in Hset; [|discriminate].
  destruct (Z.ltb_spec k (size (Attribute.values a))); [|discriminate].
  inversion Hset. split; [lia|reflexivity].
Qed.

Lemma length_scattered requested pairs : forall values,
  length (scattered requested pairs values) = length values.
Proof.
  unfold scattered. induction pairs as [|[tag s] pairs IH]; intros values; [reflexivity|].
  cbn [fold_left]. rewrite IH. destruct (requested !! tag); [apply length_insert|reflexivity].
Qed.

Lemma scattered_app requested p1 p2 values :
  scattered requested (p1 ++ p2) values
  = scattered requested p2 (scattered requested p1 values).
Proof. unfold scattered. apply fold_left_app. Qed.

Lemma indices_S n : indices (S n) = indices n ++ [Z.of_nat n].
Proof. unfold indices. rewrite seq_S, map_app. reflexivity. Qed.

(** The turns of the loop of [extract_rank] for the first [n] scalars. *)
Lemma extract_rank_loop requested ids (scalars : list float) n : forall mesh mesh',
  (n <= length scalars)%nat ->
  foldM (fun mesh i =>
           vertexID <- at_ ids i ;;
           match requested !! vertexID with
           | None => Ok mesh
           | Some ourID => s <- at_ scalars i ;; setScalar mesh ourID s
           end)
        (indices n) mesh = Ok mesh' ->
  (n <= length ids)%nat
  /\ primary_values mesh'
     = scattered requested (zip (take n ids) (take n scalars)) (primary_values mesh)
  /\ targets_inside requested (zip (take n ids) (take n scalars))
                    (length (primary_values mesh)).
Proof.
  induction n as [|n IH]; intros mesh mesh' Hn H.
  - cbn in H. inversion H. split; [lia|]. split; [reflexivity|constructor].
  - rewrite indices_S, foldM_app in H. apply bind_Ok in H as (mesh1 & H1 & H).
    destruct (IH mesh mesh1 ltac:(lia) H1) as (Hids & Hvals & Hin).
    cbn [foldM] in H. apply bind_Ok in H as (mesh2 & H & E). inversion E; subst mesh2.
    apply bind_Ok in H as (vertexID & Hid & H).
    pose proof (at_Ok _ _ _ Hid) as Hrange. unfold size in Hrange.
    unfold at_ in Hid. destruct (Z.ltb_spec (Z.of_nat n) 0); [lia|].
    rewrite Nat2Z.id in Hid.
    destruct (ids !! n) as [id|] eqn:Eid; [|discriminate]. inversion Hid; subst id.
    destruct (lookup_lt_is_Some_2 scalars n ltac:(lia)) as (s & Es).
    split; [lia|].
    rewrite (take_S_r ids n vertexID Eid), (take_S_r scalars n s Es).
    rewrite (zip_with_app pair)
      by (rewrite !length_take; apply lookup_lt_Some in Eid; lia).
    cbn [zip_with].
    rewrite scattered_app, <- Hvals. unfold targets_inside.
    destruct (requested !! vertexID) as [ourID|] eqn:Erq.
    + apply bind_Ok in H as (s' & Hs & H).
      assert (s' = s) as ->.
      { unfold at_ in Hs. destruct (Z.ltb_spec (Z.of_nat n) 0); [lia|].
        rewrite Nat2Z.id, Es in Hs. congruence. }
      apply setScalar_Ok in H as (Hk & Hset).
      split.
      * rewrite Hset. unfold scattered. cbn [fold_left]. rewrite Erq. reflexivity.
      * apply Forall_app. split; [exact Hin|].
        constructor; [|constructor]. cbn [fst]. intros k Hk'.
        rewrite Erq in Hk'. inversion Hk'; subst k.
        unfold size in Hk. rewrite Hvals, length_scattered in Hk. exact Hk.
    + inversion H; subst mesh'. split.
      * unfold scattered. cbn [fold_left]. rewrite Erq. reflexivity.
      * apply Forall_app. split; [exact Hin|].
        constructor; [|constructor]. cbn [fst]. intros k Hk'. congruence.
Qed.

(** [extract_rank] stores the scalars of the rank whose IDs are requested,
    in the order they come, each at the vertex the map gives. *)
Lemma extract_rank_scatters requested ids scalars mesh mesh' :
  extract_rank requested ids scalars mesh = Ok mesh' ->
  primary_values mesh' = scattered requested (zip ids scalars) (primary_values mesh)
  /\ targets_inside requested (zip ids scalars) (length (primary_values mesh)).
Proof.
  unfold extract_rank. intros H. apply bind_Ok in H as (mesh1 & H & E).
  apply bind_Ok in E as (u & _ & E). inversion E; subst mesh1.
  apply extract_rank_loop in H as (Hids & Hvals & Hin); [|lia].
  rewrite firstn_all in Hvals, Hin.
  rewrite (zip_with_take_l' pair) in Hvals, Hin by lia.
  split; assumption.
Qed.

Lemma targets_inside_app requested p1 p2 n :
  targets_inside requested p1 n -> targets_inside requested p2 n ->
  targets_inside requested (p1 ++ p2) n.
Proof. intros H1 H2. apply Forall_app. split; assumption. Qed.

(** A time step stores the scalars of its ranks, rank after rank. *)
Lemma extract_time_step_scatters requested ranks mesh mesh' :
  extract_time_step requested ranks mesh = Ok mesh' ->
  primary_values mesh'
  = scattered requested (tagged_scalars ranks) (primary_values mesh)
  /\ targets_inside requested (tagged_scalars ranks) (length (primary_values mesh)).
Proof.
  unfold extract_time_step. intros H. apply bind_Ok in H as (mesh1 & H & E).
  assert (primary_values mesh1
          = scattered requested (tagged_scalars ranks) (primary_values mesh)
          /\ targets_inside requested (tagged_scalars ranks)
                            (length (primary_values mesh))) as [Hvals Hin].
  { clear E. revert mesh H.
    induction ranks as [|[ids scalars] ranks IH]; intros mesh H.
    - cbn in H. inversion H. split; [reflexivity|constructor].
    - cbn [foldM] in H. apply bind_Ok in H as (mesh2 & H2 & H).
      apply extract_rank_scatters in H2 as (V2 & I2).
      destruct (IH mesh2 H) as (V & I).
      unfold tagged_scalars. cbn [flat_map]. fold (tagged_scalars ranks).
      rewrite scattered_app, <- V2. split; [exact V|].
      apply targets_inside_app; [exact I2|].
      rewrite V2, length_scattered in I. exact I. }
  destruct (UMesh.perVertex mesh1) as [a|] eqn:Ea; [|discriminate].
  inversion E; subst mesh'. split; [|exact Hin].
  rewrite <- Hvals. unfold primary_values.
  cbn [UMesh.set_perVertex UMesh.perVertex Attribute.finalize Attribute.values].
  now rewrite Ea.
Qed.

(** A vertex that no tag leads to keeps its value. *)
Lemma scattered_unchanged requested pairs j : forall values,
  (forall p k, In p pairs -> requested !! fst p = Some k -> Z.to_nat k <> j) ->
  scattered requested pairs values !! j = values !! j.
Proof.
  unfold scattered. induction pairs as [|[tag s] pairs IH]; intros values H; [reflexivity|].
  cbn [fold_left]. rewrite IH by (intros p k Hp; apply H; now right).
  destruct (requested !! tag) as [k|] eqn:Ek; [|reflexivity].
  apply list_lookup_insert_ne. apply (H (tag, s) k); [now left|exact Ek].
Qed.

Lemma scattered_cons requested tag s pairs values :
  scattered requested ((tag, s) :: pairs) values
  = scattered requested pairs
      match requested !! tag with
      | Some j => <[Z.to_nat j := s]> values
      | None => values
      end.
Proof. reflexivity. Qed.

(** A scalar whose tag comes once is found at the vertex of its tag. *)
Lemma scattered_written requested pairs tag s k : forall values,
  NoDup (map fst pairs) ->
  (forall t1 t2 k', requested !! t1 = Some k' -> requested !! t2 = Some k' -> t1 = t2) ->
  targets_inside requested pairs (length values) ->
  In (tag, s) pairs -> requested !! tag = Some k ->
  scattered requested pairs values !! Z.to_nat k = Some s.
Proof.
  induction pairs as [|[tag0 s0] pairs IH]; intros values Hnd Hinj Hins Hin Hk;
    [destruct Hin|].
  cbn [map fst] in Hnd. apply NoDup_cons in Hnd as [Hnotin Hnd].
  unfold targets_inside in Hins. apply Forall_cons in Hins as [Hin0 Hins].
  rewrite scattered_cons.
  destruct Hin as [E|Hin].
  - inversion E; subst tag0 s0. rewrite Hk. cbn [fst] in Hin0.
    pose proof (Hin0 k Hk) as Hrange.
    rewrite scattered_unchanged.
    + apply list_lookup_insert_eq. lia.
    + intros [t1 s1] k1 Hp Hk1 Eq. cbn [fst] in Hk1.
      apply Hnotin. apply list_elem_of_In, in_map_iff.
      exists (t1, s1). split; [|exact Hp]. cbn [fst].
      rewrite List.Forall_forall in Hins. pose proof (Hins (t1, s1) Hp k1 Hk1) as Hr1.
      assert (k1 = k) as -> by lia.
      exact (Hinj _ _ _ Hk1 Hk).
  - apply IH; try assumption.
    unfold targets_inside.
    destruct (requested !! tag0); [rewrite length_insert|]; exact Hins.
Qed.

(** A vertex whose tag is also the tag of a later vertex gets no scalar:
    the map leads from a tag to the last vertex that carries it, so a time
    step leaves the value of an earlier one as it was. *)
Theorem shadowed_vertex_gets_no_scalar vertexTags ranks mesh mesh' t j j' :
  extract_time_step (requestedVertices vertexTags) ranks mesh = Ok mesh' ->
  vertexTags !! j = Some t -> vertexTags !! j' = Some t -> (j < j')%nat ->
  primary_values mesh' !! j = primary_values mesh !! j.
Proof.
  intros H Hj Hj' Hlt.
  apply extract_time_step_scatters in H as [-> _].
  apply scattered_unchanged. intros [tag s] k _ Hk Ek. cbn [fst] in Hk.
  apply requestedVertices_last in Hk as (i & -> & Hi & Hlast).
  rewrite Nat2Z.id in Ek. subst i.
  assert (tag = t) as -> by congruence.
  exact (Hlast j' Hlt Hj').
Qed.

(** When the global vertex IDs of a time step are all different, every
    scalar whose ID is the tag of a vertex is stored at the last vertex
    that carries this tag. *)
Theorem last_tagged_vertex_gets_its_scalar vertexTags ranks mesh mesh' t s j :
  extract_time_step (requestedVertices vertexTags) ranks mesh = Ok mesh' ->
  NoDup (map fst (tagged_scalars ranks)) ->
  In (t, s) (tagged_scalars ranks) -> last_with_tag vertexTags t j ->
  primary_values mesh' !! j = Some s.
Proof.
  intros H Hnd Hin Hlast.
  apply extract_time_step_scatters in H as [-> Hins].
  assert (requestedVertices vertexTags !! t = Some (Z.of_nat j)) as Hk
      by (apply requestedVertices_last; eauto).
  rewrite <- (Nat2Z.id j).
  apply (scattered_written _ _ t s); try assumption.
  intros t1 t2 k H1 H2.
  apply requestedVertices_last in H1 as (i1 & -> & Hi1 & _).
  apply requestedVertices_last in H2 as (i2 & E & Hi2 & _).
  apply Nat2Z.inj in E. subst i2. congruence.
Qed.

Lemma three_tags_scattered :
  extract_time_step (requestedVertices tags_5_7_5) rank_5_7 mesh_three_zeros
  = Ok mesh_three_scattered.
Proof. vm_compute. reflexivity. Qed.

Lemma shadowed_vertex_gets_no_scalar_witness :
  extract_time_step (requestedVertices tags_5_7_5) rank_5_7 mesh_three_zeros
  = Ok mesh_three_scattered
  /\ primary_values mesh_three_scattered !! 0%nat = Some F32.zero
  /\ primary_values mesh_three_scattered !! 2%nat = Some (F32.of_Z 10).
Proof.
  split; [exact three_tags_scattered|]. split; [|vm_compute; reflexivity].
  rewrite (shadowed_vertex_gets_no_scalar tags_5_7_5 rank_5_7 mesh_three_zeros
             mesh_three_scattered 5 0 2 three_tags_scattered eq_refl eq_refl
             ltac:(repeat constructor)).
  reflexivity.
Defined.

Lemma last_tagged_vertex_gets_its_scalar_witness :
  NoDup (map fst (tagged_scalars rank_5_7))
  /\ In (5, F32.of_Z 10) (tagged_scalars rank_5_7)
  /\ last_with_tag tags_5_7_5 5 2
  /\ primary_values mesh_three_scattered !! 2%nat = Some (F32.of_Z 10).
Proof.
  assert (NoDup (map fst (tagged_scalars rank_5_7))) as Hnd.
  { cbn. apply NoDup_cons. split; [|apply NoDup_singleton].
    intros H. apply list_elem_of_In in H. destruct H as [H|[]]. discriminate. }
  assert (In (5, F32.of_Z 10) (tagged_scalars rank_5_7)) as Hin by (left; reflexivity).
  assert (last_with_tag tags_5_7_5 5 2) as Hlast.
  { split; [reflexivity|]. intros j' Hj'.
    do 3 (destruct j' as [|j']; [lia|]). discriminate. }
  split; [exact Hnd|]. split; [exact Hin|]. split; [exact Hlast|].
  exact (last_tagged_vertex_gets_its_scalar tags_5_7_5 rank_5_7 mesh_three_zeros
           mesh_three_scattered 5 (F32.of_Z 10) 2 three_tags_scattered Hnd Hin Hlast).
Defined.
(** ** rawToGrids: the scalars of a grid are the samples of its brick *)

Lemma at_lookup {A} (v : list A) i a : at_ v i = Ok a -> v !! Z.to_nat i = Some a.
Proof.
  unfold at_. destruct (i <? 0); [discriminate|].
  destruct (v !! Z.to_nat i); [congruence|discriminate].
Qed.

(** The rows of a table of equal-length rows, one behind the other. *)
Lemma lookup_flat_map_rows {A B} (f : A -> list B) (n : nat) (ys : list A) :
  (forall y, length (f y) = n) ->
  forall a b y, (a < n)%nat -> ys !! b = Some y ->
  flat_map f ys !! (a + n * b)%nat = f y !! a.
Proof.
  intros Hrow. induction ys as [|y0 ys IH]; intros a b y Ha Hb; [discriminate|].
  cbn [flat_map]. destruct b as [|b].
  - cbn in Hb. inversion Hb; subst y0.
    rewrite Nat.mul_0_r, Nat.add_0_r. apply lookup_app_l. rewrite Hrow. exact Ha.
  - cbn in Hb. rewrite lookup_app_r by (rewrite Hrow; nia).
    rewrite Hrow. replace (a + n * S b - n)%nat with (a + n * b)%nat by nia.
    apply IH; assumption.
Qed.

Lemma length_flat_map_rows {A B} (f : A -> list B) (n : nat) (ys : list A) :
  (forall y, length (f y) = n) -> length (flat_map f ys) = (n * length ys)%nat.
Proof.
  intros Hrow. induction ys as [|y ys IH]; cbn [flat_map length]; [lia|].
  rewrite length_app, Hrow, IH. lia.
Qed.

Lemma lookup_int_range lo hi a :
  0 <= a <= hi - lo -> int_range lo hi !! Z.to_nat a = Some (lo + a).
Proof.
  intros Ha. unfold int_range. rewrite list_lookup_fmap.
  rewrite lookup_seq_lt by lia. cbn. f_equal. lia.
Qed.

Lemma lookup_lattice lo_x hi_x lo_y hi_y lo_z hi_z a b c :
  0 <= a <= hi_x - lo_x -> 0 <= b <= hi_y - lo_y -> 0 <= c <= hi_z - lo_z ->
  lattice (int_range lo_x hi_x) (int_range lo_y hi_y) (int_range lo_z hi_z)
    !! Z.to_nat (a + (hi_x - lo_x + 1) * (b + (hi_y - lo_y + 1) * c))
  = Some (lo_x + a, lo_y + b, lo_z + c).
Proof.
  intros Ha Hb Hc. unfold lattice.
  set (nx := Z.to_nat (hi_x - lo_x + 1)). set (ny := Z.to_nat (hi_y - lo_y + 1)).
  assert (length (int_range lo_x hi_x) = nx) as Lx
      by (unfold int_range; now rewrite length_map, length_seq).
  assert (length (int_range lo_y hi_y) = ny) as Ly
      by (unfold int_range; now rewrite length_map, length_seq).
  replace (Z.to_nat (a + (hi_x - lo_x + 1) * (b + (hi_y - lo_y + 1) * c)))
    with ((Z.to_nat a + nx * Z.to_nat b) + (nx * ny) * Z.to_nat c)%nat.
  2:{ assert (0 <= (hi_y - lo_y + 1) * c) by (apply Z.mul_nonneg_nonneg; lia).
      assert (0 <= (hi_x - lo_x + 1) * (b + (hi_y - lo_y + 1) * c))
        by (apply Z.mul_nonneg_nonneg; lia).
      apply Nat2Z.inj. rewrite Z2Nat.id by lia.
      rewrite !Nat2Z.inj_add, !Nat2Z.inj_mul. unfold nx, ny.
      rewrite !Z2Nat.id by lia. ring. }
  assert (forall z : Z,
            length (flat_map (fun y : Z => map (fun x : Z => (x, y, z)) (int_range lo_x hi_x))
                             (int_range lo_y hi_y)) = (nx * ny)%nat) as Hslab.
  { intros z. rewrite (length_flat_map_rows _ nx) by (intros y; now rewrite length_map).
    rewrite Ly. reflexivity. }
  assert (Z.to_nat a < nx)%nat as Ia by (unfold nx; lia).
  assert (Z.to_nat b < ny)%nat as Ib by (unfold ny; lia).
  rewrite (lookup_flat_map_rows _ (nx * ny)%nat (int_range lo_z hi_z) Hslab
             (Z.to_nat a + nx * Z.to_nat b)%nat (Z.to_nat c) (lo_z + c));
    [|nia|apply lookup_int_range; exact Hc].
  rewrite (lookup_flat_map_rows
             (fun y : Z => map (fun x : Z => (x, y, lo_z + c)) (int_range lo_x hi_x))
             nx (int_range lo_y hi_y) (fun y => eq_trans (length_map _ _) Lx)
             (Z.to_nat a) (Z.to_nat b) (lo_y + b) Ia (lookup_int_range _ _ _ Hb)).
  rewrite list_lookup_fmap, lookup_int_range by exact Ha. reflexivity.
Qed.

(** What the three inner loops push: the samples at the lattice points, in
    the order of the loops. *)
Lemma push_loops_content dims (scalars : list float) xs ys zs : forall s s',
  foldM (fun s iiz =>
    foldM (fun s iiy =>
      foldM (fun '(gridScalars, r) iix =>
               scalar <- at_ scalars (sample_index dims iix iiy iiz) ;;
               Ok (gridScalars ++ [scalar],
                   if negb (F32.is_nan scalar) then range1f_extend r scalar else r))
            xs s)
      ys s)
    zs s = Ok s' ->
  exists vals,
    fst s' = fst s ++ vals
    /\ Forall2 (fun '(x, y, z) v => scalars !! Z.to_nat (sample_index dims x y z) = Some v)
               (lattice xs ys zs) vals.
Proof.
  assert (forall y z s s',
            foldM (fun '(gridScalars, r) iix =>
                     scalar <- at_ scalars (sample_index dims iix y z) ;;
                     Ok (gridScalars ++ [scalar],
                         if negb (F32.is_nan scalar) then range1f_extend r scalar else r))
                  xs s = Ok s' ->
            exists vals,
              fst s' = fst s ++ vals
              /\ Forall2 (fun '(x, y, z) v =>
                            scalars !! Z.to_nat (sample_index dims x y z) = Some v)
                         (map (fun x => (x, y, z)) xs) vals) as Hrow.
  { intros y z. induction xs as [|x xs IH]; intros [gs r] s' H.
    - cbn in H. inversion H. exists []. split; [now rewrite app_nil_r|constructor].
    - cbn [foldM] in H. apply bind_Ok in H as (s1 & H1 & H).
      apply bind_Ok in H1 as (scalar & Hat & H1). inversion H1; subst s1.
      apply IH in H as (vals & E & F). cbn [fst] in E.
      exists (scalar :: vals). split; [rewrite E, <- app_assoc; reflexivity|].
      cbn [map]. constructor; [apply at_lookup; exact Hat|exact F]. }
  assert (forall z s s',
            foldM (fun s iiy =>
                     foldM (fun '(gridScalars, r) iix =>
                              scalar <- at_ scalars (sample_index dims iix iiy z) ;;
                              Ok (gridScalars ++ [scalar],
                                  if negb (F32.is_nan scalar) then range1f_extend r scalar
                                  else r))
                           xs s)
                  ys s = Ok s' ->
            exists vals,
              fst s' = fst s ++ vals
              /\ Forall2 (fun '(x, y, z) v =>
                            scalars !! Z.to_nat (sample_index dims x y z) = Some v)
                         (flat_map (fun y => map (fun x => (x, y, z)) xs) ys) vals) as Hslab.
  { intros z. induction ys as [|y ys IH]; intros s s' H.
    - cbn in H. inversion H. exists []. split; [now rewrite app_nil_r|constructor].
    - cbn [foldM] in H. apply bind_Ok in H as (s1 & H1 & H).
      apply Hrow in H1 as (v1 & E1 & F1). apply IH in H as (v2 & E2 & F2).
      exists (v1 ++ v2). split; [rewrite E2, E1, <- app_assoc; reflexivity|].
      cbn [flat_map]. apply Forall2_app; assumption. }
  unfold lattice. induction zs as [|z zs IH]; intros s s' H.
  - cbn in H. inversion H. exists []. split; [now rewrite app_nil_r|constructor].
  - cbn [foldM] in H. apply bind_Ok in H as (s1 & H1 & H).
    apply Hslab in H1 as (v1 & E1 & F1). apply IH in H as (v2 & E2 & F2).
    exists (v1 ++ v2). split; [rewrite E2, E1, <- app_assoc; reflexivity|].
    cbn [flat_map]. apply Forall2_app; assumption.
Qed.

(** One turn of the three outer loops: the grid pushed is the brick that
    starts at the loop variables, and its scalars are the samples of that
    brick. *)
Lemma rawToGrids_brick_content dims scalars ix iy iz mesh mesh' :
  0 <= ix < V3.x dims - 1 -> 0 <= iy < V3.y dims - 1 -> 0 <= iz < V3.z dims - 1 ->
  rawToGrids_brick dims scalars ix iy iz mesh = Ok mesh' ->
  exists g vals,
    UMesh.grids mesh' = UMesh.grids mesh ++ [g]
    /\ UMesh.gridScalars mesh' = UMesh.gridScalars mesh ++ vals
    /\ brick_at g ix iy iz
    /\ samples_of_brick dims scalars (UMesh.gridScalars mesh')
                        (size (UMesh.gridScalars mesh)) g ix iy iz.
Proof.
  intros Hx Hy Hz H. unfold rawToGrids_brick in H.
  apply bind_Ok in H as (ix7 & Hix7 & H). apply bind_Ok in H as (dx & Hdx & H).
  apply bind_Ok in H as (iy7 & Hiy7 & H). apply bind_Ok in H as (dy & Hdy & H).
  apply bind_Ok in H as (iz7 & Hiz7 & H). apply bind_Ok in H as (dz & Hdz & H).
  apply bind_Ok in H as ([gs r] & Hpush & H).
  apply int_add_Ok in Hix7, Hdx, Hiy7, Hdy, Hiz7, Hdz.
  unfold brickSize in *.
  set (ex := Z.min ix7 dx) in *. set (ey := Z.min iy7 dy) in *.
  set (ez := Z.min iz7 dz) in *.
  assert (1 <= ex - ix <= 7) as Bx by (unfold ex; lia).
  assert (1 <= ey - iy <= 7) as By by (unfold ey; lia).
  assert (1 <= ez - iz <= 7) as Bz by (unfold ez; lia).
  apply push_loops_content in Hpush as (vals & Evals & Fvals). cbn [fst] in Evals.
  inversion H; subst mesh'; clear H. cbn [snd fst] in *.
  eexists. exists vals.
  cbn [UMesh.set_grids UMesh.set_gridScalars UMesh.grids UMesh.gridScalars].
  split; [reflexivity|]. split; [exact Evals|]. split.
  - unfold brick_at. cbn [Grid.domain Grid.numCells Box.lower Box.upper
                          V4.x V4.y V4.z V3.x V3.y V3.z].
    replace (ix + (ex - ix)) with ex by lia. replace (iy + (ey - iy)) with ey by lia.
    replace (iz + (ez - iz)) with ez by lia. repeat split; reflexivity.
  - unfold samples_of_brick. cbn [Grid.numCells V3.x V3.y V3.z]. intros a b c Ha Hb Hc.
    pose proof (lookup_lattice ix ex iy ey iz ez a b c Ha Hb Hc) as Hl.
    destruct (Forall2_lookup_l _ _ _ _ _ Fvals Hl) as (v & Hv & Hs).
    exists v. split; [exact Hs|].
    rewrite Evals.
    assert (0 <= (ey - iy + 1) * c) by (apply Z.mul_nonneg_nonneg; lia).
    assert (0 <= (ex - ix + 1) * (b + (ey - iy + 1) * c))
      by (apply Z.mul_nonneg_nonneg; lia).
    unfold size. rewrite Z2Nat.inj_add by lia. rewrite Nat2Z.id.
    rewrite lookup_app_r by lia.
    replace (length (UMesh.gridScalars mesh)
             + Z.to_nat (a + (ex - ix + 1) * (b + (ey - iy + 1) * c))
             - length (UMesh.gridScalars mesh))%nat
      with (Z.to_nat (a + (ex - ix + 1) * (b + (ey - iy + 1) * c))) by lia.
    exact Hv.
Qed.

(** Scalars pushed behind the array leave the samples of the grids where
    they are. *)
Lemma grids_hold_samples_app dims scalars gs vals grids : forall off,
  grids_hold_samples dims scalars gs off grids ->
  grids_hold_samples dims scalars (gs ++ vals) off grids.
Proof.
  induction grids as [|g grids IH]; intros off H; [exact I|].
  cbn [grids_hold_samples] in *.
  destruct H as ((ix & iy & iz & Hat & Hs) & k & Hk & H). split.
  - exists ix, iy, iz. split; [exact Hat|]. intros a b c Ha Hb Hc.
    destruct (Hs a b c Ha Hb Hc) as (v & Hv & Hg). exists v. split; [exact Hv|].
    rewrite lookup_app_l; [exact Hg|]. now apply lookup_lt_Some in Hg.
  - exists k. split; [exact Hk|]. apply IH. exact H.
Qed.

Lemma grids_hold_samples_snoc dims scalars gs grids g k ix iy iz : forall off total,
  laid_out off grids total -> grids_hold_samples dims scalars gs off grids ->
  numScalars g = Ok k -> brick_at g ix iy iz ->
  samples_of_brick dims scalars gs total g ix iy iz ->
  grids_hold_samples dims scalars gs off (grids ++ [g]).
Proof.
  induction grids as [|g0 grids IH]; intros off total Hlay H Hk Hat Hs;
    cbn [laid_out grids_hold_samples app] in *.
  - subst total. split; [exists ix, iy, iz; split; assumption|].
    exists k. split; [exact Hk|exact I].
  - destruct Hlay as (_ & k0 & Hk0 & Hlay). destruct H as (H0 & k0' & Hk0' & H).
    assert (k0' = k0) as -> by congruence.
    split; [exact H0|]. exists k0. split; [exact Hk0|].
    eapply IH; eassumption.
Qed.

(** In the mesh [rawToGrids] builds, the scalars of every grid, which lie
    behind those of the grids before it, are the samples of the volume at
    the lattice points of a brick: the brick whose corners are the corners
    of the grid's domain, with x running fastest, then y, then z. *)
Theorem rawToGrids_grids_hold_samples T dims raw scalars mesh :
  rawToGrids_scalars T dims raw = Ok scalars ->
  rawToGrids_grids T dims raw = Ok mesh ->
  grids_hold_samples dims scalars (UMesh.gridScalars mesh) 0 (UMesh.grids mesh).
Proof.
  intros Hscalars H. unfold rawToGrids_grids in H. rewrite Hscalars in H. cbn [bind] in H.
  apply bind_Ok in H as (dz & Hdz & H). apply int_add_Ok in Hdz as [-> _].
  apply for_bricks_Ok in H.
  set (P := fun m : UMesh.t =>
              laid_out 0 (UMesh.grids m) (size (UMesh.gridScalars m))
              /\ grids_hold_samples dims scalars (UMesh.gridScalars m) 0 (UMesh.grids m)).
  enough (P mesh) as [_ HP] by exact HP.
  refine (foldM_invariant P _ _ _ _ _ _ H).
  2:{ unfold P. cbn. split; [reflexivity|exact I]. }
  clear H. intros m0 iz m1 Hiz P0 H. apply In_brick_starts in Hiz.
  apply bind_Ok in H as (dy & Hdy & H). apply int_add_Ok in Hdy as [-> _].
  apply for_bricks_Ok in H.
  refine (foldM_invariant P _ _ _ _ _ P0 H).
  clear H P0 m0 m1. intros m0 iy m1 Hiy P0 H. apply In_brick_starts in Hiy.
  apply bind_Ok in H as (dx & Hdx & H). apply int_add_Ok in Hdx as [-> _].
  apply for_bricks_Ok in H.
  refine (foldM_invariant P _ _ _ _ _ P0 H).
  clear H P0 m0 m1. intros m0 ix m1 Hix (Hlay & Hold) H.
  apply In_brick_starts in Hix.
  pose proof H as H'.
  apply rawToGrids_brick_pushes in H as (g & k & _ & Hg & Hs & Hoff & Hk & _); try lia.
  apply rawToGrids_brick_content in H' as (g' & vals & Hg' & Hvals & Hat & Hsamples);
    try lia.
  assert (g' = g) as ->.
  { rewrite Hg in Hg'. apply app_inj_tail in Hg' as [_ E]. congruence. }
  unfold P. rewrite Hg, Hs. split; [apply laid_out_snoc; assumption|].
  apply (grids_hold_samples_snoc _ _ _ _ g k ix iy iz 0 (size (UMesh.gridScalars m0)));
    try assumption.
  rewrite Hvals. apply grids_hold_samples_app. exact Hold.
Qed.

Lemma rawToGrids_grids_hold_samples_witness :
  rawToGrids_grids UINT8 (V3.mk 9 2 2) volume_9_2_2 = Ok grids_9_2_2
  /\ exists scalars,
      rawToGrids_scalars UINT8 (V3.mk 9 2 2) volume_9_2_2 = Ok scalars
      /\ grids_hold_samples (V3.mk 9 2 2) scalars (UMesh.gridScalars grids_9_2_2) 0
                            (UMesh.grids grids_9_2_2).
Proof.
  assert (rawToGrids_grids UINT8 (V3.mk 9 2 2) volume_9_2_2 = Ok grids_9_2_2) as H
      by (vm_compute; reflexivity).
  split; [exact H|].
  destruct (rawToGrids_scalars UINT8 (V3.mk 9 2 2) volume_9_2_2) as [scalars| |] eqn:E;
    [|vm_compute in E; discriminate|vm_compute in E; discriminate].
  exists scalars. split; [reflexivity|].
  exact (rawToGrids_grids_hold_samples UINT8 _ _ _ _ E H).
Defined.
